(* ===== verification/_CoqProject ===== *)
-Q . S2P
Prelude.v
Machine.v
Crypto.v
Config.v
Messages.v
Leader.v
Aggregator.v
Timer.v
Store.v
Sync.v
Mempool.v
SyncLoop.v
BlockSync.v
Network.v
Core.v
Handlers.v
Node.v
FuelFacts.v
Fixture.v
MempoolFacts.v
SyncLoopFacts.v
NetworkFacts.v
CommitFacts.v
BlockSyncFacts.v
ConfigFacts.v
TimerFacts.v
StoreFacts.v
MessageFacts.v
Types.v
TypeFacts.v
Text.v
TypeSteps.v
Spec.v
Refine.v
Walk.v
Cluster.v
CoreFacts.v
Safety.v
LeaderFacts.v
Agreement.v
Availability.v
AggregatorFacts.v
Chain.v
ChainInv.v
ChainAgreement.v
PlainFacts.v
ChainEnds.v
ChainLive.v
HappyPath.v
Growth.v
NodeFacts.v
ClientFacts.v
Deviations.v
Injections.v
Crashes.v
TwoPaths.v
Elections.v
ForgedHalt.v
StaleTimer.v
Witnesses.v
AvailableRun.v
ChainWitness.v
