(* ===== verification/Prelude.v ===== *)
(** * Verification of the Ipotane consensus node

    Ipotane is a BFT consensus node.  An optimistic path (two-chain HotStuff) commits
    one block per height; an optional fallback path, started with the optimistic one,
    builds a short chain of its own for each height and decides by an asynchronous
    agreement (SMVBA) whether the fallback or the optimistic proposal of the height
    is taken.  This library translates the Rust crates under [src/] into executable
    definitions and proves what they promise.

    ** The program and its parts

    A process runs tasks that talk over channels.
    - The consensus core ([consensus/src/core.rs]) owns the protocol state.  Its loop
      takes a message, a loop-back or the timer, runs one handler, and puts what is to
      be sent into the network filter's channel.
    - The consensus synchronizer ([consensus/src/synchronizer.rs]) keeps blocks whose
      parent is missing, asks peers for the parent and loops the block back.
    - The mempool ([mempool/src]) makes payloads of the clients' transactions, hands
      their digests to the core's proposals, and says whether the payloads of a
      received block are stored; its synchronizer waits for those that are not.
    - The store ([store/src/lib.rs]) is the task in front of RocksDB.
    - Filter, sender and receiver ([consensus/src/filter.rs], [network/src/lib.rs])
      take messages to the peers and back.
    - The node ([node/src]) reads the configuration, wires the tasks, and deploys a
      testbed and a client.

    ** The files, in order, and the code they model

    Machine arithmetic and data:
    - [Machine]: unsigned integers of Rust as [Z], release-profile wrap-around
      written [+64], [-64], [+32], [-32], [*32]; byte encodings; order of byte arrays.
    - [Crypto] ([crypto/src/lib.rs]): digests, keys, base64, signatures and the
      signature service, over the class [CryptoLib] of third-party operations.
    - [Config] ([consensus/src/config.rs], [error.rs]): [Committee], [Parameters],
      [quorum_threshold], [random_coin_threshold], addresses, [ConsensusError].
    - [Messages] ([consensus/src/messages.rs]): a [Module] per struct ([QC], [Block],
      [HVote], [PrePare], [SPBVote], [SPBValue], [SPBProof], [RandomnessShare],
      [MDone], [MPreVote], [MVote], [MHalt], ...) with [new], [preimage], [digest]
      and [verify].
    Components of consensus:
    - [Leader] ([leader.rs]), [Aggregator] ([aggregator.rs]), [Timer] ([timer.rs]).
    - [Sync]: the calls the core makes to the store, to the mempool ([mempool.rs])
      and to its synchronizer.
    - [Core] ([core.rs]): the [Core] record with the fields of the struct, [Core_new],
      [epoch_init], the clean-ups, [commit], [advance_height]; the monad [M] of the
      methods, which read and write the core and return an [outcome].
    - [Handlers] ([core.rs]): one definition per handler, [dispatch] for the two
      message channels, [node_event] for one turn of the [select!] (message, timer,
      write by another task), [run_boot] and [next_epoch] for [run] and [run_epoch].
      [start] is the boot of a fresh core.
    - [BlockSync]: the synchronizer's task.
    The other tasks: [Store], [Mempool], [SyncLoop] (synchronizer of the mempool),
    [Network] (filter, sender, accept loops of receiver and front), [Node].
    The two cores of a node hold clones of one handle to the store.  In each model the
    writes of the other are events ([Handlers.ForeignWrite], [Mempool.MForeignWrite]);
    [Node.consensus_input] and [Node.mempool_input] are the steps of the whole node,
    and [NodeFacts.store_is_shared] shows that they keep the two views equal and that
    each core sees the other's writes as such events.
    [Text]: the [Display], [Debug], [Serialize] and [Deserialize] of keys and messages.

    ** How the code is represented

    A [Result] is an [outcome]: [Ok], [Err], or [Panic] for an [unwrap], [expect] or
    index that fails; every failing branch of the code is kept.  [HashMap] and
    [BTreeMap] are [gmap], [HashSet] is [gset]; where the code iterates over a
    [HashMap] the order is a parameter or is shown not to matter.  Where a [HashSet]'s
    capacity or order is observable (the queues of the mempool), the set is the log of
    the operations that made it, and both are parameters of that log.  A sending end of a
    channel is the list of what was sent, kept in the state, so a handler's messages
    are part of its result.  A [select!] is a choice of events: the theorems hold for
    every order.  The clock is a field that events move.

    Recursion.  The handlers of the core call themselves through [#[async_recursion]];
    the boxed calls are the constructors of [rcall], and [exec n] runs them to depth
    [n]; [NoFuel] marks a deeper one.  The depth never changes a result that is not
    [NoFuel] ([FuelFacts]), and in the optimistic deployment twice the number of open
    certificate makers plus four is enough ([ChainLive]).  The loop of [commit] has as
    fuel the size of the store plus two: more blocks than it could visit without
    repeating one ([CommitFacts], [ChainLive]).

    ** What is proved

    One node, in any deployment (for [Refine] and [Safety], and what builds on them, the
    block of an [HsLoopBack] is of the node's current epoch, and the epoch is below
    [2^64 - 1]):
    - [Types], [TypeFacts], [TypeSteps]: values of the state stay in their Rust types.
    - [Spec], [Refine], [Safety]: the node refines an abstract node that votes,
      locks and commits; it votes at most once for a height on the optimistic path,
      and committed heights strictly increase.  The judgements [quiet] and [safe] of
      [Refine] carry these proofs over the handlers.
    - [CoreFacts], [HappyPath], [CommitFacts], [MessageFacts], [AggregatorFacts],
      [LeaderFacts], [ConfigFacts], [TimerFacts], [FuelFacts]: the functional
      behaviour of the parts: guards, epoch change, what a proposal and a quorum of
      votes make the node do, walks along the chain, which messages verify,
      certificates, leaders, thresholds.
    - [Walk]: one walk over the handlers for the properties of what a node collects,
      signs and asks of its mempool; [Elections] and [Availability] are its clients.
    - [Elections]: the coins, finished values and pre-votes of the fallback path are
      backed by verified evidence, so nodes agree on the leaders of their coins, and a
      halt has no effect unless its block is by an elected leader.
    - [Text]: the lines of the log do not panic; keys in files are read as written.
    Several nodes of the optimistic deployment ([Protocol::HotStuff]):
    - [Agreement]: certificates of one epoch and height are for one block.
    - [Availability]: an honest member votes only for blocks whose payloads its mempool
      has, so the payloads of certified blocks are stored with honest members.  The core's side is proved
      against the class [PayloadService]; [with_mempool] joins core and mempool, with
      what peers and tasks do between two requests as a parameter.
    - [Chain], [ChainInv]: whatever a node builds on, votes for or commits is backed
      by certificates; [ChainAgreement]: hence the nodes commit the same blocks, on
      one chain.
    - [PlainFacts], [ChainEnds], [ChainLive]: every event is handled to the end.
    - [Crashes]: the two events of the optimistic path that kill a node's core;
      [StaleTimer]: a run in which a node that follows the protocol is killed by its
      own timer.
    - [HappyPath], [Growth]: without faults the chain grows: from the boot of a
      committee in which no member is a quorum, messages in flight can be delivered
      such that all members commit the same blocks up to any height.
    - [Injections]: what the conditions of these theorems keep out, and the code does
      not: loop-backs and agreement messages of peers, which break agreement, make a
      member vote twice and crash its core; and transactions of a client, which make a
      member sign a block.
    Other deployments:
    - [TwoPaths]: with both paths on, agreement fails: a run with one deviating
      member of four that commits two different blocks of one height.
    - [ForgedHalt]: with the fallback path alone it fails, too: the elected member
      proves any value finished with its own vote.
    The other tasks: [BlockSyncFacts], [SyncLoopFacts] (loop-backs, requests, waiters),
    [MempoolFacts], [StoreFacts] (refinement of a map with waiting reads),
    [NetworkFacts] (what the peers and the accept loops get), [NodeFacts], [ClientFacts].
    [Deviations]: where the code departs from its comments.
    [Fixture], [Cluster], [Witnesses], [AvailableRun], [ChainWitness]: a concrete instance of the
    third-party code, a committee of four and a simulator; every theorem with
    hypotheses is applied to states these nodes reach.

    ** Hypotheses

    Third-party code is never defined, only a parameter: SHA-512, ed25519-dalek,
    threshold_crypto and base64 ([CryptoLib]); bincode and the answers of the mempool
    ([NodeEnv]); serde_json ([Json]); the wire codec ([MessageCodec]); iteration order
    and allocation of hash sets ([MempoolEnv]).  Their laws are classes of their own
    ([DalekSign], [DalekBatch], [ThresholdUnique], [Base64Laws], [BincodeLaws],
    [HashLaws], ...), named in the theorems that need them; [Fixture] and [Types] give
    an instance of each.
    The theorems about several nodes assume in addition:
    - a committee whose sums do not wrap ([wf_committee]), of total stake [3 f + 1],
      with at most [f] outside the protocol (for other totals the code's quorums need
      not overlap: [ConfigFacts.disjoint_quorums]);
    - no forgery: a verified vote that names an honest member has the bytes of a
      message this member has signed; no two different blocks among those observed
      share a digest (collision-freeness of the hash is not assumed in general);
    - for the chain: nothing comes over the agreement's channel (the deployment leaves
      it open, [NodeFacts.node_boots], so this is a condition on the peers); an
      [HsLoopBack] is of a block the node itself has handed to its synchronizer (as
      [BlockSyncFacts] proves of the synchronizer's own) and of its current epoch, so
      none comes from a peer; writes of other tasks to the store are not blocks; for termination, no block has the digest of genesis and
      no member is a quorum alone;
    - for availability: what is looped back to the core is a block of the current epoch
      whose payloads the mempool has, as [SyncLoopFacts] proves of the mempool's own
      synchronizer;
    - for growth: every stake is positive and below the quorum, the window is between 1
      and the committee's size, databases answer, mempools accept ([Obliging]), services
      sign, and a
      digest that two signed blocks of different heights share is the other outcome;
    - what is received consists of values of the Rust types, as bincode decodes no
      others.

    ** What is not modelled

    Waiting for room in a bounded channel, and the fairness of the scheduler: the
    theorems speak of what the events do, not of when they occur.  The command line,
    when lines of the log are written (their text is), and key generation, which is
    randomness and curve arithmetic of libraries.
    [store/src/default_db.rs] (no crate declares it) and the Python scripts.
    Of the asynchronous agreement every handler is modelled and refines the abstract
    node; its agreement does not hold ([ForgedHalt]) and its termination is not
    proved. *)

From stdpp Require Export base option list gmap sets strings sorting.
From Stdlib Require Export ZArith Lia.

#[global] Open Scope Z_scope.

(** ** Outcomes of Rust code

    [Ok] and [Err] are the two constructors of [Result]; [Panic] is an
    [unwrap]/[expect]/index/[panic!] that aborts the task; [NoFuel] marks a
    computation cut by the fuel bound of the model. *)

Inductive outcome (E A : Type) : Type :=
| Ok (a : A)
| Err (e : E)
| Panic (why : string)
| NoFuel.
Arguments Ok {E A} a.
Arguments Err {E A} e.
Arguments Panic {E A} why.
Arguments NoFuel {E A}.

#[global] Instance outcome_ret (E : Type) : MRet (outcome E) := fun A a => Ok a.
#[global] Instance outcome_bind (E : Type) : MBind (outcome E) :=
  fun A B f m =>
    match m with
    | Ok a => f a
    | Err e => Err e
    | Panic w => Panic w
    | NoFuel => NoFuel
    end.

#[global] Instance outcome_fmap (E : Type) : FMap (outcome E) :=
  fun A B f m => m ≫= fun a => Ok (f a).

Definition is_ok {E A} (m : outcome E A) : bool :=
  match m with Ok _ => true | _ => false end.

Definition is_panic {E A} (m : outcome E A) : bool :=
  match m with Panic _ => true | _ => false end.

(** [map_err]: also what [?] does through [From]. *)
Definition map_err {E F A} (f : E -> F) (m : outcome E A) : outcome F A :=
  match m with
  | Ok a => Ok a
  | Err e => Err (f e)
  | Panic w => Panic w
  | NoFuel => NoFuel
  end.

(** The [ensure!] macro on a pure result. *)
Definition ensure {E} (cond : bool) (e : E) : outcome E unit :=
  if cond then Ok tt else Err e.

(** [opt.unwrap()] / [opt.expect(why)]. *)
Definition expect {E A} (why : string) (o : option A) : outcome E A :=
  match o with Some a => Ok a | None => Panic why end.

(** ** Actions: state passing with outcomes

    An [act S E A] is the body of a method on [&mut self]: it returns an outcome
    and the state it leaves.  The state survives an [Err], because the fields a
    method has written before a [?] stay written. *)

Definition act (S E A : Type) : Type := S -> outcome E A * S.

#[global] Instance act_ret (S E : Type) : MRet (act S E) := fun A a s => (Ok a, s).
#[global] Instance act_bind (S E : Type) : MBind (act S E) :=
  fun A B f m s =>
    match m s with
    | (Ok a, s') => f a s'
    | (Err e, s') => (Err e, s')
    | (Panic w, s') => (Panic w, s')
    | (NoFuel, s') => (NoFuel, s')
    end.

Definition gets {S E A} (f : S -> A) : act S E A := fun s => (Ok (f s), s).
Definition modify {S E} (f : S -> S) : act S E unit := fun s => (Ok tt, f s).
Definition lift {S E A} (m : outcome E A) : act S E A := fun s => (m, s).
Definition throw {S E A} (e : E) : act S E A := fun s => (Err e, s).

(** [ensure!] inside a method. *)
Definition ensure_act {S E} (cond : bool) (e : E) : act S E unit := lift (ensure cond e).

(** [m.expect(why)] on the result of a method. *)
Definition expect_act {S E A} (why : string) (m : act S E A) : act S E A :=
  fun s =>
    match m s with
    | (Err _, s') => (Panic why, s')
    | r => r
    end.

(** [let _ = m]: the error is dropped, a panic is not. *)
Definition ignore_err {S E} (m : act S E unit) : act S E unit :=
  fun s =>
    match m s with
    | (Err _, s') => (Ok tt, s')
    | r => r
    end.

(** [if cond { m }] *)
Definition when {S E} (cond : bool) (m : act S E unit) : act S E unit :=
  if cond then m else mret tt.

Fixpoint for_each {S E A} (l : list A) (f : A -> act S E unit) : act S E unit :=
  match l with
  | [] => mret tt
  | x :: l => f x ;; for_each l f
  end.

(** Run a method of a component whose state sits inside a larger state. *)
Definition zoom {S T E A} (get : S -> T) (put : T -> S -> S) (m : act T E A) : act S E A :=
  fun s => let '(r, t) := m (get s) in (r, put t s).

(** Unfold the monad's operations. *)
Ltac run_act :=
  unfold mbind, act_bind, mret, act_ret, gets, modify; cbv beta iota zeta.

(** A loop of updates is a fold. *)
Lemma for_each_modify {S E A} (f : A -> S -> S) l (s : S) :
  for_each l (fun x s => (@Ok E _ tt, f x s)) s = (Ok tt, fold_left (fun s x => f x s) l s).
Proof. revert s; induction l as [|x l IH]; intros s; [done | exact (IH (f x s))]. Qed.

(** ** Record update: [s <| field := v |>] *)

Class Settable (R : Type) := eta_of : R -> R.
Class Setter {R T : Type} (proj : R -> T) := set : (T -> T) -> R -> R.
Arguments set {R T} proj {_} f r.

Ltac derive_setter :=
  lazymatch goal with
  | |- @Setter ?R ?T ?p =>
      let eta := eval cbv [eta_of] in (eta_of : R -> R) in
      let eta := lazymatch eval hnf in eta with ?e => e end in
      lazymatch (eval pattern p in eta) with
      | ?g p => exact (fun f r => g (fun x => f (p x)) r)
      end
  end.

#[export] Hint Extern 0 (Setter _) => derive_setter : typeclass_instances.

Declare Scope rust_scope.
Delimit Scope rust_scope with rust.
#[global] Open Scope rust_scope.

Notation "r <| f := v |>" := (set f (fun _ => v) r)
  (at level 12, left associativity, f at level 9, v at level 200) : rust_scope.

(** ** Hint databases: [machine] for integer ranges, [preserve] for the
    step-preservation lemmas of the consensus core, [digest] for rewriting message
    digests. *)

Create HintDb machine.
Create HintDb preserve.
Create HintDb digest.

(** [lia] with the division and modulus equations. *)
Ltac dlia := Z.to_euclidean_division_equations; lia.
