(* ===== verification/Machine.v ===== *)
(** * Machine integers, byte encodings and byte-string order

    Rust's unsigned integers as [Z] with the wrap-around of the release profile
    written out ([+64], [-64], [+32], [-32], [*32]); [to_le_bytes]/[to_be_bytes];
    the lexicographic order that [derive(Ord)] gives to [[u8; 32]] and the sort of
    a vector by it; integer sums over lists. *)

From S2P Require Import Prelude.

(** ** Wrap-around arithmetic *)

Definition u64_max : Z := 2 ^ 64 - 1.
Definition wrap64 (x : Z) : Z := x mod 2 ^ 64.
Definition wrap32 (x : Z) : Z := x mod 2 ^ 32.
Definition in_u64 (x : Z) : Prop := 0 <= x < 2 ^ 64.

Notation "a '+64' b" := (wrap64 (a + b)) (at level 50, left associativity) : rust_scope.
Notation "a '-64' b" := (wrap64 (a - b)) (at level 50, left associativity) : rust_scope.
Notation "a '*64' b" := (wrap64 (a * b)) (at level 40, left associativity) : rust_scope.
Notation "a '+32' b" := (wrap32 (a + b)) (at level 50, left associativity) : rust_scope.
Notation "a '-32' b" := (wrap32 (a - b)) (at level 50, left associativity) : rust_scope.
Notation "a '*32' b" := (wrap32 (a * b)) (at level 40, left associativity) : rust_scope.

Lemma wrap64_small x : 0 <= x < 2 ^ 64 -> wrap64 x = x.
Proof. apply Z.mod_small. Qed.

Lemma wrap32_small x : 0 <= x < 2 ^ 32 -> wrap32 x = x.
Proof. apply Z.mod_small. Qed.

Lemma wrap64_range x : 0 <= wrap64 x < 2 ^ 64.
Proof. apply Z.mod_pos_bound. lia. Qed.

Lemma wrap32_range x : 0 <= wrap32 x < 2 ^ 32.
Proof. apply Z.mod_pos_bound. lia. Qed.

#[export] Hint Resolve wrap64_range wrap32_range : machine.

(** ** Byte encodings *)

Fixpoint le_bytes (n : nat) (x : Z) : list Z :=
  match n with
  | O => []
  | S n => (x mod 256) :: le_bytes n (x / 256)
  end.

Definition be_bytes (n : nat) (x : Z) : list Z := rev (le_bytes n x).

(** [to_le_bytes] of a [u64] and of a [u8], and [u64::to_be_bytes]. *)
Definition u64_le (x : Z) : list Z := le_bytes 8 x.
Definition u64_be (x : Z) : list Z := be_bytes 8 x.
Definition u8_le (x : Z) : list Z := le_bytes 1 x.

(** [usize::from_be_bytes]. *)
Definition from_be_bytes (l : list Z) : Z := fold_left (fun acc b => acc * 256 + b) l 0.

Lemma length_le_bytes n x : length (le_bytes n x) = n.
Proof. revert x; induction n as [|n IH]; intros x; simpl; [done | by rewrite IH]. Qed.

Lemma length_u64_le x : length (u64_le x) = 8%nat.
Proof. apply length_le_bytes. Qed.

Lemma length_u64_be x : length (u64_be x) = 8%nat.
Proof. unfold u64_be, be_bytes. rewrite length_rev. apply length_le_bytes. Qed.

Lemma length_u8_le x : length (u8_le x) = 1%nat.
Proof. apply length_le_bytes. Qed.

Lemma le_bytes_inj n x y :
  0 <= x < 256 ^ Z.of_nat n -> 0 <= y < 256 ^ Z.of_nat n ->
  le_bytes n x = le_bytes n y -> x = y.
Proof.
  revert x y; induction n as [|n IH]; intros x y Hx Hy Heq.
  - simpl in *. lia.
  - rewrite Nat2Z.inj_succ, Z.pow_succ_r in Hx, Hy by lia.
    simpl in Heq. injection Heq as Hmod Hdiv.
    assert (Hd : x / 256 = y / 256).
    { apply IH; [| | done]; split; try (apply Z.div_pos; lia);
        apply Z.div_lt_upper_bound; lia. }
    rewrite (Z.div_mod x 256), (Z.div_mod y 256) by lia. by rewrite Hd, Hmod.
Qed.

Lemma u64_le_inj x y : in_u64 x -> in_u64 y -> u64_le x = u64_le y -> x = y.
Proof. intros Hx Hy. by apply (le_bytes_inj 8). Qed.

Lemma u8_le_inj x y : 0 <= x < 256 -> 0 <= y < 256 -> u8_le x = u8_le y -> x = y.
Proof. intros Hx Hy. by apply (le_bytes_inj 1). Qed.

(** ** Lexicographic order on byte strings *)

Fixpoint bytes_leb (a b : list Z) : bool :=
  match a, b with
  | [], _ => true
  | _ :: _, [] => false
  | x :: a, y :: b => (x <? y) || ((x =? y) && bytes_leb a b)
  end.

Definition bytes_le (a b : list Z) : Prop := bytes_leb a b = true.

#[export] Instance bytes_le_dec a b : Decision (bytes_le a b) := decide (bytes_leb a b = true).

Lemma bytes_leb_total a b : bytes_leb a b = true \/ bytes_leb b a = true.
Proof.
  revert b; induction a as [|x a IH]; intros [|y b]; simpl; auto.
  destruct (Z.lt_trichotomy x y) as [H|[->|H]].
  - left. apply Z.ltb_lt in H. by rewrite H.
  - rewrite Z.ltb_irrefl, Z.eqb_refl. simpl. apply IH.
  - right. apply Z.ltb_lt in H. by rewrite H.
Qed.

Lemma bytes_leb_antisym a b : bytes_leb a b = true -> bytes_leb b a = true -> a = b.
Proof.
  revert b; induction a as [|x a IH]; intros [|y b]; simpl; try done.
  rewrite !orb_true_iff, !andb_true_iff, !Z.ltb_lt, !Z.eqb_eq.
  intros [?|[-> ?]] [?|[? ?]]; try lia. f_equal. by apply IH.
Qed.

Lemma bytes_leb_trans a b c :
  bytes_leb a b = true -> bytes_leb b c = true -> bytes_leb a c = true.
Proof.
  revert b c; induction a as [|x a IH]; intros [|y b] [|z c]; simpl; try done.
  rewrite !orb_true_iff, !andb_true_iff, !Z.ltb_lt, !Z.eqb_eq.
  intros [?|[-> ?]] [?|[-> ?]]; try (left; lia). right. split; [done | eauto].
Qed.

#[export] Instance bytes_le_total : Total bytes_le.
Proof. intros a b. apply bytes_leb_total. Qed.
#[export] Instance bytes_le_trans : Transitive bytes_le.
Proof. intros a b c. apply bytes_leb_trans. Qed.
#[export] Instance bytes_le_antisymm : AntiSymm eq bytes_le.
Proof. intros a b. apply bytes_leb_antisym. Qed.

(** ** Sums *)

Fixpoint zsum (l : list Z) : Z :=
  match l with [] => 0 | x :: l => x + zsum l end.

Lemma zsum_app l k : zsum (l ++ k) = zsum l + zsum k.
Proof. induction l; simpl; lia. Qed.

Lemma zsum_nonneg l : Forall (fun x => 0 <= x) l -> 0 <= zsum l.
Proof. induction 1; simpl; lia. Qed.

#[export] Instance zsum_proper : Proper (Permutation ==> eq) zsum.
Proof. intros l k Hp. induction Hp; simpl; lia. Qed.

(** ** Strictly increasing sequences above a bound *)

Fixpoint increasing (x : Z) (l : list Z) : Prop :=
  match l with [] => True | y :: l => x < y /\ increasing y l end.

Fixpoint last_or (x : Z) (l : list Z) : Z :=
  match l with [] => x | y :: l => last_or y l end.

Lemma last_or_app x l k : last_or x (l ++ k) = last_or (last_or x l) k.
Proof. revert x; induction l as [|y l IH]; intros x; simpl; auto. Qed.

Lemma increasing_app x l k :
  increasing x (l ++ k) <-> increasing x l /\ increasing (last_or x l) k.
Proof. revert x; induction l as [|y l IH]; intros x; simpl; [tauto | rewrite IH; tauto]. Qed.

Lemma increasing_bound x l y : increasing x l -> y ∈ l -> x < y <= last_or x l.
Proof.
  revert x; induction l as [|z l IH]; intros x; simpl; [set_solver|].
  intros [Hxz Hl] Hy. apply elem_of_cons in Hy as [->|Hy].
  - split; [done|]. clear -Hl. revert z Hl; induction l as [|w l IH]; intros z; simpl; [lia|].
    intros [? Hl]. specialize (IH w Hl). lia.
  - specialize (IH z Hl Hy). lia.
Qed.

Lemma increasing_sorted x l : increasing x l -> StronglySorted Z.lt l.
Proof.
  revert x; induction l as [|y l IH]; intros x; simpl; [constructor|].
  intros [_ Hl]. constructor; [by eapply IH|]. apply Forall_forall. intros z Hz.
  by eapply increasing_bound.
Qed.

Lemma increasing_NoDup x l : increasing x l -> NoDup l.
Proof.
  revert x; induction l as [|y l IH]; intros x; simpl; [constructor|].
  intros [_ Hl]. constructor; [|by eapply IH]. intros Hin.
  pose proof (increasing_bound y l y Hl Hin). lia.
Qed.
