(* ===== verification/Crypto.v ===== *)
(** * The [crypto] crate: keys, digests, signatures

    Models [crypto/src/lib.rs].  The third-party code it calls (ed25519-dalek,
    threshold_crypto, base64 and SHA-512) is the class [CryptoLib]: operations
    without definitions, which every later definition takes as an argument. *)

From S2P Require Import Prelude Machine.

(** ** Third-party operations *)

Class CryptoLib : Type := {
  (** [Sha512::new(); update(..)*; finalize()] on the concatenated input *)
  sha512 : list Z -> list Z;
  (** ed25519-dalek *)
  dalek_PublicKey : Type;
  dalek_Signature : Type;
  dalek_Keypair : Type;
  dalek_pk_from_bytes : list Z -> option dalek_PublicKey;
  dalek_sig_from_bytes : list Z -> option dalek_Signature;
  dalek_keypair_from_bytes : list Z -> option dalek_Keypair;
  dalek_sign : dalek_Keypair -> list Z -> list Z;
  dalek_verify_strict : dalek_PublicKey -> list Z -> dalek_Signature -> bool;
  dalek_verify_batch :
    list (list Z) -> list dalek_Signature -> list dalek_PublicKey -> bool;
  (** base64 *)
  base64_encode : list Z -> string;
  base64_decode : string -> option (list Z);
  (** threshold_crypto *)
  PublicKeySet : Type;
  PublicKeyShare : Type;
  SecretKeyShare : Type;
  SignatureShare : Type;
  TssSignature : Type;
  public_key_share : PublicKeySet -> Z -> PublicKeyShare;
  tss_sign : SecretKeyShare -> list Z -> SignatureShare;
  tss_verify : PublicKeyShare -> SignatureShare -> list Z -> bool;
  combine_signatures : PublicKeySet -> gmap Z SignatureShare -> option TssSignature;
  tss_to_bytes : TssSignature -> list Z;
}.

(** [ed25519::Error] is opaque. *)
Inductive CryptoError : Type := SignatureError.

(** ** Digests *)

Record Digest : Type := mkDigest { digest_bytes : list Z }.

#[export] Instance Digest_eq_dec : EqDecision Digest.
Proof. solve_decision. Defined.
#[export] Instance Digest_countable : Countable Digest.
Proof. by refine (inj_countable' digest_bytes mkDigest _); intros []. Defined.

Definition Digest_default : Digest := mkDigest (replicate 32 0).
Definition Digest_to_vec (d : Digest) : list Z := digest_bytes d.
Definition Digest_size (d : Digest) : Z := Z.of_nat (length (digest_bytes d)).

(** [Digest(hasher.finalize().as_slice()[..32].try_into().unwrap())] *)
Definition hash_bytes `{CryptoLib} (input : list Z) : Digest := mkDigest (take 32 (sha512 input)).

(** ** Public and secret keys *)

Record PublicKey : Type := mkPublicKey { pk_bytes : list Z }.

#[export] Instance PublicKey_eq_dec : EqDecision PublicKey.
Proof. solve_decision. Defined.
#[export] Instance PublicKey_countable : Countable PublicKey.
Proof. by refine (inj_countable' pk_bytes mkPublicKey _); intros []. Defined.

Definition PublicKey_default : PublicKey := mkPublicKey (replicate 32 0).

(** [derive(Ord)] on the key's byte array, and [keys.sort()]. *)
Definition pk_le (a b : PublicKey) : Prop := bytes_le (pk_bytes a) (pk_bytes b).
#[export] Instance pk_le_dec a b : Decision (pk_le a b) := bytes_le_dec _ _.
#[export] Instance pk_le_total : Total pk_le.
Proof. intros a b. apply bytes_leb_total. Qed.
#[export] Instance pk_le_trans : Transitive pk_le.
Proof. intros a b c. apply bytes_leb_trans. Qed.
#[export] Instance pk_le_antisymm : AntiSymm eq pk_le.
Proof. intros [a] [b] Ha Hb. f_equal. by apply bytes_leb_antisym. Qed.

Definition sort_keys (l : list PublicKey) : list PublicKey := merge_sort pk_le l.

Inductive DecodeError : Type := InvalidByte | InvalidLength.

Section Base64.
Context `{CryptoLib}.

(** [let bytes = base64::decode(s)?; bytes[..n].try_into()]: a shorter decoding
      makes the slice panic, a longer one is cut. *)
Definition array_from_base64 (n : nat) (s : string) : outcome DecodeError (list Z) :=
  bytes ← match base64_decode s with Some b => Ok b | None => Err InvalidByte end;
  if bool_decide (n <= length bytes)%nat then Ok (take n bytes)
  else Panic "range end index out of range for slice".

Definition PublicKey_to_base64 (k : PublicKey) : string := base64_encode (pk_bytes k).
Definition PublicKey_from_base64 (s : string) : outcome DecodeError PublicKey :=
  mkPublicKey <$> array_from_base64 32 s.
End Base64.

Record SecretKey : Type := mkSecretKey { sk_bytes : list Z }.

Definition SecretKey_to_base64 `{CryptoLib} (k : SecretKey) : string := base64_encode (sk_bytes k).
Definition SecretKey_from_base64 `{CryptoLib} (s : string) : outcome DecodeError SecretKey :=
  mkSecretKey <$> array_from_base64 64 s.

(** [impl Drop for SecretKey]: every byte is zeroed. *)
Definition SecretKey_drop (k : SecretKey) : SecretKey := mkSecretKey ((fun _ => 0) <$> sk_bytes k).

(** ** Signatures *)

Record Signature : Type := mkSignature { part1 : list Z; part2 : list Z }.

Definition Signature_default : Signature := mkSignature (replicate 32 0) (replicate 32 0).

Section Signature.
Context `{CryptoLib}.

Definition Signature_new (digest : Digest) (secret : SecretKey) : outcome CryptoError Signature :=
  keypair ← expect "Unable to load secret key" (dalek_keypair_from_bytes (sk_bytes secret));
  let sig := dalek_sign keypair (digest_bytes digest) in
  Ok (mkSignature (take 32 sig) (take 32 (drop 32 sig))).

Definition Signature_flatten (s : Signature) : list Z := part1 s ++ part2 s.

(** The two [from_bytes(..)?] conversions. *)
Definition parse_signature (s : Signature) : outcome CryptoError dalek_Signature :=
  match dalek_sig_from_bytes (Signature_flatten s) with
  | Some x => Ok x
  | None => Err SignatureError
  end.

Definition parse_public_key (k : PublicKey) : outcome CryptoError dalek_PublicKey :=
  match dalek_pk_from_bytes (pk_bytes k) with
  | Some x => Ok x
  | None => Err SignatureError
  end.

Definition Signature_verify (s : Signature) (digest : Digest) (public_key : PublicKey)
    : outcome CryptoError unit :=
  signature ← parse_signature s;
  key ← parse_public_key public_key;
  if dalek_verify_strict key (digest_bytes digest) signature then Ok tt else Err SignatureError.

(** The loop of [verify_batch] fills three vectors in step. *)
Fixpoint batch_inputs (digest : Digest) (votes : list (PublicKey * Signature))
    : outcome CryptoError (list (list Z) * list dalek_Signature * list dalek_PublicKey) :=
  match votes with
  | [] => Ok ([], [], [])
  | (key, sig) :: votes =>
      signature ← parse_signature sig;
      pk ← parse_public_key key;
      rest ← batch_inputs digest votes;
      let '(messages, signatures, keys) := rest in
      Ok (digest_bytes digest :: messages, signature :: signatures, pk :: keys)
  end.

Definition Signature_verify_batch (digest : Digest) (votes : list (PublicKey * Signature))
    : outcome CryptoError unit :=
  inputs ← batch_inputs digest votes;
  let '(messages, signatures, keys) := inputs in
  if dalek_verify_batch messages signatures keys then Ok tt else Err SignatureError.

(** ** The signature service

    The service is a task that owns the secret key (and the optional threshold
    share) and answers requests in order; its clients see a function of the
    digest.  A failure to load the key kills the task, and the client's [expect]
    on the reply channel panics. *)

Record SignatureService : Type := mkSignatureService {
  secret : SecretKey;
  tss_secret : option SecretKeyShare;
}.

Definition SignatureService_new (s : SecretKey) (t : option SecretKeyShare) : SignatureService :=
  mkSignatureService s t.

Definition request_signature (svc : SignatureService) (digest : Digest)
    : outcome CryptoError Signature :=
  match Signature_new digest (secret svc) with
  | Ok s => Ok s
  | _ => Panic "Failed to receive signature from Signature Service"
  end.

Definition request_tss_signature (svc : SignatureService) (digest : Digest)
    : option SignatureShare :=
  match tss_secret svc with
  | Some share => Some (tss_sign share (digest_bytes digest))
  | None => None
  end.
End Signature.

(** ** Laws of the third-party code used by some theorems *)

(** Documented behaviour of ed25519-dalek's batch verification: a batch built
    from signatures that verify one by one verifies. *)
Class DalekBatch `{CryptoLib} : Prop := {
  dalek_batch_complete :
    forall (l : list (list Z * dalek_Signature * dalek_PublicKey)),
      Forall (fun '(m, s, k) => dalek_verify_strict k m s = true) l ->
      dalek_verify_batch (l.*1.*1) (l.*1.*2) (l.*2) = true;
}.

(** ed25519: a 64-byte keypair is the secret key followed by the public key, and a
    signature verifies under the public key of the pair that made it. *)
Class DalekSign `{CryptoLib} : Prop := {
  dalek_sign_length : forall kp m, length (dalek_sign kp m) = 64%nat;
  dalek_sign_verifies : forall bytes kp m,
    dalek_keypair_from_bytes bytes = Some kp ->
    exists s k, dalek_sig_from_bytes (dalek_sign kp m) = Some s /\
      dalek_pk_from_bytes (drop 32 bytes) = Some k /\
      dalek_verify_strict k m s = true;
}.

(** threshold_crypto: whichever valid shares of a message are combined, the
    combined signature is the same. *)
Class ThresholdUnique `{CryptoLib} : Prop := {
  combine_unique : forall pks msg m1 m2 s1 s2,
    map_Forall (fun i sh => tss_verify (public_key_share pks i) sh msg = true) m1 ->
    map_Forall (fun i sh => tss_verify (public_key_share pks i) sh msg = true) m2 ->
    combine_signatures pks m1 = Some s1 -> combine_signatures pks m2 = Some s2 -> s1 = s2;
}.

(** base64 decodes what it encodes. *)
Class Base64Laws `{CryptoLib} : Prop := {
  base64_roundtrip : forall bytes, Forall (fun b => 0 <= b < 256) bytes ->
    base64_decode (base64_encode bytes) = Some bytes;
}.

(** ** Lemmas *)

Lemma sort_keys_perm l : sort_keys l ≡ₚ l.
Proof. apply merge_sort_Permutation. Qed.

Lemma sort_keys_sorted l : StronglySorted pk_le (sort_keys l).
Proof. apply (StronglySorted_merge_sort _). Qed.

(** Sorting forgets the order the keys were met in, as [HashMap::keys] yields
    them in no specified order. *)
Lemma sort_keys_unique l k : l ≡ₚ k -> sort_keys l = sort_keys k.
Proof.
  intros Hp. apply (StronglySorted_unique pk_le); [apply sort_keys_sorted.. |].
  by rewrite !sort_keys_perm.
Qed.

Section Lemmas.
Context `{CryptoLib}.

Lemma verify_ok_inv s d k :
  Signature_verify s d k = Ok tt ->
  exists sg key, dalek_sig_from_bytes (Signature_flatten s) = Some sg /\
    dalek_pk_from_bytes (pk_bytes k) = Some key /\
    dalek_verify_strict key (digest_bytes d) sg = true.
Proof.
  unfold Signature_verify, parse_signature, parse_public_key.
  destruct (dalek_sig_from_bytes _) as [sg|]; simpl; [|done].
  destruct (dalek_pk_from_bytes _) as [key|]; simpl; [|done].
  destruct (dalek_verify_strict _ _ _) eqn:Hv; [|done]. eauto.
Qed.

(** The public key of a service's secret key. *)
Definition service_key (svc : SignatureService) : PublicKey :=
  mkPublicKey (drop 32 (sk_bytes (secret svc))).

(** What the service signs verifies under its public key. *)
Lemma request_signature_verifies `{!DalekSign} svc d sg :
  request_signature svc d = Ok sg -> Signature_verify sg d (service_key svc) = Ok tt.
Proof.
  unfold request_signature, Signature_new.
  destruct (dalek_keypair_from_bytes _) as [kp|] eqn:Hkp; simpl; [|done]. intros [= <-].
  destruct (dalek_sign_verifies _ kp (digest_bytes d) Hkp) as (s & k & Hs & Hk & Hv).
  pose proof (dalek_sign_length kp (digest_bytes d)) as Hlen.
  unfold Signature_verify, parse_signature, parse_public_key, Signature_flatten, service_key.
  simpl. rewrite (firstn_all2 (n := 32) (drop 32 _)) by (rewrite length_drop; lia).
  rewrite take_drop, Hs. simpl. rewrite Hk. simpl. by rewrite Hv.
Qed.

(** A batch of votes that each verify is accepted by [verify_batch]. *)
Lemma verify_batch_complete `{!DalekBatch} d votes :
  Forall (fun '(k, s) => Signature_verify s d k = Ok tt) votes ->
  Signature_verify_batch d votes = Ok tt.
Proof.
  intros Hall.
  assert (exists l, batch_inputs d votes = Ok (l.*1.*1, l.*1.*2, l.*2) /\
    Forall (fun '(m, s, k) => dalek_verify_strict k m s = true) l) as (l & Hin & Hl).
  { induction Hall as [|[k s] votes Hv _ IH]; [by exists [] |].
    destruct IH as (l & IH & Hl). apply verify_ok_inv in Hv as (sg & key & Hs & Hk & Hv).
    exists ((digest_bytes d, sg, key) :: l). split; [|by constructor].
    simpl. unfold parse_signature, parse_public_key. rewrite Hs; simpl. rewrite Hk; simpl.
    by rewrite IH. }
  unfold Signature_verify_batch. rewrite Hin; simpl. by rewrite dalek_batch_complete.
Qed.
End Lemmas.
