(* ===== verification/Config.v ===== *)
(** * Consensus configuration: committee, stakes, thresholds, errors

    Models [consensus/src/config.rs] and [consensus/src/error.rs].  The sums and
    thresholds are [u32] computations with their wrap-around; [wf_committee] is the
    condition under which nothing wraps. *)

From S2P Require Import Prelude Machine Crypto.

(** ** [consensus/src/error.rs] *)

(** [io], [bincode] and [rocksdb] errors are opaque. *)
Inductive ConsensusError : Type :=
| EpochEnd (epoch : Z)
| NetworkError
| SerializationError
| StoreError
| NotInCommittee (name : PublicKey)
| SPBPhaseWrong (value proof : Z)
| InvalidFinProof
| InvalidSignature (e : CryptoError)
| InvalidThresholdSignature (name : PublicKey)
| InvalidPrePareTag (tag : Z)
| InvalidPreParePESQC (round : Z)
| TimeOutMessage (height round : Z)
| RandomCoinWithWrongLeader
| RandomCoinWithWrongShares
| AuthorityReuseinQC (name : PublicKey)
| AuthorityReuseinProof (name : PublicKey) (used : gset PublicKey)
| AuthorityReuseinPrePare (name : PublicKey)
| AuthorityReuseinTC (name : PublicKey)
| AuthorityReuseinCoin (name : PublicKey)
| AuthorityReuseinSPB (name : PublicKey)
| UnknownAuthority (name : PublicKey)
| QCRequiresQuorum
| TCRequiresQuorum
| RandomCoinRequiresQuorum
| SPBRequiresQuorum
| MalformedBlock (digest : Digest)
| WrongBlockSender (digest : Digest) (name : PublicKey) (round : Z)
| WrongVoteRecipient (digest : Digest) (name : PublicKey) (round : Z)
| InvalidPayload
| NonConsecutiveRounds (rd1 rd2 rd3 : Z).

(** [ConsensusResult<T>] *)
Notation ConsensusResult := (outcome ConsensusError).

(** [?] on a [Result<_, CryptoError>]. *)
Definition from_crypto {A} (m : outcome CryptoError A) : ConsensusResult A :=
  map_err InvalidSignature m.

(** ** Protocol and parameters *)

Inductive Protocol : Type := HotStuff | HotStuffAndSMVBA | SMVBA | Others.

Definition Protocol_default : Protocol := HotStuffAndSMVBA.

Record Parameters : Type := mkParameters {
  node_sync_time : Z;
  timeout_delay : Z;
  sync_retry_delay : Z;
  network_delay : Z;
  max_payload_size : Z;
  min_block_delay : Z;
  ddos : bool;
  random_ddos : bool;
  random_ddos_chance : Z;
  fallback_length : Z;
  exp : Z;
  leader_window : Z;
}.

Definition Parameters_default : Parameters := {|
  node_sync_time := 500;
  timeout_delay := 5000;
  sync_retry_delay := 10000;
  min_block_delay := 100;
  network_delay := 100;
  max_payload_size := 500;
  ddos := false;
  random_ddos := false;
  random_ddos_chance := 5;
  fallback_length := 3;
  exp := 1;
  leader_window := 2;
|}.

(** ** The committee *)

(** [std::net::SocketAddr] *)
Record SocketAddr : Type := mkSocketAddr { ip : list Z; port : Z }.

#[export] Instance SocketAddr_eq_dec : EqDecision SocketAddr.
Proof. solve_decision. Defined.
#[export] Instance SocketAddr_countable : Countable SocketAddr.
Proof.
  refine (inj_countable' (fun a => (ip a, port a)) (fun '(i, p) => mkSocketAddr i p) _).
  by intros [].
Defined.

Record Authority : Type := mkAuthority {
  auth_name : PublicKey;
  auth_id : Z;
  auth_stake : Z;
  auth_address : SocketAddr;
  auth_smvba_address : SocketAddr;
}.

Record Committee : Type := mkCommittee {
  authorities : gmap PublicKey Authority;
  committee_epoch : Z;
}.

(** [collect()] into a [HashMap]: a later entry for a name replaces the earlier. *)
Definition Committee_new
    (info : list (PublicKey * Z * Z * SocketAddr * SocketAddr)) (epoch : Z) : Committee :=
  mkCommittee
    (fold_left
       (fun m '(name, id, stake, address, smvba_address) =>
          <[name := mkAuthority name id stake address smvba_address]> m)
       info ∅)
    epoch.

Section Committee.
Context (c : Committee).

Definition committee_size : Z := Z.of_nat (size (authorities c)).

(** [self.authorities.values()] and [keys()], in the order of the map. *)
Definition authority_list : list Authority := (map_to_list (authorities c)).*2.
Definition authority_keys : list PublicKey := (map_to_list (authorities c)).*1.

Definition stake (name : PublicKey) : Z :=
  match authorities c !! name with Some x => auth_stake x | None => 0 end.

Definition committee_id (name : PublicKey) : ConsensusResult Z :=
  auth_id <$> expect "called `Option::unwrap()` on a `None` value" (authorities c !! name).

(** [values().map(|x| x.stake).sum()] *)
Definition total_votes : Z :=
  fold_left (fun acc x => acc +32 auth_stake x) authority_list 0.

Definition quorum_threshold : Z := (2 *32 ((total_votes -32 1) / 3)) +32 1.
Definition large_threshold : Z := total_votes -32 1.
Definition random_coin_threshold : Z := ((total_votes -32 1) / 3) +32 1.

Definition address (name : PublicKey) : ConsensusResult SocketAddr :=
  match authorities c !! name with
  | Some x => Ok (auth_address x)
  | None => Err (NotInCommittee name)
  end.

Definition smvba_address (name : PublicKey) : ConsensusResult SocketAddr :=
  match authorities c !! name with
  | Some x => Ok (auth_smvba_address x)
  | None => Err (NotInCommittee name)
  end.

Definition broadcast_addresses (myself : PublicKey) : list SocketAddr :=
  auth_address <$> filter (fun x => auth_name x <> myself) authority_list.

Definition smvba_broadcast_addresses (myself : PublicKey) : list SocketAddr :=
  auth_smvba_address <$> filter (fun x => auth_name x <> myself) authority_list.
End Committee.

(** ** Stakes as weights

    [weight c S] is the stake of a set of members, a plain sum.  A committee is
    well formed when its stakes are [u32] values with a positive total that fits
    a [u32]; [sum_of_stakes] is that total before any wrap-around. *)

Definition sum_of_stakes (c : Committee) : Z := zsum (auth_stake <$> authority_list c).
Definition weight (c : Committee) (S : gset PublicKey) : Z := zsum (stake c <$> elements S).

Record wf_committee (c : Committee) : Prop := {
  wf_stake : forall k a, authorities c !! k = Some a -> 0 <= auth_stake a;
  wf_name : forall k a, authorities c !! k = Some a -> auth_name a = k;
  wf_total : 1 <= sum_of_stakes c < 2 ^ 32;
}.

Definition members (c : Committee) : gset PublicKey := dom (authorities c).

Lemma stake_nonneg c k : wf_committee c -> 0 <= stake c k.
Proof.
  intros Hwf. unfold stake. destruct (authorities c !! k) eqn:Hk; [|lia].
  by eapply wf_stake.
Qed.

Lemma stake_pos_member c k : 0 < stake c k -> k ∈ members c.
Proof.
  unfold stake, members. intros Hs. apply elem_of_dom.
  destruct (authorities c !! k); [eauto | lia].
Qed.

Lemma zsum_stakes_nonneg c (l : list PublicKey) : wf_committee c -> 0 <= zsum (stake c <$> l).
Proof.
  intros Hwf. apply zsum_nonneg, Forall_fmap, Forall_true.
  intros k. by apply stake_nonneg.
Qed.

Lemma weight_nonneg c S : wf_committee c -> 0 <= weight c S.
Proof. apply zsum_stakes_nonneg. Qed.

Lemma weight_empty c : weight c ∅ = 0.
Proof. unfold weight. by rewrite elements_empty. Qed.

Lemma weight_disjoint_union c S T : S ## T -> weight c (S ∪ T) = weight c S + weight c T.
Proof. intros Hd. unfold weight. by rewrite elements_disj_union, fmap_app, zsum_app. Qed.

Lemma weight_singleton c k : weight c {[k]} = stake c k.
Proof. unfold weight. rewrite elements_singleton. simpl. lia. Qed.

Lemma weight_insert c k S : k ∉ S -> weight c ({[k]} ∪ S) = stake c k + weight c S.
Proof. intros Hk. rewrite weight_disjoint_union by set_solver. by rewrite weight_singleton. Qed.

Lemma weight_split c S T : weight c S = weight c (S ∩ T) + weight c (S ∖ T).
Proof.
  rewrite <- weight_disjoint_union by set_solver. f_equal. apply set_eq. intros x.
  rewrite elem_of_union, elem_of_intersection, elem_of_difference.
  destruct (decide (x ∈ T)); naive_solver.
Qed.

Lemma weight_mono c S T : wf_committee c -> S ⊆ T -> weight c S <= weight c T.
Proof.
  intros Hwf Hsub. rewrite (weight_split c T S).
  replace (T ∩ S) with S by (apply set_eq; set_solver).
  pose proof (weight_nonneg c (T ∖ S) Hwf). lia.
Qed.

(** The stake of all members is the committee's total. *)
Lemma weight_members c : weight c (members c) = sum_of_stakes c.
Proof.
  unfold weight, members, sum_of_stakes, authority_list.
  assert (Hp : elements (dom (authorities c)) ≡ₚ (map_to_list (authorities c)).*1).
  { apply NoDup_Permutation; [apply NoDup_elements | apply NoDup_fst_map_to_list |].
    intros k. rewrite elem_of_elements, elem_of_dom, list_elem_of_fmap.
    split.
    - intros [a Ha]. exists (k, a). by rewrite elem_of_map_to_list.
    - intros ([k' a] & -> & Hin). rewrite elem_of_map_to_list in Hin. eauto. }
  rewrite Hp, <- list_fmap_compose, <- list_fmap_compose. f_equal. apply list_fmap_ext.
  intros i [k a] Hin. apply list_elem_of_lookup_2 in Hin.
  rewrite elem_of_map_to_list in Hin. simpl. unfold stake. by rewrite Hin.
Qed.

Lemma weight_outside c S : S ## members c -> weight c S = 0.
Proof.
  intros Hd. unfold weight.
  assert (forall k, k ∈ elements S -> stake c k = 0) as H0.
  { intros k Hk. rewrite elem_of_elements in Hk. unfold stake.
    assert (authorities c !! k = None) as ->; [|done].
    apply not_elem_of_dom. set_solver. }
  induction (elements S) as [|k l IH]; [done|]. csimpl.
  rewrite H0 by set_solver. rewrite IH; [lia|]. intros; apply H0; set_solver.
Qed.

Lemma weight_le_total c S : wf_committee c -> weight c S <= sum_of_stakes c.
Proof.
  intros Hwf.
  assert (Hout : weight c (S ∖ members c) = 0) by (apply weight_outside; set_solver).
  assert (Hin : weight c (S ∩ members c) <= weight c (members c)).
  { apply weight_mono; [done | set_solver]. }
  rewrite (weight_split c S (members c)), <- weight_members. lia.
Qed.

(** ** Thresholds *)

Lemma total_votes_exact c : wf_committee c -> total_votes c = sum_of_stakes c.
Proof.
  intros Hwf. unfold total_votes, sum_of_stakes.
  assert (Hall : Forall (fun a => 0 <= auth_stake a) (authority_list c)).
  { unfold authority_list. apply Forall_fmap, Forall_forall. intros [k a] Hin.
    rewrite elem_of_map_to_list in Hin. simpl. by eapply wf_stake. }
  pose proof (wf_total c Hwf) as Htot. unfold sum_of_stakes in Htot.
  assert (Hgen : forall l acc, Forall (fun a => 0 <= auth_stake a) l -> 0 <= acc ->
    acc + zsum (auth_stake <$> l) < 2 ^ 32 ->
    fold_left (fun acc x => acc +32 auth_stake x) l acc = acc + zsum (auth_stake <$> l)).
  { induction l as [|a l IH]; intros acc Hl Hacc Hlt; csimpl in *; [lia|].
    apply Forall_cons in Hl as [Ha Hl].
    pose proof (zsum_nonneg (auth_stake <$> l) ltac:(by apply Forall_fmap)).
    rewrite wrap32_small by lia. rewrite IH by (done || lia). lia. }
  rewrite Hgen; [lia | done | lia | lia].
Qed.

(** With a well-formed committee no threshold wraps: the two formulas of the
    source hold over the integers. *)
Lemma quorum_threshold_exact c :
  wf_committee c -> quorum_threshold c = 2 * ((sum_of_stakes c - 1) / 3) + 1.
Proof.
  intros Hwf. pose proof (wf_total c Hwf).
  unfold quorum_threshold. rewrite total_votes_exact by done.
  rewrite (wrap32_small (_ - 1)) by lia. rewrite (wrap32_small (2 * _)) by dlia.
  apply wrap32_small. dlia.
Qed.

Lemma random_coin_threshold_exact c :
  wf_committee c -> random_coin_threshold c = (sum_of_stakes c - 1) / 3 + 1.
Proof.
  intros Hwf. pose proof (wf_total c Hwf).
  unfold random_coin_threshold. rewrite total_votes_exact by done.
  rewrite (wrap32_small (_ - 1)) by lia. apply wrap32_small. dlia.
Qed.

(** Two sets that reach the quorum share at least [2q - N] of the stake. *)
Lemma quorum_overlap c S T :
  wf_committee c -> quorum_threshold c <= weight c S -> quorum_threshold c <= weight c T ->
  2 * quorum_threshold c - sum_of_stakes c <= weight c (S ∩ T).
Proof.
  intros Hwf HS HT.
  pose proof (weight_le_total c (S ∪ T) Hwf) as Hle.
  replace (S ∪ T) with (T ∪ (S ∖ T)) in Hle.
  2:{ apply set_eq. intros x. rewrite !elem_of_union, elem_of_difference.
      destruct (decide (x ∈ T)); naive_solver. }
  rewrite weight_disjoint_union in Hle by set_solver.
  pose proof (weight_split c S T). lia.
Qed.
