(* ===== verification/Messages.v ===== *)
(** * Consensus messages: structures, digests, verification

    Models [consensus/src/messages.rs].  One [Module] per Rust struct, so that
    [Block.height b] reads as [b.height].  [preimage] is the byte string the
    hasher is fed, [digest] its truncated SHA-512, [new] builds and signs,
    [verify] is the method of that name. *)

From S2P Require Import Prelude Machine Crypto Config.

Definition OPT : Z := 0.
Definition PES : Z := 1.
Definition FALLBACK : Z := 2.
Definition INIT_PHASE : Z := 0.
Definition LOCK_PHASE : Z := 1.
Definition FIN_PHASE : Z := 2.

(** [self.signature.verify(&self.digest(), &self.author)?] *)
Definition check_signature `{CryptoLib} (s : Signature) (d : Digest) (k : PublicKey)
    : ConsensusResult unit := from_crypto (Signature_verify s d k).

(** [signature_service.request_signature(digest).await] *)
Definition sign_with `{CryptoLib} (svc : SignatureService) (d : Digest)
    : ConsensusResult Signature := from_crypto (request_signature svc d).

(** ** Quorum certificates *)

Module QC.
Record t : Type := mk {
  hash : Digest;
  height : Z;
  epoch : Z;
  round : Z;
  tag : Z;
  proposer : PublicKey;
  acceptor : PublicKey;
  votes : list (PublicKey * Signature);
}.

(** [QC::default()], which is [QC::genesis()]. *)
Definition genesis : t := mk Digest_default 0 0 0 0 PublicKey_default PublicKey_default [].

(** [impl PartialEq for QC]: the epoch is compared with itself, so it does not
    count; neither do round, tag, acceptor and votes. *)
Definition eqb (self other : t) : bool :=
  bool_decide (hash self = hash other) && (height self =? height other)
  && (epoch self =? epoch self) && bool_decide (proposer self = proposer other).

Definition timeout (self : t) : bool :=
  bool_decide (hash self = Digest_default) && negb (height self =? 0).

Definition preimage (q : t) : list Z :=
  digest_bytes (hash q) ++ u64_le (height q) ++ u64_le (round q) ++ u8_le (tag q)
  ++ u64_le (epoch q) ++ pk_bytes (proposer q).

(** The loop of [verify]: distinct authors with voting rights, summed. *)
Fixpoint check_votes (committee : Committee) (votes : list (PublicKey * Signature))
    (used : gset PublicKey) (weight : Z) : ConsensusResult Z :=
  match votes with
  | [] => Ok weight
  | (name, _) :: votes =>
      ensure (negb (bool_decide (name ∈ used))) (AuthorityReuseinQC name) ;;
      let voting_rights := stake committee name in
      ensure (0 <? voting_rights) (UnknownAuthority name) ;;
      check_votes committee votes ({[name]} ∪ used) (weight +32 voting_rights)
  end.

Section Verify.
Context `{CryptoLib}.

Definition digest (q : t) : Digest := hash_bytes (preimage q).

Definition verify (q : t) (committee : Committee) : ConsensusResult unit :=
  weight ← check_votes committee (votes q) ∅ 0;
  ensure (quorum_threshold committee <=? weight) QCRequiresQuorum ;;
  from_crypto (Signature_verify_batch (digest q) (votes q)).
End Verify.
End QC.

(** ** Blocks *)

Module Block.
Record t : Type := mk {
  qc : QC.t;
  author : PublicKey;
  height : Z;
  epoch : Z;
  payload : list Digest;
  signature : Signature;
  tag : Z;
  round : Z;
}.

(** [Block::default()], which is [Block::genesis()]. *)
Definition genesis : t :=
  mk QC.genesis PublicKey_default 0 0 [] Signature_default 0 0.

Definition parent (b : t) : Digest := QC.hash (qc b).

Definition preimage (b : t) : list Z :=
  pk_bytes (author b) ++ u64_le (height b) ++ u64_le (epoch b)
  ++ concat (digest_bytes <$> payload b) ++ digest_bytes (QC.hash (qc b)) ++ u8_le (tag b).

Definition with_signature (s : Signature) (b : t) : t :=
  mk (qc b) (author b) (height b) (epoch b) (payload b) s (tag b) (round b).

Section Verify.
Context `{CryptoLib}.

Definition digest (b : t) : Digest := hash_bytes (preimage b).

Definition new (qc : QC.t) (author : PublicKey) (height epoch round : Z)
    (payload : list Digest) (svc : SignatureService) (tag : Z) : ConsensusResult t :=
  let block := mk qc author height epoch payload Signature_default tag round in
  signature ← sign_with svc (digest block);
  Ok (with_signature signature block).

Definition verify (b : t) (committee : Committee) : ConsensusResult unit :=
  let voting_rights := stake committee (author b) in
  ensure (0 <? voting_rights) (UnknownAuthority (author b)) ;;
  check_signature (signature b) (digest b) (author b) ;;
  if negb (QC.eqb (qc b) QC.genesis) then QC.verify (qc b) committee else Ok tt.
End Verify.
End Block.

(** ** Votes of the optimistic path and of the fallback chain *)

Module HVote.
Record t : Type := mk {
  hash : Digest;
  height : Z;
  round : Z;
  epoch : Z;
  proposer : PublicKey;
  tag : Z;
  author : PublicKey;
  signature : Signature;
}.

(** The same fields in the same order as [QC.preimage]. *)
Definition preimage (v : t) : list Z :=
  digest_bytes (hash v) ++ u64_le (height v) ++ u64_le (round v) ++ u8_le (tag v)
  ++ u64_le (epoch v) ++ pk_bytes (proposer v).

Definition with_signature (s : Signature) (v : t) : t :=
  mk (hash v) (height v) (round v) (epoch v) (proposer v) (tag v) (author v) s.

Section Verify.
Context `{CryptoLib}.

Definition digest (v : t) : Digest := hash_bytes (preimage v).

(** The vote [new] builds, before it is signed. *)
Definition unsigned (block : Block.t) (author : PublicKey) (tag : Z) : t :=
  mk (Block.digest block) (Block.height block) (Block.round block) (Block.epoch block)
    (Block.author block) tag author Signature_default.

Definition new (block : Block.t) (author : PublicKey) (tag : Z) (svc : SignatureService)
    : ConsensusResult t :=
  let vote := unsigned block author tag in
  signature ← sign_with svc (digest vote);
  Ok (with_signature signature vote).

Definition verify (v : t) (committee : Committee) : ConsensusResult unit :=
  ensure (0 <? stake committee (author v)) (UnknownAuthority (author v)) ;;
  check_signature (signature v) (digest v) (author v).
End Verify.
End HVote.

(** ** Prepare messages *)

Module PrePare.
Record t : Type := mk {
  author : PublicKey;
  epoch : Z;
  height : Z;
  val : Z;
  qc : QC.t;
  signature : Signature;
}.

Definition preimage (p : t) : list Z := u8_le (val p).

Section Verify.
Context `{CryptoLib}.

Definition digest (p : t) : Digest := hash_bytes (preimage p).

Definition new (author : PublicKey) (epoch height : Z) (qc : QC.t) (val : Z)
    (svc : SignatureService) : ConsensusResult t :=
  let prepare := mk author epoch height val qc Signature_default in
  signature ← sign_with svc (digest prepare);
  Ok (mk author epoch height val qc signature).

Definition verify (p : t) (committee : Committee) (fallback_length : Z)
    : ConsensusResult unit :=
  ensure ((val p =? OPT) || (val p =? PES)) (InvalidPrePareTag (val p)) ;;
  check_signature (signature p) (digest p) (author p) ;;
  (if negb (QC.eqb (qc p) QC.genesis) then QC.verify (qc p) committee else Ok tt) ;;
  ensure (negb ((QC.tag (qc p) =? PES) && negb (QC.round (qc p) =? fallback_length)))
    (InvalidPreParePESQC (QC.round (qc p))).
End Verify.
End PrePare.

(** ** Strong provable broadcast: value, vote, proof *)

Module SPBValue.
Record t : Type := mk {
  val : Z;
  signatures : list (PublicKey * Signature);
  block : Block.t;
  round : Z;
  phase : Z;
}.

Definition new (block : Block.t) (round phase val : Z)
    (signatures : list (PublicKey * Signature)) : t := mk val signatures block round phase.

Definition with_phase (p : Z) (v : t) : t :=
  mk (val v) (signatures v) (block v) (round v) p.

Section Digest.
Context `{CryptoLib}.

Definition aba_val_digest (val : Z) : Digest := hash_bytes (u8_le val).

Definition preimage (v : t) : list Z :=
  digest_bytes (Block.digest (block v)) ++ u64_le (round v) ++ u8_le (phase v).

Definition digest (v : t) : Digest := hash_bytes (preimage v).
End Digest.
End SPBValue.

Module SPBVote.
Record t : Type := mk {
  hash : Digest;
  phase : Z;
  height : Z;
  epoch : Z;
  round : Z;
  proposer : PublicKey;
  author : PublicKey;
  signature : Signature;
}.

(** [to_be_bytes] of a [u8]. *)
Definition preimage (v : t) : list Z := digest_bytes (hash v) ++ be_bytes 1 (phase v).

Definition with_signature (s : Signature) (v : t) : t :=
  mk (hash v) (phase v) (height v) (epoch v) (round v) (proposer v) (author v) s.

Section Verify.
Context `{CryptoLib}.

Definition digest (v : t) : Digest := hash_bytes (preimage v).

Definition unsigned (value : SPBValue.t) (author : PublicKey) : t :=
  mk (SPBValue.digest value) (SPBValue.phase value)
    (Block.height (SPBValue.block value)) (Block.epoch (SPBValue.block value))
    (SPBValue.round value) (Block.author (SPBValue.block value)) author Signature_default.

Definition new (value : SPBValue.t) (author : PublicKey) (svc : SignatureService)
    : ConsensusResult t :=
  let vote := unsigned value author in
  signature ← sign_with svc (digest vote);
  Ok (with_signature signature vote).

Definition verify (v : t) (committee : Committee) : ConsensusResult unit :=
  ensure (0 <? stake committee (author v)) (UnknownAuthority (author v)) ;;
  check_signature (signature v) (digest v) (author v).
End Verify.
End SPBVote.

Module SPBProof.
Record t : Type := mk {
  phase : Z;
  round : Z;
  height : Z;
  shares : list SPBVote.t;
}.

(** The first loop of [verify]: stakes are summed per share. *)
Fixpoint shares_weight (committee : Committee) (shares : list SPBVote.t) (weight : Z)
    : ConsensusResult Z :=
  match shares with
  | [] => Ok weight
  | share :: shares =>
      let name := SPBVote.author share in
      let voting_rights := stake committee name in
      ensure (0 <? voting_rights) (UnknownAuthority name) ;;
      shares_weight committee shares (weight +32 voting_rights)
  end.

(** The second loop. *)
Fixpoint verify_shares `{CryptoLib} (committee : Committee) (shares : list SPBVote.t)
    : ConsensusResult unit :=
  match shares with
  | [] => Ok tt
  | share :: shares => SPBVote.verify share committee ;; verify_shares committee shares
  end.

Definition verify `{CryptoLib} (p : t) (committee : Committee) : ConsensusResult unit :=
  if phase p <=? INIT_PHASE then Ok tt
  else if LOCK_PHASE <=? phase p then
    weight ← shares_weight committee (shares p) 0;
    ensure (quorum_threshold committee <=? weight) SPBRequiresQuorum ;;
    verify_shares committee (shares p)
  else Ok tt.
End SPBProof.

Section SPBValueVerify.
Context `{CryptoLib}.

(** The [flag] of [SPBValue::verify]: enough signatures for the value's tag. *)
Definition enough_signatures (v : SPBValue.t) (committee : Committee) : bool :=
  let weight := wrap32 (Z.of_nat (length (SPBValue.signatures v))) in
  if (SPBValue.val v =? OPT) && (weight <? random_coin_threshold committee) then false
  else if (SPBValue.val v =? PES) && (weight <? quorum_threshold committee) then false
  else true.

(** [SPBValue::verify] *)
Definition SPBValue_verify (v : SPBValue.t) (committee : Committee) (proof : SPBProof.t)
    (fallback_length : Z) : ConsensusResult unit :=
  let flag := enough_signatures v committee in
  let b := SPBValue.block v in
  (if flag && negb (Block.height b =? 1) then
     from_crypto
       (Signature_verify_batch (SPBValue.aba_val_digest (SPBValue.val v))
          (SPBValue.signatures v))
   else if negb (Block.height b =? 1) then Err (InvalidPrePareTag (SPBValue.val v))
   else Ok tt) ;;
  ensure (QC.round (Block.qc b) =? fallback_length)
    (InvalidPreParePESQC (QC.round (Block.qc b))) ;;
  Block.verify b committee ;;
  SPBProof.verify proof committee.
End SPBValueVerify.

(** ** The coin *)

Module RandomnessShare.
Record t `{CryptoLib} : Type := mk {
  height : Z;
  epoch : Z;
  round : Z;
  author : PublicKey;
  signature_share : SignatureShare;
}.

Section Verify.
Context `{CryptoLib}.

Definition preimage_of (height epoch round : Z) : list Z :=
  u64_le round ++ u64_le height ++ u64_le epoch.

Definition preimage (s : t) : list Z := preimage_of (height s) (epoch s) (round s).
Definition digest (s : t) : Digest := hash_bytes (preimage s).

Definition new (height epoch round : Z) (author : PublicKey) (svc : SignatureService)
    : ConsensusResult t :=
  let d := hash_bytes (preimage_of height epoch round) in
  signature_share ← expect "called `Option::unwrap()` on a `None` value"
    (request_tss_signature svc d);
  Ok (mk _ height epoch round author signature_share).

Definition verify (s : t) (committee : Committee) (pk_set : PublicKeySet)
    : ConsensusResult unit :=
  ensure (0 <? stake committee (author s)) (UnknownAuthority (author s)) ;;
  id ← committee_id committee (author s);
  let tss_pk := public_key_share pk_set id in
  ensure (tss_verify tss_pk (signature_share s) (digest_bytes (digest s)))
    (InvalidThresholdSignature (author s)).
End Verify.
End RandomnessShare.

Module RandomCoin.
Record t `{CryptoLib} : Type := mk {
  height : Z;
  epoch : Z;
  round : Z;
  leader : PublicKey;
  shares : list RandomnessShare.t;
}.
End RandomCoin.

Module MDoneAndShare.
Record t `{CryptoLib} : Type := mk {
  author : PublicKey;
  signature : Signature;
  epoch : Z;
  height : Z;
  round : Z;
  share : RandomnessShare.t;
}.

Section Verify.
Context `{CryptoLib}.

Definition preimage (m : t) : list Z :=
  pk_bytes (author m) ++ u64_be (round m) ++ u64_le (height m) ++ u64_le (epoch m).
Definition digest (m : t) : Digest := hash_bytes (preimage m).

Definition new (author : PublicKey) (svc : SignatureService) (epoch height round : Z)
    (share : RandomnessShare.t) : ConsensusResult t :=
  let done := mk _ author Signature_default epoch height round share in
  signature ← sign_with svc (digest done);
  Ok (mk _ author signature epoch height round share).

Definition verify (m : t) (committee : Committee) (pk_set : PublicKeySet)
    : ConsensusResult unit :=
  check_signature (signature m) (digest m) (author m) ;;
  RandomnessShare.verify (share m) committee pk_set.
End Verify.
End MDoneAndShare.

(** ** Pre-votes, votes and halts of the agreement *)

(** [hasher.update(string)]: the bytes of the string. *)
Definition string_bytes (s : string) : list Z :=
  (fun c => Z.of_N (Ascii.N_of_ascii c)) <$> String.list_ascii_of_string s.

Inductive PreVoteTag : Type :=
| PreVote_Yes (value : SPBValue.t) (proof : SPBProof.t)
| PreVote_No.

(** [impl Display for PreVoteTag] *)
Definition PreVoteTag_to_string (t : PreVoteTag) : string :=
  match t with PreVote_Yes _ _ => "PreVote-Yes" | PreVote_No => "PreVote-No" end.

Definition PreVoteTag_verify `{CryptoLib} (t : PreVoteTag) (committee : Committee)
    (fallback_length : Z) : ConsensusResult unit :=
  match t with
  | PreVote_Yes v p => SPBValue_verify v committee p fallback_length
  | PreVote_No => Ok tt
  end.

(** [PreVoteTag::new_yes] and [PreVoteTag::new_no] *)
Definition PreVoteTag_new_yes (v : SPBValue.t) (p : SPBProof.t) : PreVoteTag := PreVote_Yes v p.
Definition PreVoteTag_new_no : PreVoteTag := PreVote_No.

Definition PreVoteTag_is_yes (t : PreVoteTag) : bool :=
  match t with PreVote_Yes _ _ => true | _ => false end.

Module MPreVote.
Record t : Type := mk {
  author : PublicKey;
  signature : Signature;
  leader : PublicKey;
  round : Z;
  height : Z;
  epoch : Z;
  tag : PreVoteTag;
}.

Definition preimage (m : t) : list Z :=
  pk_bytes (author m) ++ pk_bytes (leader m) ++ u64_be (round m) ++ u64_le (height m)
  ++ u64_le (epoch m) ++ string_bytes (PreVoteTag_to_string (tag m)).

Section Verify.
Context `{CryptoLib}.

Definition digest (m : t) : Digest := hash_bytes (preimage m).

Definition new (author leader : PublicKey) (svc : SignatureService) (round height epoch : Z)
    (tag : PreVoteTag) : ConsensusResult t :=
  let pvote := mk author Signature_default leader round height epoch tag in
  signature ← sign_with svc (digest pvote);
  Ok (mk author signature leader round height epoch tag).

Definition verify (m : t) (committee : Committee) (fallback_length : Z)
    : ConsensusResult unit :=
  let voting_rights := stake committee (author m) in
  ensure (0 <? voting_rights) (UnknownAuthority (author m)) ;;
  check_signature (signature m) (digest m) (author m) ;;
  PreVoteTag_verify (tag m) committee fallback_length.
End Verify.

Definition is_yes (m : t) : bool := PreVoteTag_is_yes (tag m).
End MPreVote.

Inductive MVoteTag : Type :=
| MVote_Yes (value : SPBValue.t) (proof : SPBProof.t) (vote : SPBVote.t)
| MVote_No.

Definition MVoteTag_to_string (t : MVoteTag) : string :=
  match t with MVote_Yes _ _ _ => "Vote-Yes" | MVote_No => "Vote-No" end.

(** [MVoteTag::new_yes] and [MVoteTag::new_no] *)
Definition MVoteTag_new_yes `{CryptoLib} (author : PublicKey) (value : SPBValue.t)
    (proof : SPBProof.t) (svc : SignatureService) : ConsensusResult MVoteTag :=
  spbvote ← SPBVote.new value author svc;
  Ok (MVote_Yes value proof spbvote).
Definition MVoteTag_new_no : MVoteTag := MVote_No.

Definition MVoteTag_verify `{CryptoLib} (t : MVoteTag) (committee : Committee)
    (fallback_length : Z) : ConsensusResult unit :=
  match t with
  | MVote_Yes value proof prevote =>
      SPBValue_verify value committee proof fallback_length ;;
      SPBVote.verify prevote committee
  | MVote_No => Ok tt
  end.

Module MVote.
Record t : Type := mk {
  author : PublicKey;
  leader : PublicKey;
  round : Z;
  height : Z;
  epoch : Z;
  signature : Signature;
  tag : MVoteTag;
}.

Definition preimage (m : t) : list Z :=
  pk_bytes (author m) ++ u64_be (round m) ++ u64_le (height m) ++ u64_le (epoch m)
  ++ string_bytes (MVoteTag_to_string (tag m)).

Section Verify.
Context `{CryptoLib}.

Definition digest (m : t) : Digest := hash_bytes (preimage m).

Definition new (author leader : PublicKey) (svc : SignatureService) (round height epoch : Z)
    (tag : MVoteTag) : ConsensusResult t :=
  let pvote := mk author leader round height epoch Signature_default tag in
  signature ← sign_with svc (digest pvote);
  Ok (mk author leader round height epoch signature tag).

Definition verify (m : t) (committee : Committee) (_pk_set : PublicKeySet)
    (fallback_length : Z) : ConsensusResult unit :=
  let voting_rights := stake committee (author m) in
  ensure (0 <? voting_rights) (UnknownAuthority (author m)) ;;
  check_signature (signature m) (digest m) (author m) ;;
  MVoteTag_verify (tag m) committee fallback_length.
End Verify.
End MVote.

Module MHalt.
Record t : Type := mk {
  author : PublicKey;
  leader : PublicKey;
  value : SPBValue.t;
  proof : SPBProof.t;
  round : Z;
  height : Z;
  epoch : Z;
  signature : Signature;
}.

Definition preimage (m : t) : list Z :=
  pk_bytes (author m) ++ u64_le (round m) ++ u64_le (height m) ++ u64_le (epoch m).

Section Verify.
Context `{CryptoLib}.

Definition digest (m : t) : Digest := hash_bytes (preimage m).

Definition new (author leader : PublicKey) (value : SPBValue.t) (proof : SPBProof.t)
    (svc : SignatureService) : ConsensusResult t :=
  let halt := mk author leader value proof (SPBProof.round proof) (SPBProof.height proof)
                (Block.epoch (SPBValue.block value)) Signature_default in
  signature ← sign_with svc (digest halt);
  Ok (mk author leader value proof (SPBProof.round proof) (SPBProof.height proof)
        (Block.epoch (SPBValue.block value)) signature).

Definition verify (m : t) (committee : Committee) (_pk_set : PublicKeySet)
    (fallback_length : Z) : ConsensusResult unit :=
  let voting_rights := stake committee (author m) in
  ensure (0 <? voting_rights) (UnknownAuthority (author m)) ;;
  check_signature (signature m) (digest m) (author m) ;;
  ensure (SPBProof.phase (proof m) =? FIN_PHASE) InvalidFinProof ;;
  SPBValue_verify (value m) committee (proof m) fallback_length.
End Verify.
End MHalt.

(** ** The wire type [ConsensusMessage] of [core.rs] *)

Inductive ConsensusMessage `{CryptoLib} : Type :=
| HsPropose (b : Block.t)
| HSVote (v : HVote.t)
| HsLoopBack (b : Block.t)
| SyncRequest (d : Digest) (sender : PublicKey)
| SyncReply (b : Block.t)
| SPBPropose (v : SPBValue.t) (p : SPBProof.t)
| SPBVoteMsg (v : SPBVote.t)
| SPBFinsh (v : SPBValue.t) (p : SPBProof.t)
| SPBDoneAndShare (m : MDoneAndShare.t)
| SMVBAPreVote (m : MPreVote.t)
| SMVBAVote (m : MVote.t)
| SMVBAHalt (m : MHalt.t)
| ParPrePare (p : PrePare.t)
| ParLoopBack (b : Block.t)
| FBPropose (b : Block.t)
| FBVote (v : HVote.t)
| FBLoopBack (b : Block.t).

(** [FilterInput] *)
Notation FilterInput := (ConsensusMessage * list SocketAddr)%type.
