(* ===== verification/Leader.v ===== *)
(** * Leader election

    Models [consensus/src/leader.rs]: the sorted member names, the window of
    leaders of a height, the position of a node in that window, and the coins of
    the agreement rounds. *)

From S2P Require Import Prelude Machine Crypto Config Messages.

Record LeaderElector `{CryptoLib} : Type := mkLeaderElector {
  names : list PublicKey;
  name_to_idx : gmap PublicKey Z;
  window : Z;
  random_coins : gmap (Z * Z) RandomCoin.t;
}.

#[export] Instance LeaderElector_eta `{CryptoLib} : Settable LeaderElector :=
  fun r => mkLeaderElector _ (names r) (name_to_idx r) (window r) (random_coins r).

(** [names.iter().enumerate()] *)
Fixpoint enumerate {A} (i : Z) (l : list A) : list (Z * A) :=
  match l with [] => [] | x :: l => (i, x) :: enumerate (i + 1) l end.

Section Leader.
Context `{CryptoLib}.

Definition LeaderElector_new (committee : Committee) (leader_window : Z) : LeaderElector :=
  let names := sort_keys (authority_keys committee) in
  let name_to_idx := list_to_map ((fun '(idx, name) => (name, idx)) <$> enumerate 0 names) in
  mkLeaderElector _ names name_to_idx leader_window ∅.

Definition names_len (e : LeaderElector) : Z := Z.of_nat (length (names e)).

(** [height as usize % self.names.len()] *)
Definition get_leader_idx (e : LeaderElector) (height : Z) : ConsensusResult Z :=
  if names_len e =? 0 then
    Panic "attempt to calculate the remainder with a divisor of zero"
  else Ok (height mod names_len e).

(** One iteration of the loop of [get_leaders]. *)
Definition leader_at (e : LeaderElector) (i : Z) : ConsensusResult PublicKey :=
  expect "index out of bounds" (names e !! Z.to_nat ((i +64 names_len e) mod names_len e)).

Fixpoint collect {A B} (f : A -> ConsensusResult B) (l : list A) : ConsensusResult (list B) :=
  match l with
  | [] => Ok []
  | x :: l => y ← f x; ys ← collect f l; Ok (y :: ys)
  end.

(** The range [start..end] is empty when [end <= start]. *)
Definition get_leaders (e : LeaderElector) (height : Z) : ConsensusResult (list PublicKey) :=
  start ← get_leader_idx e height;
  let stop := start +64 window e in
  collect (leader_at e) (seqZ start (stop - start)).

(** [self.name_to_idx[&name]] panics for a key that is not in the map. *)
Definition index_as_leader (e : LeaderElector) (name : PublicKey) (height : Z)
    : ConsensusResult (option Z) :=
  start ← get_leader_idx e height;
  position ← expect "no entry found for key" (name_to_idx e !! name);
  let idx := (position +64 names_len e -64 start) mod names_len e in
  Ok (if idx <? window e then Some idx else None).

Definition add_random_coin (e : LeaderElector) (coin : RandomCoin.t) : LeaderElector :=
  e <| random_coins := <[(RandomCoin.height coin, RandomCoin.round coin) := coin]>
                         (random_coins e) |>.

Definition get_coin_leader (e : LeaderElector) (height round : Z) : option PublicKey :=
  RandomCoin.leader <$> random_coins e !! (height, round).
End Leader.
