(* ===== verification/Aggregator.v ===== *)
(** * Vote aggregation

    Models [consensus/src/aggregator.rs]: the three makers, which collect votes
    until a threshold of stake is reached, and the [Aggregator], which keeps one
    maker per key. *)

From S2P Require Import Prelude Machine Crypto Config Messages.

(** ** [QCMaker] *)

Record QCMaker : Type := mkQCMaker {
  qm_weight : Z;
  qm_votes : list (PublicKey * Signature);
  qm_used : gset PublicKey;
}.

#[export] Instance QCMaker_eta : Settable QCMaker :=
  fun r => mkQCMaker (qm_weight r) (qm_votes r) (qm_used r).

Definition QCMaker_new : QCMaker := mkQCMaker 0 [] ∅.

(** The certificate built from the last vote and the votes collected. *)
Definition qc_of_vote (vote : HVote.t) (votes : list (PublicKey * Signature)) : QC.t :=
  QC.mk (HVote.hash vote) (HVote.height vote) (HVote.epoch vote) (HVote.round vote)
    (HVote.tag vote) (HVote.proposer vote) (HVote.proposer vote) votes.

(** [used.insert(author)] returns whether the author is new, and [ensure!] on it. *)
Definition QCMaker_append (vote : HVote.t) (committee : Committee)
    : act QCMaker ConsensusError (option QC.t) :=
  let author := HVote.author vote in
  used ← gets qm_used;
  ensure_act (negb (bool_decide (author ∈ used))) (AuthorityReuseinQC author) ;;
  modify (fun m => m <| qm_used := {[author]} ∪ qm_used m |>) ;;
  modify (fun m => m <| qm_votes := qm_votes m ++ [(author, HVote.signature vote)] |>) ;;
  modify (fun m => m <| qm_weight := qm_weight m +32 stake committee author |>) ;;
  weight ← gets qm_weight;
  if quorum_threshold committee <=? weight then
    modify (fun m => m <| qm_weight := 0 |>) ;;
    votes ← gets qm_votes;
    mret (Some (qc_of_vote vote votes))
  else mret None.

(** ** [ProofMaker] *)

Record ProofMaker : Type := mkProofMaker {
  pm_weight : Z;
  pm_votes : list SPBVote.t;
  pm_used : gset PublicKey;
}.

#[export] Instance ProofMaker_eta : Settable ProofMaker :=
  fun r => mkProofMaker (pm_weight r) (pm_votes r) (pm_used r).

Definition ProofMaker_new : ProofMaker := mkProofMaker 0 [] ∅.

(** [phase + 1] is a [u8] addition. *)
Definition next_phase (phase : Z) : Z := (phase + 1) mod 256.

Definition ProofMaker_append (vote : SPBVote.t) (committee : Committee)
    : act ProofMaker ConsensusError (option SPBProof.t) :=
  let author := SPBVote.author vote in
  used ← gets pm_used;
  ensure_act (negb (bool_decide (author ∈ used))) (AuthorityReuseinProof author used) ;;
  modify (fun m => m <| pm_used := {[author]} ∪ pm_used m |>) ;;
  modify (fun m => m <| pm_votes := pm_votes m ++ [vote] |>) ;;
  modify (fun m => m <| pm_weight := pm_weight m +32 stake committee author |>) ;;
  weight ← gets pm_weight;
  if quorum_threshold committee <=? weight then
    modify (fun m => m <| pm_weight := 0 |>) ;;
    votes ← gets pm_votes;
    mret (Some (SPBProof.mk (next_phase (SPBVote.phase vote)) (SPBVote.round vote)
                  (SPBVote.height vote) votes))
  else mret None.

(** ** [SMVBARandomCoinMaker] *)

Section Coin.
Context `{CryptoLib}.

Record SMVBARandomCoinMaker : Type := mkCoinMaker {
  cm_weight : Z;
  cm_shares : list RandomnessShare.t;
  cm_used : gset PublicKey;
}.

#[export] Instance CoinMaker_eta : Settable SMVBARandomCoinMaker :=
  fun r => mkCoinMaker (cm_weight r) (cm_shares r) (cm_used r).

Definition CoinMaker_new : SMVBARandomCoinMaker := mkCoinMaker 0 [] ∅.

(** The [BTreeMap] from share index to signature share; the later share of an
    index replaces the earlier. *)
Fixpoint share_map (committee : Committee) (shares : list RandomnessShare.t)
    (sigs : gmap Z SignatureShare) : ConsensusResult (gmap Z SignatureShare) :=
  match shares with
  | [] => Ok sigs
  | share :: shares =>
      id ← committee_id committee (RandomnessShare.author share);
      share_map committee shares (<[id := RandomnessShare.signature_share share]> sigs)
  end.

(** The leader a combined signature elects:
    [usize::from_be_bytes(sig.to_bytes()[0..8]) % committee.size()], then the key at
    that index of the sorted keys. *)
Definition coin_leader (committee : Committee) (sig : TssSignature) : ConsensusResult PublicKey :=
  if committee_size committee =? 0 then
    Panic "attempt to calculate the remainder with a divisor of zero"
  else
    let id := from_be_bytes (take 8 (tss_to_bytes sig)) mod committee_size committee in
    expect "index out of bounds" (sort_keys (authority_keys committee) !! Z.to_nat id).

Definition CoinMaker_append (share : RandomnessShare.t) (committee : Committee)
    (pk_set : PublicKeySet) : act SMVBARandomCoinMaker ConsensusError (option RandomCoin.t) :=
  let author := RandomnessShare.author share in
  used ← gets cm_used;
  ensure_act (negb (bool_decide (author ∈ used))) (AuthorityReuseinCoin author) ;;
  modify (fun m => m <| cm_used := {[author]} ∪ cm_used m |>) ;;
  modify (fun m => m <| cm_shares := cm_shares m ++ [share] |>) ;;
  modify (fun m => m <| cm_weight := cm_weight m +32 stake committee author |>) ;;
  weight ← gets cm_weight;
  if weight =? random_coin_threshold committee then
    shares ← gets cm_shares;
    sigs ← lift (share_map committee shares ∅);
    match combine_signatures pk_set sigs with
    | Some sig =>
        leader ← lift (coin_leader committee sig);
        mret (Some (RandomCoin.mk _ (RandomnessShare.height share)
                      (RandomnessShare.epoch share) (RandomnessShare.round share)
                      leader shares))
    | None => mret None
    end
  else mret None.

(** ** [Aggregator] *)

Record Aggregator : Type := mkAggregator {
  agg_committee : Committee;
  hs_votes_aggregators : gmap (Z * Digest) QCMaker;
  fallback_votes_aggregators : gmap (Z * Z) QCMaker;
  spb_votes_aggregators : gmap (Z * Z * Z) ProofMaker;
  pre_votes_aggregators : gmap (Z * Z) ProofMaker;
  smvba_randomcoin_aggregators : gmap (Z * Z) SMVBARandomCoinMaker;
}.

#[export] Instance Aggregator_eta : Settable Aggregator :=
  fun r => mkAggregator (agg_committee r) (hs_votes_aggregators r)
             (fallback_votes_aggregators r) (spb_votes_aggregators r)
             (pre_votes_aggregators r) (smvba_randomcoin_aggregators r).

Definition Aggregator_new (committee : Committee) : Aggregator :=
  mkAggregator committee ∅ ∅ ∅ ∅ ∅.

Definition add_hs_vote (vote : HVote.t) : act Aggregator ConsensusError (option QC.t) :=
  let k := (HVote.height vote, HVote.hash vote) in
  committee ← gets agg_committee;
  zoom (fun a => default QCMaker_new (hs_votes_aggregators a !! k))
       (fun m a => a <| hs_votes_aggregators := <[k := m]> (hs_votes_aggregators a) |>)
       (QCMaker_append vote committee).

Definition add_fallback_vote (vote : HVote.t) : act Aggregator ConsensusError (option QC.t) :=
  let k := (HVote.height vote, HVote.round vote) in
  committee ← gets agg_committee;
  zoom (fun a => default QCMaker_new (fallback_votes_aggregators a !! k))
       (fun m a => a <| fallback_votes_aggregators := <[k := m]> (fallback_votes_aggregators a) |>)
       (QCMaker_append vote committee).

Definition add_spb_vote (vote : SPBVote.t) : act Aggregator ConsensusError (option SPBProof.t) :=
  let k := (SPBVote.height vote, SPBVote.round vote, SPBVote.phase vote) in
  committee ← gets agg_committee;
  zoom (fun a => default ProofMaker_new (spb_votes_aggregators a !! k))
       (fun m a => a <| spb_votes_aggregators := <[k := m]> (spb_votes_aggregators a) |>)
       (ProofMaker_append vote committee).

Definition add_pre_vote (vote : SPBVote.t) : act Aggregator ConsensusError (option SPBProof.t) :=
  let k := (SPBVote.height vote, SPBVote.round vote) in
  committee ← gets agg_committee;
  zoom (fun a => default ProofMaker_new (pre_votes_aggregators a !! k))
       (fun m a => a <| pre_votes_aggregators := <[k := m]> (pre_votes_aggregators a) |>)
       (ProofMaker_append vote committee).

Definition add_smvba_random (share : RandomnessShare.t) (pk_set : PublicKeySet)
    : act Aggregator ConsensusError (option RandomCoin.t) :=
  let k := (RandomnessShare.height share, RandomnessShare.round share) in
  committee ← gets agg_committee;
  zoom (fun a => default CoinMaker_new (smvba_randomcoin_aggregators a !! k))
       (fun m a => a <| smvba_randomcoin_aggregators := <[k := m]> (smvba_randomcoin_aggregators a) |>)
       (CoinMaker_append share committee pk_set).

(** [retain(|k, _| k.height > height)] *)
Definition cleanup_hs_vote (height : Z) (a : Aggregator) : Aggregator :=
  a <| hs_votes_aggregators := filter (fun kv => height < kv.1.1) (hs_votes_aggregators a) |>.

Definition cleanup_spb_vote (height : Z) (a : Aggregator) : Aggregator :=
  a <| spb_votes_aggregators := filter (fun kv => height < kv.1.1.1) (spb_votes_aggregators a) |>
    <| pre_votes_aggregators := filter (fun kv => height < kv.1.1) (pre_votes_aggregators a) |>.

Definition cleanup_mvba_random (height : Z) (a : Aggregator) : Aggregator :=
  a <| smvba_randomcoin_aggregators :=
         filter (fun kv => height < kv.1.1) (smvba_randomcoin_aggregators a) |>.
End Coin.
