(* ===== verification/Timer.v ===== *)
(** * The proposal timer

    Models [consensus/src/timer.rs].  An armed [tokio] sleep is its deadline in
    milliseconds; the time is an argument.  [Waker]s are numbers, and [reset]
    says which waker it wakes. *)

From S2P Require Import Prelude.

Record Timer : Type := mkTimer {
  sleep : option Z;
  waker : option nat;
}.

#[export] Instance Timer_eta : Settable Timer := fun r => mkTimer (sleep r) (waker r).

Inductive Poll : Type := Ready | Pending.

Definition Timer_new : Timer := mkTimer None None.

(** Both branches of [Some(d)] leave a sleep with deadline [now + d]; the waker is
    taken and woken. *)
Definition reset (now : Z) (duration : option Z) (t : Timer) : option nat * Timer :=
  let t := match duration with
           | Some d => t <| sleep := Some (now + d) |>
           | None => t <| sleep := None |>
           end in
  (waker t, t <| waker := None |>).

(** [Future::poll]: the waker is stored; a completed sleep stays completed. *)
Definition poll (now : Z) (cx : nat) (t : Timer) : Poll * Timer :=
  let t := t <| waker := Some cx |> in
  match sleep t with
  | Some deadline => (if deadline <=? now then Ready else Pending, t)
  | None => (Pending, t)
  end.

(** A task polls the timer at each of the given times; a reset may happen between. *)
Inductive timer_event : Type :=
| TPoll (now : Z) (cx : nat)
| TReset (now : Z) (duration : option Z).

Inductive timer_obs : Type :=
| Polled (r : Poll)
| Woken (cx : option nat).

Fixpoint run_timer (l : list timer_event) (t : Timer) : list timer_obs * Timer :=
  match l with
  | [] => ([], t)
  | TPoll now cx :: l =>
      let '(r, t) := poll now cx t in
      let '(obs, t) := run_timer l t in (Polled r :: obs, t)
  | TReset now d :: l =>
      let '(w, t) := reset now d t in
      let '(obs, t) := run_timer l t in (Woken w :: obs, t)
  end.

(** ** Behaviour *)

(** A timer fires exactly from its deadline on. *)
Lemma poll_ready_iff now cx t :
  (poll now cx t).1 = Ready <-> exists d, sleep t = Some d /\ d <= now.
Proof.
  unfold poll. simpl. destruct (sleep t) as [d|]; simpl.
  - destruct (Z.leb_spec d now); split; try done; [eauto | intros (? & [= ->] & ?); lia].
  - split; [done | by intros (? & ? & _)].
Qed.

(** ** No lost wake-up

    A task that polled and saw [Pending] is woken by the next [reset], whatever
    the reset does, so it polls the new deadline. *)
Lemma reset_wakes_last_poller now now' cx d t :
  (reset now' d (poll now cx t).2).1 = Some cx.
Proof. unfold poll, reset. simpl. destruct (sleep t), d; reflexivity. Qed.
