(* ===== verification/Store.v ===== *)
(** * The key-value store task

    Models [store/src/lib.rs]: the task that owns the database, its three
    commands, and the obligations to readers that wait for a key.  RocksDB is
    third-party code: its [put] and [get] are a map that may refuse a call, which
    each command says through its flag. *)

From S2P Require Import Prelude.

Notation Key := (list Z).
Notation Value := (list Z).

(** A reply channel ([oneshot::Sender]) is a token. *)
Notation Token := nat (only parsing).

Inductive StoreCommand : Type :=
| Write (key : Key) (value : Value)
| Read (key : Key) (sender : Token)
| NotifyRead (key : Key) (sender : Token).

(** What is sent on a reply channel; [ReplyErr] is a database error. *)
Inductive Reply : Type :=
| ReplyRead (r : option Value)
| ReplyNotify (v : Value)
| ReplyErr.

Record StoreState : Type := mkStoreState {
  db : gmap Key Value;
  obligations : gmap Key (list Token);
}.

#[export] Instance StoreState_eta : Settable StoreState :=
  fun r => mkStoreState (db r) (obligations r).

Definition store_init : StoreState := mkStoreState ∅ ∅.

(** One turn of the loop: the command, whether the database call fails, the
    replies sent. *)
Definition store_step (fault : bool) (command : StoreCommand) (s : StoreState)
    : list (Token * Reply) * StoreState :=
  match command with
  | Write key value =>
      let s := if fault then s else s <| db := <[key := value]> (db s) |> in
      match obligations s !! key with
      | Some senders =>
          ((fun t => (t, ReplyNotify value)) <$> senders,
           s <| obligations := delete key (obligations s) |>)
      | None => ([], s)
      end
  | Read key sender =>
      ([(sender, if fault then ReplyErr else ReplyRead (db s !! key))], s)
  | NotifyRead key sender =>
      if fault then ([(sender, ReplyErr)], s)
      else
        match db s !! key with
        | None =>
            ([], s <| obligations :=
                   <[key := default [] (obligations s !! key) ++ [sender]]> (obligations s) |>)
        | Some value => ([(sender, ReplyNotify value)], s)
        end
  end.

Fixpoint store_run (l : list (bool * StoreCommand)) (s : StoreState)
    : list (Token * Reply) * StoreState :=
  match l with
  | [] => ([], s)
  | (fault, c) :: l =>
      let '(r, s) := store_step fault c s in
      let '(rs, s) := store_run l s in (r ++ rs, s)
  end.
