(* ===== verification/Sync.v ===== *)
(** * The services the core calls: store client, mempool driver, synchronizer

    Models [consensus/src/mempool.rs], [consensus/src/synchronizer.rs] and the
    client side of [store/src/lib.rs].  A [Sender<T>] is the list of the values
    sent on it.  The mempool task and bincode are behind the class [NodeEnv]: the
    core's theorems hold for every answer the mempool may give. *)

From S2P Require Import Prelude Machine Crypto Config Messages Store.

(** ** [consensus/src/mempool.rs] *)

Inductive PayloadStatus : Type := Accept | Reject | Wait.

(** The reply channels of [Get] and [Verify] are left out. *)
Inductive ConsensusMempoolMessage : Type :=
| MempoolGet (max : Z) (tag : Z)
| MempoolVerify (block : Block.t) (tag : Z)
| MempoolCleanup (digests : list Digest) (round : Z).

(** What the node's environment answers.  The mempool's answer to a request may
    depend on all the requests before it; [db_get_fault n] says whether RocksDB
    fails the [n]-th read. *)
Class NodeEnv : Type := {
  serialize_block : Block.t -> Value;
  deserialize_block : Value -> option Block.t;
  mempool_get : list ConsensusMempoolMessage -> Z -> Z -> list Digest;
  mempool_verify : list ConsensusMempoolMessage -> Block.t -> Z -> PayloadStatus;
  db_get_fault : nat -> bool;
}.

(** bincode decodes what it encodes. *)
Class BincodeLaws `{NodeEnv} : Prop := {
  bincode_roundtrip : forall b, deserialize_block (serialize_block b) = Some b;
}.

Section Services.
Context `{CryptoLib} `{NodeEnv}.

(** [MempoolDriver { mempool_channel }] *)
Notation MempoolDriver := (list ConsensusMempoolMessage).

Definition send_mempool (m : ConsensusMempoolMessage)
    : act MempoolDriver ConsensusError unit := modify (fun ch => ch ++ [m]).

Definition driver_get (max tag : Z) : act MempoolDriver ConsensusError (list Digest) :=
  history ← gets (fun ch => ch);
  send_mempool (MempoolGet max tag) ;;
  mret (mempool_get history max tag).

Definition driver_verify (block : Block.t) (tag : Z) : act MempoolDriver ConsensusError bool :=
  history ← gets (fun ch => ch);
  send_mempool (MempoolVerify block tag) ;;
  match mempool_verify history block tag with
  | Accept => mret true
  | Reject => throw InvalidPayload
  | Wait => mret false
  end.

Definition driver_cleanup_par (b0 : Block.t) : act MempoolDriver ConsensusError unit :=
  send_mempool (MempoolCleanup (Block.payload b0) (Block.height b0)).

(** ** The store as its clients see it

    Commands go through one FIFO channel, so a client's [read] answers from the
    map its own [write]s have filled. *)

Record StoreClient : Type := mkStoreClient {
  kv : gmap Key Value;
  reads : nat;
}.

Definition store_write (key : Key) (value : Value) : act StoreClient ConsensusError unit :=
  modify (fun st => mkStoreClient (<[key := value]> (kv st)) (reads st)).

Definition store_read (key : Key) : act StoreClient ConsensusError (option Value) :=
  n ← gets reads;
  modify (fun st => mkStoreClient (kv st) (S (reads st))) ;;
  if db_get_fault n then throw StoreError else gets (fun st => kv st !! key).

(** [bincode::deserialize(&bytes)?] *)
Definition decode_block (bytes : Value) : ConsensusResult Block.t :=
  match deserialize_block bytes with
  | Some b => Ok b
  | None => Err SerializationError
  end.

(** ** [Synchronizer { store, inner_channel }] *)

Notation SyncState := (StoreClient * list Block.t)%type.

Definition on_store {A} (m : act StoreClient ConsensusError A) : act SyncState ConsensusError A :=
  zoom fst (fun st s => (st, s.2)) m.

Definition get_parent_block (block : Block.t) : act SyncState ConsensusError (option Block.t) :=
  if QC.eqb (Block.qc block) QC.genesis then mret (Some Block.genesis)
  else
    let parent := Block.parent block in
    r ← on_store (store_read (Digest_to_vec parent));
    match r with
    | Some bytes => b ← lift (decode_block bytes); mret (Some b)
    | None => modify (fun s => (s.1, s.2 ++ [block])) ;; mret None
    end.

Definition get_ancestors (block : Block.t)
    : act SyncState ConsensusError (option (Block.t * Block.t)) :=
  r ← get_parent_block block;
  match r with
  | None => mret None
  | Some b1 =>
      r0 ← get_parent_block b1;
      b0 ← lift (expect "We should have all ancestors of delivered blocks" r0);
      mret (Some (b0, b1))
  end.

(** [Synchronizer::transmit]: the addresses a message goes to, then the send. *)
Definition transmit_addresses (from : PublicKey) (to : option PublicKey)
    (committee : Committee) (tag : Z) : ConsensusResult (list SocketAddr) :=
  match to with
  | Some to =>
      if tag =? OPT then a ← address committee to; Ok [a]
      else a ← smvba_address committee to; Ok [a]
  | None =>
      if tag =? OPT then Ok (broadcast_addresses committee from)
      else Ok (smvba_broadcast_addresses committee from)
  end.

Definition transmit (message : ConsensusMessage) (from : PublicKey) (to : option PublicKey)
    (committee : Committee) (tag : Z) : act (list FilterInput) ConsensusError unit :=
  addresses ← lift (transmit_addresses from to committee tag);
  modify (fun ch => ch ++ [(message, addresses)]).
End Services.
