(* ===== verification/Mempool.v ===== *)
(** * The mempool: payloads, the payload maker, the core

    Models [mempool/src/messages.rs], [config.rs], [error.rs], [payload.rs] and
    [core.rs].  The mempool core answers the consensus core's [Get], [Verify] and
    [Cleanup], and the payloads and requests of its peers.  The payload maker's task
    is a state of the core, because the core waits for its answers; the mempool's
    synchronizer is reached through the messages sent to it. *)

From S2P Require Import Prelude Machine Crypto Config Messages Store Sync.

(** ** [error.rs] *)

Inductive MempoolError : Type :=
| MStoreError
| MUnknownAuthority (name : PublicKey)
| MInvalidSignature (e : CryptoError)
| MSerializationError
| PayloadTooBig
| MempoolFull
| MNotInCommittee (name : PublicKey).

Notation MempoolResult := (outcome MempoolError).

(** ** [config.rs] *)

Record MParameters : Type := mkMParameters {
  queue_capacity : Z;
  m_sync_retry_delay : Z;
  m_max_payload_size : Z;
  m_min_block_delay : Z;
}.

Definition MParameters_default : MParameters := mkMParameters 10000 10000 100000 100.

Record MAuthority : Type := mkMAuthority {
  ma_name : PublicKey;
  ma_front_address : SocketAddr;
  ma_mempool_address : SocketAddr;
}.

Record MCommittee : Type := mkMCommittee {
  m_authorities : gmap PublicKey MAuthority;
  m_epoch : Z;
}.

Definition MCommittee_new (info : list (PublicKey * SocketAddr * SocketAddr)) (epoch : Z)
    : MCommittee :=
  mkMCommittee
    (fold_left (fun m '(name, front, addr) => <[name := mkMAuthority name front addr]> m) info ∅)
    epoch.

Definition exists_member (c : MCommittee) (name : PublicKey) : bool :=
  bool_decide (is_Some (m_authorities c !! name)).

Definition front_address (c : MCommittee) (name : PublicKey) : MempoolResult SocketAddr :=
  match m_authorities c !! name with
  | Some x => Ok (ma_front_address x)
  | None => Err (MNotInCommittee name)
  end.

Definition mempool_address (c : MCommittee) (name : PublicKey) : MempoolResult SocketAddr :=
  match m_authorities c !! name with
  | Some x => Ok (ma_mempool_address x)
  | None => Err (MNotInCommittee name)
  end.

Definition m_broadcast_addresses (c : MCommittee) (myself : PublicKey) : list SocketAddr :=
  ma_mempool_address
    <$> filter (fun x => ma_name x <> myself) (map_to_list (m_authorities c)).*2.

(** ** [messages.rs] *)

(** [Vec<u8>] *)
Notation Transaction := (list Z).

Module Payload.
Record t : Type := mk {
  transactions : list Transaction;
  author : PublicKey;
  signature : Signature;
}.

Definition size (p : t) : Z := zsum ((fun tx => Z.of_nat (length tx)) <$> transactions p).

(** The transactions are hashed one after the other, without their lengths. *)
Definition preimage (p : t) : list Z := pk_bytes (author p) ++ concat (transactions p).

Section Digest.
Context `{CryptoLib}.

Definition digest (p : t) : Digest := hash_bytes (preimage p).

(** A failure of the signature service panics, as in the consensus messages. *)
Definition new (transactions : list Transaction) (author : PublicKey) (svc : SignatureService)
    : MempoolResult t :=
  let payload := mk transactions author Signature_default in
  signature ← map_err MInvalidSignature (request_signature svc (digest payload));
  Ok (mk transactions author signature).
End Digest.
End Payload.

Inductive MempoolMessage : Type :=
| OwnPayload (p : Payload.t)
| PayloadMsg (p : Payload.t)
| PayloadRequest (digests : list Digest) (requestor : PublicKey).

(** ** [payload.rs]: the [Runner] of the payload maker *)

Section Runner.
Context `{CryptoLib}.

(** [r_delays] counts the waits for the minimum block delay. *)
Record Runner : Type := mkRunner {
  r_transactions : list Transaction;
  r_size : Z;
  r_max_size : Z;
  r_name : PublicKey;
  r_service : SignatureService;
  r_core_channel : list MempoolMessage;
  r_delays : nat;
}.

#[export] Instance Runner_eta : Settable Runner := fun r =>
  mkRunner (r_transactions r) (r_size r) (r_max_size r) (r_name r) (r_service r)
    (r_core_channel r) (r_delays r).

Definition Runner_new (name : PublicKey) (svc : SignatureService) (max_size : Z) : Runner :=
  mkRunner [] 0 max_size name svc [] 0.

Notation R := (act Runner MempoolError).

(** [make]: drain the transactions into a payload. *)
Definition runner_make : R Payload.t :=
  txs ← gets r_transactions;
  modify (fun r => r <| r_transactions := [] |>) ;;
  modify (fun r => r <| r_size := 0 |>) ;;
  name ← gets r_name; svc ← gets r_service;
  lift (Payload.new txs name svc).

(** [add]: a payload is made first when the transaction would not fit. *)
Definition runner_add (tx : Transaction) : R (option Payload.t) :=
  let length := Z.of_nat (length tx) in
  size ← gets r_size; max ← gets r_max_size;
  ret ← (if max <? size +64 length then p ← runner_make; mret (Some p) else mret None);
  modify (fun r => r <| r_transactions := r_transactions r ++ [tx] |>) ;;
  modify (fun r => r <| r_size := r_size r +64 length |>) ;;
  mret ret.

(** The arm of [run] for a client's transaction. *)
Definition runner_receive (tx : Transaction) : R unit :=
  made ← runner_add tx;
  match made with
  | Some payload =>
      modify (fun r => r <| r_core_channel := r_core_channel r ++ [OwnPayload payload] |>) ;;
      modify (fun r => r <| r_delays := S (r_delays r) |>)
  | None => mret tt
  end.

(** [PayloadMaker::make]: [None] for a payload without bytes. *)
Definition PayloadMaker_make : R (option Payload.t) :=
  payload ← runner_make;
  mret (if Payload.size payload =? 0 then None else Some payload).
End Runner.

(** ** [core.rs] *)

(** The operations that have made a [HashSet<Digest>], in order. *)
Inductive SetOp : Type :=
| WithCapacity (n : Z)
| SetInsert (d : Digest)
| SetRemove (d : Digest).

Definition set_op (s : gset Digest) (op : SetOp) : gset Digest :=
  match op with
  | WithCapacity _ => ∅
  | SetInsert d => {[d]} ∪ s
  | SetRemove d => s ∖ {[d]}
  end.

Definition contents (log : list SetOp) : gset Digest := fold_left set_op log ∅.

(** What the code uses of bincode and of [HashSet].  The order of [iter] and the value
    of [capacity] depend on all that was done with the set ([log]) and on its hasher,
    which is random: a removal, too, can change the capacity. *)
Class MempoolEnv : Type := {
  serialize_payload : Payload.t -> Value;
  deserialize_payload : Value -> option Payload.t;
  set_iter : forall (hasher : nat) (log : list SetOp), list Digest;
  set_capacity : forall (hasher : nat) (log : list SetOp), Z;
  mempool_get_fault : nat -> bool;
}.

Class MempoolLaws `{MempoolEnv} : Prop := {
  payload_roundtrip : forall p, deserialize_payload (serialize_payload p) = Some p;
  set_iter_perm : forall hasher log, set_iter hasher log ≡ₚ elements (contents log);
  set_capacity_new : forall hasher n, n <= set_capacity hasher [WithCapacity n];
  set_capacity_len : forall hasher log,
    Z.of_nat (size (contents log)) <= set_capacity hasher log;
}.

(** A [HashSet<Digest>]. *)
Record Queue : Type := mkQueue { q_hasher : nat; q_log : list SetOp }.

Definition q_set (q : Queue) : gset Digest := contents (q_log q).
Definition q_len (q : Queue) : Z := Z.of_nat (size (q_set q)).
Definition q_capacity `{MempoolEnv} (q : Queue) : Z := set_capacity (q_hasher q) (q_log q).

Inductive SynchronizerMessage : Type :=
| SyncMissing (missing : gset Digest) (block : Block.t) (tag : Z)
| SyncClean (round : Z).

Record MCore `{CryptoLib} : Type := mkMCore {
  mp_name : PublicKey;
  mp_committee : MCommittee;
  mp_parameters : MParameters;
  mp_store : StoreClient;
  mp_synchronizer : list SynchronizerMessage;
  mp_payload_maker : Runner;
  mp_network : list (MempoolMessage * list SocketAddr);
  opt_queue : Queue;
  pes_queue : Queue;
}.

#[export] Instance MCore_eta `{CryptoLib} : Settable MCore := fun r =>
  mkMCore _ (mp_name r) (mp_committee r) (mp_parameters r) (mp_store r) (mp_synchronizer r)
    (mp_payload_maker r) (mp_network r) (opt_queue r) (pes_queue r).

Section MCore.
Context `{CryptoLib} `{MempoolEnv}.

Notation M := (act MCore MempoolError).

Definition queue_with_capacity (hasher : nat) (n : Z) : Queue := mkQueue hasher [WithCapacity n].

Definition queue_insert (d : Digest) (q : Queue) : Queue :=
  mkQueue (q_hasher q) (q_log q ++ [SetInsert d]).

Definition queue_remove (d : Digest) (q : Queue) : Queue :=
  mkQueue (q_hasher q) (q_log q ++ [SetRemove d]).

(** [queue_capacity * 3 / 2] is computed in 64 bits. *)
Definition MCore_new (name : PublicKey) (committee : MCommittee) (parameters : MParameters)
    (store : StoreClient) (maker : Runner) : MCore :=
  mkMCore _ name committee parameters store [] maker []
    (queue_with_capacity 0 (queue_capacity parameters))
    (queue_with_capacity 1 (queue_capacity parameters *64 3 / 2)).

Definition store_payload (key : Key) (payload : Payload.t) : M unit :=
  modify (fun s => s <| mp_store :=
    mkStoreClient (<[key := serialize_payload payload]> (kv (mp_store s)))
      (reads (mp_store s)) |>).

Definition m_read (key : Key) : M (option Value) :=
  n ← gets (fun s => reads (mp_store s));
  modify (fun s => s <| mp_store := mkStoreClient (kv (mp_store s)) (S n) |>) ;;
  if mempool_get_fault n then throw MStoreError
  else gets (fun s => kv (mp_store s) !! key).

(** [Synchronizer::transmit] *)
Definition m_transmit (message : MempoolMessage) (to : option PublicKey) : M unit :=
  c ← gets mp_committee; me ← gets mp_name;
  addresses ←
    match to with
    | Some to => a ← lift (mempool_address c to); mret [a]
    | None => mret (m_broadcast_addresses c me)
    end;
  modify (fun s => s <| mp_network := mp_network s ++ [(message, addresses)] |>).

Definition process_own_payload (digest : Digest) (payload : Payload.t) : M unit :=
  room ← gets (fun s => (q_len (opt_queue s) <? q_capacity (opt_queue s))
                        && (q_len (pes_queue s) <? q_capacity (pes_queue s)));
  ensure_act room MempoolFull ;;
  store_payload (Digest_to_vec digest) payload ;;
  m_transmit (PayloadMsg payload) None.

Definition enqueue (digest : Digest) : M unit :=
  modify (fun s => s <| opt_queue := queue_insert digest (opt_queue s) |>) ;;
  modify (fun s => s <| pes_queue := queue_insert digest (pes_queue s) |>).

Definition handle_own_payload (payload : Payload.t) : M unit :=
  room ← gets (fun s => q_len (opt_queue s) <? queue_capacity (mp_parameters s));
  ensure_act room MempoolFull ;;
  let digest := Payload.digest payload in
  process_own_payload digest payload ;;
  enqueue digest.

Definition handle_others_payload (payload : Payload.t) : M unit :=
  let author := Payload.author payload in
  known ← gets (fun s => exists_member (mp_committee s) author);
  ensure_act known (MUnknownAuthority author) ;;
  fits ← gets (fun s => Payload.size payload <=? m_max_payload_size (mp_parameters s));
  ensure_act fits PayloadTooBig ;;
  let digest := Payload.digest payload in
  lift (map_err MInvalidSignature
    (Signature_verify (Payload.signature payload) digest author)) ;;
  store_payload (Digest_to_vec digest) payload ;;
  enqueue digest.

Definition handle_request (digests : list Digest) (requestor : PublicKey) : M unit :=
  for_each digests (fun digest =>
    r ← m_read (Digest_to_vec digest);
    match r with
    | Some bytes =>
        payload ← lift (match deserialize_payload bytes with
                        | Some p => Ok p | None => Err MSerializationError end);
        m_transmit (PayloadMsg payload) (Some requestor)
    | None => mret tt
    end).

(** [queue.iter().take(max / digest_len)], then [remove] for each. *)
Definition take_queue (max : Z) (q : Queue) : list Digest * Queue :=
  let digests := take (Z.to_nat (max / Digest_size Digest_default)) (set_iter (q_hasher q) (q_log q)) in
  (digests, fold_left (fun q x => queue_remove x q) digests q).

Definition payload_maker_make : M (option Payload.t) :=
  zoom mp_payload_maker (fun r s => s <| mp_payload_maker := r |>) PayloadMaker_make.

Definition get_payload (max tag : Z) : M (list Digest) :=
  opt ← gets opt_queue; pes ← gets pes_queue;
  if ((tag =? OPT) && (q_len opt =? 0)) || ((tag =? PES) && (q_len pes =? 0)) then
    made ← payload_maker_make;
    match made with
    | Some payload =>
        let digest := Payload.digest payload in
        process_own_payload digest payload ;;
        mret [digest]
    | None => mret []
    end
  else if tag =? OPT then
    let '(digests, q) := take_queue max opt in
    modify (fun s => s <| opt_queue := q |>) ;;
    mret digests
  else
    let '(digests, q) := take_queue max pes in
    modify (fun s => s <| pes_queue := q |>) ;;
    mret digests.

(** [Synchronizer::verify_payload]: the digests that are not stored. *)
Fixpoint missing_payloads (payload : list Digest) (missing : gset Digest) : M (gset Digest) :=
  match payload with
  | [] => mret missing
  | digest :: payload =>
      r ← m_read (Digest_to_vec digest);
      missing_payloads payload
        (match r with Some _ => missing | None => {[digest]} ∪ missing end)
  end.

Definition verify_payload (block : Block.t) (tag : Z) : M bool :=
  missing ← missing_payloads (Block.payload block) ∅;
  if bool_decide (missing = ∅) then mret true
  else
    modify (fun s => s <| mp_synchronizer :=
      mp_synchronizer s ++ [SyncMissing missing block tag] |>) ;;
    mret false.

Definition m_cleanup (digests : list Digest) (round : Z) : M unit :=
  modify (fun s => s <| mp_synchronizer := mp_synchronizer s ++ [SyncClean round] |>) ;;
  for_each digests (fun x =>
    modify (fun s => s <| opt_queue := queue_remove x (opt_queue s) |>) ;;
    modify (fun s => s <| pes_queue := queue_remove x (pes_queue s) |>)).

(** ** [run]: one message *)

Inductive MInput : Type :=
| FromPeer (m : MempoolMessage)
| FromConsensus (m : ConsensusMempoolMessage).

(** What is sent back to the consensus core. *)
Inductive MReply : Type :=
| NoReply
| ReplyDigests (digests : list Digest)
| ReplyStatus (status : PayloadStatus).

(** Errors are logged; those of [Get] and [Verify] become a default reply. *)
Definition m_handle (i : MInput) (s : MCore) : MempoolResult MReply * MCore :=
  match i with
  | FromPeer (OwnPayload p) => (handle_own_payload p ;; mret NoReply) s
  | FromPeer (PayloadMsg p) => (handle_others_payload p ;; mret NoReply) s
  | FromPeer (PayloadRequest digests requestor) =>
      (handle_request digests requestor ;; mret NoReply) s
  | FromConsensus (MempoolGet max tag) =>
      match get_payload max tag s with
      | (Ok l, s) => (Ok (ReplyDigests l), s)
      | (Err _, s) => (Ok (ReplyDigests []), s)
      | (Panic w, s) => (Panic w, s)
      | (NoFuel, s) => (NoFuel, s)
      end
  | FromConsensus (MempoolVerify block tag) =>
      match verify_payload block tag s with
      | (Ok true, s) => (Ok (ReplyStatus Accept), s)
      | (Ok false, s) => (Ok (ReplyStatus Wait), s)
      | (Err _, s) => (Ok (ReplyStatus Reject), s)
      | (Panic w, s) => (Panic w, s)
      | (NoFuel, s) => (NoFuel, s)
      end
  | FromConsensus (MempoolCleanup digests round) => (m_cleanup digests round ;; mret NoReply) s
  end.

(** The store is shared with the consensus core, whose writes ([store_block]) come
    between the messages. *)
Inductive MEvent : Type :=
| MMessage (i : MInput)
| MForeignWrite (key : Key) (value : Value).

Definition m_event (ev : MEvent) (s : MCore) : MCore :=
  match ev with
  | MMessage i => (m_handle i s).2
  | MForeignWrite key value =>
      s <| mp_store := mkStoreClient (<[key := value]> (kv (mp_store s))) (reads (mp_store s)) |>
  end.

Definition m_run (evs : list MEvent) (s : MCore) : MCore := fold_left (fun s ev => m_event ev s) evs s.
End MCore.
