(* ===== verification/SyncLoop.v ===== *)
(** * The background task of the mempool's synchronizer

    Models the task of [mempool/src/synchronizer.rs]: the blocks that wait for
    payloads, the requests for them, cancellation, and the loop-back of a block whose
    payloads have arrived.  The futures of [waiting] complete in any order; which one
    does, and what a [select!] with two ready branches picks, is part of the event. *)

From S2P Require Import Prelude Machine Crypto Config Messages Store Sync Mempool.

(** A waiter: [w_cancelled] says that its cancellation channel has a message or has
    lost its sender. *)
Record Waiter : Type := mkWaiter {
  w_missing : gset Digest;
  w_block : Block.t;
  w_tag : Z;
  w_cancelled : bool;
}.

#[export] Instance Waiter_eta : Settable Waiter := fun r =>
  mkWaiter (w_missing r) (w_block r) (w_tag r) (w_cancelled r).

Section Loop.
Context `{CryptoLib}.

Record SyncTask : Type := mkSyncTask {
  st_name : PublicKey;
  st_committee : MCommittee;
  st_retry_delay : Z;
  st_pending : gmap Digest Z;
  st_requests : gmap Digest (Z * Z);
  st_waiting : list Waiter;
  st_network : list (MempoolMessage * list SocketAddr);
  st_consensus : list ConsensusMessage;
  st_smvba : list ConsensusMessage;
}.

#[export] Instance SyncTask_eta : Settable SyncTask := fun r =>
  mkSyncTask (st_name r) (st_committee r) (st_retry_delay r) (st_pending r) (st_requests r)
    (st_waiting r) (st_network r) (st_consensus r) (st_smvba r).

Definition SyncTask_new (name : PublicKey) (committee : MCommittee) (retry : Z) : SyncTask :=
  mkSyncTask name committee retry ∅ ∅ [] [] [] [].

Notation T := (act SyncTask MempoolError).

(** [Synchronizer::transmit] *)
Definition st_transmit (message : MempoolMessage) (to : option PublicKey) : T unit :=
  c ← gets st_committee; me ← gets st_name;
  addresses ←
    match to with
    | Some to => a ← lift (mempool_address c to); mret [a]
    | None => mret (m_broadcast_addresses c me)
    end;
  modify (fun s => s <| st_network := st_network s ++ [(message, addresses)] |>).

(** A [Sync] message at time [now].  [requests] is recorded before the request is
    sent; a failure to send it kills the task. *)
Definition on_sync (now : Z) (missing : gset Digest) (block : Block.t) (tag : Z) : T unit :=
  let d := Block.digest block in
  pending ← gets st_pending;
  if bool_decide (is_Some (pending !! d)) then mret tt
  else
    modify (fun s => s <| st_pending := <[d := Block.height block]> (st_pending s) |>) ;;
    modify (fun s => s <| st_waiting := st_waiting s ++ [mkWaiter missing block tag false] |>) ;;
    requests ← gets st_requests;
    let fresh := filter (fun x => requests !! x = None) (elements missing) in
    if bool_decide (fresh = []) then mret tt
    else
      for_each fresh (fun x => modify (fun s => s <| st_requests :=
        <[x := (Block.height block, now)]> (st_requests s) |>)) ;;
      me ← gets st_name;
      expect_act "Failed to send payload sync request"
        (st_transmit (PayloadRequest fresh me) (Some (Block.author block))).

(** Dropping the pending entry of a digest drops the sender of its waiter. *)
Definition cancel (ds : gset Digest) (ws : list Waiter) : list Waiter :=
  (fun w => if bool_decide (Block.digest (w_block w) ∈ ds) then w <| w_cancelled := true |> else w)
    <$> ws.

(** A [Clean] message: entries of the round or before it go, their waiters are told. *)
Definition on_clean (round : Z) : T unit :=
  modify (fun s =>
    s <| st_waiting := cancel (dom (filter (fun kv => kv.2 <= round) (st_pending s))) (st_waiting s) |>
      <| st_pending := filter (fun kv => round < kv.2) (st_pending s) |>
      <| st_requests := filter (fun kv => round < kv.2.1) (st_requests s) |>).

(** What a waiter ends with. *)
Inductive WaitResult : Type :=
| Delivered
| Cancelled
| WaitError.

#[export] Instance WaitResult_eq_dec : EqDecision WaitResult.
Proof. solve_decision. Defined.

(** The loop-back message of a tag, and the channel it is sent on. *)
Definition loop_back (block : Block.t) (tag : Z) (s : SyncTask) : SyncTask :=
  if tag =? OPT then s <| st_consensus := st_consensus s ++ [HsLoopBack block] |>
  else if tag =? PES then s <| st_smvba := st_smvba s ++ [ParLoopBack block] |>
  else s <| st_smvba := st_smvba s ++ [FBLoopBack block] |>.

(** The waiter at position [i] completes. *)
Definition on_waiter (i : nat) (r : WaitResult) : T unit :=
  ws ← gets st_waiting;
  match ws !! i with
  | None => mret tt
  | Some w =>
      modify (fun s => s <| st_waiting := delete i (st_waiting s) |>) ;;
      match r with
      | Delivered =>
          let d := Block.digest (w_block w) in
          modify (fun s => s <| st_pending := delete d (st_pending s) |>
                             <| st_waiting := cancel {[d]} (st_waiting s) |>) ;;
          for_each (Block.payload (w_block w)) (fun x =>
            modify (fun s => s <| st_requests := delete x (st_requests s) |>)) ;;
          modify (loop_back (w_block w) (w_tag w))
      | Cancelled => mret tt
      | WaitError => mret tt
      end
  end.

(** The retransmission timer fires at time [now]. *)
Definition on_timer (now : Z) : T unit :=
  requests ← gets st_requests; delay ← gets st_retry_delay;
  let retransmit := (filter (fun x => x.2.2 + delay < now) (map_to_list requests)).*1 in
  if bool_decide (retransmit = []) then mret tt
  else
    me ← gets st_name;
    expect_act "Failed to send payload sync request"
      (st_transmit (PayloadRequest retransmit me) None).

Inductive SyncEvent : Type :=
| EvSync (now : Z) (missing : gset Digest) (block : Block.t) (tag : Z)
| EvClean (round : Z)
| EvWaiter (i : nat) (r : WaitResult)
| EvTimer (now : Z).

Definition sync_event (ev : SyncEvent) : T unit :=
  match ev with
  | EvSync now missing block tag => on_sync now missing block tag
  | EvClean round => on_clean round
  | EvWaiter i r => on_waiter i r
  | EvTimer now => on_timer now
  end.

(** Which completions the futures allow, given the stored keys: a waiter delivers
    when all its payloads are stored, and is cancelled when its channel says so. *)
Definition enabled (db : gmap Key Value) (ev : SyncEvent) (s : SyncTask) : Prop :=
  match ev with
  | EvWaiter i r =>
      exists w, st_waiting s !! i = Some w /\
        match r with
        | Delivered => forall d, d ∈ w_missing w -> is_Some (db !! Digest_to_vec d)
        | Cancelled => w_cancelled w = true
        | WaitError => True
        end
  | _ => True
  end.
End Loop.
