(* ===== verification/BlockSync.v ===== *)
(** * The background task of the consensus synchronizer

    Models the task that [Synchronizer::new] of [consensus/src/synchronizer.rs]
    spawns: the blocks whose parent is missing, the requests for parents, the
    loop-back of a block whose parent has arrived, and the retransmission of old
    requests.  Which future of [waiting] completes, and which branch of the [select!]
    runs, is part of the event; the clock is part of it too.  The client side of the
    synchronizer is in [Sync.v]. *)

From S2P Require Import Prelude Machine Crypto Config Messages Store Sync.

Section Task.
Context `{CryptoLib}.

(** [bs_waiting] holds the futures [waiter(store, wait_on, deliver)]. *)
Record BlockSync : Type := mkBlockSync {
  bs_name : PublicKey;
  bs_committee : Committee;
  bs_retry_delay : Z;
  bs_pending : gset Digest;
  bs_requests : gmap Digest Z;
  bs_waiting : list (Digest * Block.t);
  bs_network : list FilterInput;
  bs_core : list ConsensusMessage;
}.

#[export] Instance BlockSync_eta : Settable BlockSync := fun r =>
  mkBlockSync (bs_name r) (bs_committee r) (bs_retry_delay r) (bs_pending r) (bs_requests r)
    (bs_waiting r) (bs_network r) (bs_core r).

Definition BlockSync_new (name : PublicKey) (committee : Committee) (retry : Z) : BlockSync :=
  mkBlockSync name committee retry ∅ ∅ [] [] [].

Notation B := (act BlockSync ConsensusError).

(** [Self::transmit(message, &name, None, &network_filter, &committee, OPT).await.unwrap()] *)
Definition bs_transmit (message : ConsensusMessage) : B unit :=
  me ← gets bs_name; c ← gets bs_committee;
  expect_act "called `Result::unwrap()` on an `Err` value"
    (zoom bs_network (fun t s => s <| bs_network := t |>) (transmit message me None c OPT)).

(** A block arrives on [rx_inner] at time [now]. *)
Definition on_block (now : Z) (block : Block.t) : B unit :=
  let d := Block.digest block in
  pending ← gets bs_pending;
  if bool_decide (d ∈ pending) then mret tt
  else
    modify (fun s => s <| bs_pending := {[d]} ∪ bs_pending s |>) ;;
    let parent := Block.parent block in
    modify (fun s => s <| bs_waiting := bs_waiting s ++ [(parent, block)] |>) ;;
    requests ← gets bs_requests;
    if bool_decide (is_Some (requests !! parent)) then mret tt
    else
      modify (fun s => s <| bs_requests := <[parent := now]> (bs_requests s) |>) ;;
      me ← gets bs_name;
      bs_transmit (SyncRequest parent me).

(** The future at position [i] completes: [ok] says whether the read succeeded. *)
Definition on_parent (i : nat) (ok : bool) : B unit :=
  waiting ← gets bs_waiting;
  match waiting !! i with
  | None => mret tt
  | Some (_, block) =>
      modify (fun s => s <| bs_waiting := delete i (bs_waiting s) |>) ;;
      if ok then
        modify (fun s => s <| bs_pending := bs_pending s ∖ {[Block.digest block]} |>) ;;
        modify (fun s => s <| bs_requests := delete (Block.parent block) (bs_requests s) |>) ;;
        modify (fun s => s <| bs_core := bs_core s ++ [HsLoopBack block] |>)
      else mret tt
  end.

(** The timer fires: [clock k] is the time the loop reads at the [k]-th request. *)
Definition on_retry (clock : nat -> Z) : B unit :=
  requests ← gets bs_requests; delay ← gets bs_retry_delay;
  for_each (imap (fun k x => (clock k, x)) (map_to_list requests)) (fun '(now, (digest, timestamp)) =>
    if timestamp + delay <? now then
      me ← gets bs_name;
      bs_transmit (SyncRequest digest me)
    else mret tt).

Inductive BlockSyncEvent : Type :=
| BsBlock (now : Z) (block : Block.t)
| BsParent (i : nat) (ok : bool)
| BsTimer (clock : nat -> Z).

Definition bs_event (ev : BlockSyncEvent) : B unit :=
  match ev with
  | BsBlock now block => on_block now block
  | BsParent i ok => on_parent i ok
  | BsTimer clock => on_retry clock
  end.

(** A [notify_read] succeeds when its key is stored; it may fail at any time. *)
Definition bs_enabled (db : gmap Key Value) (ev : BlockSyncEvent) (s : BlockSync) : Prop :=
  match ev with
  | BsParent i ok =>
      exists parent block, bs_waiting s !! i = Some (parent, block) /\
        (ok = true -> is_Some (db !! Digest_to_vec parent))
  | _ => True
  end.

(** The states the task goes through, with the keys stored so far and the events. *)
Inductive bs_reach (name : PublicKey) (c : Committee) (retry : Z)
  : gmap Key Value -> list BlockSyncEvent -> BlockSync -> Prop :=
| bs_start db : bs_reach name c retry db [] (BlockSync_new name c retry)
| bs_store db db' evs s :
    bs_reach name c retry db evs s -> dom db ⊆ dom db' -> bs_reach name c retry db' evs s
| bs_step db evs s ev s' :
    bs_reach name c retry db evs s -> bs_enabled db ev s ->
    bs_event ev s = (Ok tt, s') -> bs_reach name c retry db (evs ++ [ev]) s'.
End Task.
