(* ===== verification/Network.v ===== *)
(** * Between the core and the wire

    Models the delay filter of [consensus/src/filter.rs], the TCP sender and receiver
    of [network/src/lib.rs] and the client front of [mempool/src/front.rs].  Sockets
    are lists of frames; when a connection is accepted, when it breaks and which
    future completes is part of the events.  A channel is a list without a bound:
    waiting for room in one is not modelled. *)

From S2P Require Import Prelude Machine Crypto Config Messages.

(** bincode on [ConsensusMessage]. *)
Class MessageCodec `{CryptoLib} : Type := {
  encode_message : ConsensusMessage -> option (list Z);
  decode_message : list Z -> option ConsensusMessage;
}.

Class MessageCodecLaws `{MessageCodec} : Prop := {
  message_roundtrip : forall m bytes, encode_message m = Some bytes -> decode_message bytes = Some m;
}.

(** [NetMessage(bytes, addresses)] *)
Notation NetMessage := (list Z * list SocketAddr)%type.

(** ** [Filter] *)

Section Filter.
Context `{MessageCodec}.

(** The two paths of the filter: messages not yet passed on, each with the time at
    which its delay ends once its future has been polled, and the output channel. *)
Record Lane : Type := mkLane {
  pending : list (FilterInput * option Z);
  network : list NetMessage;
}.

#[export] Instance Lane_eta : Settable Lane := fun r => mkLane (pending r) (network r).

Record Filter : Type := mkFilter { parameters : Parameters; opt_lane : Lane; smvba_lane : Lane }.

Definition Filter_run (p : Parameters) : Filter := mkFilter p (mkLane [] []) (mkLane [] []).

(** [Filter::delay]: the milliseconds a message sleeps.  [coin] is what
    [gen_bool(random_ddos_chance / 100)] draws; the call panics above 1. *)
Definition delay (coin : bool) (p : Parameters) (message : ConsensusMessage) : outcome unit Z :=
  let gen_bool : outcome unit bool :=
    if random_ddos p then
      if 100 <? random_ddos_chance p then Panic "p is outside range [0.0, 1.0]" else Ok coin
    else Ok false in
  match message with
  | HsPropose _ =>
      gen_bool ≫= fun drawn : bool =>
        if drawn then Ok (network_delay p)
        else if ddos p then Ok (network_delay p)
        else Ok 0
  | _ => Ok 0
  end.

Definition net_transmit (input : FilterInput) : act (list NetMessage) unit unit :=
  bytes ← lift (expect "Failed to serialize core message" (encode_message input.1));
  modify (fun ch => ch ++ [(bytes, input.2)]).

Inductive LaneEvent : Type :=
| Received (input : FilterInput)
| Polled (i : nat) (coin : bool) (now : Z)
| Elapsed (i : nat).

Definition lane_event (p : Parameters) (ev : LaneEvent) : act Lane unit unit :=
  match ev with
  | Received input => modify (fun l => l <| pending := pending l ++ [(input, None)] |>)
  | Polled i coin now =>
      q ← gets pending;
      match q !! i with
      | Some (input, None) =>
          d ← lift (delay coin p input.1);
          modify (fun l => l <| pending := <[i := (input, Some (now + d))]> (pending l) |>)
      | _ => mret tt
      end
  | Elapsed i =>
      q ← gets pending;
      match q !! i with
      | Some (input, _) =>
          modify (fun l => l <| pending := delete i (pending l) |>) ;;
          zoom network (fun t l => l <| network := t |>) (net_transmit input)
      | None => mret tt
      end
  end.

(** A sleep ends at its time or later. *)
Definition lane_enabled (now : Z) (ev : LaneEvent) (l : Lane) : Prop :=
  match ev with
  | Elapsed i => exists input t, pending l !! i = Some (input, Some t) /\ t <= now
  | Polled _ _ t => t = now
  | Received _ => True
  end.

Inductive FilterEvent : Type :=
| OptLane (ev : LaneEvent)
| SmvbaLane (ev : LaneEvent).

Definition filter_event (ev : FilterEvent) : act Filter unit unit :=
  p ← gets parameters;
  match ev with
  | OptLane ev => zoom opt_lane (fun l f => mkFilter (parameters f) l (smvba_lane f)) (lane_event p ev)
  | SmvbaLane ev => zoom smvba_lane (fun l f => mkFilter (parameters f) (opt_lane f) l) (lane_event p ev)
  end.

Definition filter_enabled (now : Z) (ev : FilterEvent) (f : Filter) : Prop :=
  match ev with
  | OptLane ev => lane_enabled now ev (opt_lane f)
  | SmvbaLane ev => lane_enabled now ev (smvba_lane f)
  end.

(** The runs of the filter, with the times of the events. *)
Inductive filter_reach (p : Parameters) : list (Z * FilterEvent) -> Filter -> Prop :=
| filter_start : filter_reach p [] (Filter_run p)
| filter_step evs now ev f f' :
    filter_reach p evs f -> filter_enabled now ev f ->
    filter_event ev f = (Ok tt, f') -> filter_reach p (evs ++ [(now, ev)]) f'.
End Filter.

(** ** [NetSender] *)

(** A worker: its address, the channel it reads, the frames it has written to its
    socket, and whether it still runs. *)
Record Worker : Type := mkWorker {
  wk_address : SocketAddr;
  wk_queue : list (list Z);
  wk_written : list (list Z);
  wk_alive : bool;
}.

#[export] Instance Worker_eta : Settable Worker := fun r =>
  mkWorker (wk_address r) (wk_queue r) (wk_written r) (wk_alive r).

(** [senders] maps an address to its worker, by its number in [workers]. *)
Record NetSender : Type := mkNetSender {
  senders : gmap SocketAddr nat;
  workers : list Worker;
}.

#[export] Instance NetSender_eta : Settable NetSender := fun r =>
  mkNetSender (senders r) (workers r).

Definition NetSender_new : NetSender := mkNetSender ∅ [].

Notation N := (act NetSender unit).

(** [tx.send(bytes).await]: fails when the worker has returned. *)
Definition tx_send (w : nat) (bytes : list Z) : N bool :=
  ws ← gets workers;
  match ws !! w with
  | Some x =>
      if wk_alive x then
        modify (fun s => s <| workers := <[w := x <| wk_queue := wk_queue x ++ [bytes] |>]> ws |>) ;;
        mret true
      else mret false
  | None => mret false
  end.

(** [Self::spawn_worker(address)]; [alive] says whether the worker still runs when the
    first message is sent to it, or has failed to connect by then. *)
Definition spawn_worker (alive : bool) (address : SocketAddr) : N nat :=
  ws ← gets workers;
  modify (fun s => s <| workers := workers s ++ [mkWorker address [] [] alive] |>) ;;
  mret (length ws).

(** One turn of the loop over the addresses of a message. *)
Definition send_to (alive : bool) (bytes : list Z) (address : SocketAddr) : N unit :=
  known ← gets senders;
  spawn ← match known !! address with
          | Some tx => ok ← tx_send tx bytes; mret (negb ok)
          | None => mret true
          end;
  when spawn
    (tx ← spawn_worker alive address;
     ok ← tx_send tx bytes;
     when ok (modify (fun s => s <| senders := <[address := tx]> (senders s) |>))).

(** What the workers do meanwhile: write a message, or fail and return. *)
Definition worker_writes (w : nat) : N unit :=
  ws ← gets workers;
  match ws !! w with
  | Some x =>
      match wk_alive x, wk_queue x with
      | true, bytes :: rest =>
          modify (fun s => s <| workers :=
            <[w := x <| wk_queue := rest |> <| wk_written := wk_written x ++ [bytes] |>]> ws |>)
      | _, _ => mret tt
      end
  | None => mret tt
  end.

Definition worker_fails (w : nat) : N unit :=
  ws ← gets workers;
  match ws !! w with
  | Some x => modify (fun s => s <| workers := <[w := x <| wk_alive := false |>]> ws |>)
  | None => mret tt
  end.

Inductive SenderEvent : Type :=
| SendTo (alive : bool) (bytes : list Z) (address : SocketAddr)
| Writes (w : nat)
| Fails (w : nat).

Definition sender_event (ev : SenderEvent) : N unit :=
  match ev with
  | SendTo alive bytes address => send_to alive bytes address
  | Writes w => worker_writes w
  | Fails w => worker_fails w
  end.

(** The loop of [NetSender::run] over one message, if no worker acts in between. *)
Definition net_message (alive : SocketAddr -> bool) (m : NetMessage) : list SenderEvent :=
  (fun a => SendTo (alive a) m.1 a) <$> m.2.

Definition sender_run (evs : list SenderEvent) : NetSender :=
  (for_each evs sender_event NetSender_new).2.

(** ** [NetReceiver] and [Front] *)

(** The loop of a receiver's worker over the frames of its socket; [None] is a frame
    that the codec refuses.  The loop ends at the first frame it cannot use. *)
Fixpoint receive_frames {M} (decode : list Z -> option M) (frames : list (option (list Z)))
    : list M :=
  match frames with
  | [] => []
  | frame :: frames =>
      match x ← frame; decode x with
      | Some message => message :: receive_frames decode frames
      | None => []
      end
  end.

(** The front's worker takes the bytes of a frame as a transaction. *)
Fixpoint front_frames (frames : list (option (list Z))) : list (list Z) :=
  match frames with
  | [] => []
  | Some x :: frames => x :: front_frames frames
  | None :: _ => []
  end.

(** ** The accept loops

    [NetReceiver::run] and [Front::run] are the same loop: bind, accept connections for
    ever, spawn a worker for each.  The workers put what they decode into one channel;
    a worker ends at a frame it cannot use, when its peer closes the connection, and by
    a panic when the channel has no receiver any more. *)
Section Listener.
Context {M : Type} (decode : list Z -> option M).

(** [ls_workers]: whether the worker of each accepted connection still runs;
    [ls_deliver]: what is in the channel, each message with its connection. *)
Record Listener : Type := mkListener {
  ls_workers : list bool;
  ls_deliver : list (nat * M);
  ls_open : bool;
}.

#[export] Instance Listener_eta : Settable Listener := fun r =>
  mkListener (ls_workers r) (ls_deliver r) (ls_open r).

(** Up to the loop; [bound] says whether the address can be bound. *)
Definition Listener_run (bound : bool) : outcome unit Listener :=
  if bound then Ok (mkListener [] [] true) else Panic "Failed to bind to TCP port".

Inductive ListenerEvent : Type :=
| Accept (ok : bool)
| Frame (w : nat) (frame : option (list Z))
| Close (w : nat)
| ReceiverDropped.

Definition worker_returns (w : nat) : act Listener unit unit :=
  modify (fun s => s <| ls_workers := <[w := false]> (ls_workers s) |>).

(** One turn of the loop of a worker. *)
Definition worker_frame (w : nat) (frame : option (list Z)) : act Listener unit unit :=
  match x ← frame; decode x with
  | Some message =>
      open ← gets ls_open;
      if (open : bool) then
        modify (fun s => s <| ls_deliver := ls_deliver s ++ [(w, message)] |>)
      else worker_returns w
  | None => worker_returns w
  end.

Definition listener_event (ev : ListenerEvent) : act Listener unit unit :=
  match ev with
  | Accept true => modify (fun s => s <| ls_workers := ls_workers s ++ [true] |>)
  | Accept false => mret tt
  | Frame w frame =>
      ws ← gets ls_workers;
      when (bool_decide (ws !! w = Some true)) (worker_frame w frame)
  | Close w => worker_returns w
  | ReceiverDropped => modify (fun s => s <| ls_open := false |>)
  end.

Definition listener_run (evs : list ListenerEvent) : Listener :=
  (for_each evs listener_event (mkListener [] [] true)).2.
End Listener.

(** The receiver of the consensus core decodes messages; the front takes the bytes of a
    frame as they are. *)
Definition net_receiver_event `{MessageCodec} (ev : ListenerEvent)
    : act (Listener (M := ConsensusMessage)) unit unit := listener_event decode_message ev.

Definition front_event (ev : ListenerEvent) : act (Listener (M := list Z)) unit unit :=
  listener_event Some ev.

Definition Front_run (bound : bool) : outcome unit (Listener (M := list Z)) := Listener_run bound.
