(* ===== verification/Core.v ===== *)
(** * The consensus core: state and helpers

    Models [consensus/src/core.rs], first part: the [Core] struct, its
    construction and reset, the clean-up of the agreement state, and the helpers
    the handlers share.  The handlers are in [Handlers.v].

    Self-delivery makes the handlers mutually recursive; the source breaks the
    cycles with [#[async_recursion]].  Those boxed calls are the constructors of
    [rcall]; a handler takes the executor of boxed calls as its argument [rec]. *)

From S2P Require Import Prelude Machine Crypto Config Messages Leader Aggregator Timer Store Sync.

(** A message the node has signed, with the struct it was signed in. *)
Inductive Signable `{CryptoLib} : Type :=
| SignedBlock (b : Block.t)
| SignedHVote (v : HVote.t)
| SignedPrePare (p : PrePare.t)
| SignedSPBVote (v : SPBVote.t)
| SignedDone (m : MDoneAndShare.t)
| SignedPreVote (m : MPreVote.t)
| SignedMVote (m : MVote.t)
| SignedHalt (m : MHalt.t).

(** The receivers of the two input channels are the inputs of [Handlers.dispatch].
    [clock] is the time and [signed] is the record of what the signature service
    was asked to sign; neither is a field of the source's struct. *)
Record Core `{CryptoLib} : Type := mkCore {
  name : PublicKey;
  committee : Committee;
  parameters : Parameters;
  store : StoreClient;
  signature_service : SignatureService;
  pk_set : PublicKeySet;
  leader_elector : LeaderElector;
  mempool_driver : list ConsensusMempoolMessage;
  synchronizer : list Block.t;
  tx_core : list ConsensusMessage;
  tx_smvba : list ConsensusMessage;
  network_filter : list FilterInput;
  network_filter_smvba : list FilterInput;
  commit_channel : list Block.t;
  height : Z;
  epoch : Z;
  last_voted_height : Z;
  last_committed_height : Z;
  fallback_is_invoke : gmap Z bool;
  unhandle_message : list (Z * ConsensusMessage);
  high_qc : QC.t;
  timer : Timer;
  aggregator : Aggregator;
  opt_path : bool;
  pes_path : bool;
  smvba_y_flag : gmap (Z * Z) bool;
  smvba_n_flag : gmap (Z * Z) bool;
  smvba_d_flag : gmap (Z * Z) bool;
  spb_proposes : gmap (Z * Z) SPBValue.t;
  spb_finishs : gmap (Z * Z) (gmap PublicKey (SPBValue.t * SPBProof.t));
  spb_locks : gmap (Z * Z) (gmap PublicKey (SPBValue.t * SPBProof.t));
  spb_current_phase : gmap (Z * Z) Z;
  spb_abandon_flag : gmap Z bool;
  smvba_halt_falg : gmap Z bool;
  smvba_dones : gmap (Z * Z) (gset PublicKey);
  smvba_current_round : gmap Z Z;
  smvba_votes : gmap (Z * Z) (gset PublicKey);
  smvba_no_prevotes : gmap (Z * Z) (gset PublicKey);
  smvba_is_invoke : gmap Z bool;
  prepare_tag : gmap Z PrePare.t;
  par_prepare_opts : gmap Z (gmap PublicKey Signature);
  par_prepare_pess : gmap Z (gmap PublicKey Signature);
  core_fallback_length : Z;
  fallback_high_qc : gmap (Z * Z) (option QC.t);
  clock : Z;
  signed : list Signable;
}.

#[export] Instance Core_eta `{CryptoLib} : Settable Core := fun r =>
  mkCore _ (name r) (committee r) (parameters r) (store r) (signature_service r) (pk_set r)
    (leader_elector r) (mempool_driver r) (synchronizer r) (tx_core r) (tx_smvba r)
    (network_filter r) (network_filter_smvba r) (commit_channel r) (height r) (epoch r)
    (last_voted_height r) (last_committed_height r) (fallback_is_invoke r)
    (unhandle_message r) (high_qc r) (timer r) (aggregator r) (opt_path r) (pes_path r)
    (smvba_y_flag r) (smvba_n_flag r) (smvba_d_flag r) (spb_proposes r) (spb_finishs r)
    (spb_locks r) (spb_current_phase r) (spb_abandon_flag r) (smvba_halt_falg r)
    (smvba_dones r) (smvba_current_round r) (smvba_votes r) (smvba_no_prevotes r)
    (smvba_is_invoke r) (prepare_tag r) (par_prepare_opts r) (par_prepare_pess r)
    (core_fallback_length r) (fallback_high_qc r) (clock r) (signed r).

(** The boxed calls. *)
Inductive rcall `{CryptoLib} : Type :=
| R_process_opt_block (block : Block.t)
| R_handle_opt_vote (vote : HVote.t)
| R_handle_fallback_vote (vote : HVote.t)
| R_process_spb_propose (value : SPBValue.t) (proof : SPBProof.t)
| R_handle_spb_vote (vote : SPBVote.t)
| R_invoke_done_and_share (height round : Z).

Section Core.
Context `{CryptoLib} `{NodeEnv}.

(** The bodies of the methods of [impl Core]. *)
Notation M := (act Core ConsensusError).

(** ** Construction and epochs *)

Definition update_smvba_state (h round : Z) (s : Core) : Core :=
  s <| smvba_d_flag := <[(h, round) := false]> (smvba_d_flag s) |>
    <| smvba_y_flag := <[(h, round) := false]> (smvba_y_flag s) |>
    <| smvba_n_flag := <[(h, round) := false]> (smvba_n_flag s) |>
    <| smvba_current_round := <[h := round]> (smvba_current_round s) |>
    <| spb_current_phase := <[(h, round) := INIT_PHASE]> (spb_current_phase s) |>
    <| smvba_dones := <[(h, round) := ∅]> (smvba_dones s) |>
    <| smvba_no_prevotes := <[(h, round) := ∅]> (smvba_no_prevotes s) |>
    <| smvba_votes := <[(h, round) := ∅]> (smvba_votes s) |>
    <| spb_abandon_flag := delete h (spb_abandon_flag s) |>.

Definition update_prepare_state (h : Z) (s : Core) : Core :=
  s <| par_prepare_opts := <[h := ∅]> (par_prepare_opts s) |>
    <| par_prepare_pess := <[h := ∅]> (par_prepare_pess s) |>.

(** [Core::new]; the channels start empty. *)
Definition Core_new (name : PublicKey) (committee : Committee) (parameters : Parameters)
    (signature_service : SignatureService) (pk_set : PublicKeySet) (store : StoreClient)
    (leader_elector : LeaderElector) (opt_path pes_path : bool) (now : Z) : Core :=
  let core := mkCore _ name committee parameters store signature_service pk_set
    leader_elector [] [] [] [] [] [] []
    (* height *) 1 (* epoch *) 0 (* last_voted_height *) 0 (* last_committed_height *) 0
    ∅ [] QC.genesis Timer_new (Aggregator_new committee) opt_path pes_path
    ∅ ∅ ∅ ∅ ∅ ∅ ∅ ∅ ∅ ∅ ∅ ∅ ∅ ∅ ∅ ∅ ∅
    (fallback_length parameters) ∅ now [] in
  update_prepare_state 1 (update_smvba_state 1 1 core).

(** [epoch_init]: [core_fallback_length], the channels, the store and the buffered
    messages are kept; everything else restarts. *)
Definition epoch_init (e : Z) (s : Core) : Core :=
  let s :=
    s <| leader_elector := LeaderElector_new (committee s) (leader_window (parameters s)) |>
      <| aggregator := Aggregator_new (committee s) |>
      <| height := 1 |>
      <| epoch := e |>
      <| high_qc := QC.genesis |>
      <| timer := Timer_new |>
      <| last_voted_height := 0 |>
      <| last_committed_height := 0 |>
      <| fallback_is_invoke := ∅ |>
      <| smvba_y_flag := ∅ |>
      <| smvba_n_flag := ∅ |>
      <| smvba_d_flag := ∅ |>
      <| spb_proposes := ∅ |>
      <| spb_finishs := ∅ |>
      <| spb_locks := ∅ |>
      <| spb_current_phase := ∅ |>
      <| spb_abandon_flag := ∅ |>
      <| smvba_halt_falg := ∅ |>
      <| smvba_current_round := ∅ |>
      <| smvba_dones := ∅ |>
      <| smvba_votes := ∅ |>
      <| smvba_no_prevotes := ∅ |>
      <| smvba_is_invoke := ∅ |>
      <| prepare_tag := ∅ |>
      <| par_prepare_opts := ∅ |>
      <| par_prepare_pess := ∅ |>
      <| fallback_high_qc := ∅ |> in
  update_prepare_state 1 (update_smvba_state 1 1 s).

(** The [retain]s of [clean_smvba_state]. *)
Definition retain1 {V} (h : Z) (m : gmap Z V) : gmap Z V := filter (fun kv => h < kv.1) m.
Definition retain2 {V} (h : Z) (m : gmap (Z * Z) V) : gmap (Z * Z) V :=
  filter (fun kv => h < kv.1.1) m.

Definition clean_smvba_state (h : Z) (s : Core) : Core :=
  s <| smvba_d_flag := retain2 h (smvba_d_flag s) |>
    <| smvba_y_flag := retain2 h (smvba_y_flag s) |>
    <| smvba_n_flag := retain2 h (smvba_n_flag s) |>
    <| spb_current_phase := retain2 h (spb_current_phase s) |>
    <| smvba_current_round := retain1 h (smvba_current_round s) |>
    <| spb_proposes := retain2 h (spb_proposes s) |>
    <| spb_finishs := retain2 h (spb_finishs s) |>
    <| spb_locks := retain2 h (spb_locks s) |>
    <| smvba_dones := retain2 h (smvba_dones s) |>
    <| smvba_votes := retain2 h (smvba_votes s) |>
    <| smvba_no_prevotes := retain2 h (smvba_no_prevotes s) |>
    <| aggregator := cleanup_spb_vote h (cleanup_mvba_random h (aggregator s)) |>
    <| prepare_tag := retain1 h (prepare_tag s) |>
    <| par_prepare_opts := retain1 h (par_prepare_opts s) |>
    <| par_prepare_pess := retain1 h (par_prepare_pess s) |>
    <| spb_abandon_flag := retain1 h (spb_abandon_flag s) |>
    <| fallback_high_qc := retain2 h (fallback_high_qc s) |>.

(** ** Calls into the services *)

Definition on_synchronizer {A} (m : act (StoreClient * list Block.t) ConsensusError A) : M A :=
  zoom (fun s => (store s, synchronizer s))
       (fun t s => s <| store := t.1 |> <| synchronizer := t.2 |>) m.

Definition on_mempool {A} (m : act (list ConsensusMempoolMessage) ConsensusError A) : M A :=
  zoom mempool_driver (fun t s => s <| mempool_driver := t |>) m.

Definition on_aggregator {A} (m : act Aggregator ConsensusError A) : M A :=
  zoom aggregator (fun t s => s <| aggregator := t |>) m.

(** [Synchronizer::transmit(.., &self.network_filter, &self.committee, OPT)] and the
    same on [network_filter_smvba] with [PES]. *)
Definition transmit_opt (message : ConsensusMessage) (to : option PublicKey) : M unit :=
  from ← gets name; c ← gets committee;
  zoom network_filter (fun t s => s <| network_filter := t |>) (transmit message from to c OPT).

Definition transmit_pes (message : ConsensusMessage) (to : option PublicKey) : M unit :=
  from ← gets name; c ← gets committee;
  zoom network_filter_smvba (fun t s => s <| network_filter_smvba := t |>)
    (transmit message from to c PES).

(** [sleep(Duration::from_millis(d)).await] *)
Definition sleep_ms (d : Z) : M unit := modify (fun s => s <| clock := clock s + d |>).

Definition timer_reset (duration : option Z) : M unit :=
  modify (fun s => s <| timer := (reset (clock s) duration (timer s)).2 |>).

(** Build a signed message with the signature service, and record it. *)
Definition signing {A} (record : A -> Signable) (build : SignatureService -> ConsensusResult A)
    : M A :=
  svc ← gets signature_service;
  m ← lift (build svc);
  modify (fun s => s <| signed := signed s ++ [record m] |>) ;;
  mret m.

(** [*self.field.entry(k).or_insert(d)] *)
Definition entry {K V} `{Countable K} (proj : Core -> gmap K V) `{!Setter proj} (k : K) (d : V)
    : M V :=
  m ← gets proj;
  match m !! k with
  | Some v => mret v
  | None => modify (fun s => s <| proj := <[k := d]> (proj s) |>) ;; mret d
  end.

(** ** Helpers *)

Definition store_block (block : Block.t) : M unit :=
  zoom store (fun t s => s <| store := t |>)
    (store_write (Digest_to_vec (Block.digest block)) (serialize_block block)).

Definition read_store (key : Key) : M (option Value) :=
  zoom store (fun t s => s <| store := t |>) (store_read key).

Definition increase_last_voted_round (target : Z) : M unit :=
  modify (fun s => s <| last_voted_height := Z.max (last_voted_height s) target |>).

Definition handle_sync_request (digest : Digest) (sender : PublicKey) : M unit :=
  r ← read_store (Digest_to_vec digest);
  match r with
  | Some bytes =>
      block ← lift (decode_block bytes);
      transmit_opt (SyncReply block) (Some sender)
  | None => mret tt
  end.

Definition is_optmistic (s : Core) : bool :=
  negb (ddos (parameters s)) && negb (random_ddos (parameters s)).

Definition generate_proposal (h round : Z) (qc : option QC.t) (tag : Z) : M Block.t :=
  max ← gets (fun s => max_payload_size (parameters s));
  payload ← on_mempool (driver_get max tag);
  author ← gets name;
  e ← gets epoch;
  signing SignedBlock (fun svc =>
    Block.new (default QC.genesis qc) author h e round payload svc tag).

(** The loop of [commit] walks from the block to the last committed ancestor.  The
    keys it can visit are the block's, genesis' and those of the store. *)
Fixpoint commit_loop (fuel : nat) (current_block : Block.t) : M unit :=
  match fuel with
  | O => lift NoFuel
  | S fuel =>
      last ← gets last_committed_height;
      if last <? Block.height current_block then
        when (negb (bool_decide (Block.payload current_block = [])))
          (on_mempool (driver_cleanup_par current_block)) ;;
        parent ← on_synchronizer (get_parent_block current_block);
        match parent with
        | Some b => commit_loop fuel b
        | None => mret tt
        end
      else mret tt
  end.

Definition commit (block : Block.t) : M unit :=
  n ← gets (fun s => size (kv (store s)));
  commit_loop (S (S n)) block.

(** The tail that follows each [self.commit(..)?]: the new height is recorded and
    the block is sent on the commit channel. *)
Definition record_commit (block : Block.t) : M unit :=
  modify (fun s => s <| last_committed_height := Block.height block |>
                     <| commit_channel := commit_channel s ++ [block] |>).

Definition update_high_qc (qc : QC.t) : M unit :=
  modify (fun s =>
    if QC.height (high_qc s) <? QC.height qc then s <| high_qc := qc |> else s).

Definition advance_height (h : Z) : M unit :=
  cur ← gets height;
  if h <? cur then mret tt
  else
    modify (fun s => s <| aggregator := cleanup_hs_vote (height s) (aggregator s) |>) ;;
    modify (fun s => s <| height := h +64 1 |>) ;;
    modify (fun s => update_prepare_state (height s) s) ;;
    modify (fun s => update_smvba_state (height s) 1 s).

Definition process_qc (qc : QC.t) : M unit :=
  advance_height (QC.height qc) ;;
  update_high_qc qc.

Definition terminate_smvba (h : Z) : M unit := modify (clean_smvba_state h).

(** The three message filters. *)
Definition fallback_message_filter (e h : Z) (s : Core) : bool :=
  negb ((h +64 2 <=? height s) || (e <? epoch s)).

Definition smvba_msg_filter (e h _round _phase : Z) (s : Core) : bool :=
  if e <? epoch s then false
  else if h +64 2 <=? height s then false
  else true.

(** [if self.parameters.exp == 1 { check? }] *)
Definition check_if_exp (check : Core -> ConsensusResult unit) : M unit :=
  b ← gets (fun s => exp (parameters s) =? 1);
  if (b : bool) then r ← gets check; lift r else mret tt.
End Core.
