(* ===== verification/Handlers.v ===== *)
(** * The consensus core: message handlers and the event loop

    Models [consensus/src/core.rs], second part: the two-chain HotStuff handlers,
    the fallback chain, the prepare phase, the agreement (SMVBA), and [run] /
    [run_epoch].  [exec n] runs boxed calls to depth [n]. *)

From S2P Require Import Prelude Machine Crypto Config Messages Leader Aggregator Timer Store.
From S2P Require Import Sync Core.

Section Handlers.
Context `{CryptoLib} `{NodeEnv}.

Notation M := (act Core ConsensusError).

(** The executor of boxed calls. *)
Variable rec : rcall -> M unit.

(** ** Two-chain HotStuff *)

Definition opt_propose : M unit :=
  me ← gets name; h ← gets height; elector ← gets leader_elector;
  idx ← lift (index_as_leader elector me h);
  _ ← lift (expect "called `Option::unwrap()` on a `None` value" idx);
  qc ← gets high_qc;
  block ← generate_proposal h 0 (Some qc) OPT;
  transmit_opt (HsPropose block) None ;;
  rec (R_process_opt_block block) ;;
  p ← gets parameters;
  when (negb (ddos p)) (sleep_ms (min_block_delay p)).

Definition handle_opt_proposal (block : Block.t) : M unit :=
  e ← gets epoch;
  if Block.epoch block <? e then mret tt
  else if e <? Block.epoch block then
    modify (fun s => s <| unhandle_message :=
              unhandle_message s ++ [(Block.epoch block, HsPropose block)] |>) ;;
    throw (EpochEnd e)
  else
    let digest := Block.digest block in
    elector ← gets leader_elector;
    idx ← lift (index_as_leader elector (Block.author block) (Block.height block));
    ensure_act (bool_decide (is_Some idx))
      (WrongBlockSender digest (Block.author block) (Block.height block)) ;;
    c ← gets committee;
    lift (Block.verify block c) ;;
    pes ← gets pes_path;
    when (pes && (2 <? Block.height block)) (terminate_smvba (Block.height block -64 2)) ;;
    process_qc (Block.qc block) ;;
    available ← on_mempool (driver_verify block OPT);
    if negb available then mret tt
    else rec (R_process_opt_block block).

Definition make_opt_vote (block : Block.t) : M (option HVote.t) :=
  last ← gets last_voted_height;
  let safety_rule_1 := last <? Block.height block in
  let safety_rule_2 := QC.height (Block.qc block) +64 1 =? Block.height block in
  if negb (safety_rule_1 && safety_rule_2) then mret None
  else
    increase_last_voted_round (Block.height block) ;;
    me ← gets name;
    vote ← signing SignedHVote (HVote.new block me OPT);
    mret (Some vote).

Definition handle_opt_vote (vote : HVote.t) : M unit :=
  h ← gets height; e ← gets epoch;
  if (HVote.height vote <? h) || (HVote.epoch vote <? e) then mret tt
  else
    elector ← gets leader_elector; me ← gets name;
    leader_idx ← lift (index_as_leader elector me (HVote.height vote +64 1));
    ensure_act (bool_decide (is_Some leader_idx))
      (WrongVoteRecipient (HVote.digest vote) (HVote.author vote) (HVote.height vote)) ;;
    c ← gets committee;
    lift (HVote.verify vote c) ;;
    made ← on_aggregator (add_hs_vote vote);
    match made with
    | Some qc =>
        process_qc qc ;;
        leader_idx_val ← lift (expect "called `Option::unwrap()` on a `None` value" leader_idx);
        if leader_idx_val =? 0 then opt_propose
        else
          p ← gets parameters;
          timer_reset (Some (leader_idx_val *64 timeout_delay p))
    | None => mret tt
    end.

(** ** Prepare and agreement: sending side

    These are called by the HotStuff and fallback handlers. *)

Definition broadcast_pes_propose (value : SPBValue.t) (proof : SPBProof.t) : M unit :=
  when (SPBProof.phase proof =? INIT_PHASE)
    (modify (fun s => s <| spb_proposes :=
       <[(Block.height (SPBValue.block value), SPBValue.round value) := value]>
         (spb_proposes s) |>)) ;;
  transmit_pes (SPBPropose value proof) None ;;
  rec (R_process_spb_propose value proof) ;;
  p ← gets parameters;
  when (ddos p) (sleep_ms (min_block_delay p)).

Definition invoke_smvba (h val : Z) (signatures : list (PublicKey * Signature))
    (qc : option QC.t) : M unit :=
  invoked ← entry smvba_is_invoke h false;
  if (invoked : bool) then mret tt
  else
    modify (fun s => s <| smvba_is_invoke := <[h := true]> (smvba_is_invoke s) |>) ;;
    me ← gets name; e ← gets epoch; len ← gets core_fallback_length;
    block ←
      (if val =? OPT then
         mret (Block.mk QC.genesis me h e [] Signature_default 0 0)
       else generate_proposal h (len +64 1) qc PES);
    round ← entry smvba_current_round h 1;
    let value := SPBValue.new block round INIT_PHASE val signatures in
    let proof := SPBProof.mk INIT_PHASE round h [] in
    broadcast_pes_propose value proof.

(** The block the fast path commits is the one the prepare's certificate names. *)
Definition fast_commit (prepare : PrePare.t) : M unit :=
  r ← read_store (Digest_to_vec (QC.hash (PrePare.qc prepare)));
  match r with
  | Some bytes =>
      block ← lift (decode_block bytes);
      last ← gets last_committed_height;
      when (last <? Block.height block) (commit block ;; record_commit block)
  | None => mret tt
  end.

Definition handle_par_prepare (prepare : PrePare.t) : M unit :=
  ok ← gets (fun s => (PrePare.epoch prepare =? epoch s)
                      && (height s <? PrePare.height prepare +64 2));
  ensure_act ok (TimeOutMessage (PrePare.epoch prepare) (PrePare.height prepare)) ;;
  check_if_exp (fun s => PrePare.verify prepare (committee s) (core_fallback_length s)) ;;
  let h := PrePare.height prepare in
  opt_set ← entry par_prepare_opts h ∅;
  pes_set ← entry par_prepare_pess h ∅;
  quorum ← gets (fun s => quorum_threshold (committee s));
  if PrePare.val prepare =? OPT then
    ensure_act (bool_decide (opt_set !! PrePare.author prepare = None))
      (AuthorityReuseinPrePare (PrePare.author prepare)) ;;
    let opt_set := <[PrePare.author prepare := PrePare.signature prepare]> opt_set in
    modify (fun s => s <| par_prepare_opts := <[h := opt_set]> (par_prepare_opts s) |>) ;;
    when (wrap32 (Z.of_nat (size opt_set)) =? quorum)
      (fast_commit prepare ;;
       pes ← gets pes_path;
       when (pes && (2 <=? h)) (terminate_smvba (h -64 1))) ;;
    invoke_smvba h OPT [] (Some (PrePare.qc prepare))
  else if PrePare.val prepare =? PES then
    ensure_act (bool_decide (pes_set !! PrePare.author prepare = None))
      (AuthorityReuseinPrePare (PrePare.author prepare)) ;;
    let pes_set := <[PrePare.author prepare := PrePare.signature prepare]> pes_set in
    modify (fun s => s <| par_prepare_pess := <[h := pes_set]> (par_prepare_pess s) |>) ;;
    let signatures := map_to_list pes_set in
    when (quorum <=? wrap32 (Z.of_nat (size pes_set)))
      (len ← gets core_fallback_length;
       qc ← entry fallback_high_qc (h, len) None;
       match qc with
       | Some qc => invoke_smvba h PES signatures (Some qc)
       | None => mret tt
       end)
  else throw (InvalidPrePareTag (PrePare.val prepare)).

Definition active_prepare_phase (h : Z) (qc : QC.t) (val : Z) : M unit :=
  tags ← gets prepare_tag;
  if bool_decide (is_Some (tags !! h)) then mret tt
  else
    me ← gets name; e ← gets epoch;
    prepare ← signing SignedPrePare (PrePare.new me e h qc val);
    modify (fun s => s <| prepare_tag := <[h := prepare]> (prepare_tag s) |>) ;;
    transmit_pes (ParPrePare prepare) None ;;
    handle_par_prepare prepare.

(** ** Fallback chain *)

Definition make_fallback_vote (block : Block.t) : M (option HVote.t) :=
  h ← gets height;
  if Block.height block +64 2 <=? h then mret None
  else
    me ← gets name;
    vote ← signing SignedHVote (HVote.new block me PES);
    mret (Some vote).

Definition process_fallback_propose (block : Block.t) : M unit :=
  ok ← gets (fallback_message_filter (Block.epoch block) (Block.height block));
  ensure_act ok (TimeOutMessage (Block.epoch block) (Block.height block)) ;;
  store_block block ;;
  vote ← make_fallback_vote block;
  match vote with
  | Some vote =>
      me ← gets name;
      if negb (bool_decide (Block.author block = me)) then
        transmit_pes (FBVote vote) (Some (Block.author block))
      else rec (R_handle_fallback_vote vote)
  | None => mret tt
  end.

Definition broadcast_fallback_propose (block : Block.t) : M unit :=
  invoked ← entry smvba_is_invoke (Block.height block) false;
  if (invoked : bool) then mret tt
  else
    transmit_pes (FBPropose block) None ;;
    process_fallback_propose block ;;
    p ← gets parameters;
    when (ddos p) (sleep_ms (min_block_delay p)).

Definition invoke_fallback (h : Z) (qc : option QC.t) : M unit :=
  invoked ← gets fallback_is_invoke;
  if bool_decide (is_Some (invoked !! h)) then mret tt
  else
    modify (fun s => s <| fallback_is_invoke := <[h := true]> (fallback_is_invoke s) |>) ;;
    block ← generate_proposal h 1 qc PES;
    broadcast_fallback_propose block.

Definition handle_fallback_vote (vote : HVote.t) : M unit :=
  ok ← gets (fallback_message_filter (HVote.epoch vote) (HVote.height vote));
  ensure_act ok (TimeOutMessage (HVote.epoch vote) (HVote.height vote)) ;;
  check_if_exp (fun s => HVote.verify vote (committee s)) ;;
  made ← on_aggregator (add_fallback_vote vote);
  match made with
  | Some qc =>
      modify (fun s => s <| fallback_high_qc :=
        <[(QC.height qc, QC.round qc) := Some qc]> (fallback_high_qc s) |>) ;;
      me ← gets name; len ← gets core_fallback_length;
      when (bool_decide (QC.proposer qc = me))
        (if QC.round qc <? len then
           block ← generate_proposal (QC.height qc) (QC.round qc +64 1) (Some qc) PES;
           broadcast_fallback_propose block
         else if QC.round qc =? len then
           active_prepare_phase (QC.height qc) qc PES
         else mret tt)
  | None => mret tt
  end.

Definition handle_fallback_propose (block : Block.t) : M unit :=
  ok ← gets (fallback_message_filter (Block.epoch block) (Block.height block));
  ensure_act ok (TimeOutMessage (Block.epoch block) (Block.height block)) ;;
  check_if_exp (fun s => Block.verify block (committee s)) ;;
  e ← gets epoch;
  if e <? Block.epoch block then
    modify (fun s => s <| unhandle_message :=
              unhandle_message s ++ [(Block.epoch block, FBPropose block)] |>) ;;
    throw (EpochEnd e)
  else
    available ← on_mempool (driver_verify block FALLBACK);
    if negb available then mret tt
    else process_fallback_propose block.

(** ** Two-chain HotStuff: processing a block *)

(** Send the vote to the leaders of the next height other than this node. *)
Fixpoint send_vote (message : ConsensusMessage) (leaders : list PublicKey) : M unit :=
  match leaders with
  | [] => mret tt
  | leader :: leaders =>
      me ← gets name;
      when (negb (bool_decide (me = leader))) (transmit_opt message (Some leader)) ;;
      send_vote message leaders
  end.

Definition process_opt_block (block : Block.t) : M unit :=
  elector ← gets leader_elector; me ← gets name;
  idx ← lift (index_as_leader elector me (Block.height block));
  when (bool_decide (is_Some idx)) (timer_reset None) ;;
  ancestors ← on_synchronizer (get_ancestors block);
  match ancestors with
  | None => mret tt
  | Some (b0, b1) =>
      store_block block ;;
      pes ← gets pes_path;
      when (pes && (2 <? Block.height block))
        (h ← gets height; terminate_smvba (h -64 2)) ;;
      when (pes && (1 <? Block.height block))
        (active_prepare_phase (Block.height block -64 1) (Block.qc block) OPT) ;;
      when pes (invoke_fallback (Block.height block) (Some (Block.qc block))) ;;
      let consecutive_rounds :=
        (Block.height b0 +64 1 =? Block.height b1)
        && (Block.height b1 +64 1 =? Block.height block) in
      ensure_act (consecutive_rounds || QC.eqb (Block.qc block) QC.genesis)
        (NonConsecutiveRounds (Block.height b0) (Block.height b1) (Block.height block)) ;;
      last ← gets last_committed_height;
      when (last <? Block.height b0) (commit b0 ;; record_commit b0) ;;
      h ← gets height;
      if negb (Block.height block =? h) then mret tt
      else
        made ← make_opt_vote block;
        match made with
        | Some vote =>
            h ← gets height;
            leaders ← lift (get_leaders elector (h +64 1));
            send_vote (HSVote vote) leaders ;;
            next ← lift (index_as_leader elector me (h +64 1));
            when (bool_decide (is_Some next)) (rec (R_handle_opt_vote vote))
        | None => mret tt
        end
  end.

(** ** Agreement: broadcast of values *)

Definition make_spb_vote (value : SPBValue.t) : M (option SPBVote.t) :=
  if LOCK_PHASE <? SPBValue.phase value then mret None
  else
    me ← gets name;
    vote ← signing SignedSPBVote (SPBVote.new value me);
    mret (Some vote).

Definition process_spb_propose (value : SPBValue.t) (proof : SPBProof.t) : M unit :=
  let b := SPBValue.block value in
  when (SPBValue.phase value =? LOCK_PHASE)
    (locks ← entry spb_locks (Block.height b, SPBValue.round value) ∅;
     modify (fun s => s <| spb_locks :=
       <[(Block.height b, SPBValue.round value) := <[Block.author b := (value, proof)]> locks]>
         (spb_locks s) |>)) ;;
  vote ← make_spb_vote value;
  match vote with
  | Some spb_vote =>
      me ← gets name;
      if negb (bool_decide (me = Block.author b)) then
        transmit_pes (SPBVoteMsg spb_vote) (Some (Block.author b))
      else rec (R_handle_spb_vote spb_vote)
  | None => mret tt
  end.

Definition handle_spb_proposal (value : SPBValue.t) (proof : SPBProof.t) : M unit :=
  let b := SPBValue.block value in
  ok ← gets (smvba_msg_filter (Block.epoch b) (SPBProof.height proof) (SPBProof.round proof)
               (SPBProof.phase proof));
  ensure_act ok (TimeOutMessage (SPBProof.height proof) (SPBProof.round proof)) ;;
  check_if_exp (fun s => SPBValue_verify value (committee s) proof (core_fallback_length s)) ;;
  e ← gets epoch;
  if e <? Block.epoch b then
    modify (fun s => s <| unhandle_message :=
              unhandle_message s ++ [(Block.epoch b, SPBPropose value proof)] |>) ;;
    throw (EpochEnd e)
  else process_spb_propose value proof.

Definition handle_spb_finish (value : SPBValue.t) (proof : SPBProof.t) : M unit :=
  let b := SPBValue.block value in
  let k := (SPBProof.height proof, SPBProof.round proof) in
  ok ← gets (smvba_msg_filter (Block.epoch b) (SPBProof.height proof) (SPBProof.round proof)
               (SPBProof.phase proof));
  ensure_act ok (TimeOutMessage (SPBProof.height proof) (SPBProof.round proof)) ;;
  check_if_exp (fun s => SPBValue_verify value (committee s) proof (core_fallback_length s)) ;;
  finishs ← entry spb_finishs k ∅;
  let finishs := <[Block.author b := (value, proof)]> finishs in
  modify (fun s => s <| spb_finishs := <[k := finishs]> (spb_finishs s) |>) ;;
  d_flag ← entry smvba_d_flag k false;
  if (d_flag : bool) then mret tt
  else
    quorum ← gets (fun s => quorum_threshold (committee s));
    when (wrap32 (Z.of_nat (size finishs)) =? quorum)
      (modify (fun s => s <| smvba_d_flag := <[k := true]> (smvba_d_flag s) |>) ;;
       rec (R_invoke_done_and_share (SPBProof.height proof) (SPBProof.round proof))).

Definition handle_spb_vote (spb_vote : SPBVote.t) : M unit :=
  ok ← gets (smvba_msg_filter (SPBVote.epoch spb_vote) (SPBVote.height spb_vote)
               (SPBVote.round spb_vote) (SPBVote.phase spb_vote));
  ensure_act ok (TimeOutMessage (SPBVote.height spb_vote) (SPBVote.round spb_vote)) ;;
  check_if_exp (fun s => SPBVote.verify spb_vote (committee s)) ;;
  made ← on_aggregator (add_spb_vote spb_vote);
  match made with
  | Some proof =>
      proposes ← gets spb_proposes;
      value ← lift (expect "called `Option::unwrap()` on a `None` value"
                (proposes !! (SPBProof.height proof, SPBProof.round proof)));
      if SPBProof.phase proof =? LOCK_PHASE then
        broadcast_pes_propose (SPBValue.with_phase LOCK_PHASE value) proof
      else if SPBProof.phase proof =? FIN_PHASE then
        let value := SPBValue.with_phase FIN_PHASE value in
        transmit_pes (SPBFinsh value proof) None ;;
        handle_spb_finish value proof
      else mret tt
  | None => mret tt
  end.

(** ** Agreement: output *)

Definition process_par_out (block : Block.t) : M unit :=
  e ← gets epoch; h ← gets height;
  if (Block.epoch block <? e) || (Block.height block +64 2 <=? h) then mret tt
  else if Block.tag block =? OPT then invoke_fallback (Block.height block +64 1) None
  else
    store_block block ;;
    last ← gets last_committed_height;
    (if last <? Block.height block then
       commit block ;;
       record_commit block ;;
       if Block.tag block =? PES then e ← gets epoch; throw (EpochEnd e) else mret tt
     else mret tt) ;;
    on_mempool (driver_cleanup_par block).

Definition handle_smvba_halt (halt : MHalt.t) : M unit :=
  ok ← gets (smvba_msg_filter (MHalt.epoch halt) (MHalt.height halt) (MHalt.round halt)
               FIN_PHASE);
  ensure_act ok (TimeOutMessage (MHalt.height halt) (MHalt.round halt)) ;;
  check_if_exp (fun s =>
    MHalt.verify halt (committee s) (pk_set s) (core_fallback_length s)) ;;
  leader ← gets (fun s => get_coin_leader (leader_elector s) (MHalt.height halt)
                            (MHalt.round halt));
  let block := SPBValue.block (MHalt.value halt) in
  if negb (bool_decide (leader = Some (Block.author block))) then mret tt
  else
    halted ← entry smvba_halt_falg (MHalt.height halt) false;
    if (halted : bool) then mret tt
    else
      modify (fun s => s <| smvba_halt_falg :=
        <[MHalt.height halt := true]> (smvba_halt_falg s) |>) ;;
      available ← on_mempool (driver_verify block PES);
      if negb available then mret tt
      else process_par_out block.

(** ** Agreement: leader election and voting *)

Definition smvba_round_advance (h round : Z) : M unit :=
  modify (update_smvba_state h round) ;;
  let proof := SPBProof.mk INIT_PHASE round h [] in
  proposes ← gets spb_proposes;
  match proposes !! (h, 1) with
  | Some last_value =>
      len ← gets core_fallback_length;
      block ← generate_proposal h (len +64 1)
                (Some (Block.qc (SPBValue.block last_value))) PES;
      let value := SPBValue.new block round INIT_PHASE (SPBValue.val last_value)
                     (SPBValue.signatures last_value) in
      expect_act "Failed to send the PES block" (broadcast_pes_propose value proof)
  | None => mret tt
  end.

Definition handle_smvba_mvote (mvote : MVote.t) : M unit :=
  let k := (MVote.height mvote, MVote.round mvote) in
  ok ← gets (smvba_msg_filter (MVote.epoch mvote) (MVote.height mvote) (MVote.round mvote)
               FIN_PHASE);
  ensure_act ok (TimeOutMessage (MVote.height mvote) (MVote.round mvote)) ;;
  check_if_exp (fun s =>
    MVote.verify mvote (committee s) (pk_set s) (core_fallback_length s)) ;;
  set ← entry smvba_votes k ∅;
  let set := {[MVote.author mvote]} ∪ set in
  modify (fun s => s <| smvba_votes := <[k := set]> (smvba_votes s) |>) ;;
  let weight := wrap32 (Z.of_nat (size set)) in
  let advance :=
    quorum ← gets (fun s => quorum_threshold (committee s));
    when (weight =? quorum) (smvba_round_advance (MVote.height mvote) (MVote.round mvote +64 1)) in
  match MVote.tag mvote with
  | MVote_Yes value _ vote =>
      made ← on_aggregator (add_pre_vote vote);
      match made with
      | Some fin_proof =>
          me ← gets name;
          mhalt ← signing SignedHalt (MHalt.new me (MVote.leader mvote) value fin_proof);
          transmit_pes (SMVBAHalt mhalt) None ;;
          handle_smvba_halt mhalt
      | None => advance
      end
  | MVote_No => advance
  end.

Definition handle_smvba_prevote (prevote : MPreVote.t) : M unit :=
  let k := (MPreVote.height prevote, MPreVote.round prevote) in
  ok ← gets (smvba_msg_filter (MPreVote.epoch prevote) (MPreVote.height prevote)
               (MPreVote.round prevote) FIN_PHASE);
  ensure_act ok (TimeOutMessage (MPreVote.height prevote) (MPreVote.round prevote)) ;;
  check_if_exp (fun s => MPreVote.verify prevote (committee s) (core_fallback_length s)) ;;
  y_flag ← entry smvba_y_flag k false;
  n_flag ← entry smvba_n_flag k false;
  me ← gets name;
  let cast tag :=
    vote ← signing SignedMVote (fun svc =>
             MVote.new me (MPreVote.leader prevote) svc (MPreVote.round prevote)
               (MPreVote.height prevote) (MPreVote.epoch prevote) tag);
    mret (Some vote) in
  mvote ←
    (if negb y_flag && negb n_flag then
       match MPreVote.tag prevote with
       | PreVote_Yes value proof =>
           modify (fun s => s <| smvba_y_flag := <[k := true]> (smvba_y_flag s) |>) ;;
           made ← make_spb_vote value;
           match made with
           | Some vote => cast (MVote_Yes value proof vote)
           | None => mret None
           end
       | PreVote_No =>
           set ← entry smvba_no_prevotes k ∅;
           let set := {[MPreVote.author prevote]} ∪ set in
           modify (fun s => s <| smvba_no_prevotes := <[k := set]> (smvba_no_prevotes s) |>) ;;
           quorum ← gets (fun s => quorum_threshold (committee s));
           if wrap32 (Z.of_nat (size set)) =? quorum then
             modify (fun s => s <| smvba_n_flag := <[k := true]> (smvba_n_flag s) |>) ;;
             cast MVote_No
           else mret None
       end
     else mret None);
  match mvote with
  | Some vote =>
      transmit_pes (SMVBAVote vote) None ;;
      handle_smvba_mvote vote
  | None => mret tt
  end.

Definition handle_smvba_rs (share : RandomnessShare.t) : M unit :=
  let h := RandomnessShare.height share in
  let round := RandomnessShare.round share in
  ok ← gets (smvba_msg_filter (RandomnessShare.epoch share) h round FIN_PHASE);
  ensure_act ok (TimeOutMessage h round) ;;
  check_if_exp (fun s => RandomnessShare.verify share (committee s) (pk_set s)) ;;
  known ← gets (fun s => get_coin_leader (leader_elector s) h round);
  if bool_decide (is_Some known) then mret tt
  else
    pk ← gets pk_set;
    made ← on_aggregator (add_smvba_random share pk);
    match made with
    | Some coin =>
        modify (fun s => s <| leader_elector := add_random_coin (leader_elector s) coin |>) ;;
        let leader := RandomCoin.leader coin in
        let k := (RandomCoin.height coin, RandomCoin.round coin) in
        finishs ← entry spb_finishs k ∅;
        me ← gets name;
        match finishs !! leader with
        | Some (value, proof) =>
            mhalt ← signing SignedHalt (MHalt.new me leader value proof);
            transmit_pes (SMVBAHalt mhalt) None ;;
            handle_smvba_halt mhalt
        | None =>
            let pre_vote tag :=
              signing SignedPreVote (fun svc =>
                MPreVote.new me leader svc round h (RandomCoin.epoch coin) tag) in
            no_vote ← pre_vote PreVote_No;
            locks ← entry spb_locks k ∅;
            vote ← match locks !! leader with
                   | Some (value, proof) => pre_vote (PreVote_Yes value proof)
                   | None => mret no_vote
                   end;
            transmit_pes (SMVBAPreVote vote) None ;;
            handle_smvba_prevote vote
        end
    | None => mret tt
    end.

Definition handle_smvba_done (mdone : MDoneAndShare.t) : M unit :=
  let k := (MDoneAndShare.height mdone, MDoneAndShare.round mdone) in
  ok ← gets (smvba_msg_filter (MDoneAndShare.epoch mdone) (MDoneAndShare.height mdone)
               (MDoneAndShare.round mdone) FIN_PHASE);
  ensure_act ok (TimeOutMessage (MDoneAndShare.height mdone) (MDoneAndShare.round mdone)) ;;
  check_if_exp (fun s => MDoneAndShare.verify mdone (committee s) (pk_set s)) ;;
  d_flag ← entry smvba_d_flag k false;
  set ← entry smvba_dones k ∅;
  let set := {[MDoneAndShare.author mdone]} ∪ set in
  modify (fun s => s <| smvba_dones := <[k := set]> (smvba_dones s) |>) ;;
  let weight := wrap32 (Z.of_nat (size set)) in
  c ← gets committee;
  if negb d_flag && (weight =? random_coin_threshold c) then
    modify (fun s => s <| smvba_d_flag := <[k := true]> (smvba_d_flag s) |>) ;;
    rec (R_invoke_done_and_share (MDoneAndShare.height mdone) (MDoneAndShare.round mdone))
  else
    when (weight =? quorum_threshold c)
      (modify (fun s => s <| spb_abandon_flag :=
         <[MDoneAndShare.height mdone := true]> (spb_abandon_flag s) |>)).

Definition handle_smvba_done_with_share (mdone : MDoneAndShare.t) : M unit :=
  handle_smvba_done mdone ;;
  handle_smvba_rs (MDoneAndShare.share mdone).

Definition invoke_done_and_share (h round : Z) : M unit :=
  e ← gets epoch; me ← gets name; svc ← gets signature_service;
  share ← lift (RandomnessShare.new h e round me svc);
  mdone ← signing SignedDone (fun svc => MDoneAndShare.new me svc e h round share);
  transmit_pes (SPBDoneAndShare mdone) None ;;
  handle_smvba_done_with_share mdone.
End Handlers.

(** ** Boxed calls, the event loop, epochs *)

Section Run.
Context `{CryptoLib} `{NodeEnv}.

Notation M := (act Core ConsensusError).

(** A boxed call runs its method. *)
Definition run_call (rec : rcall -> M unit) (c : rcall) : M unit :=
  match c with
  | R_process_opt_block block => process_opt_block rec block
  | R_handle_opt_vote vote => handle_opt_vote rec vote
  | R_handle_fallback_vote vote => handle_fallback_vote rec vote
  | R_process_spb_propose value proof => process_spb_propose rec value proof
  | R_handle_spb_vote vote => handle_spb_vote rec vote
  | R_invoke_done_and_share h round => invoke_done_and_share rec h round
  end.

(** The depth of nested calls is bounded by the fuel. *)
Fixpoint exec (fuel : nat) (c : rcall) : M unit :=
  match fuel with
  | O => lift NoFuel
  | S fuel => run_call (exec fuel) c
  end.

(** The arms of [tokio::select!]. *)
Inductive Input : Type :=
| OnCoreChannel (m : ConsensusMessage)
| OnSmvbaChannel (m : ConsensusMessage)
| OnTimer.

Definition handle_core_channel (n : nat) (m : ConsensusMessage) : M unit :=
  match m with
  | HsPropose block => handle_opt_proposal (exec n) block
  | HSVote vote => handle_opt_vote (exec n) vote
  | HsLoopBack block => process_opt_block (exec n) block
  | SyncRequest digest sender => handle_sync_request digest sender
  | SyncReply block => handle_opt_proposal (exec n) block
  | _ => mret tt
  end.

Definition handle_smvba_channel (n : nat) (m : ConsensusMessage) : M unit :=
  match m with
  | FBPropose block => handle_fallback_propose (exec n) block
  | FBVote vote => handle_fallback_vote (exec n) vote
  | FBLoopBack block => process_fallback_propose (exec n) block
  | SPBPropose value proof => handle_spb_proposal (exec n) value proof
  | SPBVoteMsg vote => handle_spb_vote (exec n) vote
  | SPBFinsh value proof => handle_spb_finish (exec n) value proof
  | SPBDoneAndShare done => handle_smvba_done_with_share (exec n) done
  | SMVBAPreVote prevote => handle_smvba_prevote (exec n) prevote
  | SMVBAVote mvote => handle_smvba_mvote (exec n) mvote
  | SMVBAHalt halt => handle_smvba_halt (exec n) halt
  | ParPrePare prepare => handle_par_prepare (exec n) prepare
  | ParLoopBack block => process_par_out (exec n) block
  | _ => mret tt
  end.

Definition dispatch (n : nat) (i : Input) : M unit :=
  match i with
  | OnCoreChannel m => handle_core_channel n m
  | OnSmvbaChannel m => handle_smvba_channel n m
  | OnTimer => opt_propose (exec n)
  end.

(** What the loop does with a handler's result: errors are logged, [EpochEnd]
    returns from [run], a panic kills the task. *)
Inductive RunState : Type := Running | EpochEnded | Crashed | Cut.

Definition after (r : ConsensusResult unit) : RunState :=
  match r with
  | Ok _ => Running
  | Err (EpochEnd _) => EpochEnded
  | Err _ => Running
  | Panic _ => Crashed
  | NoFuel => Cut
  end.

(** The part of [run] before its loop. *)
Definition run_boot (n : nat) : M unit :=
  opt ← gets opt_path; pes ← gets pes_path;
  (if (opt : bool) then
     elector ← gets leader_elector; me ← gets name; h ← gets height;
     idx ← lift (index_as_leader elector me h);
     match idx with
     | Some idx =>
         if idx =? 0 then ignore_err (opt_propose (exec n))
         else p ← gets parameters; timer_reset (Some (idx *64 timeout_delay p))
     | None => mret tt
     end
   else mret tt) ;;
  optimistic ← gets is_optmistic;
  if negb opt || (pes && negb optimistic) then
    h ← gets height; qc ← gets high_qc;
    expect_act "Failed to send the first PES block" (invoke_fallback (exec n) h (Some qc))
  else mret tt.

(** The drain of the buffered messages at the start of an epoch; [break] on a
    message of another kind. *)
Fixpoint drain (l : list (Z * ConsensusMessage)) : M unit :=
  match l with
  | [] => mret tt
  | (e, msg) :: l =>
      modify (fun s => s <| unhandle_message := l |>) ;;
      cur ← gets epoch;
      if e =? cur then
        match msg with
        | HsPropose _ => modify (fun s => s <| tx_core := tx_core s ++ [msg] |>) ;; drain l
        | SPBPropose _ _ | FBPropose _ =>
            modify (fun s => s <| tx_smvba := tx_smvba s ++ [msg] |>) ;; drain l
        | _ => mret tt
        end
      else drain l
  end.

(** One turn of the loop of [run_epoch] after [run] has returned: the next epoch's
    state, the drain, and the boot of the next [run].  The loop's local counter is
    the epoch of the state. *)
Definition next_epoch (n : nat) : M unit :=
  e ← gets epoch;
  modify (epoch_init (e +64 1)) ;;
  l ← gets unhandle_message;
  drain l ;;
  run_boot n.

(** What happens to a node between two turns of its loop: an input, time passing,
    or a write to the shared store by another task. *)
Inductive Event : Type :=
| Deliver (i : Input)
| Tick (d : Z)
| ForeignWrite (k : Key) (v : Value).

(** One event in [run], with the loop's reaction to the result.  [EpochEnded] is
    followed by the next epoch, in [run_epoch]. *)
Definition node_event (n : nat) (ev : Event) (s : Core) : RunState * Core :=
  match ev with
  | Deliver i =>
      let '(r, s) := dispatch n i s in
      match after r with
      | EpochEnded => let '(r, s) := next_epoch n s in (after r, s)
      | st => (st, s)
      end
  | Tick d => (Running, s <| clock := clock s + d |>)
  | ForeignWrite k v =>
      (Running, s <| store := mkStoreClient (<[k := v]> (kv (store s))) (reads (store s)) |>)
  end.

(** A run of events, until the node crashes. *)
Fixpoint node_run (n : nat) (l : list Event) (s : Core) : RunState * Core :=
  match l with
  | [] => (Running, s)
  | ev :: l =>
      match node_event n ev s with
      | (Running, s) => node_run n l s
      | r => r
      end
  end.
End Run.
