(* ===== verification/Node.v ===== *)
(** * The node: files, wiring, deployment and the benchmark client

    Models [node/src/config.rs], [node/src/node.rs], [consensus/src/consensus.rs],
    [mempool/src/mempool.rs], the testbed of [node/src/main.rs] and the transactions
    of [node/src/client.rs].  A spawned task is its initial state; the channels
    between the tasks are the lists in those states.  serde_json, the operating
    system, RocksDB and the random generators are parameters. *)

From S2P Require Import Prelude Machine Crypto Config Messages Leader Aggregator Timer Store.
From S2P Require Import Sync Mempool SyncLoop BlockSync Network Core Handlers.

(** ** [config.rs]: files *)

Inductive NodeError : Type :=
| ReadError (file message : string)
| WriteError (file message : string)
| NodeStoreError (message : string)
| NodeConsensusError (e : ConsensusError)
| NodeMempoolError (e : MempoolError).

Notation NodeResult := (outcome NodeError).

(** serde_json on one type: [to_string_pretty] and [from_slice]. *)
Class Json (A : Type) : Type := {
  to_json : A -> list Z;
  from_json : list Z -> A + string;
}.

(** The bytes that serde_json skips after a value. *)
Definition whitespace (b : Z) : bool :=
  (b =? 32) || (b =? 10) || (b =? 9) || (b =? 13).

(** For types that are JSON objects: what is printed is parsed, whitespace may
    follow, and anything else after the object is an error ("trailing characters"). *)
Class JsonLaws (A : Type) `{Json A} : Prop := {
  json_roundtrip : forall (x : A) rest, forallb whitespace rest = true ->
    from_json (to_json x ++ rest) = inl x;
  json_trailing : forall (x : A) rest, forallb whitespace rest = false ->
    exists message, from_json (A := A) (to_json x ++ rest) = inr message;
}.

(** The files of the working directory; [refuse] is the error of the operating system
    for paths it does not let the process open. *)
Record Disk : Type := mkDisk {
  files : gmap string (list Z);
  refuse : string -> option string;
}.

Section ConfigFiles.
Context {A : Type} `{Json A}.

(** [Export::read] *)
Definition export_read (path : string) (d : Disk) : NodeResult A :=
  match refuse d path with
  | Some e => Err (ReadError path e)
  | None =>
      match files d !! path with
      | None => Err (ReadError path "No such file or directory (os error 2)")
      | Some data =>
          match from_json data with
          | inl x => Ok x
          | inr e => Err (ReadError path e)
          end
      end
  end.

(** Writing from the start of a file that is not truncated. *)
Definition overwrite (old new : list Z) : list Z := new ++ drop (length new) old.

(** [Export::write]: the file is opened with [create(true).write(true)]. *)
Definition export_write (x : A) (path : string) : act Disk NodeError unit :=
  r ← gets refuse;
  match r path with
  | Some e => throw (WriteError path e)
  | None =>
      modify (fun d => mkDisk
        (<[path := overwrite (default [] (files d !! path)) (to_json x ++ [10])]> (files d))
        (refuse d))
  end.
End ConfigFiles.

Record NodeParameters : Type := mkNodeParameters {
  np_consensus : Parameters;
  np_mempool : MParameters;
  np_protocol : Z;
}.

(** [#[derive(Default)]] *)
Definition NodeParameters_default : NodeParameters :=
  mkNodeParameters Parameters_default MParameters_default 0.

Record NodeCommittee : Type := mkNodeCommittee {
  nc_consensus : Committee;
  nc_mempool : MCommittee;
}.

Record Secret : Type := mkSecret { secret_name : PublicKey; secret_key : SecretKey }.

(** ** [Protocol] and [Consensus::run] *)

Inductive Protocol : Type := HotStuff | HotStuffAndSMVBA | SMVBA | Others.

(** The flags [opt_path] and [pes_path] of the core that is spawned, if one is. *)
Definition protocol_paths (p : Protocol) : option (bool * bool) :=
  match p with
  | HotStuff => Some (true, false)
  | HotStuffAndSMVBA => Some (true, true)
  | SMVBA => Some (false, true)
  | Others => None
  end.

(** [match parameters.protocol { .. }] of [Node::new] *)
Definition protocol_of (tag : Z) : Protocol :=
  if tag =? 0 then HotStuff
  else if tag =? 1 then HotStuffAndSMVBA
  else if tag =? 2 then SMVBA
  else Others.

(** [x.set_ip("0.0.0.0")] *)
Definition any_ip (x : SocketAddr) : SocketAddr := mkSocketAddr [0; 0; 0; 0] (port x).

Section Wiring.
Context `{MessageCodec}.

(** [SecretShare] of [crypto/src/lib.rs] *)
Record SecretShare : Type := mkSecretShare {
  share_id : Z;
  share_name : PublicKeyShare;
  share_secret : SecretKeyShare;
  share_pkset : PublicKeySet;
}.

(** The tasks of the consensus crate: the addresses its two receivers listen on, its
    two senders, the filter, the synchronizer and the core. *)
Record ConsensusTasks : Type := mkConsensusTasks {
  ct_receiver : SocketAddr;
  ct_smvba_receiver : SocketAddr;
  ct_sender : NetSender;
  ct_smvba_sender : NetSender;
  ct_filter : Filter;
  ct_synchronizer : BlockSync;
  ct_core : option Core;
}.

(** [Consensus::run] at time [now]. *)
Definition Consensus_run (name : PublicKey) (committee : Committee) (parameters : Parameters)
    (store : StoreClient) (signature_service : SignatureService) (pk_set : PublicKeySet)
    (protocol : Protocol) (now : Z) : ConsensusResult ConsensusTasks :=
  receiver ← address committee name;
  smvba_receiver ← smvba_address committee name;
  let leader_elector := LeaderElector_new committee (leader_window parameters) in
  let synchronizer := BlockSync_new name committee (sync_retry_delay parameters) in
  let now := now + node_sync_time parameters in
  let core :=
    '(opt_path, pes_path) ← protocol_paths protocol;
    Some (Core_new name committee parameters signature_service pk_set store leader_elector
            opt_path pes_path now) in
  Ok (mkConsensusTasks (any_ip receiver) (any_ip smvba_receiver) NetSender_new NetSender_new
        (Filter_run parameters) synchronizer core).

(** The tasks of the mempool crate. *)
Record MempoolTasks : Type := mkMempoolTasks {
  mt_front : SocketAddr;
  mt_receiver : SocketAddr;
  mt_sender : NetSender;
  mt_synchronizer : SyncTask;
  mt_core : MCore;
}.

Context `{MempoolEnv}.

(** [Mempool::run]; the payload maker's runner is inside the core's state. *)
Definition Mempool_run (name : PublicKey) (committee : MCommittee) (parameters : MParameters)
    (store : StoreClient) (signature_service : SignatureService) : MempoolResult MempoolTasks :=
  front ← front_address committee name;
  receiver ← mempool_address committee name;
  let synchronizer := SyncTask_new name committee (m_sync_retry_delay parameters) in
  let maker := Runner_new name signature_service (m_max_payload_size parameters) in
  Ok (mkMempoolTasks (any_ip front) (any_ip receiver) NetSender_new synchronizer
        (MCore_new name committee parameters store maker)).

(** ** [Node::new] *)

Context `{Json NodeCommittee} `{Json Secret} `{Json SecretShare} `{Json NodeParameters}.

(** Both cores hold clones of one handle of the store: the maps in their clients are
    views of one map, and only the counters of their reads are their own.  The events
    below keep the views equal. *)
Record Node : Type := mkNode { node_mempool : MempoolTasks; node_consensus : ConsensusTasks }.

(** [open_store] is [Store::new]; [now] the time of the call. *)
Definition Node_new (open_store : string -> StoreClient + string) (d : Disk)
    (committee_file key_file tss_file store_path : string) (parameters : option string)
    (now : Z) : NodeResult Node :=
  committee ← export_read (A := NodeCommittee) committee_file d;
  secret ← export_read (A := Secret) key_file d;
  let name := secret_name secret in
  tss_keys ← export_read (A := SecretShare) tss_file d;
  let pk_set := share_pkset tss_keys in
  parameters ← match parameters with
               | Some filename => export_read (A := NodeParameters) filename d
               | None => Ok NodeParameters_default
               end;
  store ← match open_store store_path with
          | inl store => Ok store
          | inr e => Err (NodeStoreError e)
          end;
  let signature_service :=
    SignatureService_new (secret_key secret) (Some (share_secret tss_keys)) in
  let protocol := protocol_of (np_protocol parameters) in
  mempool ← map_err NodeMempoolError
    (Mempool_run name (nc_mempool committee) (np_mempool parameters) store signature_service);
  consensus ← map_err NodeConsensusError
    (Consensus_run name (nc_consensus committee) (np_consensus parameters) store
       signature_service pk_set protocol now);
  Ok (mkNode mempool consensus).

(** ** The booted node *)

#[export] Instance ConsensusTasks_eta : Settable ConsensusTasks := fun r =>
  mkConsensusTasks (ct_receiver r) (ct_smvba_receiver r) (ct_sender r) (ct_smvba_sender r)
    (ct_filter r) (ct_synchronizer r) (ct_core r).
#[export] Instance MempoolTasks_eta : Settable MempoolTasks := fun r =>
  mkMempoolTasks (mt_front r) (mt_receiver r) (mt_sender r) (mt_synchronizer r) (mt_core r).
#[export] Instance Node_eta : Settable Node := fun r => mkNode (node_mempool r) (node_consensus r).

Definition with_map (m : gmap Key Value) (st : StoreClient) : StoreClient := mkStoreClient m (reads st).

Context `{NodeEnv}.

(** The consensus core handles an input: the mempool sees what it has written. *)
Definition consensus_input (fuel : nat) (i : Input) (nd : Node) : RunState * Node :=
  match ct_core (node_consensus nd) with
  | None => (Running, nd)
  | Some core =>
      let '(st, core) := node_event fuel (Deliver i) core in
      (st, nd <| node_consensus := node_consensus nd <| ct_core := Some core |> |>
              <| node_mempool := node_mempool nd <| mt_core := mt_core (node_mempool nd)
                   <| mp_store := with_map (kv (store core)) (mp_store (mt_core (node_mempool nd))) |> |> |>)
  end.

(** The mempool handles a message: the consensus core sees what it has written. *)
Definition mempool_input (i : MInput) (nd : Node) : MempoolResult MReply * Node :=
  let '(r, m) := m_handle i (mt_core (node_mempool nd)) in
  (r, nd <| node_mempool := node_mempool nd <| mt_core := m |> |>
         <| node_consensus := node_consensus nd <| ct_core :=
              (fun core => core <| store := with_map (kv (mp_store m)) (store core) |>)
                <$> ct_core (node_consensus nd) |> |>).

(** [Node::print_threshold_key_file]: [random threshold] is the key set that
    [SecretKeySet::random] draws: the secret share of an index, and the public keys. *)
Definition tss_threshold (size : Z) : Z := (size -64 1) / 3.

Definition print_threshold_key_file
    (random : Z -> (Z -> SecretKeyShare) * PublicKeySet) (filenames : list string)
    : act Disk NodeError unit :=
  let size := Z.of_nat (length filenames) in
  let '(sk_share, pk_set) := random (tss_threshold size) in
  for_each (imap (fun id filename => (Z.of_nat id, filename)) filenames) (fun '(id, filename) =>
    export_write (mkSecretShare id (public_key_share pk_set id) (sk_share id) pk_set) filename).
End Wiring.

(** ** [deploy_testbed] *)

(** [format!("127.0.0.1:{}", port).parse().unwrap()] *)
Definition local_address (port : Z) : NodeResult SocketAddr :=
  if port <? 65536 then Ok (mkSocketAddr [127; 0; 0; 1] port)
  else Panic "called `Result::unwrap()` on an `Err` value".

Fixpoint try_map {E A B} (f : A -> outcome E B) (l : list A) : outcome E (list B) :=
  match l with
  | [] => Ok []
  | x :: l => y ← f x; ys ← try_map f l; Ok (y :: ys)
  end.

Definition enumerated (keys : list PublicKey) : list (Z * PublicKey) :=
  imap (fun i k => (Z.of_nat i, k)) keys.

(** The two committees of the testbed, for the keys it has drawn. *)
Definition deploy_committee (keys : list PublicKey) : NodeResult NodeCommittee :=
  mempool ← try_map (fun '(i, name) =>
    front ← local_address (7000 + i);
    mempool ← local_address (7100 + i);
    Ok (name, front, mempool)) (enumerated keys);
  consensus ← try_map (fun '(i, name) =>
    addresses ← local_address (7200 + i);
    smvba_addresses ← local_address (7300 + i);
    Ok (name, 0, 1, addresses, smvba_addresses)) (enumerated keys);
  Ok (mkNodeCommittee (Committee_new consensus 1) (MCommittee_new mempool 1)).

(** ** [client.rs]: the transactions *)

(** [BytesMut::resize] with zeros *)
Definition resize (size : nat) (tx : list Z) : list Z := take size (tx ++ replicate size 0).

Definition sample_tx (size : nat) (counter : Z) : list Z := resize size (0 :: u64_be counter).
Definition standard_tx (size : nat) (r : Z) : list Z := resize size (1 :: u64_be r).

(** The inner loop, from [x], with [n] turns left: the transactions and the last [r]. *)
Fixpoint client_burst (size n : nat) (x burst counter r : Z) : list (list Z) * Z :=
  match n with
  | O => ([], r)
  | S n =>
      if x =? counter mod burst then
        let '(txs, r) := client_burst size n (x + 1) burst counter r in
        (sample_tx size counter :: txs, r)
      else
        let r := r +64 1 in
        let '(txs, r') := client_burst size n (x + 1) burst counter r in
        (standard_tx size r :: txs, r')
  end.

(** [n] ticks of the interval. *)
Fixpoint client_ticks (size n : nat) (burst counter r : Z) : list (list Z) :=
  match n with
  | O => []
  | S n =>
      let '(txs, r) := client_burst size (Z.to_nat burst) 0 burst counter r in
      txs ++ client_ticks size n burst (counter +64 1) r
  end.

(** [Client::send] for [n] ticks on a connection that does not fail; [r] is random. *)
Definition client_send (size n : nat) (rate r : Z) : outcome string (list (list Z)) :=
  if Z.of_nat size <? 9 then Err "Transaction size must be at least 9 bytes"%string
  else Ok (client_ticks size n (rate / 20) 0 r).
