(* ===== verification/FuelFacts.v ===== *)
(** * Fuel does not matter

    [exec n] bounds the depth of boxed calls.  A call that does not run out of fuel
    has the same outcome and leaves the same state with more fuel, so the fuel is
    never part of what a handler does. *)

From S2P Require Import Prelude Machine Crypto Config Messages Leader Aggregator Timer Store.
From S2P Require Import Sync Core Handlers.

(** [m2] does what [m1] does wherever [m1] has fuel enough. *)
Definition approx {S E A} (m1 m2 : act S E A) : Prop :=
  forall s, (m1 s).1 <> NoFuel -> m2 s = m1 s.

Lemma approx_refl {S E A} (m : act S E A) : approx m m.
Proof. done. Qed.

Lemma approx_bind {S E A B} (m1 m2 : act S E A) (f1 f2 : A -> act S E B) :
  approx m1 m2 -> (forall a, approx (f1 a) (f2 a)) -> approx (m1 ≫= f1) (m2 ≫= f2).
Proof.
  intros Hm Hf s. unfold mbind, act_bind. specialize (Hm s).
  destruct (m1 s) as [[a|x|w|] s1]; simpl in *; intros Hn;
    rewrite ?Hm by done; try done. by apply Hf.
Qed.

Lemma approx_when {S E} b (m1 m2 : act S E unit) : approx m1 m2 -> approx (when b m1) (when b m2).
Proof. by destruct b. Qed.

Lemma approx_expect {S E A} w (m1 m2 : act S E A) :
  approx m1 m2 -> approx (expect_act w m1) (expect_act w m2).
Proof.
  intros Hm s. specialize (Hm s). unfold expect_act.
  destruct (m1 s) as [[a|x|y|] s1]; simpl in *; intros Hn; by rewrite Hm.
Qed.

Lemma approx_ignore {S E} (m1 m2 : act S E unit) :
  approx m1 m2 -> approx (ignore_err m1) (ignore_err m2).
Proof.
  intros Hm s. specialize (Hm s). unfold ignore_err.
  destruct (m1 s) as [[a|x|y|] s1]; simpl in *; intros Hn; by rewrite Hm.
Qed.

Ltac approx_step :=
  match goal with
  | |- approx ?m ?m => apply approx_refl
  | |- approx (let _ := _ in _) _ => cbv zeta
  | |- approx (_ ≫= _) (_ ≫= _) => apply approx_bind; [|intros ?]
  | |- approx (when _ _) (when _ _) => apply approx_when
  | |- approx (expect_act _ _) (expect_act _ _) => apply approx_expect
  | |- approx (ignore_err _) (ignore_err _) => apply approx_ignore
  | |- approx (if ?b then _ else _) (if ?b then _ else _) => destruct b
  | |- approx (match ?x with _ => _ end) (match ?x with _ => _ end) => destruct x
  | |- approx _ _ => solve [eauto 3 with preserve nocore]
  end.

Ltac approx_auto := repeat approx_step.

Section Fuel.
Context `{CryptoLib} `{NodeEnv}.

Section Handlers.
Variables rec1 rec2 : rcall -> act Core ConsensusError unit.
Hypothesis rec_approx : forall c, approx (rec1 c) (rec2 c).

Hint Resolve rec_approx : preserve.

Lemma approx_opt_propose : approx (opt_propose rec1) (opt_propose rec2).
Proof. unfold opt_propose. approx_auto. Qed.
Hint Resolve approx_opt_propose : preserve.

Lemma approx_handle_opt_proposal b :
  approx (handle_opt_proposal rec1 b) (handle_opt_proposal rec2 b).
Proof. unfold handle_opt_proposal. approx_auto. Qed.

Lemma approx_handle_opt_vote v : approx (handle_opt_vote rec1 v) (handle_opt_vote rec2 v).
Proof. unfold handle_opt_vote. approx_auto. Qed.

Lemma approx_broadcast_pes v p :
  approx (broadcast_pes_propose rec1 v p) (broadcast_pes_propose rec2 v p).
Proof. unfold broadcast_pes_propose. approx_auto. Qed.
Hint Resolve approx_broadcast_pes : preserve.

Lemma approx_invoke_smvba h val sigs qc :
  approx (invoke_smvba rec1 h val sigs qc) (invoke_smvba rec2 h val sigs qc).
Proof. unfold invoke_smvba. approx_auto. Qed.
Hint Resolve approx_invoke_smvba : preserve.

Lemma approx_par_prepare p : approx (handle_par_prepare rec1 p) (handle_par_prepare rec2 p).
Proof. unfold handle_par_prepare. approx_auto. Qed.
Hint Resolve approx_par_prepare : preserve.

Lemma approx_active_prepare h qc val :
  approx (active_prepare_phase rec1 h qc val) (active_prepare_phase rec2 h qc val).
Proof. unfold active_prepare_phase. approx_auto. Qed.
Hint Resolve approx_active_prepare : preserve.

Lemma approx_process_fallback b :
  approx (process_fallback_propose rec1 b) (process_fallback_propose rec2 b).
Proof. unfold process_fallback_propose. approx_auto. Qed.
Hint Resolve approx_process_fallback : preserve.

Lemma approx_broadcast_fallback b :
  approx (broadcast_fallback_propose rec1 b) (broadcast_fallback_propose rec2 b).
Proof. unfold broadcast_fallback_propose. approx_auto. Qed.
Hint Resolve approx_broadcast_fallback : preserve.

Lemma approx_invoke_fallback h qc :
  approx (invoke_fallback rec1 h qc) (invoke_fallback rec2 h qc).
Proof. unfold invoke_fallback. approx_auto. Qed.
Hint Resolve approx_invoke_fallback : preserve.

Lemma approx_fallback_vote v :
  approx (handle_fallback_vote rec1 v) (handle_fallback_vote rec2 v).
Proof. unfold handle_fallback_vote. approx_auto. Qed.

Lemma approx_fallback_propose b :
  approx (handle_fallback_propose rec1 b) (handle_fallback_propose rec2 b).
Proof. unfold handle_fallback_propose. approx_auto. Qed.

Lemma approx_process_opt_block b :
  approx (process_opt_block rec1 b) (process_opt_block rec2 b).
Proof. unfold process_opt_block. approx_auto. Qed.

Lemma approx_process_spb v p :
  approx (process_spb_propose rec1 v p) (process_spb_propose rec2 v p).
Proof. unfold process_spb_propose. approx_auto. Qed.
Hint Resolve approx_process_spb : preserve.

Lemma approx_spb_proposal v p :
  approx (handle_spb_proposal rec1 v p) (handle_spb_proposal rec2 v p).
Proof. unfold handle_spb_proposal. approx_auto. Qed.

Lemma approx_spb_finish v p :
  approx (handle_spb_finish rec1 v p) (handle_spb_finish rec2 v p).
Proof. unfold handle_spb_finish. approx_auto. Qed.
Hint Resolve approx_spb_finish : preserve.

Lemma approx_spb_vote v : approx (handle_spb_vote rec1 v) (handle_spb_vote rec2 v).
Proof. unfold handle_spb_vote. approx_auto. Qed.

Lemma approx_par_out b : approx (process_par_out rec1 b) (process_par_out rec2 b).
Proof. unfold process_par_out. approx_auto. Qed.
Hint Resolve approx_par_out : preserve.

Lemma approx_halt m : approx (handle_smvba_halt rec1 m) (handle_smvba_halt rec2 m).
Proof. unfold handle_smvba_halt. approx_auto. Qed.
Hint Resolve approx_halt : preserve.

Lemma approx_round_advance h r :
  approx (smvba_round_advance rec1 h r) (smvba_round_advance rec2 h r).
Proof. unfold smvba_round_advance. approx_auto. Qed.
Hint Resolve approx_round_advance : preserve.

Lemma approx_mvote m : approx (handle_smvba_mvote rec1 m) (handle_smvba_mvote rec2 m).
Proof. unfold handle_smvba_mvote. approx_auto. Qed.
Hint Resolve approx_mvote : preserve.

Lemma approx_prevote m : approx (handle_smvba_prevote rec1 m) (handle_smvba_prevote rec2 m).
Proof. unfold handle_smvba_prevote. approx_auto. Qed.
Hint Resolve approx_prevote : preserve.

Lemma approx_rs m : approx (handle_smvba_rs rec1 m) (handle_smvba_rs rec2 m).
Proof. unfold handle_smvba_rs. approx_auto. Qed.
Hint Resolve approx_rs : preserve.

Lemma approx_done m : approx (handle_smvba_done rec1 m) (handle_smvba_done rec2 m).
Proof. unfold handle_smvba_done. approx_auto. Qed.
Hint Resolve approx_done : preserve.

Lemma approx_done_with_share m :
  approx (handle_smvba_done_with_share rec1 m) (handle_smvba_done_with_share rec2 m).
Proof. unfold handle_smvba_done_with_share. approx_auto. Qed.
Hint Resolve approx_done_with_share : preserve.

Lemma approx_invoke_done h r :
  approx (invoke_done_and_share rec1 h r) (invoke_done_and_share rec2 h r).
Proof. unfold invoke_done_and_share. approx_auto. Qed.
End Handlers.

#[local] Hint Resolve approx_opt_propose approx_handle_opt_proposal approx_handle_opt_vote
  approx_fallback_vote approx_fallback_propose approx_process_fallback approx_process_opt_block
  approx_process_spb approx_spb_proposal approx_spb_finish approx_spb_vote approx_par_prepare
  approx_par_out approx_halt approx_mvote approx_prevote approx_done_with_share
  approx_invoke_done approx_invoke_fallback : preserve.

Lemma approx_run_call rec1 rec2 c :
  (forall c, approx (rec1 c) (rec2 c)) -> approx (run_call rec1 c) (run_call rec2 c).
Proof. intros Hrec. destruct c; simpl; eauto 3 with preserve nocore. Qed.

Lemma exec_approx n c : approx (exec n c) (exec (S n) c).
Proof.
  revert c. induction n as [|n IH]; intros c; [by intros s Hs|].
  change (approx (run_call (exec n) c) (run_call (exec (S n)) c)). by apply approx_run_call.
Qed.

Lemma exec_approx_le n k c : (n <= k)%nat -> approx (exec n c) (exec k c).
Proof.
  induction 1 as [|k _ IH]; [apply approx_refl|]. intros s Hs.
  pose proof (IH s Hs) as Heq. rewrite <- Heq. apply exec_approx. by rewrite Heq.
Qed.

Lemma dispatch_approx n k i : (n <= k)%nat -> approx (dispatch n i) (dispatch k i).
Proof.
  intros Hle. pose proof (fun c => exec_approx_le n k c Hle) as Hrec.
  destruct i as [m|m|]; simpl; [destruct m..|]; simpl; approx_auto.
Qed.

(** The fuel is immaterial.  When the handling of an input does not run out of
    fuel, every larger fuel gives the same result and leaves the same state. *)
Theorem dispatch_fuel_irrelevant (n k : nat) (i : Input) (s : Core) :
  (n <= k)%nat -> (dispatch n i s).1 <> NoFuel -> dispatch k i s = dispatch n i s.
Proof. intros Hle Hs. by apply (dispatch_approx n k i). Qed.
End Fuel.
