(* ===== verification/Fixture.v ===== *)
(** * A concrete instance of the third-party code, and a committee of four

    The witnesses evaluate the definitions on this instance: a polynomial hash
    (one number below [2 ^ 61], then zeros), signatures that carry the key and the
    digest, a codec for blocks, a mempool that accepts everything and proposes
    nothing.  The laws assumed by the theorems hold of it. *)

From S2P Require Import Prelude Machine Crypto Config Messages Leader Aggregator Timer Store.
From S2P Require Import Sync Core Handlers.

Definition toy_hash (input : list Z) : Z :=
  fold_left (fun acc b => Z.land (16777619 * acc + b + 1) 2305843009213693951) input 7.

(** The key and the message, cut or filled up to 64 bytes. *)
Definition toy_sign (key msg : list Z) : list Z := take 64 (key ++ msg ++ replicate 64 0).

(** Bytes in text: two letters for each. *)
Definition letter (n : N) : Ascii.ascii := Ascii.ascii_of_N (65 + n).

Definition byte_letters (b : Z) : list Ascii.ascii :=
  let n := (Z.to_N b mod 256)%N in [letter (n / 16); letter (n mod 16)].

Fixpoint letters_bytes (l : list Ascii.ascii) : option (list Z) :=
  match l with
  | [] => Some []
  | a :: b :: l =>
      bytes ← letters_bytes l;
      Some (16 * (Z.of_N (Ascii.N_of_ascii a) - 65) + (Z.of_N (Ascii.N_of_ascii b) - 65) :: bytes)
  | [_] => None
  end.

#[export] Instance toy_crypto : CryptoLib := {|
  sha512 := fun input => toy_hash input :: replicate 63 0;
  dalek_PublicKey := list Z;
  dalek_Signature := list Z;
  dalek_Keypair := list Z;
  dalek_pk_from_bytes := Some;
  dalek_sig_from_bytes := Some;
  dalek_keypair_from_bytes := Some;
  dalek_sign := fun kp msg => toy_sign (drop 32 kp) msg;
  dalek_verify_strict := fun key msg sig => bool_decide (sig = toy_sign key msg);
  dalek_verify_batch := fun msgs sigs keys =>
    forallb (fun '(m, (s, k)) => bool_decide (s = toy_sign k m)) (zip msgs (zip sigs keys));
  base64_encode := fun bytes => String.string_of_list_ascii (bytes ≫= byte_letters);
  base64_decode := fun s => letters_bytes (String.list_ascii_of_string s);
  PublicKeySet := unit;
  PublicKeyShare := Z;
  SecretKeyShare := Z;
  SignatureShare := Z * list Z;
  TssSignature := list Z;
  public_key_share := fun _ i => i;
  tss_sign := fun i msg => (i, msg);
  tss_verify := fun i share msg => bool_decide (share = (i, msg));
  combine_signatures := fun _ m => match map_to_list m with [] => None | (_, (_, d)) :: _ => Some d end;
  tss_to_bytes := fun d => (fun _ => 0) <$> d;
|}.

#[export] Instance toy_batch : DalekBatch.
Proof.
  constructor. intros l Hl. simpl. induction Hl as [|[[m s] k] l Hv _ IH]; [done|].
  simpl in Hv |- *. rewrite Hv. exact IH.
Qed.

#[export] Instance toy_dalek : DalekSign.
Proof.
  constructor.
  - intros kp m. simpl. unfold toy_sign. rewrite length_take, !length_app, length_replicate. lia.
  - intros bytes kp m. simpl. intros [= <-]. eexists _, _. repeat split. by apply bool_decide_true.
Qed.

#[export] Instance toy_threshold : ThresholdUnique.
Proof.
  constructor. intros pks msg m1 m2 s1 s2 H1 H2 Hc1 Hc2.
  assert (forall (m : gmap Z (Z * list Z)) s, map_Forall (fun i sh => bool_decide (sh = (i, msg)) = true) m ->
    match map_to_list m with [] => None | (_, (_, d)) :: _ => Some d end = Some s -> s = msg)
    as Hgen.
  { intros m s Hm. destruct (map_to_list m) as [|[i [j d]] l] eqn:Hl; [done|].
    intros [= <-]. assert (m !! i = Some (j, d)) as Hi.
    { apply elem_of_map_to_list. rewrite Hl. by left. }
    specialize (Hm i _ Hi). simpl in Hm. apply bool_decide_eq_true in Hm. congruence. }
  rewrite (Hgen m1 s1 H1 Hc1), (Hgen m2 s2 H2 Hc2). done.
Qed.

Lemma N_letter n : (n < 16)%N -> Ascii.N_of_ascii (letter n) = (65 + n)%N.
Proof. intros Hn. unfold letter. apply Ascii.N_ascii_embedding. lia. Qed.

Lemma letters_of_byte b : 0 <= b < 256 -> forall l,
  letters_bytes (byte_letters b ++ l) = bytes ← letters_bytes l; Some (b :: bytes).
Proof.
  intros Hb l. simpl. unfold byte_letters. simpl.
  pose proof (N.mod_lt (Z.to_N b mod 256) 16 ltac:(lia)). pose proof (N.mod_lt (Z.to_N b) 256 ltac:(lia)).
  rewrite !N_letter by (try apply N.Div0.div_lt_upper_bound; lia).
  destruct (letters_bytes l); simpl; [|done]. do 2 f_equal.
  rewrite (N.mod_small (Z.to_N b)) by lia. pose proof (N.div_mod (Z.to_N b) 16 ltac:(lia)). lia.
Qed.

#[export] Instance toy_base64 : Base64Laws.
Proof.
  constructor. intros bytes Hb. simpl. rewrite String.list_ascii_of_string_of_list_ascii.
  induction Hb as [|b bytes Hb _ IH]; [done|]. rewrite bind_cons, letters_of_byte by done. by rewrite IH.
Qed.

#[export] Instance Signature_eq_dec : EqDecision Signature.
Proof. solve_decision. Defined.
#[export] Instance QC_eq_dec : EqDecision QC.t.
Proof. solve_decision. Defined.
#[export] Instance Block_eq_dec : EqDecision Block.t.
Proof. solve_decision. Defined.

(** ** A codec

    Values as lists of integers: fields one after the other, lists with their length
    in front, as bincode writes them. *)
Class Codec (A : Type) := {
  put : A -> list Z -> list Z;
  get : list Z -> option (A * list Z);
  get_put : forall a l, get (put a l) = Some (a, l);
}.

#[export] Instance Z_codec : Codec Z.
Proof.
  refine {| put := cons; get := fun l => match l with z :: l => Some (z, l) | [] => None end |}.
  done.
Defined.

#[export] Instance prod_codec {A B} `{Codec A, Codec B} : Codec (A * B).
Proof.
  refine {| put := fun x l => put x.1 (put x.2 l);
            get := fun l => '(a, l) ← get l; '(b, l) ← get l; Some ((a, b), l) |}.
  intros [a b] l. simpl. rewrite get_put. simpl. by rewrite get_put.
Defined.

Fixpoint get_many {A} `{Codec A} (n : nat) (l : list Z) : option (list A * list Z) :=
  match n with
  | O => Some ([], l)
  | S n => '(a, l) ← get l; '(x, l) ← get_many n l; Some (a :: x, l)
  end.

#[export] Instance list_codec {A} `{Codec A} : Codec (list A).
Proof.
  refine {| put := fun x l => Z.of_nat (length x) :: foldr put l x;
            get := fun l => match l with n :: l => get_many (Z.to_nat n) l | [] => None end |}.
  intros x l. rewrite Nat2Z.id. induction x as [|a x IH]; simpl; [done|].
  rewrite get_put. simpl. by rewrite IH.
Defined.

(** A codec along a bijection, for the records. *)
Definition codec_along {A B} `{Codec B} (to : A -> B) (from : B -> A)
    (Hto : forall a, from (to a) = a) : Codec A.
Proof.
  refine {| put := fun a => put (to a);
            get := fun l => '(b, l) ← get l; Some (from b, l) |}.
  intros a l. rewrite get_put. simpl. by rewrite Hto.
Defined.

#[export] Instance Digest_codec : Codec Digest.
Proof. refine (codec_along digest_bytes mkDigest _). by intros []. Defined.
#[export] Instance PublicKey_codec : Codec PublicKey.
Proof. refine (codec_along pk_bytes mkPublicKey _). by intros []. Defined.
#[export] Instance Signature_codec : Codec Signature.
Proof.
  refine (codec_along (fun s => (part1 s, part2 s)) (fun '(a, b) => mkSignature a b) _).
  by intros [].
Defined.
#[export] Instance QC_codec : Codec QC.t.
Proof.
  refine (codec_along
    (fun q => (QC.hash q, QC.height q, QC.epoch q, QC.round q, QC.tag q, QC.proposer q,
               QC.acceptor q, QC.votes q))
    (fun '(a, b, c, d, e, f, g, h) => QC.mk a b c d e f g h) _).
  by intros [].
Defined.
#[export] Instance Block_codec : Codec Block.t.
Proof.
  refine (codec_along
    (fun b => (Block.qc b, Block.author b, Block.height b, Block.epoch b, Block.payload b,
               Block.signature b, Block.tag b, Block.round b))
    (fun '(a, b, c, d, e, f, g, h) => Block.mk a b c d e f g h) _).
  by intros [].
Defined.

#[export] Instance toy_env : NodeEnv := {|
  serialize_block := fun b => put b [];
  deserialize_block := fun l => fst <$> get l;
  mempool_get := fun _ _ _ => [];
  mempool_verify := fun _ _ _ => Accept;
  db_get_fault := fun _ => false;
|}.

#[export] Instance toy_bincode : BincodeLaws.
Proof. constructor. intros b. exact (f_equal (fmap fst) (get_put b [])). Qed.

(** Members are the keys that repeat a byte from 1 to 4, each with stake 1. *)
Definition key (i : Z) : PublicKey := mkPublicKey (replicate 32 i).

(** [n] members of stake 1. *)
Definition committee_of (n : Z) : Committee :=
  Committee_new
    ((fun i => (key i, i, 1, mkSocketAddr [] i, mkSocketAddr [] i)) <$> seqZ 1 n) 1.

Definition toy_committee : Committee :=
  Committee_new
    ((fun i => (key i, i, 1, mkSocketAddr [127; 0; 0; 1] (7200 + i),
                mkSocketAddr [127; 0; 0; 1] (7300 + i))) <$> [1; 2; 3; 4]) 1.

Lemma toy_committee_wf : wf_committee toy_committee.
Proof.
  assert (Hall : map_Forall (fun k a => 0 <= auth_stake a /\ auth_name a = k)
                   (authorities toy_committee)).
  { apply map_Forall_to_list. unfold toy_committee. vm_compute.
    repeat constructor; discriminate. }
  constructor.
  - intros k a Ha. apply (Hall k a Ha).
  - intros k a Ha. apply (Hall k a Ha).
  - vm_compute. split; [discriminate | reflexivity].
Qed.

Definition toy_service (i : Z) : SignatureService :=
  mkSignatureService (mkSecretKey (replicate 64 i)) (Some i).

(** A fresh node of the committee. *)
Definition toy_node (i : Z) (opt pes : bool) : Core :=
  Core_new (key i) toy_committee Parameters_default (toy_service i) tt
    (mkStoreClient ∅ 0) (LeaderElector_new toy_committee 2) opt pes 0.
