(* ===== verification/MempoolFacts.v ===== *)
(** * Facts about the mempool

    The payload maker neither loses, repeats nor reorders transactions; what is in
    the queues, and what is proposed, is stored; what [get_payload] and
    [verify_payload] answer; and what the digest of a payload does not say. *)

From S2P Require Import Prelude Machine Crypto Config Messages Store Sync Mempool Core Handlers.
From S2P Require Import Fixture.

(** ** A concrete environment *)

#[export] Instance Payload_eq_dec : EqDecision Payload.t.
Proof. solve_decision. Defined.
#[export] Instance Payload_codec : Codec Payload.t.
Proof.
  refine (codec_along
    (fun p => (Payload.transactions p, Payload.author p, Payload.signature p))
    (fun '(a, b, c) => Payload.mk a b c) _).
  by intros [].
Defined.

#[export] Instance toy_mempool_env : MempoolEnv := {|
  serialize_payload := fun p => put p [];
  deserialize_payload := fun l => fst <$> get l;
  set_iter := fun _ log => elements (contents log);
  set_capacity := fun _ log =>
    Z.max (Z.of_nat (size (contents log))) (match log with WithCapacity n :: _ => n | _ => 0 end);
  mempool_get_fault := fun _ => false;
|}.

#[export] Instance toy_mempool_laws : MempoolLaws.
Proof.
  constructor; [intros p; exact (f_equal (fmap fst) (get_put p [])) | done | |]; intros h; simpl; lia.
Qed.

(** ** The payload maker *)

Section Runner.
Context `{CryptoLib}.

(** What happens to the maker: a client's transaction, or a request of the core. *)
Inductive MakerEvent : Type :=
| ClientTx (tx : Transaction)
| CoreRequest.

Definition own_payloads (l : list MempoolMessage) : list Payload.t :=
  omap (fun m => match m with OwnPayload p => Some p | _ => None end) l.

(** The payloads that an event hands to the core: through its channel, or as the
    answer to its request. *)
Definition maker_event (ev : MakerEvent) : act Runner MempoolError (list Payload.t) :=
  match ev with
  | ClientTx tx =>
      before ← gets r_core_channel;
      runner_receive tx ;;
      after ← gets r_core_channel;
      mret (own_payloads (drop (length before) after))
  | CoreRequest => made ← PayloadMaker_make; mret (option_list made)
  end.

(** All the payloads of a run, in order. *)
Fixpoint maker_run (evs : list MakerEvent) : act Runner MempoolError (list Payload.t) :=
  match evs with
  | [] => mret []
  | ev :: evs => made ← maker_event ev; rest ← maker_run evs; mret (made ++ rest)
  end.

Definition client_txs (evs : list MakerEvent) : list Transaction :=
  omap (fun ev => match ev with ClientTx tx => Some tx | CoreRequest => None end) evs.

Definition bytes_of (txs : list Transaction) : Z := zsum ((fun tx => Z.of_nat (length tx)) <$> txs).

(** A transaction that is not empty and fits into a payload. *)
Definition proper_tx (max : Z) (tx : Transaction) : Prop := 0 < Z.of_nat (length tx) <= max.

(** [size] counts the bytes kept, which fit. *)
Record runner_inv (max : Z) (svc : SignatureService) (r : Runner) : Prop := {
  ri_size : r_size r = bytes_of (r_transactions r);
  ri_kept : r_size r <= max;
  ri_max : r_max_size r = max;
  ri_service : r_service r = svc;
  ri_proper : Forall (proper_tx max) (r_transactions r);
}.

(** The service signs every digest. *)
Definition service_signs (svc : SignatureService) : Prop :=
  forall d, exists sg, request_signature svc d = Ok sg.

Lemma bytes_of_nonneg txs : 0 <= bytes_of txs.
Proof. clear. apply zsum_nonneg, Forall_fmap, Forall_true. intros tx. simpl. lia. Qed.

Lemma bytes_of_snoc txs tx : bytes_of (txs ++ [tx]) = bytes_of txs + Z.of_nat (length tx).
Proof. clear. unfold bytes_of. rewrite fmap_app, zsum_app. simpl. lia. Qed.

Lemma bytes_of_proper max txs : Forall (proper_tx max) txs -> bytes_of txs = 0 -> txs = [].
Proof.
  clear. intros Hp Hz. destruct txs as [|tx txs]; [done|]. exfalso.
  change (bytes_of (tx :: txs)) with (Z.of_nat (length tx) + bytes_of txs) in Hz.
  pose proof (bytes_of_nonneg txs). apply Forall_cons in Hp as [[Hl _] _]. lia.
Qed.

Lemma payload_new_ok txs name svc :
  service_signs svc -> exists p, Payload.new txs name svc = Ok p /\ Payload.transactions p = txs.
Proof.
  intros Hs. unfold Payload.new. destruct (Hs (Payload.digest (Payload.mk txs name Signature_default)))
    as [sg ->]. simpl. eauto.
Qed.

(** Closing a payload. *)
Lemma runner_make_eq max svc r :
  service_signs svc -> runner_inv max svc r ->
  exists p, runner_make r = (Ok p, r <| r_transactions := [] |> <| r_size := 0 |>) /\
    Payload.transactions p = r_transactions r /\ Payload.size p = r_size r.
Proof.
  intros Hs [Hsz _ _ Hsvc _]. unfold runner_make. run_act. simpl.
  destruct (payload_new_ok (r_transactions r) (r_name r) (r_service r)) as (p & Hp & Ht); [by rewrite Hsvc|].
  exists p. unfold lift. rewrite Hp. split; [done|]. split; [done|]. unfold Payload.size. by rewrite Ht, Hsz.
Qed.

Lemma runner_inv_emptied max svc r :
  0 <= max -> runner_inv max svc r -> runner_inv max svc (r <| r_transactions := [] |> <| r_size := 0 |>).
Proof. intros Hm []. by constructor. Qed.

(** What an event does to the payloads and to what is kept. *)
Definition hands_over (max : Z) (svc : SignatureService) (txs : list Transaction)
    (r : Runner) (made : list Payload.t) (r' : Runner) : Prop :=
  runner_inv max svc r' /\
  concat (Payload.transactions <$> made) ++ r_transactions r' = r_transactions r ++ txs /\
  Forall (fun p => 0 < Payload.size p <= max) made.

Lemma add_fits max svc tx r :
  max < 2 ^ 63 -> proper_tx max tx -> runner_inv max svc r ->
  r_size r + Z.of_nat (length tx) <= max ->
  hands_over max svc [tx] r []
    (r <| r_transactions := r_transactions r ++ [tx] |> <| r_size := r_size r +64 Z.of_nat (length tx) |>).
Proof.
  intros Hmax Htx [Hs Hk Hm Hsv Hp] Hfit. pose proof (bytes_of_nonneg (r_transactions r)).
  destruct Htx. split; [|split; [done | constructor]].
  rewrite wrap64_small by lia. constructor; simpl; try done; try lia.
  - by rewrite bytes_of_snoc, Hs.
  - apply Forall_app. split; [done|]. by repeat constructor.
Qed.

Lemma runner_receive_spec max svc tx r :
  max < 2 ^ 63 -> service_signs svc -> proper_tx max tx -> runner_inv max svc r ->
  exists made r', maker_event (ClientTx tx) r = (Ok made, r') /\ hands_over max svc [tx] r made r'.
Proof.
  intros Hmax Hsvc Htx Hi. pose proof Hi as [Hs Hk Hm Hsv Hp].
  pose proof (bytes_of_nonneg (r_transactions r)) as Hb. pose proof Htx as [Hlo Hhi].
  simpl. unfold runner_receive, runner_add, mbind, act_bind, gets at 1, gets at 1, gets at 1, gets at 1.
  unfold gets. rewrite wrap64_small, Hm by lia.
  destruct (Z.ltb_spec max (r_size r + Z.of_nat (length tx))) as [Hlt|Hge].
  - destruct (runner_make_eq max svc r Hsvc Hi) as (p & -> & Ht & Hz). simpl.
    eexists _, _. split; [reflexivity|]. unfold own_payloads. rewrite drop_app_length. simpl.
    destruct (add_fits max svc tx _ Hmax Htx (runner_inv_emptied max svc r ltac:(lia) Hi)) as (Hi' & Hc & _);
      [simpl; lia|].
    split; [destruct Hi'; by constructor|]. split.
    + simpl. by rewrite app_nil_r, Ht.
    + constructor; [|constructor]. rewrite Hz. split; [|done].
      destruct (decide (r_size r = 0)) as [He|]; lia.
  - eexists _, _. split; [reflexivity|]. simpl.
    rewrite drop_all. by apply add_fits.
Qed.

Lemma maker_request_spec max svc r :
  0 <= max -> service_signs svc -> runner_inv max svc r ->
  exists made r', maker_event CoreRequest r = (Ok made, r') /\ hands_over max svc [] r made r'.
Proof.
  intros Hmax Hsvc Hi. pose proof Hi as [Hs Hk _ _ Hp].
  pose proof (bytes_of_nonneg (r_transactions r)) as Hb.
  destruct (runner_make_eq max svc r Hsvc Hi) as (p & Hmk & Ht & Hz).
  simpl. unfold PayloadMaker_make, mbind, act_bind. rewrite Hmk. simpl.
  eexists _, _. split; [reflexivity|]. split; [by apply runner_inv_emptied|]. simpl. rewrite Hz.
  destruct (Z.eqb_spec (r_size r) 0) as [He|Hne]; simpl.
  - rewrite (bytes_of_proper max (r_transactions r)) by (done || lia). by split; [|constructor].
  - rewrite Ht, !app_nil_r. split; [done|]. constructor; [lia | constructor].
Qed.

Lemma maker_run_spec max svc evs r :
  0 <= max < 2 ^ 63 -> service_signs svc -> Forall (proper_tx max) (client_txs evs) ->
  runner_inv max svc r ->
  exists made r', maker_run evs r = (Ok made, r') /\ hands_over max svc (client_txs evs) r made r'.
Proof.
  intros Hmax Hsvc. revert r. induction evs as [|ev evs IH]; intros r Htxs Hi.
  { eexists [], r. split; [done|]. split; [done|]. by rewrite app_nil_r. }
  assert (exists made r1, maker_event ev r = (Ok made, r1) /\
    hands_over max svc (client_txs [ev]) r made r1) as (made & r1 & He & Hi1 & Hc1 & Hs1).
  { destruct ev as [tx|]; [|apply maker_request_spec; [lia | done..]].
    apply runner_receive_spec; [lia | done | | done]. by apply Forall_cons in Htxs as [? _]. }
  assert (client_txs (ev :: evs) = client_txs [ev] ++ client_txs evs) as Hcl
    by (unfold client_txs; by rewrite <- omap_app).
  rewrite Hcl in *. apply Forall_app in Htxs as [_ Htxs].
  destruct (IH r1 Htxs Hi1) as (rest & r2 & Hr & Hi2 & Hc2 & Hs2).
  exists (made ++ rest), r2. split; [|split; [done|split]].
  - cbn [maker_run]. unfold mbind, act_bind. by rewrite He, Hr.
  - by rewrite fmap_app, concat_app, <- app_assoc, Hc2, app_assoc, Hc1, app_assoc.
  - by apply Forall_app.
Qed.

(** One transaction and a request. *)
Lemma maker_one_tx name svc max tx sg :
  0 < Z.of_nat (length tx) -> Z.of_nat (length tx) <= max < 2 ^ 63 ->
  request_signature svc (Payload.digest (Payload.mk [tx] name Signature_default)) = Ok sg ->
  (maker_run [ClientTx tx; CoreRequest] (Runner_new name svc max)).1 = Ok [Payload.mk [tx] name sg].
Proof.
  intros Hlo Hmax Hsg. set (r := mkRunner [tx] (Z.of_nat (length tx)) max name svc [] 0).
  assert (maker_event (ClientTx tx) (Runner_new name svc max) = (Ok [], r)) as Htx.
  { simpl. unfold runner_receive, runner_add. run_act. simpl. rewrite wrap64_small by lia.
    destruct (Z.ltb_spec max (0 + Z.of_nat (length tx))); [lia|]. simpl.
    by rewrite wrap64_small by lia. }
  assert (Payload.size (Payload.mk [tx] name sg) =? 0 = false) as Hz.
  { apply Z.eqb_neq. unfold Payload.size. cbn [Payload.transactions fmap list_fmap zsum fold_right]. lia. }
  cbn [maker_run]. unfold mbind at 1, act_bind at 1. rewrite Htx. simpl.
  unfold PayloadMaker_make, runner_make. run_act. simpl. unfold lift, Payload.new. rewrite Hsg. simpl.
  by rewrite Hz.
Qed.

(** C38: The payload maker.  With a service that signs, and from any client's
    transactions that are not empty and each fit the maximum payload size, in any
    order with the core's requests for a payload, the maker does not fail; the
    payloads it hands over (through the core's channel, or as the answer to a request)
    followed by the transactions still kept are the transactions received, none lost,
    repeated or reordered; no payload exceeds the maximum size and none is empty.
    (Larger and empty transactions: [oversized_transaction_sends_empty_payload],
    [empty_transactions_lost].) *)
Theorem payload_maker_keeps_transactions (name : PublicKey) (svc : SignatureService)
    (max : Z) (evs : list MakerEvent) :
  0 <= max < 2 ^ 63 -> service_signs svc -> Forall (proper_tx max) (client_txs evs) ->
  exists made r, maker_run evs (Runner_new name svc max) = (Ok made, r) /\
    concat (Payload.transactions <$> made) ++ r_transactions r = client_txs evs /\
    Forall (fun p => 0 < Payload.size p <= max) made.
Proof.
  intros Hmax Hsvc Htxs.
  destruct (maker_run_spec max svc evs (Runner_new name svc max)) as (made & r & Hr & _ & Hc & Hs);
    [done..| |by exists made, r].
  constructor; simpl; [done | lia | done | done | constructor].
Qed.
End Runner.

(** ** The queues *)

Section Queues.
Context `{CryptoLib} `{MempoolEnv}.

Lemma q_set_insert d q : q_set (queue_insert d q) = {[d]} ∪ q_set q.
Proof. unfold q_set, contents. simpl. by rewrite fold_left_app. Qed.

Lemma q_set_remove d q : q_set (queue_remove d q) = q_set q ∖ {[d]}.
Proof. unfold q_set, contents. simpl. by rewrite fold_left_app. Qed.

Lemma q_set_new h n : q_set (queue_with_capacity h n) = ∅.
Proof. reflexivity. Qed.

Lemma remove_all_set l q :
  q_set (fold_left (fun q x => queue_remove x q) l q) = q_set q ∖ list_to_set l.
Proof.
  revert q. induction l as [|x l IH]; intros q; simpl; [set_solver|].
  rewrite IH, q_set_remove. set_solver.
Qed.

(** What a proposal takes from a queue: distinct digests of the queue, no more
    than the maximum size allows at 32 bytes each, as many as there are up to that;
    they leave the queue, and nothing else does. *)
Theorem take_queue_spec `{!MempoolLaws} (max : Z) (q : Queue) :
  let '(l, q') := take_queue max q in
  NoDup l /\ (forall d, d ∈ l -> d ∈ q_set q) /\
  length l = Nat.min (Z.to_nat (max / 32)) (size (q_set q)) /\
  (forall d, d ∈ q_set q' <-> d ∈ q_set q /\ d ∉ l).
Proof.
  unfold take_queue. replace (Digest_size Digest_default) with 32 by done.
  set (l := take _ _).
  assert (NoDup (set_iter (q_hasher q) (q_log q))) as Hnd
    by (rewrite set_iter_perm; apply NoDup_elements).
  split_and!.
  - eapply sublist_NoDup; [exact Hnd | apply sublist_take].
  - intros d Hd. apply elem_of_elements. unfold q_set. rewrite <- (set_iter_perm (q_hasher q)).
    apply elem_of_take in Hd as (i & Hi & _). by apply list_elem_of_lookup_2 in Hi.
  - unfold l. rewrite length_take. f_equal. by rewrite set_iter_perm.
  - intros d. rewrite remove_all_set. set_solver.
Qed.
End Queues.

(** ** What is queued and proposed is stored *)

Section Availability.
Context `{CryptoLib} `{MempoolEnv}.

Notation M := (act MCore MempoolError).

(** The store holds, under the digest, a payload that has this digest. *)
Definition stored (s : MCore) (d : Digest) : Prop :=
  exists p, kv (mp_store s) !! Digest_to_vec d = Some (serialize_payload p) /\
    Payload.digest p = d.

Definition queued (s : MCore) : gset Digest := q_set (opt_queue s) ∪ q_set (pes_queue s).

Definition available (s : MCore) : Prop := forall d, d ∈ queued s -> stored s d.

(** The store has a value under the digest: what [verify_payload] looks for. *)
Definition held (s : MCore) (d : Digest) : Prop := is_Some (kv (mp_store s) !! Digest_to_vec d).

Lemma stored_held s d : stored s d -> held s d.
Proof. intros (p & Hp & _). by exists (serialize_payload p). Qed.

Lemma insert_held (m : gmap Key Value) k v k' :
  is_Some (m !! k') -> is_Some (<[k := v]> m !! k').
Proof. intros Hk. rewrite lookup_insert_is_Some'. by right. Qed.

(** A step that stores nothing away: what was stored and what was held is, and only
    stored digests are added to the queues. *)
Definition keeps (s s' : MCore) : Prop :=
  (forall d, stored s d -> stored s' d) /\ (forall d, held s d -> held s' d) /\
  (forall d, d ∈ queued s' -> d ∈ queued s \/ stored s' d).

#[export] Instance keeps_refl : Reflexive keeps.
Proof. intros s. split_and!; auto. Qed.
#[export] Instance keeps_trans : Transitive keeps.
Proof.
  intros s1 s2 s3 (Hs12 & Hh12 & Hq12) (Hs23 & Hh23 & Hq23). split_and!; [by auto..|].
  intros d Hd. destruct (Hq23 d Hd) as [Hd2|]; [|auto]. destruct (Hq12 d Hd2); auto.
Qed.

Lemma keeps_available s s' : keeps s s' -> available s -> available s'.
Proof. intros (Hs & _ & Hq) Ha d Hd. destruct (Hq d Hd); auto. Qed.

Definition keeping {A} (m : M A) : Prop := forall s, keeps s (m s).2.

Lemma keeping_bind {A B} (m : M A) (f : A -> M B) :
  keeping m -> (forall a, keeping (f a)) -> keeping (m ≫= f).
Proof.
  intros Hm Hf s. specialize (Hm s). unfold mbind, act_bind.
  destruct (m s) as [[a|x|w|] s']; simpl in *; try done. etrans; [exact Hm | apply Hf].
Qed.

(** Steps that touch neither the map nor the queues. *)
Definition same_data (s s' : MCore) : Prop :=
  kv (mp_store s') = kv (mp_store s) /\ opt_queue s' = opt_queue s /\ pes_queue s' = pes_queue s.

Lemma same_data_keeps s s' : same_data s s' -> keeps s s'.
Proof.
  intros (Hk & Ho & Hp). unfold keeps, stored, held, queued. rewrite Hk, Ho, Hp. auto.
Qed.

Lemma keeping_modify f : (forall s, same_data s (f s)) -> keeping (modify f).
Proof. intros Hf s. apply same_data_keeps, Hf. Qed.
Lemma keeping_gets {A} (f : MCore -> A) : keeping (gets f).
Proof. intros s. reflexivity. Qed.
Lemma keeping_ret {A} (a : A) : keeping (mret a).
Proof. intros s. reflexivity. Qed.
Lemma keeping_lift {A} (m : MempoolResult A) : keeping (lift m).
Proof. intros s. reflexivity. Qed.

Lemma keeping_transmit m to : keeping (m_transmit m to).
Proof.
  do 2 (apply keeping_bind; [apply keeping_gets | intros]).
  apply keeping_bind; [|intros; by apply keeping_modify].
  destruct to; [|apply keeping_ret].
  apply keeping_bind; [apply keeping_lift | intros; apply keeping_ret].
Qed.

Lemma keeping_read k : keeping (m_read k).
Proof.
  apply keeping_bind; [apply keeping_gets | intros n].
  apply keeping_bind; [by apply keeping_modify | intros _].
  destruct (mempool_get_fault n); [apply keeping_lift | apply keeping_gets].
Qed.

Lemma keeping_for_each {A} (l : list A) (f : A -> M unit) :
  (forall x, keeping (f x)) -> keeping (for_each l f).
Proof.
  intros Hf. induction l as [|x l IH]; simpl; [apply keeping_ret|].
  apply keeping_bind; [apply Hf | intros; exact IH].
Qed.

Lemma store_payload_stored p s :
  stored (store_payload (Digest_to_vec (Payload.digest p)) p s).2 (Payload.digest p).
Proof. exists p. simpl. by rewrite lookup_insert_eq. Qed.

Lemma keeping_store p : keeping (store_payload (Digest_to_vec (Payload.digest p)) p).
Proof.
  intros s. split_and!; [|intros d; apply insert_held|auto]. intros d (q & Hq & Hd).
  destruct (decide (d = Payload.digest p)) as [->|Hne]; [apply store_payload_stored|].
  exists q. simpl. split; [|done]. rewrite lookup_insert_ne; [done|].
  intros Heq. apply Hne. unfold Digest_to_vec in Heq.
  assert (forall a b, digest_bytes a = digest_bytes b -> a = b) as Hinj
    by (intros [] []; simpl; congruence).
  by apply Hinj.
Qed.

Lemma keeping_own p : keeping (process_own_payload (Payload.digest p) p).
Proof.
  apply keeping_bind; [apply keeping_gets | intros room].
  apply keeping_bind; [apply keeping_lift | intros _].
  apply keeping_bind; [apply keeping_store | intros _; apply keeping_transmit].
Qed.

(** An own payload that is processed is stored. *)
Lemma own_stored p s s' :
  process_own_payload (Payload.digest p) p s = (Ok tt, s') -> stored s' (Payload.digest p).
Proof.
  unfold process_own_payload, mbind, act_bind, gets, ensure_act, lift, ensure.
  destruct (_ && _); [|done]. pose proof (store_payload_stored p s) as Hst.
  destruct (store_payload _ _ s) as [[[]|x|w|] s1]; try done. intros Ht.
  pose proof (keeping_transmit (PayloadMsg p) None s1) as (Hk & _ & _). rewrite Ht in Hk. by apply Hk.
Qed.

Lemma enqueue_keeps d s : stored s d -> keeps s (enqueue d s).2.
Proof.
  intros Hd. split_and!; [done..|]. intros e He. unfold queued in *. simpl in He.
  rewrite !q_set_insert in He.
  destruct (decide (e = d)) as [->|]; [right; exact Hd | left; set_solver].
Qed.

Lemma keeping_handle_own p : keeping (handle_own_payload p).
Proof.
  apply keeping_bind; [apply keeping_gets | intros room].
  apply keeping_bind; [apply keeping_lift | intros _]. intros s.
  pose proof (keeping_own p s) as Hk. pose proof (own_stored p s) as Hst.
  unfold mbind, act_bind. destruct (process_own_payload _ _ s) as [[[]|x|w|] s1]; try done.
  etrans; [exact Hk|]. apply enqueue_keeps. by apply Hst.
Qed.

Lemma keeping_handle_others p : keeping (handle_others_payload p).
Proof.
  do 2 (apply keeping_bind; [apply keeping_gets | intros ?];
        apply keeping_bind; [apply keeping_lift | intros _]).
  apply keeping_bind; [apply keeping_lift | intros _]. intros s.
  pose proof (keeping_store p s) as Hk. pose proof (store_payload_stored p s) as Hst.
  unfold mbind, act_bind. destruct (store_payload _ _ s) as [[[]|x|w|] s1]; try done.
  etrans; [exact Hk|]. by apply enqueue_keeps.
Qed.

Lemma keeping_request ds k : keeping (handle_request ds k).
Proof.
  apply keeping_for_each. intros d. apply keeping_bind; [apply keeping_read | intros [bytes|]];
    [|apply keeping_ret].
  apply keeping_bind; [apply keeping_lift | intros; apply keeping_transmit].
Qed.

Lemma keeping_make : keeping payload_maker_make.
Proof.
  intros s. unfold payload_maker_make, zoom. destruct (PayloadMaker_make _) as [r x].
  by apply same_data_keeps.
Qed.

Lemma keeping_missing l m : keeping (missing_payloads l m).
Proof.
  revert m. induction l as [|d l IH]; intros m; simpl; [apply keeping_ret|].
  apply keeping_bind; [apply keeping_read | intros; apply IH].
Qed.

Lemma keeping_verify b tag : keeping (verify_payload b tag).
Proof.
  apply keeping_bind; [apply keeping_missing | intros m].
  case_bool_decide; [apply keeping_ret|].
  apply keeping_bind; [by apply keeping_modify | intros; apply keeping_ret].
Qed.

Lemma queue_remove_subset d q : q_set (queue_remove d q) ⊆ q_set q.
Proof. rewrite q_set_remove. set_solver. Qed.

Lemma keeping_cleanup ds round : keeping (m_cleanup ds round).
Proof.
  apply keeping_bind; [by apply keeping_modify | intros _].
  apply keeping_for_each. intros d s. split_and!; [done..|].
  intros e He. left. unfold queued in *. simpl in He. rewrite !q_set_remove in He. set_solver.
Qed.

(** What [get_payload] does when the queue is empty. *)
Definition make_payload : M (list Digest) :=
  made ← payload_maker_make;
  match made with
  | Some payload => process_own_payload (Payload.digest payload) payload ;;
                    mret [Payload.digest payload]
  | None => mret []
  end.

Lemma get_payload_eq max tag s :
  get_payload max tag s =
  if ((tag =? OPT) && (q_len (opt_queue s) =? 0)) || ((tag =? PES) && (q_len (pes_queue s) =? 0))
  then make_payload s
  else if tag =? OPT then
    (Ok (take_queue max (opt_queue s)).1, s <| opt_queue := (take_queue max (opt_queue s)).2 |>)
  else
    (Ok (take_queue max (pes_queue s)).1, s <| pes_queue := (take_queue max (pes_queue s)).2 |>).
Proof.
  unfold get_payload, mbind at 1, act_bind at 1, gets. unfold mbind at 1, act_bind at 1.
  destruct (_ || _); [done|]. destruct (tag =? OPT).
  - by destruct (take_queue max (opt_queue s)).
  - by destruct (take_queue max (pes_queue s)).
Qed.

Lemma make_payload_keeps s :
  keeps s (make_payload s).2 /\
  forall l, (make_payload s).1 = Ok l -> forall d, d ∈ l -> stored (make_payload s).2 d.
Proof.
  unfold make_payload.
  pose proof (keeping_make s) as Hk.
  unfold mbind, act_bind. destruct (payload_maker_make s) as [[[p|]|x|w|] s1]; simpl in *;
    try (split; [exact Hk|]; intros l [= <-] d Hd; by apply elem_of_nil in Hd);
    try (split; [exact Hk | done]).
  pose proof (keeping_own p s1) as Hk2. pose proof (own_stored p s1) as Hst.
  destruct (process_own_payload _ _ s1) as [[[]|x|w|] s2]; simpl in *;
    (split; [etrans; [exact Hk | exact Hk2]|]); try done.
  intros l [= <-] d Hd. apply list_elem_of_singleton in Hd as ->. by apply Hst.
Qed.

Lemma take_queue_sub `{!MempoolLaws} max q :
  (forall d, d ∈ (take_queue max q).1 -> d ∈ q_set q) /\ q_set (take_queue max q).2 ⊆ q_set q.
Proof.
  unfold take_queue. simpl. split.
  - intros d Hd. apply elem_of_take in Hd as (i & Hi & _). apply list_elem_of_lookup_2 in Hi.
    rewrite set_iter_perm in Hi. by apply elem_of_elements.
  - rewrite remove_all_set. set_solver.
Qed.

(** A proposal takes digests of the queues or of payloads it stores. *)
Lemma get_payload_keeps `{!MempoolLaws} max tag s :
  keeps s (get_payload max tag s).2 /\
  forall l, (get_payload max tag s).1 = Ok l ->
    forall d, d ∈ l -> d ∈ queued s \/ stored (get_payload max tag s).2 d.
Proof.
  rewrite get_payload_eq. destruct (_ || _).
  { destruct (make_payload_keeps s) as [Hk Hst]. split; [exact Hk|]. intros l Hl d Hd. right.
    by apply (Hst l). }
  destruct (take_queue_sub max (opt_queue s)) as [Ho1 Ho2].
  destruct (take_queue_sub max (pes_queue s)) as [Hp1 Hp2].
  destruct (tag =? OPT); cbn [fst snd]; split.
  - split_and!; [done..|]. intros d Hd. left. unfold queued in *. simpl in Hd. set_solver.
  - intros l [= <-] d Hd. left. unfold queued. set_solver.
  - split_and!; [done..|]. intros d Hd. left. unfold queued in *. simpl in Hd. set_solver.
  - intros l [= <-] d Hd. left. unfold queued. set_solver.
Qed.

Lemma keeping_reply (m : M unit) (r : MReply) s : keeping m -> keeps s ((m ;; mret r) s).2.
Proof. intros Hm. apply keeping_bind; [exact Hm | intros; apply keeping_ret]. Qed.

(** Whatever the message and the database do. *)
Lemma m_handle_keeps `{!MempoolLaws} (i : MInput) s : keeps s (m_handle i s).2.
Proof.
  destruct i as [[p|p|ds k]|[max tag|b tag|ds round]]; simpl.
  - apply keeping_reply, keeping_handle_own.
  - apply keeping_reply, keeping_handle_others.
  - apply keeping_reply, keeping_request.
  - destruct (get_payload_keeps max tag s) as [Hk _]. by destruct (get_payload max tag s) as [[] ?].
  - pose proof (keeping_verify b tag s) as Hk. by destruct (verify_payload b tag s) as [[[]|?|?|] ?].
  - apply keeping_reply, keeping_cleanup.
Qed.

(** What is proposed was queued, or is stored. *)
Lemma m_handle_proposes `{!MempoolLaws} (i : MInput) s l d :
  (m_handle i s).1 = Ok (ReplyDigests l) -> d ∈ l -> d ∈ queued s \/ stored (m_handle i s).2 d.
Proof.
  assert (forall (m : M unit), ((m ;; mret NoReply) s).1 <> Ok (ReplyDigests l)) as Hnone.
  { intros m. unfold mbind, act_bind. by destruct (m s) as [[[]|x|w|] s']. }
  destruct i as [[p|p|ds k]|[max tag|b tag|ds round]]; simpl; try by intros ?%Hnone.
  - destruct (get_payload_keeps max tag s) as [_ Hst].
    destruct (get_payload max tag s) as [[l'|x|w|] s']; simpl in *; [|by intros [= <-] ?%elem_of_nil|done..].
    intros [= <-]. by apply Hst.
  - by destruct (verify_payload b tag s) as [[[]|?|?|] ?].
Qed.

(** *** The shared store *)

Definition payload_digest (d : Digest) : Prop := exists p, Payload.digest p = d.

Lemma stored_payload m d : stored m d -> payload_digest d.
Proof. intros (p & _ & Hd). by exists p. Qed.

(** What is queued is held and is the digest of a payload. *)
Definition ready (m : MCore) : Prop := forall d, d ∈ queued m -> held m d /\ payload_digest d.

(** The store only gains keys, and what is queued stays held. *)
Definition grows (m m' : MCore) : Prop :=
  (forall d, held m d -> held m' d) /\ (ready m -> ready m').

#[export] Instance grows_refl : Reflexive grows.
Proof. by split. Qed.
#[export] Instance grows_trans : Transitive grows.
Proof. intros m1 m2 m3 [] []. split; auto. Qed.

Lemma grows_held m m' d : grows m m' -> held m d -> held m' d.
Proof. intros [Hh _]. apply Hh. Qed.

Lemma keeps_grows m m' : keeps m m' -> grows m m'.
Proof.
  intros (_ & Hh & Hq). split; [done|]. intros Hr d Hd.
  destruct (Hq d Hd) as [Hd'|Hd']; [destruct (Hr d Hd'); by auto|].
  split; [by apply stored_held | by eapply stored_payload].
Qed.

Lemma m_handle_grows `{!MempoolLaws} i m : grows m (m_handle i m).2.
Proof. apply keeps_grows, m_handle_keeps. Qed.

Lemma m_event_grows `{!MempoolLaws} ev m : grows m (m_event ev m).
Proof.
  destruct ev as [i|k v]; [apply m_handle_grows|]. split; [intros d; apply insert_held|].
  intros Hr d [Hh Hp]%Hr. by split; [apply insert_held|].
Qed.

Lemma m_run_grows `{!MempoolLaws} evs m : grows m (m_run evs m).
Proof.
  revert m. induction evs as [|ev evs IH]; intros m; [reflexivity|].
  etrans; [apply m_event_grows | apply IH].
Qed.

Lemma queued_new n c ps st mk : queued (MCore_new n c ps st mk) = ∅.
Proof. unfold queued. simpl. by rewrite !q_set_new, (left_id_L ∅ (∪)). Qed.

Lemma ready_new n c ps st mk : ready (MCore_new n c ps st mk).
Proof. intros d. rewrite queued_new. set_solver. Qed.

(** A write of another task that does not hit a queued payload. *)
Definition spares (ev : MEvent) (s : MCore) : Prop :=
  match ev with
  | MForeignWrite k _ => forall d, d ∈ queued s -> Digest_to_vec d <> k
  | _ => True
  end.

Fixpoint all_spare (evs : list MEvent) (s : MCore) : Prop :=
  match evs with
  | [] => True
  | ev :: evs => spares ev s /\ all_spare evs (m_event ev s)
  end.

Lemma m_event_available `{!MempoolLaws} ev s : spares ev s -> available s -> available (m_event ev s).
Proof.
  destruct ev as [i|k v]; intros Hs Ha; [eapply keeps_available; [apply m_handle_keeps | done]|].
  intros d Hd. change (d ∈ queued s) in Hd. destruct (Ha d Hd) as (p & Hp & Hpd).
  exists p. simpl. by rewrite lookup_insert_ne by (intros ->; by apply (Hs d Hd)).
Qed.

Lemma m_run_available `{!MempoolLaws} evs s : all_spare evs s -> available s -> available (m_run evs s).
Proof.
  revert s. induction evs as [|ev evs IH]; intros s; [done|]. intros [Hev Hevs] Ha.
  by apply IH; [|apply m_event_available].
Qed.

(** C39: The mempool proposes what it has.  From its start, after any messages of peers
    and of the consensus core, any database failures, and any writes of other tasks to
    the store they share: under every queued digest the store has a value, and so it
    has after the answer to a proposer under every digest of the answer, and from then
    on.  The value is a payload with this digest as long as no other task writes under
    the digest of a payload that is queued. *)
Theorem mempool_availability `{!MempoolLaws} (n : PublicKey) (c : MCommittee) (ps : MParameters)
    (st : StoreClient) (maker : Runner) (evs : list MEvent) :
  let s0 := MCore_new n c ps st maker in
  let s := m_run evs s0 in
  (forall d, d ∈ queued s -> held s d) /\
  (forall i l d more, (m_handle i s).1 = Ok (ReplyDigests l) -> d ∈ l ->
     held (m_run more (m_handle i s).2) d) /\
  (all_spare evs s0 ->
     (forall d, d ∈ queued s -> stored s d) /\
     (forall i l d, (m_handle i s).1 = Ok (ReplyDigests l) -> d ∈ l -> stored (m_handle i s).2 d)).
Proof.
  intros s0 s. assert (ready s) as Hr by apply m_run_grows, ready_new. split_and!.
  - intros d Hd. by apply Hr.
  - intros i l d more Hl Hd. apply (grows_held _ _ d (m_run_grows more _)).
    destruct (m_handle_proposes i s l d Hl Hd) as [Hq|]; [|by apply stored_held].
    by apply (grows_held _ _ d (m_handle_grows i s)), Hr.
  - intros Hsp. assert (available s) as Ha.
    { apply m_run_available; [done|]. intros d. unfold s0. rewrite queued_new. set_solver. }
    split; [exact Ha|]. intros i l d Hl Hd.
    destruct (m_handle_proposes i s l d Hl Hd) as [Hq|]; [|done].
    by apply (m_handle_keeps i s), Ha.
Qed.

(** A block that is accepted has its payloads in the store, with any database
    failures. *)
Lemma missing_payloads_held l m s m' s' :
  missing_payloads l m s = (Ok m', s') ->
  m ⊆ m' /\ forall d, d ∈ l -> held s d \/ d ∈ m'.
Proof.
  revert m s. induction l as [|x l IH]; intros m s; simpl.
  { intros [= <- <-]. split; [done|]. by intros d ?%elem_of_nil. }
  unfold m_read, mbind, act_bind, gets, modify. simpl.
  destruct (mempool_get_fault _); [done|]. intros [Hm Hl]%IH.
  split; [destruct (kv _ !! _); set_solver|]. intros d [->|Hd]%elem_of_cons; [|by apply Hl].
  unfold held. destruct (kv _ !! _); [left; by eexists | right; set_solver].
Qed.

Lemma m_handle_accepts block tag s d :
  (m_handle (FromConsensus (MempoolVerify block tag)) s).1 = Ok (ReplyStatus Accept) ->
  d ∈ Block.payload block -> held s d.
Proof.
  simpl. unfold verify_payload, mbind, act_bind.
  destruct (missing_payloads _ ∅ s) as [[m|x|w|] s'] eqn:Hm; simpl; [|done..].
  apply missing_payloads_held in Hm as [_ Hm].
  case_bool_decide as He; simpl; [|done]. intros _ Hd. destruct (Hm d Hd); [done | set_solver].
Qed.
End Availability.

(** ** Verification of a block's payload *)

Section Verify.
Context `{CryptoLib} `{MempoolEnv}.

(** The digests of a list that the map does not hold. *)
Definition absent (m : gmap Key Value) (l : list Digest) : gset Digest :=
  list_to_set (filter (fun d => m !! Digest_to_vec d = None) l).

(** Of the next [len] reads, starting with the [n]-th, the first that fails. *)
Fixpoint first_fault (n len : nat) : option nat :=
  match len with
  | O => None
  | S len => if mempool_get_fault n then Some O else S <$> first_fault (S n) len
  end.

(** The state after so many more reads. *)
Definition after_reads (k : nat) (s : MCore) : MCore :=
  s <| mp_store := mkStoreClient (kv (mp_store s)) (reads (mp_store s) + k) |>.

Lemma missing_payloads_eq l m s :
  missing_payloads l m s =
  match first_fault (reads (mp_store s)) (length l) with
  | Some k => (Err MStoreError, after_reads (S k) s)
  | None => (Ok (m ∪ absent (kv (mp_store s)) l), after_reads (length l) s)
  end.
Proof.
  revert m s. induction l as [|d l IH]; intros m s.
  - unfold absent, after_reads. simpl. rewrite (right_id_L ∅ (∪)), Nat.add_0_r. by destruct s as [? ? ? []].
  - cbn [missing_payloads length first_fault]. unfold m_read, mbind, act_bind, gets, modify. simpl.
    unfold after_reads. destruct (mempool_get_fault _).
    + by rewrite Nat.add_1_r.
    + rewrite IH. simpl. unfold after_reads. simpl. destruct (first_fault _ _) as [k|]; simpl.
      * by rewrite <- (Nat.add_succ_comm _ (S k)).
      * rewrite <- (Nat.add_succ_comm _ (length l)). f_equal. f_equal. unfold absent. rewrite filter_cons. simpl.
        destruct (kv _ !! Digest_to_vec d) eqn:Hd.
        -- by rewrite decide_False.
        -- rewrite decide_True by done. simpl. by rewrite (assoc_L (∪)), (comm_L (∪) m {[d]}).
Qed.

(** C40: The answer to the consensus core about a block.  The digests of the block are
    looked up one by one.  When a read fails, the block is rejected.  Otherwise it is
    accepted exactly when the store, which the consensus core shares, has some value
    under every digest; and if not, the core is told to wait, and the synchronizer's
    task is sent exactly the digests without a value, with the block and its tag. *)
Theorem verify_payload_spec (block : Block.t) (tag : Z) (s : MCore) :
  let digests := Block.payload block in
  let missing := absent (kv (mp_store s)) digests in
  m_handle (FromConsensus (MempoolVerify block tag)) s =
  match first_fault (reads (mp_store s)) (length digests) with
  | Some k => (Ok (ReplyStatus Reject), after_reads (S k) s)
  | None =>
      let s' := after_reads (length digests) s in
      if bool_decide (missing = ∅) then (Ok (ReplyStatus Accept), s')
      else (Ok (ReplyStatus Wait),
            s' <| mp_synchronizer := mp_synchronizer s ++ [SyncMissing missing block tag] |>)
  end.
Proof.
  cbv zeta. simpl. unfold verify_payload, mbind at 1, act_bind at 1. rewrite missing_payloads_eq.
  destruct (first_fault _ _); [done|]. rewrite (left_id_L ∅ (∪)). by case_bool_decide.
Qed.
End Verify.

(** ** Payloads of peers *)

Section Others.
Context `{CryptoLib} `{MempoolEnv}.

(** A peer's payload is stored and queued exactly when its author is a member, it
    is not too big and its signature verifies; otherwise the state is unchanged and
    the error says which check failed. *)
Theorem others_payload_spec (p : Payload.t) (s : MCore) :
  handle_others_payload p s =
  if negb (exists_member (mp_committee s) (Payload.author p)) then
    (Err (MUnknownAuthority (Payload.author p)), s)
  else if m_max_payload_size (mp_parameters s) <? Payload.size p then (Err PayloadTooBig, s)
  else
    match Signature_verify (Payload.signature p) (Payload.digest p) (Payload.author p) with
    | Ok _ =>
        (Ok tt,
         s <| mp_store := mkStoreClient
                (<[Digest_to_vec (Payload.digest p) := serialize_payload p]> (kv (mp_store s)))
                (reads (mp_store s)) |>
           <| opt_queue := queue_insert (Payload.digest p) (opt_queue s) |>
           <| pes_queue := queue_insert (Payload.digest p) (pes_queue s) |>)
    | Err e => (Err (MInvalidSignature e), s)
    | Panic w => (Panic w, s)
    | NoFuel => (NoFuel, s)
    end.
Proof.
  unfold handle_others_payload, mbind, act_bind, gets, ensure_act, lift, ensure.
  destruct (exists_member _ _); simpl; [|done].
  rewrite Z.leb_antisym. destruct (_ <? _); simpl; [done|].
  by destruct (Signature_verify _ _ _).
Qed.

(** The digest of a payload does not say where its transactions end: payloads of
    one author whose concatenated transactions are equal have the same digest, so a
    signature for one is a signature for the other. *)
Theorem payload_digest_ignores_boundaries (p q : Payload.t) :
  Payload.author p = Payload.author q ->
  concat (Payload.transactions p) = concat (Payload.transactions q) ->
  Payload.digest p = Payload.digest q /\
  Signature_verify (Payload.signature p) (Payload.digest q) (Payload.author q) =
    Signature_verify (Payload.signature p) (Payload.digest p) (Payload.author p).
Proof.
  intros Ha Ht.
  assert (Payload.digest p = Payload.digest q) as Hd
    by (unfold Payload.digest, Payload.preimage; congruence).
  split; [exact Hd|]. by rewrite Hd, Ha.
Qed.
End Others.

Lemma run_ok_eq {A S} (x : MempoolResult A * S) a : x.1 = Ok a -> x = (Ok a, x.2).
Proof. destruct x. simpl. by intros ->. Qed.

Lemma run_ok {S} (x : MempoolResult unit * S) : is_ok x.1 = true -> x = (Ok tt, x.2).
Proof. by destruct x as [[[]|?|?|] s]. Qed.

Definition oversized_run : Runner :=
  (maker_run [ClientTx [1; 2; 3]] (Runner_new (key 1) (toy_service 1) 2)).2.

(** The payload maker can send an empty payload: a first transaction larger than
    the maximum makes the maker close, sign and send a payload without transactions,
    and keep the transaction for a payload that exceeds the maximum. *)
Theorem oversized_transaction_sends_empty_payload :
  exists p r, maker_run [ClientTx [1; 2; 3]] (Runner_new (key 1) (toy_service 1) 2) = (Ok [p], r) /\
    Payload.transactions p = [] /\ r_max_size r < r_size r.
Proof.
  assert (exists p, (maker_run [ClientTx [1; 2; 3]] (Runner_new (key 1) (toy_service 1) 2)).1 = Ok [p] /\
    Payload.transactions p = []) as (p & Hp & Ht).
  { eexists. split; [by vm_compute | done]. }
  exists p, oversized_run. split; [by apply run_ok_eq|]. split; [exact Ht | by vm_compute].
Qed.

(** A request of the core loses transactions that have no bytes: the payload that
    holds them has size 0 and is taken for none. *)
Theorem empty_transactions_lost :
  exists r, maker_run [ClientTx []; CoreRequest] (Runner_new (key 1) (toy_service 1) 2) = (Ok [], r) /\
    r_transactions r = [].
Proof.
  exists (maker_run [ClientTx []; CoreRequest] (Runner_new (key 1) (toy_service 1) 2)).2.
  split; [by apply run_ok_eq; vm_compute | by vm_compute].
Qed.

(** ** Witnesses *)

Definition toy_payload : Payload.t :=
  match Payload.new [[7]; [8; 9]] (key 2) (toy_service 2) with
  | Ok p => p
  | _ => Payload.mk [] (key 0) Signature_default
  end.

Definition toy_mcommittee : MCommittee :=
  MCommittee_new
    ((fun i => (key i, mkSocketAddr [] i, mkSocketAddr [] (100 + i))) <$> [1; 2; 3; 4]) 1.

Definition toy_mempool : MCore :=
  MCore_new (key 1) toy_mcommittee MParameters_default (mkStoreClient ∅ 0)
    (Runner_new (key 1) (toy_service 1) 100000).

(** A mempool that has received a peer's payload. *)
Definition busy_mempool : MCore := (m_handle (FromPeer (PayloadMsg toy_payload)) toy_mempool).2.

Lemma busy_reply :
  (m_handle (FromConsensus (MempoolGet 500 OPT)) busy_mempool).1
    = Ok (ReplyDigests [Payload.digest toy_payload]).
Proof. by vm_compute. Qed.

(** A payload arrives, another task writes, and the core asks for a proposal. *)
Definition busy_events : list MEvent :=
  [MMessage (FromPeer (PayloadMsg toy_payload)); MForeignWrite [1] [2]].

Lemma busy_reply_run :
  (m_handle (FromConsensus (MempoolGet 500 OPT)) (m_run busy_events toy_mempool)).1
    = Ok (ReplyDigests [Payload.digest toy_payload]).
Proof. by vm_compute. Qed.

Lemma busy_spare : all_spare busy_events toy_mempool.
Proof.
  split; [done|]. split; [|done].
  assert (set_Forall (fun d => Digest_to_vec d <> [1])
    (queued (m_event (MMessage (FromPeer (PayloadMsg toy_payload))) toy_mempool))) as Hs
    by (apply (bool_decide_unpack _); by vm_compute).
  exact Hs.
Qed.

Lemma mempool_availability_witness :
  (m_handle (FromConsensus (MempoolGet 500 OPT)) (m_run busy_events toy_mempool)).1
    = Ok (ReplyDigests [Payload.digest toy_payload]) /\
  stored (m_handle (FromConsensus (MempoolGet 500 OPT)) (m_run busy_events toy_mempool)).2
    (Payload.digest toy_payload).
Proof.
  pose proof busy_reply_run as Hr. split; [exact Hr|].
  destruct (mempool_availability (key 1) toy_mcommittee MParameters_default (mkStoreClient ∅ 0)
    (Runner_new (key 1) (toy_service 1) 100000) busy_events) as (_ & _ & Hst).
  destruct (Hst busy_spare) as [_ Hs]. apply (Hs _ _ _ Hr). by left.
Defined.

Lemma maker_signs : service_signs (toy_service 1).
Proof. intros d. eexists. reflexivity. Qed.

Definition maker_events : list MakerEvent :=
  [ClientTx [1]; ClientTx [2; 3]; ClientTx [4]; CoreRequest; CoreRequest; ClientTx [5; 6]].

Lemma payload_maker_keeps_transactions_witness :
  exists made r, maker_run maker_events (Runner_new (key 1) (toy_service 1) 3) = (Ok made, r) /\
    concat (Payload.transactions <$> made) ++ r_transactions r = [[1]; [2; 3]; [4]; [5; 6]] /\
    Forall (fun p => 0 < Payload.size p <= 3) made.
Proof.
  apply (payload_maker_keeps_transactions (key 1) (toy_service 1) 3 maker_events);
    [lia | exact maker_signs |]. repeat constructor; by vm_compute.
Defined.

Lemma take_queue_spec_witness :
  (take_queue 40 (opt_queue busy_mempool)).1 = [Payload.digest toy_payload] /\
  let '(l, q') := take_queue 40 (opt_queue busy_mempool) in
  NoDup l /\ (forall d, d ∈ l -> d ∈ q_set (opt_queue busy_mempool)) /\
  length l = Nat.min (Z.to_nat (40 / 32)) (size (q_set (opt_queue busy_mempool))) /\
  (forall d, d ∈ q_set q' <-> d ∈ q_set (opt_queue busy_mempool) /\ d ∉ l).
Proof. split; [by vm_compute | exact (take_queue_spec 40 (opt_queue busy_mempool))]. Defined.

Lemma payload_digest_ignores_boundaries_witness :
  Payload.transactions toy_payload <> [[7; 8]; [9]] /\
  Payload.digest toy_payload =
    Payload.digest (Payload.mk [[7; 8]; [9]] (key 2) (Payload.signature toy_payload)).
Proof.
  split; [done|].
  by apply (payload_digest_ignores_boundaries toy_payload
    (Payload.mk [[7; 8]; [9]] (key 2) (Payload.signature toy_payload))).
Defined.
