(* ===== verification/SyncLoopFacts.v ===== *)
(** * Facts about the background task of the mempool's synchronizer

    Accounting of waiters and pending blocks, soundness of the loop-back, what a
    failed wait and an early cleanup leave behind. *)

From S2P Require Import Prelude Machine Crypto Config Messages Store Sync Mempool SyncLoop.
From S2P Require Import Fixture MempoolFacts.

Section Facts.
Context `{CryptoLib}.

Notation bid w := (Block.digest (w_block w)).

(** The waiters that have not been cancelled. *)
Definition live (ws : list Waiter) : list Waiter := filter (fun w => w_cancelled w = false) ws.

(** The states a task goes through, with the events so far; the store may have any
    contents when an event happens. *)
Inductive sync_reach (name : PublicKey) (committee : MCommittee) (retry : Z)
  : list SyncEvent -> SyncTask -> Prop :=
| reach_new : sync_reach name committee retry [] (SyncTask_new name committee retry)
| reach_step evs s db ev s' :
    sync_reach name committee retry evs s -> enabled db ev s ->
    sync_event ev s = (Ok tt, s') -> sync_reach name committee retry (evs ++ [ev]) s'.

(** ** Effects of the parts *)

(** [s'] differs from [s] in the requests and the network only. *)
Definition same_waits (s s' : SyncTask) : Prop :=
  st_pending s' = st_pending s /\ st_waiting s' = st_waiting s /\
  st_consensus s' = st_consensus s /\ st_smvba s' = st_smvba s.

Lemma same_waits_requests (f : Digest -> gmap Digest (Z * Z) -> gmap Digest (Z * Z)) l s :
  let s' := fold_left (fun s x => s <| st_requests := f x (st_requests s) |>) l s in
  same_waits s s' /\ st_requests s' = fold_left (fun m x => f x m) l (st_requests s).
Proof.
  revert s; induction l as [|x l IH]; intros s; simpl; [done|].
  destruct (IH (s <| st_requests := f x (st_requests s) |>)) as [(? & ? & ? & ?) ?]. done.
Qed.

Lemma transmit_ok why m to s s' :
  expect_act why (st_transmit m to) s = (Ok tt, s') ->
  same_waits s s' /\ st_requests s' = st_requests s.
Proof.
  unfold expect_act, st_transmit. destruct to as [to|];
    cbn -[mempool_address]; unfold mbind, act_bind; cbn -[mempool_address].
  - destruct (mempool_address (st_committee s) to); simpl; try done. by intros [= <-].
  - by intros [= <-].
Qed.

Lemma live_cancel ds ws : live (cancel ds ws) = filter (fun w => bid w ∉ ds) (live ws).
Proof.
  unfold live, cancel. induction ws as [|w ws IH]; [done|]. simpl. rewrite !filter_cons.
  destruct (bool_decide_reflect (bid w ∈ ds)) as [Hin|Hin]; simpl.
  - destruct (decide (w_cancelled w = false)); [rewrite filter_cons_False by tauto|]; exact IH.
  - destruct (decide (w_cancelled w = false)); [rewrite filter_cons_True by done; f_equal|];
      exact IH.
Qed.

Lemma live_app ws ws' : live (ws ++ ws') = live ws ++ live ws'.
Proof. apply filter_app. Qed.

Lemma live_delete i ws : sublist (live (delete i ws)) (live ws).
Proof.
  unfold live. revert i; induction ws as [|w ws IH]; intros [|i]; simpl; [done|done|..].
  - rewrite filter_cons. destruct (decide _); [by constructor | done].
  - rewrite !filter_cons. destruct (decide _); [by apply sublist_skip | done].
Qed.

Lemma elem_of_cancel w ds ws :
  w ∈ cancel ds ws -> exists v, v ∈ ws /\ w_missing w = w_missing v /\ w_block w = w_block v /\
    w_tag w = w_tag v.
Proof.
  unfold cancel. rewrite list_elem_of_fmap. intros (v & -> & Hv). exists v. split; [done|].
  by destruct (bool_decide _).
Qed.

(** ** The handlers *)

Definition requested (now : Z) (block : Block.t) (fresh : list Digest)
    (m : gmap Digest (Z * Z)) : gmap Digest (Z * Z) :=
  fold_left (fun m x => <[x := (Block.height block, now)]> m) fresh m.

Lemma on_sync_known now missing block tag s :
  is_Some (st_pending s !! Block.digest block) ->
  on_sync now missing block tag s = (Ok tt, s).
Proof. intros Hp. unfold on_sync. run_act. by rewrite bool_decide_true. Qed.

Lemma on_sync_new now missing block tag s s' :
  st_pending s !! Block.digest block = None ->
  on_sync now missing block tag s = (Ok tt, s') ->
  st_pending s' = <[Block.digest block := Block.height block]> (st_pending s) /\
  st_waiting s' = st_waiting s ++ [mkWaiter missing block tag false] /\
  st_consensus s' = st_consensus s /\ st_smvba s' = st_smvba s /\
  st_requests s' = requested now block
    (filter (fun x => st_requests s !! x = None) (elements missing)) (st_requests s).
Proof.
  intros Hp. unfold on_sync. run_act. rewrite bool_decide_false by (rewrite Hp; by intros []).
  cbn [st_requests st_pending st_waiting set].
  destruct (bool_decide_reflect
    (filter (fun x => st_requests s !! x = None) (elements missing) = [])) as [Hf|Hf].
  - rewrite Hf. by intros [= <-].
  - rewrite (for_each_modify (fun x s =>
      s <| st_requests := <[x := (Block.height block, now)]> (st_requests s) |>)).
    intros Ht.
    apply transmit_ok in Ht as [(Ht1 & Ht2 & Ht3 & Ht4) Ht5].
    rewrite Ht1, Ht2, Ht3, Ht4, Ht5.
    match goal with |- context [fold_left _ ?l ?s0] =>
      destruct (same_waits_requests (fun x => <[x := (Block.height block, now)]>) l s0)
        as [(E1 & E2 & E3 & E4) E5] end.
    by rewrite E1, E2, E3, E4, E5.
Qed.

Definition forget (l : list Digest) (m : gmap Digest (Z * Z)) : gmap Digest (Z * Z) :=
  fold_left (fun m x => delete x m) l m.

(** What a delivery does to the state. *)
Definition delivered (i : nat) (w : Waiter) (s : SyncTask) : SyncTask :=
  loop_back (w_block w) (w_tag w)
    (s <| st_waiting := cancel {[bid w]} (delete i (st_waiting s)) |>
       <| st_pending := delete (bid w) (st_pending s) |>
       <| st_requests := forget (Block.payload (w_block w)) (st_requests s) |>).

Lemma fold_requests (f : Digest -> gmap Digest (Z * Z) -> gmap Digest (Z * Z)) l s :
  fold_left (fun s x => s <| st_requests := f x (st_requests s) |>) l s =
  s <| st_requests := fold_left (fun m x => f x m) l (st_requests s) |>.
Proof. revert s; induction l as [|x l IH]; intros s; simpl; [by destruct s | by rewrite IH]. Qed.

Lemma on_waiter_delivered i w s :
  st_waiting s !! i = Some w -> on_waiter i Delivered s = (Ok tt, delivered i w s).
Proof.
  intros Hw. unfold on_waiter. run_act. rewrite Hw.
  run_act. rewrite (for_each_modify (fun x s => s <| st_requests := delete x (st_requests s) |>)).
  rewrite fold_requests. done.
Qed.

Lemma on_waiter_other i r w s :
  r <> Delivered -> st_waiting s !! i = Some w ->
  on_waiter i r s = (Ok tt, s <| st_waiting := delete i (st_waiting s) |>).
Proof. intros Hr Hw. unfold on_waiter. run_act. rewrite Hw. by destruct r. Qed.

Lemma loop_back_frame block tag s :
  st_pending (loop_back block tag s) = st_pending s /\
  st_waiting (loop_back block tag s) = st_waiting s /\
  st_requests (loop_back block tag s) = st_requests s.
Proof. unfold loop_back. by repeat case_match. Qed.

(** ** The invariant *)

Record sync_inv (evs : list SyncEvent) (s : SyncTask) : Prop := {
  si_nodup : NoDup ((fun w => bid w) <$> live (st_waiting s));
  si_pending : forall w, w ∈ live (st_waiting s) ->
    st_pending s !! bid w = Some (Block.height (w_block w));
  si_synced : forall w, w ∈ st_waiting s ->
    exists now, EvSync now (w_missing w) (w_block w) (w_tag w) ∈ evs;
}.

Lemma live_spec w ws : w ∈ live ws <-> w_cancelled w = false /\ w ∈ ws.
Proof. unfold live. by rewrite list_elem_of_filter. Qed.

Lemma sync_inv_mono evs ev s : sync_inv evs s -> sync_inv (evs ++ [ev]) s.
Proof.
  intros [? ? Hs]. constructor; [done|done|]. intros w Hw.
  destruct (Hs w Hw) as [now ?]. exists now. apply elem_of_app. by left.
Qed.

Lemma sync_inv_sync evs now missing block tag s s' :
  sync_inv evs s -> on_sync now missing block tag s = (Ok tt, s') ->
  sync_inv (evs ++ [EvSync now missing block tag]) s'.
Proof.
  intros Hi Hs. destruct (st_pending s !! Block.digest block) as [h|] eqn:Hp.
  { rewrite on_sync_known in Hs by (by rewrite Hp). injection Hs as <-. by apply sync_inv_mono. }
  apply on_sync_new in Hs as (Hpe & Hwa & _); [|done]. destruct Hi as [Hn Hpd Hsy].
  assert (forall w, w ∈ live (st_waiting s) -> bid w <> Block.digest block) as Hne.
  { intros w Hw Heq. specialize (Hpd w Hw). congruence. }
  constructor; rewrite ?Hwa, ?Hpe.
  - rewrite live_app, fmap_app. apply NoDup_app. split; [done|].
    split; [|apply NoDup_singleton]. intros d Hd ->%list_elem_of_singleton.
    apply list_elem_of_fmap in Hd as (w & Hd & Hw). by apply (Hne w Hw).
  - intros w. rewrite live_app. intros [Hw|Hw]%elem_of_app.
    + rewrite lookup_insert_ne by (by apply not_eq_sym, Hne). by apply Hpd.
    + apply list_elem_of_singleton in Hw as ->. apply lookup_insert_eq.
  - intros w [Hw|Hw]%elem_of_app.
    + destruct (Hsy w Hw) as [n ?]. exists n. apply elem_of_app. by left.
    + apply list_elem_of_singleton in Hw as ->. exists now. apply elem_of_app. right. by left.
Qed.

Lemma NoDup_live_sublist (l k : list Waiter) :
  sublist l k -> NoDup ((fun w => bid w) <$> k) -> NoDup ((fun w => bid w) <$> l).
Proof.
  intros Hs Hk. eapply sublist_NoDup; [exact Hk|]. clear Hk.
  induction Hs; simpl; by constructor.
Qed.

(** Only waiters whose digest is pending stay: the two handlers that cancel. *)
Lemma sync_inv_cancel evs ds ws s s' :
  sync_inv evs s -> sublist (live ws) (live (st_waiting s)) ->
  (forall w, w ∈ ws -> w ∈ st_waiting s) ->
  st_waiting s' = cancel ds ws ->
  (forall d h, d ∉ ds -> st_pending s !! d = Some h -> st_pending s' !! d = Some h) ->
  sync_inv evs s'.
Proof.
  intros [Hn Hpd Hsy] Hsub Hws Hwa Hpe. constructor; rewrite ?Hwa.
  - rewrite live_cancel. eapply NoDup_live_sublist; [|exact Hn].
    etrans; [apply sublist_filter | exact Hsub].
  - intros w. rewrite live_cancel. intros [Hd Hw]%list_elem_of_filter.
    apply Hpe; [done|]. apply Hpd. by eapply elem_of_sublist.
  - intros w (v & Hv & -> & -> & ->)%elem_of_cancel. by apply Hsy, Hws.
Qed.

Lemma sync_inv_clean evs round s s' :
  sync_inv evs s -> on_clean round s = (Ok tt, s') -> sync_inv evs s'.
Proof.
  intros Hi [= <-]. eapply sync_inv_cancel; [exact Hi | done | done | reflexivity |].
  intros d h Hd Hp. simpl in *. apply map_lookup_filter_Some. split; [done|].
  apply not_elem_of_dom in Hd. rewrite map_lookup_filter_None in Hd.
  destruct Hd as [Hd|Hd]; [congruence|]. specialize (Hd _ Hp). simpl in *. lia.
Qed.

Lemma delete_elem (i : nat) (w : Waiter) (ws : list Waiter) : w ∈ delete i ws -> w ∈ ws.
Proof. intros Hw. eapply elem_of_sublist; [exact Hw | apply sublist_delete]. Qed.

Lemma sync_inv_waiter evs i r s s' :
  sync_inv evs s -> is_Some (st_waiting s !! i) -> on_waiter i r s = (Ok tt, s') ->
  sync_inv evs s'.
Proof.
  intros Hi [w Hw] Hr. destruct (decide (r = Delivered)) as [->|Hne].
  - rewrite (on_waiter_delivered i w s Hw) in Hr. injection Hr as <-.
    destruct (loop_back_frame (w_block w) (w_tag w)
      (s <| st_waiting := cancel {[bid w]} (delete i (st_waiting s)) |>
         <| st_pending := delete (bid w) (st_pending s) |>
         <| st_requests := forget (Block.payload (w_block w)) (st_requests s) |>))
      as (Hp & Hws & _).
    eapply sync_inv_cancel; [exact Hi | apply (live_delete i) | intros v; apply (delete_elem i) | exact Hws |].
    intros d h Hd Hl. unfold delivered. rewrite Hp. simpl.
    rewrite lookup_delete_ne by set_solver. done.
  - rewrite (on_waiter_other i r w s Hne Hw) in Hr. injection Hr as <-.
    destruct Hi as [Hn Hpd Hsy]. constructor; simpl.
    + eapply NoDup_live_sublist; [apply live_delete | exact Hn].
    + intros v Hv. apply Hpd. eapply elem_of_sublist; [exact Hv | apply live_delete].
    + intros v Hv. eapply Hsy, delete_elem, Hv.
Qed.

Lemma on_timer_waits now s s' : on_timer now s = (Ok tt, s') -> same_waits s s'.
Proof.
  unfold on_timer. run_act. case_bool_decide; [by intros [= <-]|].
  intros Ht. by apply transmit_ok in Ht as [Ht _].
Qed.

Lemma sync_inv_reach name c retry evs s :
  sync_reach name c retry evs s -> sync_inv evs s.
Proof.
  induction 1 as [|evs s db ev s' _ Hi He Hs].
  - constructor; simpl; [constructor | intros w Hw | intros w Hw]; by apply elem_of_nil in Hw.
  - destruct ev as [now missing block tag|round|i r|now]; simpl in Hs.
    + by eapply sync_inv_sync.
    + apply sync_inv_mono. by eapply sync_inv_clean.
    + apply sync_inv_mono. destruct He as (w & Hw & _).
      eapply sync_inv_waiter; [exact Hi | by exists w | exact Hs].
    + apply sync_inv_mono. apply on_timer_waits in Hs as (Hp & Hw & _).
      destruct Hi. constructor; rewrite ?Hp, ?Hw; done.
Qed.

Lemma list_filter_iff' {A} (P Q : A -> Prop) `{!forall x, Decision (P x), !forall x, Decision (Q x)}
    (l : list A) :
  (forall x, x ∈ l -> P x <-> Q x) -> filter P l = filter Q l.
Proof.
  induction l as [|x l IH]; intros Hpq; [done|]. rewrite !filter_cons.
  rewrite IH by (intros y Hy; apply Hpq; by right).
  assert (P x <-> Q x) as Hx by (apply Hpq; by left).
  destruct (decide (P x)), (decide (Q x)); tauto.
Qed.

(** ** The properties *)

(** The messages on the two channels to the consensus core. *)
Definition sent (s : SyncTask) : list ConsensusMessage * list ConsensusMessage :=
  (st_consensus s, st_smvba s).

(** C30: In every state the task reaches, there is at most one live waiter per block,
    and a cleanup of a round leaves alive exactly the live waiters of higher blocks,
    each still pending at its height. *)
Theorem clean_cancels_exactly (name : PublicKey) (c : MCommittee) (retry round : Z)
    (evs : list SyncEvent) (s : SyncTask) :
  sync_reach name c retry evs s ->
  exists s', sync_event (EvClean round) s = (Ok tt, s') /\
    live (st_waiting s')
      = filter (fun w => round < Block.height (w_block w)) (live (st_waiting s)) /\
    NoDup ((fun w => Block.digest (w_block w)) <$> live (st_waiting s')) /\
    (forall w, w ∈ live (st_waiting s') ->
       st_pending s' !! Block.digest (w_block w) = Some (Block.height (w_block w))).
Proof.
  intros Hr. apply sync_inv_reach in Hr as Hi. eexists. split; [reflexivity|].
  destruct (sync_inv_clean evs round s _ Hi eq_refl) as [Hn Hpe _].
  split; [|split; [exact Hn | exact Hpe]]. clear Hn Hpe.
  cbn [st_waiting set]. simpl. rewrite live_cancel. pose proof (si_pending _ _ Hi) as Hp.
  apply list_filter_iff'. intros w Hw. rewrite not_elem_of_dom, map_lookup_filter_None.
  specialize (Hp w Hw). rewrite Hp. split.
  - intros [Hd|Hd]; [done|]. specialize (Hd _ eq_refl). simpl in Hd. lia.
  - intros Hlt. right. intros h [= <-]. simpl. lia.
Qed.

(** What the code promises to send back for a block and a tag: one message, on the
    channel of the optimistic path or on that of the agreement. *)
Record sends_back (block : Block.t) (tag : Z) (s s' : SyncTask) : Prop := {
  sb_opt : tag = OPT ->
    st_consensus s' = st_consensus s ++ [HsLoopBack block] /\ st_smvba s' = st_smvba s;
  sb_pes : tag = PES ->
    st_consensus s' = st_consensus s /\ st_smvba s' = st_smvba s ++ [ParLoopBack block];
  sb_fallback : tag <> OPT -> tag <> PES ->
    st_consensus s' = st_consensus s /\ st_smvba s' = st_smvba s ++ [FBLoopBack block];
}.

Lemma loop_back_sends block tag s s0 :
  st_consensus s0 = st_consensus s -> st_smvba s0 = st_smvba s ->
  sends_back block tag s (loop_back block tag s0).
Proof.
  intros Hc Hv. unfold loop_back. constructor.
  - intros ->. simpl. by rewrite Hc, Hv.
  - intros ->. simpl. by rewrite Hc, Hv.
  - intros Ho Hp. rewrite (proj2 (Z.eqb_neq _ _) Ho), (proj2 (Z.eqb_neq _ _) Hp). simpl. by rewrite Hc, Hv.
Qed.

(** C29: The loop-back.  Whatever the order in which the futures complete, an event
    that the task survives sends nothing to consensus, or one block back: an [HsLoopBack] on the optimistic
    channel for the tag [OPT], a [ParLoopBack] on the agreement's for [PES], a
    [FBLoopBack] there for any other.  The block was given to the task with this tag,
    and its missing payloads have values in the store.  A live waiter whose payloads
    are stored can complete, sends its block back so, and frees its digest. *)
Theorem sync_loopback (name : PublicKey) (c : MCommittee) (retry : Z)
    (evs : list SyncEvent) (s : SyncTask) (db : gmap Key Value) :
  sync_reach name c retry evs s ->
  (forall ev s', enabled db ev s -> sync_event ev s = (Ok tt, s') ->
     sent s' = sent s \/
     exists now missing block tag, EvSync now missing block tag ∈ evs /\
       (forall d, d ∈ missing -> is_Some (db !! Digest_to_vec d)) /\
       sends_back block tag s s') /\
  (forall i w, st_waiting s !! i = Some w -> w_cancelled w = false ->
     (forall d, d ∈ w_missing w -> is_Some (db !! Digest_to_vec d)) ->
     enabled db (EvWaiter i Delivered) s /\
     exists s', sync_event (EvWaiter i Delivered) s = (Ok tt, s') /\
       sends_back (w_block w) (w_tag w) s s' /\
       st_pending s' !! Block.digest (w_block w) = None /\
       Block.digest (w_block w) ∉ (fun w => Block.digest (w_block w)) <$> live (st_waiting s')).
Proof.
  intros Hr. apply sync_inv_reach in Hr as Hi. split.
  - intros ev s' He Hs. destruct ev as [now missing block tag|round|i r|now]; simpl in Hs.
    + left. destruct (st_pending s !! Block.digest block) as [h|] eqn:Hp.
      * rewrite on_sync_known in Hs by (by rewrite Hp). by injection Hs as <-.
      * apply on_sync_new in Hs as (_ & _ & Hc & Hv & _); [|done].
        unfold sent. by rewrite Hc, Hv.
    + left. by injection Hs as <-.
    + destruct He as (w & Hw & He). destruct (decide (r = Delivered)) as [->|Hne].
      * right. destruct (si_synced _ _ Hi w) as [now Hsy]; [by eapply list_elem_of_lookup_2|].
        exists now, (w_missing w), (w_block w), (w_tag w). split; [done|]. split; [done|].
        rewrite (on_waiter_delivered i w s Hw) in Hs. injection Hs as <-.
        by apply loop_back_sends.
      * left. rewrite (on_waiter_other i r w s Hne Hw) in Hs. by injection Hs as <-.
    + left. apply on_timer_waits in Hs as (_ & _ & Hc & Hv). unfold sent. by rewrite Hc, Hv.
  - intros i w Hw Hl Hd. split; [by exists w|]. exists (delivered i w s).
    split; [by apply on_waiter_delivered|]. split; [by apply loop_back_sends|].
    unfold delivered. match goal with |- context [loop_back ?b ?t ?s0] =>
      destruct (loop_back_frame b t s0) as (-> & -> & _) end. simpl.
    split; [apply lookup_delete_eq|]. rewrite live_cancel.
    intros (v & Hv & [Hn _]%list_elem_of_filter)%list_elem_of_fmap.
    apply Hn. by apply elem_of_singleton.
Qed.

Lemma NoDup_live_delete ws i w :
  NoDup ((fun w => bid w) <$> live ws) -> ws !! i = Some w -> w_cancelled w = false ->
  bid w ∉ (fun w => bid w) <$> live (delete i ws).
Proof.
  intros Hn Hw Hl. assert (live ws ≡ₚ w :: live (delete i ws)) as Hp.
  { unfold live. rewrite (delete_Permutation ws i w Hw) at 1. by rewrite filter_cons_True. }
  rewrite Hp in Hn. by apply NoDup_cons in Hn as [? _].
Qed.

(** When a wait ends with a store error, its block stays pending without a waiter:
    it will not be sent back, and every later request to wait for it is dropped. *)
Theorem failed_wait_blocks_resync (name : PublicKey) (c : MCommittee) (retry : Z)
    (evs : list SyncEvent) (s : SyncTask) (i : nat) (w : Waiter) :
  sync_reach name c retry evs s -> st_waiting s !! i = Some w -> w_cancelled w = false ->
  exists s', sync_event (EvWaiter i WaitError) s = (Ok tt, s') /\
    sent s' = sent s /\
    Block.digest (w_block w) ∉ (fun w => Block.digest (w_block w)) <$> live (st_waiting s') /\
    forall now missing tag,
      sync_event (EvSync now missing (w_block w) tag) s' = (Ok tt, s').
Proof.
  intros Hr Hw Hl. apply sync_inv_reach in Hr as [Hn Hp _].
  exists (s <| st_waiting := delete i (st_waiting s) |>).
  split; [by apply (on_waiter_other i WaitError w)|]. split; [done|].
  split; [by apply NoDup_live_delete|]. intros now missing tag. apply on_sync_known. simpl.
  rewrite (Hp w); [done|]. apply live_spec. split; [done | by eapply list_elem_of_lookup_2].
Qed.

(** Two blocks wait for the same payload, and the lower one is cleaned up.  The
    payload was requested once, from the author of the lower block; after the cleanup
    the higher block still waits for it, nothing remembers that it is to be requested,
    and the retransmission timer never asks for it again. *)
Theorem cleanup_forgets_shared_request (name : PublicKey) (c : MCommittee)
    (retry t1 t2 round tag1 tag2 : Z) (d : Digest) (b1 b2 : Block.t) (addr : SocketAddr) :
  Block.digest b1 <> Block.digest b2 ->
  Block.height b1 <= round < Block.height b2 ->
  mempool_address c (Block.author b1) = Ok addr ->
  exists s, for_each [EvSync t1 {[d]} b1 tag1; EvSync t2 {[d]} b2 tag2; EvClean round]
      sync_event (SyncTask_new name c retry) = (Ok tt, s) /\
    live (st_waiting s) = [mkWaiter {[d]} b2 tag2 false] /\
    st_network s = [(PayloadRequest [d] name, [addr])] /\
    forall now, sync_event (EvTimer now) s = (Ok tt, s).
Proof.
  intros Hne Hh Ha. set (s0 := SyncTask_new name c retry).
  set (s1 := s0 <| st_pending := {[Block.digest b1 := Block.height b1]} |>
                <| st_waiting := [mkWaiter {[d]} b1 tag1 false] |>
                <| st_requests := {[d := (Block.height b1, t1)]} |>
                <| st_network := [(PayloadRequest [d] name, [addr])] |>).
  assert (sync_event (EvSync t1 {[d]} b1 tag1) s0 = (Ok tt, s1)) as H1.
  { simpl. unfold on_sync. run_act. rewrite bool_decide_false by (intros [? ?]; simplify_map_eq).
    rewrite elements_singleton, filter_cons_True, filter_nil, bool_decide_false by done.
    unfold expect_act, st_transmit, lift. run_act.
    unfold s1, s0, SyncTask_new. cbn -[mempool_address Block.digest].
    run_act. cbn -[mempool_address Block.digest]. rewrite Ha. reflexivity. }
  set (s2 := s1 <| st_pending := <[Block.digest b2 := Block.height b2]> (st_pending s1) |>
                <| st_waiting := st_waiting s1 ++ [mkWaiter {[d]} b2 tag2 false] |>).
  assert (sync_event (EvSync t2 {[d]} b2 tag2) s1 = (Ok tt, s2)) as H2.
  { simpl. unfold on_sync. run_act. rewrite bool_decide_false by (intros [? ?]; simplify_map_eq).
    rewrite elements_singleton, filter_cons_False, filter_nil, bool_decide_true; [done | done |].
    cbn. by rewrite lookup_singleton_eq. }
  eexists. split.
  { cbn [for_each]. unfold mbind, act_bind. rewrite H1, H2. reflexivity. }
  split; [|split; [reflexivity|]].
  - change (live (cancel (dom (filter (fun kv => kv.2 <= round) (st_pending s2))) (st_waiting s2))
      = [mkWaiter {[d]} b2 tag2 false]).
    rewrite live_cancel. unfold s2, s1, live. simpl. rewrite (filter_cons_True (fun w => w_cancelled w = false)) by done.
    rewrite (filter_cons_True (fun w => w_cancelled w = false)) by done.
    rewrite filter_nil, filter_cons_False, filter_cons_True, filter_nil; [done | |]; simpl.
    + rewrite not_elem_of_dom, map_lookup_filter_None. right. intros h Hp.
      rewrite lookup_insert_eq in Hp. injection Hp as <-. simpl. lia.
    + intros Hn. apply Hn, elem_of_dom. exists (Block.height b1).
      apply map_lookup_filter_Some. rewrite lookup_insert_ne, lookup_singleton_eq by done.
      simpl. split; [done | lia].
  - intros now. cbn [sync_event]. unfold on_timer. run_act.
    simpl. rewrite map_filter_singleton_False by (simpl; lia).
    rewrite map_to_list_empty, filter_nil. by rewrite bool_decide_true.
Qed.
End Facts.

(** ** Witnesses *)

(** Two blocks of node 2, at heights 1 and 5, that wait for the same payload. *)
Definition low_block : Block.t :=
  Block.mk QC.genesis (key 2) 1 0 [mkDigest [7]] Signature_default OPT 0.
Definition high_block : Block.t :=
  Block.mk QC.genesis (key 2) 5 0 [mkDigest [7]] Signature_default PES 0.

Definition sync_member : MCommittee :=
  MCommittee_new ((fun i => (key i, mkSocketAddr [] i, mkSocketAddr [] (100 + i))) <$> [1; 2; 3; 4]) 1.

Definition sync_start : SyncTask := SyncTask_new (key 1) sync_member 1000.
Definition low_sync : SyncEvent := EvSync 10 {[mkDigest [7]]} low_block OPT.
Definition high_sync : SyncEvent := EvSync 20 {[mkDigest [7]]} high_block PES.
Definition sync_low : SyncTask := (sync_event low_sync sync_start).2.
Definition sync_both : SyncTask := (sync_event high_sync sync_low).2.

Lemma sync_low_ok : is_ok (sync_event low_sync sync_start).1 = true.
Proof. by vm_compute. Qed.
Lemma sync_both_ok : is_ok (sync_event high_sync sync_low).1 = true.
Proof. by vm_compute. Qed.

Lemma sync_both_reach :
  sync_reach (key 1) sync_member 1000 ([low_sync] ++ [high_sync]) sync_both.
Proof.
  eapply (reach_step _ _ _ [low_sync] sync_low ∅ high_sync); [| exact I |].
  - apply (reach_step _ _ _ [] sync_start ∅ low_sync); [constructor | exact I |].
    exact (run_ok _ sync_low_ok).
  - exact (run_ok _ sync_both_ok).
Qed.

Lemma low_waits :
  st_waiting sync_both !! 0%nat = Some (mkWaiter {[mkDigest [7]]} low_block OPT false).
Proof. reflexivity. Qed.

Lemma clean_cancels_exactly_witness :
  exists s', sync_event (EvClean 1) sync_both = (Ok tt, s') /\
    length (live (st_waiting s')) = 1%nat.
Proof.
  destruct (clean_cancels_exactly (key 1) sync_member 1000 1 _ sync_both sync_both_reach)
    as (s' & Hs & Hl & _).
  exists s'. split; [exact Hs|]. rewrite Hl. by vm_compute.
Defined.

Lemma sync_loopback_witness :
  exists s', sync_event (EvWaiter 0 Delivered) sync_both = (Ok tt, s') /\
    st_consensus s' = [HsLoopBack low_block] /\ st_smvba s' = [].
Proof.
  destruct (sync_loopback (key 1) sync_member 1000 _ sync_both
    {[Digest_to_vec (mkDigest [7]) := [0]]} sync_both_reach) as [_ Hl].
  destruct (Hl _ _ low_waits eq_refl) as (_ & s' & Hs & He & _).
  - intros d Hd. simpl in Hd. apply elem_of_singleton in Hd as ->. rewrite lookup_singleton_eq. by exists [0].
  - exists s'. split; [exact Hs | exact (sb_opt _ _ _ _ He eq_refl)].
Defined.

Lemma failed_wait_blocks_resync_witness :
  exists s', sync_event (EvWaiter 0 WaitError) sync_both = (Ok tt, s') /\
    sync_event low_sync s' = (Ok tt, s').
Proof.
  destruct (failed_wait_blocks_resync (key 1) sync_member 1000 _ sync_both 0 _
    sync_both_reach low_waits eq_refl) as (s' & Hs & _ & _ & Hd).
  exists s'. split; [exact Hs | apply Hd].
Defined.

Lemma cleanup_forgets_shared_request_witness :
  exists s, for_each [low_sync; high_sync; EvClean 1] sync_event sync_start = (Ok tt, s) /\
    length (live (st_waiting s)) = 1%nat /\
    (forall now, sync_event (EvTimer now) s = (Ok tt, s)).
Proof.
  destruct (cleanup_forgets_shared_request (key 1) sync_member 1000 10 20 1 OPT PES
    (mkDigest [7]) low_block high_block (mkSocketAddr [] 102)) as (s & Hs & Hl & _ & Ht).
  - apply (bool_decide_unpack _). by vm_compute.
  - by vm_compute.
  - by vm_compute.
  - exists s. split; [exact Hs|]. split; [by rewrite Hl | exact Ht].
Defined.
