(* ===== verification/NetworkFacts.v ===== *)
(** * Facts about the filter, the sender and the receiver

    The filter loses and repeats nothing and delays proposals only; the sender keeps
    one connection per address and the order on it; the receiver decodes what the
    sender has written. *)

From S2P Require Import Prelude Machine Crypto Config Messages Network Fixture.

(** ** The filter *)

Section Filter.
Context `{MessageCodec}.

(** The messages received on a lane, and the events of a lane among the events. *)
Definition received (evs : list (Z * LaneEvent)) : list FilterInput :=
  omap (fun e => match e.2 with Received x => Some x | _ => None end) evs.

Definition opt_events (evs : list (Z * FilterEvent)) : list (Z * LaneEvent) :=
  omap (fun e => match e.2 with OptLane ev => Some (e.1, ev) | _ => None end) evs.

Definition smvba_events (evs : list (Z * FilterEvent)) : list (Z * LaneEvent) :=
  omap (fun e => match e.2 with SmvbaLane ev => Some (e.1, ev) | _ => None end) evs.

(** [n] is the message [x] on the wire. *)
Definition encodes (x : FilterInput) (n : NetMessage) : Prop :=
  encode_message x.1 = Some n.1 /\ n.2 = x.2.

Record lane_inv (p : Parameters) (evs : list (Z * LaneEvent)) (l : Lane) : Prop := {
  li_forwarded : exists done, Forall2 encodes done (network l) /\
    received evs ≡ₚ done ++ (pending l).*1;
  li_slept : forall x t, (x, Some t) ∈ pending l ->
    exists i coin now, (now, Polled i coin now) ∈ evs /\ delay coin p x.1 = Ok (t - now);
}.

Lemma received_snoc evs now ev :
  received (evs ++ [(now, ev)]) =
  received evs ++ match ev with Received x => [x] | _ => [] end.
Proof. unfold received. rewrite omap_app. simpl. by destruct ev. Qed.

Lemma slept_mono p evs e x t :
  (exists i coin now, (now, Polled i coin now) ∈ evs /\ delay coin p x = Ok (t - now)) ->
  exists i coin now, (now, Polled i coin now) ∈ evs ++ [e] /\ delay coin p x = Ok (t - now).
Proof.
  intros (i & coin & now & Hin & Hd). exists i, coin, now. split; [|done].
  apply elem_of_app. by left.
Qed.

Lemma lane_inv_received p evs now x l :
  lane_inv p evs l ->
  lane_inv p (evs ++ [(now, Received x)]) (l <| pending := pending l ++ [(x, None)] |>).
Proof.
  intros [(done & Hd & Hp) Hs]. constructor.
  - exists done. split; [exact Hd|]. rewrite received_snoc, Hp. simpl. rewrite fmap_app.
    by rewrite app_assoc.
  - intros y t [Hy|Hy]%elem_of_app; [by apply slept_mono, Hs|].
    by apply list_elem_of_singleton in Hy.
Qed.

Lemma fst_insert (i : nat) (x : FilterInput) (o o' : option Z) l :
  l !! i = Some (x, o) -> (<[i := (x, o')]> l).*1 = l.*1.
Proof.
  intros Hi. rewrite list_fmap_insert. apply list_insert_id. by rewrite list_lookup_fmap, Hi.
Qed.

Lemma lane_inv_polled p evs now i coin l l' :
  lane_inv p evs l -> lane_event p (Polled i coin now) l = (Ok tt, l') ->
  lane_inv p (evs ++ [(now, Polled i coin now)]) l'.
Proof.
  intros [(done & Hd & Hp) Hs] He.
  assert (lane_inv p (evs ++ [(now, Polled i coin now)]) l) as Hsame.
  { constructor; [exists done; by rewrite received_snoc, app_nil_r|].
    intros x t Hx. by apply slept_mono, Hs. }
  unfold lane_event in He. revert He. run_act.
  destruct (pending l !! i) as [[x [t|]]|] eqn:Hi; try by intros [= <-].
  unfold lift. destruct (delay coin p x.1) as [d| | |] eqn:Hdl; try done. intros [= <-].
  constructor.
  - exists done. split; [exact Hd|]. rewrite received_snoc, app_nil_r. simpl.
    by rewrite (fst_insert i x None).
  - intros y t Hy. apply list_elem_of_lookup in Hy as [j Hj]. simpl in Hj.
    destruct (decide (i = j)) as [->|Hne].
    + rewrite list_lookup_insert_eq in Hj by (by eapply lookup_lt_Some). injection Hj as <- <-.
      exists j, coin, now. split; [apply elem_of_app; right; by left|].
      by replace (now + d - now) with d by lia.
    + rewrite list_lookup_insert_ne in Hj by done. apply slept_mono, Hs.
      by eapply list_elem_of_lookup_2.
Qed.

Lemma lane_inv_elapsed p evs now i l l' :
  lane_inv p evs l -> lane_event p (Elapsed i) l = (Ok tt, l') ->
  lane_inv p (evs ++ [(now, Elapsed i)]) l'.
Proof.
  intros [(done & Hd & Hp) Hs] He. unfold lane_event in He. revert He. run_act.
  destruct (pending l !! i) as [[x o]|] eqn:Hi.
  - unfold zoom, net_transmit. run_act. unfold lift, expect.
    destruct (encode_message x.1) as [bytes|] eqn:He; [|done]. intros [= <-]. constructor.
    + exists (done ++ [x]). split; [by apply Forall2_app; [|constructor]|].
      rewrite received_snoc, app_nil_r, Hp. simpl.
      rewrite (delete_Permutation (pending l) i (x, o) Hi) at 1. simpl.
      by rewrite <- app_assoc.
    + intros y t Hy. simpl in Hy. apply slept_mono, Hs.
      eapply elem_of_sublist; [exact Hy | apply sublist_delete].
  - intros [= <-]. constructor; [exists done; by rewrite received_snoc, app_nil_r|].
    intros x t Hx. by apply slept_mono, Hs.
Qed.

Lemma lane_inv_event p evs now ev l l' :
  lane_inv p evs l -> lane_enabled now ev l -> lane_event p ev l = (Ok tt, l') ->
  lane_inv p (evs ++ [(now, ev)]) l'.
Proof.
  intros Hi He Hl. destruct ev as [x|i coin t|i].
  - injection Hl as <-. by apply lane_inv_received.
  - simpl in He. subst t. by eapply lane_inv_polled.
  - by eapply lane_inv_elapsed.
Qed.

Lemma filter_inv p evs f :
  filter_reach p evs f ->
  parameters f = p /\ lane_inv p (opt_events evs) (opt_lane f) /\
  lane_inv p (smvba_events evs) (smvba_lane f).
Proof.
  induction 1 as [|evs now ev f f' _ (Hpar & Ho & Hv) He Hf].
  - split; [done|]. split; (constructor; [by exists [] | intros x t Hx; by apply elem_of_nil in Hx]).
  - unfold opt_events, smvba_events. rewrite !omap_app. simpl.
    destruct ev as [ev|ev]; unfold filter_event, zoom in Hf; revert Hf; run_act; rewrite Hpar;
      simpl in He.
    + destruct (lane_event p ev (opt_lane f)) as [[[]| | |] l] eqn:Hl; intros [= <-]; simpl.
      rewrite app_nil_r. split; [done|]. split; [by eapply lane_inv_event | done].
    + destruct (lane_event p ev (smvba_lane f)) as [[[]| | |] l] eqn:Hl; intros [= <-]; simpl.
      rewrite app_nil_r. split; [done|]. split; [done | by eapply lane_inv_event].
Qed.

(** A proposal sleeps [network_delay] under [ddos]; nothing else ever sleeps. *)
Lemma delay_others coin p m :
  (forall b, m <> HsPropose b) -> delay coin p m = Ok 0.
Proof. intros Hm. destruct m; try done. by destruct (Hm b). Qed.

(** The filter.  On each of its two paths the messages received are exactly those
    passed on, serialized and with their addresses, and those still pending: none is
    lost, repeated, changed or moved to the other path.  A message that is waiting
    since it was polled waits [delay] milliseconds, which is 0 unless it is a block
    proposal. *)
Theorem filter_forwards (p : Parameters) (evs : list (Z * FilterEvent)) (f : Filter) :
  filter_reach p evs f ->
  (exists done, Forall2 encodes done (network (opt_lane f)) /\
     received (opt_events evs) ≡ₚ done ++ (pending (opt_lane f)).*1) /\
  (exists done, Forall2 encodes done (network (smvba_lane f)) /\
     received (smvba_events evs) ≡ₚ done ++ (pending (smvba_lane f)).*1) /\
  (forall x t, (x, Some t) ∈ pending (opt_lane f) ++ pending (smvba_lane f) ->
     exists now coin, delay coin p x.1 = Ok (t - now) /\
       ((forall b, x.1 <> HsPropose b) -> t = now)).
Proof.
  intros Hr. apply filter_inv in Hr as (_ & [Ho Hos] & [Hv Hvs]).
  split; [exact Ho|]. split; [exact Hv|].
  assert (forall (x : FilterInput) t (evs : list (Z * LaneEvent)), (exists i coin now, (now, Polled i coin now) ∈ evs /\
      delay coin p x.1 = Ok (t - now)) ->
    exists now coin, delay coin p x.1 = Ok (t - now) /\
       ((forall b, x.1 <> HsPropose b) -> t = now)) as Hgen.
  { intros x t evs' (i & coin & now & _ & Hd). exists now, coin. split; [done|]. intros Hm.
    rewrite (delay_others coin p x.1 Hm) in Hd. injection Hd as Hd. lia. }
  intros x t [Hx|Hx]%elem_of_app; eauto.
Qed.
End Filter.

(** ** The sender *)

(** The worker that takes the messages for an address. *)
Definition live_worker (s : NetSender) (a : SocketAddr) : option (nat * Worker) :=
  match senders s !! a with
  | Some w =>
      match workers s !! w with
      | Some x => if wk_alive x then Some (w, x) else None
      | None => None
      end
  | None => None
  end.

Lemma send_to_live alive bytes a s w x :
  live_worker s a = Some (w, x) ->
  send_to alive bytes a s =
    (Ok tt, s <| workers := <[w := x <| wk_queue := wk_queue x ++ [bytes] |>]> (workers s) |>).
Proof.
  unfold live_worker, send_to, tx_send, when. intros Hl. run_act.
  destruct (senders s !! a) as [w'|]; [|done]. destruct (workers s !! w') as [x'|] eqn:Hw; [|done].
  destruct (wk_alive x') eqn:Ha; [|done]. injection Hl as <- <-. reflexivity.
Qed.

Lemma send_to_spawn alive bytes a s :
  live_worker s a = None ->
  send_to alive bytes a s =
    (Ok tt, s <| workers := workers s ++ [mkWorker a (if alive then [bytes] else []) [] alive] |>
              <| senders := if alive then <[a := length (workers s)]> (senders s) else senders s |>).
Proof.
  intros Hl. assert (forall s0, s0 = s -> (tx ← spawn_worker alive a; ok ← tx_send tx bytes;
      when ok (modify (fun s => s <| senders := <[a := tx]> (senders s) |>))) s0 =
    (Ok tt, s <| workers := workers s ++ [mkWorker a (if alive then [bytes] else []) [] alive] |>
              <| senders := if alive then <[a := length (workers s)]> (senders s) else senders s |>))
    as Hspawn.
  { intros s0 ->. unfold spawn_worker, tx_send, when. run_act. simpl.
    rewrite lookup_app_r, Nat.sub_diag by done. simpl. destruct alive; simpl.
    - by rewrite insert_app_r_alt, Nat.sub_diag by done.
    - by destruct s. }
  unfold live_worker in Hl. unfold send_to. unfold mbind at 1, act_bind at 1, gets at 1.
  unfold mbind at 1, act_bind at 1.
  destruct (senders s !! a) as [w|]; [|exact (Hspawn s eq_refl)].
  unfold tx_send at 1. unfold mbind at 1, act_bind at 1. unfold mbind at 1, act_bind at 1, gets at 1.
  destruct (workers s !! w) as [x|]; [|exact (Hspawn s eq_refl)].
  destruct (wk_alive x); [done | exact (Hspawn s eq_refl)].
Qed.

(** What the workers of an address have taken, in the order of their creation. *)
Definition taken (x : Worker) : list (list Z) := wk_written x ++ wk_queue x.

Definition stream (a : SocketAddr) (ws : list Worker) : list (list Z) :=
  ws ≫= fun x => if decide (wk_address x = a) then taken x else [].

(** The messages submitted for an address. *)
Definition submitted (a : SocketAddr) (evs : list SenderEvent) : list (list Z) :=
  omap (fun ev => match ev with
    | SendTo _ bytes a' => if decide (a' = a) then Some bytes else None
    | _ => None end) evs.

Lemma stream_app a ws ws' : stream a (ws ++ ws') = stream a ws ++ stream a ws'.
Proof. unfold stream. by rewrite bind_app. Qed.

Lemma stream_cons a x ws :
  stream a (x :: ws) = (if decide (wk_address x = a) then taken x else []) ++ stream a ws.
Proof. reflexivity. Qed.

Lemma submitted_app a evs evs' : submitted a (evs ++ evs') = submitted a evs ++ submitted a evs'.
Proof. apply omap_app. Qed.

Lemma stream_other a ws :
  (forall x, x ∈ ws -> wk_address x <> a) -> stream a ws = [].
Proof.
  induction ws as [|x ws IH]; intros Hws; [done|]. rewrite stream_cons.
  rewrite decide_False by (apply Hws; by left). apply IH. intros y Hy. apply Hws. by right.
Qed.

(** Replacing a worker by one of the same address that has taken more. *)
Lemma stream_insert a ws w x y more :
  ws !! w = Some x -> wk_address y = wk_address x -> taken y = taken x ++ more ->
  (wk_address x = a -> more <> [] ->
     forall v z, ws !! v = Some z -> (w < v)%nat -> wk_address z <> a) ->
  stream a (<[w := y]> ws) = stream a ws ++ if decide (wk_address x = a) then more else [].
Proof.
  intros Hw Ha Ht Hlast. pose proof (lookup_lt_Some _ _ _ Hw) as Hlt.
  rewrite <- (take_drop_middle _ _ _ Hw) at 2. rewrite insert_take_drop by done.
  rewrite !stream_app, !stream_cons. rewrite <- app_assoc. f_equal. rewrite Ha, Ht.
  destruct (decide (wk_address x = a)) as [Hxa|Hxa]; [|by rewrite app_nil_r].
  rewrite <- !app_assoc. f_equal. destruct (decide (more = [])) as [->|Hm]; [by rewrite app_nil_r|].
  rewrite stream_other; [by rewrite app_nil_r|].
  intros z Hz. apply list_elem_of_lookup in Hz as [i Hi]. rewrite lookup_drop in Hi.
  by apply (Hlast Hxa Hm _ z Hi); lia.
Qed.

Record ns_inv (evs : list SenderEvent) (s : NetSender) : Prop := {
  ns_known : forall a w, senders s !! a = Some w ->
    exists x, workers s !! w = Some x /\ wk_address x = a;
  ns_live : forall w x, workers s !! w = Some x -> wk_alive x = true ->
    senders s !! wk_address x = Some w;
  ns_last : forall w x v y, workers s !! w = Some x -> wk_alive x = true ->
    workers s !! v = Some y -> (w < v)%nat -> wk_address y <> wk_address x;
  ns_stream : forall a, sublist (stream a (workers s)) (submitted a evs);
  ns_all : forall a, (forall bytes, SendTo false bytes a ∉ evs) ->
    stream a (workers s) = submitted a evs;
  ns_once : (forall bytes a, SendTo false bytes a ∉ evs) -> (forall w, Fails w ∉ evs) ->
    (forall x, x ∈ workers s -> wk_alive x = true) /\
    NoDup (wk_address <$> workers s);
}.

Lemma not_in_snoc {A} (x e : A) l : x ∉ l ++ [e] -> x ∉ l /\ x <> e.
Proof. rewrite elem_of_app, list_elem_of_singleton. tauto. Qed.

(** An event that leaves the workers alone and submits nothing. *)
Lemma ns_inv_skip evs ev s :
  ns_inv evs s -> (forall a, submitted a [ev] = []) -> ns_inv (evs ++ [ev]) s.
Proof.
  intros [Hk Hl Hla Hst Hal Ho] He. constructor; [done..| | |].
  - intros a. rewrite submitted_app, He, app_nil_r. apply Hst.
  - intros a Ha. rewrite submitted_app, He, app_nil_r. apply Hal.
    intros bytes. by apply (not_in_snoc _ ev).
  - intros Ha Hf. apply Ho; [intros bytes a|intros w]; by apply (not_in_snoc _ ev).
Qed.

(** An event that changes one worker: it takes what is submitted, or fails. *)
Lemma ns_inv_replace evs ev s w x y more :
  ns_inv evs s -> workers s !! w = Some x -> wk_address y = wk_address x ->
  taken y = taken x ++ more -> (more = [] \/ wk_alive x = true) ->
  (forall a, submitted a [ev] = if decide (wk_address x = a) then more else []) ->
  (wk_alive y = wk_alive x \/ wk_alive y = false /\ exists v, ev = Fails v) ->
  ns_inv (evs ++ [ev]) (s <| workers := <[w := y]> (workers s) |>).
Proof.
  intros [Hk Hl Hla Hst Hal Ho] Hw Ha Ht Hm He Hy.
  assert (forall v z, <[w := y]> (workers s) !! v = Some z -> exists z0, workers s !! v = Some z0 /\
    wk_address z = wk_address z0 /\ (wk_alive z = true -> wk_alive z0 = true)) as Hold.
  { intros v z Hz. destruct (decide (w = v)) as [<-|Hne].
    - rewrite list_lookup_insert_eq in Hz by (by eapply lookup_lt_Some). injection Hz as <-.
      exists x. split; [done|]. split; [done|]. destruct Hy as [->|[-> _]]; done.
    - rewrite list_lookup_insert_ne in Hz by done. by exists z. }
  assert (forall a, stream a (<[w := y]> (workers s)) =
    stream a (workers s) ++ submitted a [ev]) as Hstr.
  { intros a. rewrite He. apply stream_insert; [done..|]. intros <- Hne v z Hz Hlt.
    destruct Hm as [Hm|Hm]; [done|]. by eapply Hla. }
  constructor; simpl.
  - intros a v Hv. destruct (Hk a v Hv) as (z & Hz & Hza). destruct (decide (w = v)) as [<-|Hne].
    + exists y. rewrite list_lookup_insert_eq by (by eapply lookup_lt_Some). split; [done|]. congruence.
    + exists z. by rewrite list_lookup_insert_ne.
  - intros v z Hz Hzl. destruct (Hold v z Hz) as (z0 & Hz0 & -> & Hz1). by apply Hl, Hz1.
  - intros v z u z' Hz Hzl Hz' Hlt. destruct (Hold v z Hz) as (z0 & Hz0 & -> & Hz1).
    destruct (Hold u z' Hz') as (z2 & Hz2 & -> & _). eapply Hla; eauto.
  - intros a. rewrite Hstr, submitted_app. apply sublist_app; [apply Hst | done].
  - intros a Hn. rewrite Hstr, submitted_app. f_equal. apply Hal.
    intros bytes. by apply (not_in_snoc _ ev).
  - intros Hn Hf. destruct Ho as [Hoa Hod];
      [intros bytes a; by apply (not_in_snoc _ ev) | intros v; by apply (not_in_snoc _ ev) |].
    split.
    + intros z Hz. apply list_elem_of_lookup in Hz as [v Hz].
      destruct (decide (w = v)) as [<-|Hne].
      * rewrite list_lookup_insert_eq in Hz by (by eapply lookup_lt_Some). injection Hz as <-.
        destruct Hy as [->|[_ [v ->]]]; [apply Hoa; by eapply list_elem_of_lookup_2|].
        exfalso. apply (Hf v), elem_of_app. right. by left.
      * rewrite list_lookup_insert_ne in Hz by done. apply Hoa. by eapply list_elem_of_lookup_2.
    + rewrite list_fmap_insert, Ha, list_insert_id; [done|]. by rewrite list_lookup_fmap, Hw.
Qed.

Lemma submitted_send a alive bytes a' :
  submitted a [SendTo alive bytes a'] = if decide (a' = a) then [bytes] else [].
Proof. unfold submitted. simpl. by destruct (decide (a' = a)). Qed.

(** A new worker. *)
Lemma ns_inv_spawn evs alive bytes a s :
  ns_inv evs s -> live_worker s a = None ->
  ns_inv (evs ++ [SendTo alive bytes a])
    (s <| workers := workers s ++ [mkWorker a (if alive then [bytes] else []) [] alive] |>
       <| senders := if alive then <[a := length (workers s)]> (senders s) else senders s |>).
Proof.
  intros [Hk Hl Hla Hst Hal Ho] Hlive.
  assert (forall w x, workers s !! w = Some x -> wk_alive x = true -> wk_address x <> a) as Hdead.
  { intros w x Hw Hx <-. unfold live_worker in Hlive. by rewrite (Hl w x Hw Hx), Hw, Hx in Hlive. }
  assert (forall b, stream b (workers s ++ [mkWorker a (if alive then [bytes] else []) [] alive])
    = stream b (workers s) ++ if alive then submitted b [SendTo alive bytes a] else []) as Hstr.
  { intros b. rewrite stream_app. f_equal. rewrite submitted_send. unfold stream, taken. simpl.
    destruct alive; destruct (decide (a = b)); done. }
  constructor; simpl.
  - intros b w Hw. assert (alive = true /\ b = a /\ w = length (workers s) \/
      senders s !! b = Some w) as [(-> & -> & ->)|Hw'].
    { destruct alive; [|by right]. apply lookup_insert_Some in Hw as [[<- <-]|[_ Hw]]; auto. }
    + eexists. rewrite lookup_app_r, Nat.sub_diag by done. by split.
    + destruct (Hk b w Hw') as (x & Hx & Hxa). exists x. split; [|done]. by apply lookup_app_l_Some.
  - intros w x Hw Hx. apply lookup_app_Some in Hw as [Hw|[Hlen Hw]].
    + assert (a <> wk_address x) by (by apply not_eq_sym, (Hdead w)).
      destruct alive; [rewrite lookup_insert_ne by done|]; by apply Hl.
    + apply list_lookup_singleton_Some in Hw as [Hi <-]. simpl in Hx. subst alive. simpl.
      rewrite lookup_insert_eq. f_equal. lia.
  - intros w x v y Hw Hx Hv Hlt. apply lookup_app_Some in Hw as [Hw|[Hlen Hw]].
    + apply lookup_app_Some in Hv as [Hv|[_ Hv]]; [by eapply Hla|].
      apply list_lookup_singleton_Some in Hv as [_ <-]. simpl. by apply not_eq_sym, (Hdead w).
    + apply list_lookup_singleton_Some in Hw as [Hi _]. apply lookup_lt_Some in Hv.
      rewrite length_app in Hv. simpl in Hv. lia.
  - intros b. rewrite Hstr, submitted_app. apply sublist_app; [apply Hst|].
    destruct alive; [done | apply sublist_nil_l].
  - intros b Hn. rewrite Hstr, submitted_app. f_equal.
    + apply Hal. intros x. by apply (not_in_snoc _ (SendTo alive bytes a)).
    + destruct alive; [done|]. rewrite submitted_send. destruct (decide (a = b)) as [->|]; [|done].
      exfalso. apply (Hn bytes), elem_of_app. right. by left.
  - intros Hn Hf. destruct Ho as [Hoa Hod];
      [intros x b; by apply (not_in_snoc _ (SendTo alive bytes a))
      |intros v; by apply (not_in_snoc _ (SendTo alive bytes a)) |]. split.
    + intros x [Hx| ->%list_elem_of_singleton]%elem_of_app; [by apply Hoa|]. simpl.
      destruct alive; [done|]. exfalso. apply (Hn bytes a), elem_of_app. right. by left.
    + rewrite fmap_app. apply NoDup_app. split; [done|]. split; [|apply NoDup_singleton].
      intros b (x & -> & Hx)%list_elem_of_fmap Hb. apply list_elem_of_singleton in Hb. simpl in Hb.
      apply list_elem_of_lookup in Hx as Hw. destruct Hw as [w Hw]. by apply (Hdead w x Hw (Hoa x Hx)).
Qed.

Lemma ns_inv_event evs ev s :
  ns_inv evs s -> exists s', sender_event ev s = (Ok tt, s') /\ ns_inv (evs ++ [ev]) s'.
Proof.
  intros Hi. destruct ev as [alive bytes a|w|w]; simpl.
  - destruct (live_worker s a) as [[w x]|] eqn:Hl.
    + rewrite (send_to_live _ _ _ _ _ _ Hl). eexists. split; [reflexivity|].
      assert (workers s !! w = Some x /\ wk_address x = a /\ wk_alive x = true) as (Hw & Ha & Hx).
      { unfold live_worker in Hl. destruct (senders s !! a) as [w'|] eqn:Hs; [|done].
        destruct (ns_known _ _ Hi a w' Hs) as (x' & Hw' & Ha'). rewrite Hw' in Hl.
        destruct (wk_alive x') eqn:Hx; [|done]. by injection Hl as <- <-. }
      eapply (ns_inv_replace _ _ _ w x _ [bytes]); [done..| | | |].
      * unfold taken. simpl. by rewrite app_assoc.
      * by right.
      * intros b. by rewrite submitted_send, Ha.
      * by left.
    + rewrite (send_to_spawn _ _ _ _ Hl). eexists. split; [reflexivity|]. by apply ns_inv_spawn.
  - unfold worker_writes. run_act. destruct (workers s !! w) as [x|] eqn:Hw.
    2:{ eexists. split; [reflexivity|]. by apply ns_inv_skip. }
    destruct (wk_alive x) eqn:Hx; [destruct (wk_queue x) as [|bytes rest] eqn:Hq|];
      (eexists; split; [reflexivity|]); [by apply ns_inv_skip | | by apply ns_inv_skip].
    eapply (ns_inv_replace _ _ _ w x _ []); [done..| | | |].
    + unfold taken. simpl. by rewrite Hq, app_nil_r, <- app_assoc.
    + by left.
    + intros b. by destruct (decide _).
    + by left.
  - unfold worker_fails. run_act. destruct (workers s !! w) as [x|] eqn:Hw.
    2:{ eexists. split; [reflexivity|]. by apply ns_inv_skip. }
    eexists. split; [reflexivity|]. eapply (ns_inv_replace _ _ _ w x _ []); [done..| | | |].
    + unfold taken. simpl. by rewrite app_nil_r.
    + by left.
    + intros b. by destruct (decide _).
    + right. eauto.
Qed.

Lemma ns_inv_run evs :
  for_each evs sender_event NetSender_new = (Ok tt, sender_run evs) /\ ns_inv evs (sender_run evs).
Proof.
  unfold sender_run. assert (forall evs0 s, ns_inv evs0 s -> exists s',
    for_each evs sender_event s = (Ok tt, s') /\ ns_inv (evs0 ++ evs) s') as Hgen.
  { induction evs as [|ev evs IH]; intros evs0 s Hi; simpl.
    - exists s. by rewrite app_nil_r.
    - destruct (ns_inv_event evs0 ev s Hi) as (s1 & He & Hi1).
      destruct (IH _ _ Hi1) as (s2 & Hs2 & Hi2). exists s2. unfold mbind, act_bind.
      rewrite He. split; [done|]. by rewrite <- app_assoc in Hi2. }
  destruct (Hgen [] NetSender_new) as (s' & Hs & Hi).
  - constructor; simpl; try done; intros; try (by rewrite lookup_empty in * ).
    split; [|constructor]. intros x Hx. by apply elem_of_nil in Hx.
  - rewrite Hs. done.
Qed.

(** The sender.  It handles every message, whatever its workers do.  The messages
    taken by the connections to an address, one connection after the other, are
    messages submitted for that address in their order, and all of them unless a
    connection broke before its first message; an address has at most one live
    connection, and only one ever if nothing breaks. *)
Theorem sender_keeps_order (evs : list SenderEvent) (a : SocketAddr) :
  for_each evs sender_event NetSender_new = (Ok tt, sender_run evs) /\
  sublist (stream a (workers (sender_run evs))) (submitted a evs) /\
  ((forall bytes, SendTo false bytes a ∉ evs) ->
     stream a (workers (sender_run evs)) = submitted a evs) /\
  (forall w v x y, workers (sender_run evs) !! w = Some x -> workers (sender_run evs) !! v = Some y ->
     wk_address x = wk_address y -> wk_alive x = true -> wk_alive y = true -> w = v) /\
  ((forall bytes b, SendTo false bytes b ∉ evs) -> (forall w, Fails w ∉ evs) ->
     NoDup (wk_address <$> workers (sender_run evs))).
Proof.
  destruct (ns_inv_run evs) as [Hr [Hk Hl Hla Hst Hal Ho]]. split; [exact Hr|].
  split; [apply Hst|]. split; [apply Hal|]. split.
  - intros w v x y Hw Hv Ha Hx Hy. pose proof (Hl w x Hw Hx). pose proof (Hl v y Hv Hy).
    rewrite Ha in *. congruence.
  - intros Hn Hf. by apply Ho.
Qed.

(** ** The receiver *)

Section Receiver.
Context {M : Type} (encode : M -> option (list Z)) (decode : list Z -> option M).
Hypothesis decode_encode : forall m bytes, encode m = Some bytes -> decode bytes = Some m.

Lemma receive_encoded ms bs rest :
  Forall2 (fun m b => encode m = Some b) ms bs ->
  receive_frames decode ((Some <$> bs) ++ rest) = ms ++ receive_frames decode rest.
Proof.
  induction 1 as [|m b ms bs Hm _ IH]; [done|]. csimpl. by rewrite (decode_encode m b Hm), IH.
Qed.
End Receiver.

(** ** The accept loops *)

Section Listener.
Context {M : Type} (decode : list Z -> option M).

Definition from_conn (w : nat) (l : list (nat * M)) : list M :=
  omap (fun x => if decide (x.1 = w) then Some x.2 else None) l.

(** The frames that arrive on connection [w] while it is open and the channel has a
    receiver; [n] connections have been accepted before. *)
Fixpoint arrived (n w : nat) (evs : list ListenerEvent) : list (option (list Z)) :=
  match evs with
  | [] => []
  | Accept ok :: evs => arrived (if ok then S n else n) w evs
  | Frame v f :: evs =>
      if bool_decide (v = w /\ (w < n)%nat) then f :: arrived n w evs else arrived n w evs
  | Close v :: evs => if bool_decide (v = w /\ (w < n)%nat) then [] else arrived n w evs
  | ReceiverDropped :: _ => []
  end.

(** What connection [w] can still deliver: nothing when its worker has returned. *)
Definition to_come (s : Listener (M:=M)) (w : nat) (evs : list ListenerEvent) : list M :=
  if ls_open s && default true (ls_workers s !! w) then
    receive_frames decode (arrived (length (ls_workers s)) w evs)
  else [].

Lemma from_conn_snoc w v l (m : M) :
  from_conn w (l ++ [(v, m)]) = from_conn w l ++ (if decide (v = w) then [m] else []).
Proof. unfold from_conn. rewrite omap_app. simpl. by destruct (decide (v = w)). Qed.

Lemma to_come_dead s w evs : ls_workers s !! w = Some false -> to_come s w evs = [].
Proof. intros Hw. unfold to_come. rewrite Hw. simpl. by rewrite andb_false_r. Qed.

Lemma to_come_insert s w v b evs :
  v <> w -> to_come (s <| ls_workers := <[v := b]> (ls_workers s) |>) w evs = to_come s w evs.
Proof. intros Hv. unfold to_come. simpl. by rewrite list_lookup_insert_ne, length_insert by done. Qed.

(** A frame on another connection, or on none, is nothing to this one. *)
Lemma to_come_frame s w v f evs :
  v <> w \/ ls_workers s !! v <> Some true ->
  to_come s w (Frame v f :: evs) = to_come s w evs.
Proof.
  intros Hv. unfold to_come. simpl. case_bool_decide as Hd; [|done]. destruct Hd as [-> Hw].
  destruct Hv as [?|Hv]; [done|]. apply lookup_lt_is_Some_2 in Hw as [[] Hx]; [done|].
  rewrite Hx. simpl. by rewrite andb_false_r.
Qed.

(** What has been delivered and what is to come is the same after an event. *)
Definition delivers (w : nat) (ev : ListenerEvent) : Prop :=
  forall evs s, exists s', listener_event decode ev s = (Ok tt, s') /\
    from_conn w (ls_deliver s') ++ to_come s' w evs = from_conn w (ls_deliver s) ++ to_come s w (ev :: evs).

Lemma to_come_here s w f evs :
  ls_workers s !! w = Some true ->
  to_come s w (Frame w f :: evs) =
    if ls_open s then receive_frames decode (f :: arrived (length (ls_workers s)) w evs) else [].
Proof.
  intros Hw. unfold to_come. simpl. rewrite Hw. simpl. rewrite andb_true_r, bool_decide_true; [done|].
  split; [done|]. by eapply lookup_lt_Some.
Qed.

Lemma delivers_frame_here w f : delivers w (Frame w f).
Proof.
  intros evs s. simpl. run_act. unfold when. case_bool_decide as Hv; cycle 1.
  { exists s. split; [done|]. by rewrite to_come_frame by auto. }
  rewrite to_come_here by done.
  set (s0 := s <| ls_workers := <[w := false]> (ls_workers s) |>).
  assert (to_come s0 w evs = []) as Hdead.
  { apply to_come_dead. simpl. apply list_lookup_insert_eq. by eapply lookup_lt_Some. }
  simpl. unfold worker_frame. destruct (x ← f; decode x) as [m|] eqn:Hm.
  - run_act. destruct (ls_open s) eqn:Ho; simpl.
    + eexists. split; [reflexivity|]. simpl. rewrite from_conn_snoc, decide_True by done.
      rewrite <- app_assoc. f_equal. unfold to_come. simpl. by rewrite Ho, Hv.
    + exists s0. split; [reflexivity|]. by rewrite Hdead.
  - exists s0. split; [reflexivity|]. rewrite Hdead. by destruct (ls_open s).
Qed.

Lemma delivers_frame_elsewhere v w f : v <> w -> delivers w (Frame v f).
Proof.
  intros Hne evs s. rewrite to_come_frame by auto. simpl. run_act. unfold when.
  case_bool_decide as Hv; [|by exists s].
  set (s0 := s <| ls_workers := <[v := false]> (ls_workers s) |>).
  assert (to_come s0 w evs = to_come s w evs) as Hsame by (by apply to_come_insert).
  unfold worker_frame. destruct (x ← f; decode x) as [m|].
  - run_act. destruct (ls_open s) eqn:Ho.
    + eexists. split; [reflexivity|]. simpl. by rewrite from_conn_snoc, decide_False, app_nil_r by done.
    + exists s0. split; [reflexivity|]. by rewrite Hsame.
  - exists s0. split; [reflexivity|]. by rewrite Hsame.
Qed.

Lemma delivers_close v w : delivers w (Close v).
Proof.
  intros evs s. exists (s <| ls_workers := <[v := false]> (ls_workers s) |>). split; [reflexivity|].
  f_equal. destruct (decide (v = w)) as [->|Hne].
  - destruct (decide (w < length (ls_workers s))%nat) as [Hw|Hw].
    + rewrite to_come_dead by (by apply list_lookup_insert_eq). unfold to_come. simpl.
      rewrite bool_decide_true by done. by destruct (_ && _).
    + unfold to_come. simpl. rewrite bool_decide_false by naive_solver.
      by rewrite list_insert_ge by lia.
  - rewrite to_come_insert by done. unfold to_come. simpl. by rewrite bool_decide_false by naive_solver.
Qed.

Lemma delivers_accept w ok : delivers w (Accept ok).
Proof.
  intros evs s. destruct ok; [|by exists s]. eexists. split; [reflexivity|].
  f_equal. unfold to_come. simpl. rewrite length_app, Nat.add_1_r.
  destruct (ls_open s); simpl; [|done]. destruct (ls_workers s !! w) as [b|] eqn:Hw.
  - by rewrite (lookup_app_l_Some _ _ _ _ Hw).
  - apply lookup_ge_None in Hw. rewrite lookup_app_r by done.
    by destruct (w - length (ls_workers s))%nat as [|[|]].
Qed.

Lemma delivers_any w ev : delivers w ev.
Proof.
  destruct ev as [ok|v f|v|]; [apply delivers_accept | | apply delivers_close |].
  - destruct (decide (v = w)) as [->|]; [apply delivers_frame_here | by apply delivers_frame_elsewhere].
  - intros evs s. eexists. split; [reflexivity|]. f_equal. unfold to_come. simpl.
    by destruct (_ && _).
Qed.

Lemma listener_from evs s :
  exists s', for_each evs (listener_event decode) s = (Ok tt, s') /\
    forall w, from_conn w (ls_deliver s') = from_conn w (ls_deliver s) ++ to_come s w evs.
Proof.
  revert s. induction evs as [|ev evs IH]; intros s; simpl.
  - exists s. split; [done|]. intros w. unfold to_come. simpl. by destruct (_ && _); rewrite app_nil_r.
  - destruct (delivers_any 0 ev evs s) as (s1 & He & _). destruct (IH s1) as (s2 & Hs & Hw).
    exists s2. unfold mbind, act_bind. rewrite He. split; [exact Hs|]. intros w.
    destruct (delivers_any w ev evs s) as (s1' & He' & Hw').
    rewrite He in He'. injection He' as <-. by rewrite Hw.
Qed.

(** C35: The accept loop.  It never ends by itself; and what each connection has put into
    the channel is exactly what a worker makes of the frames that arrived on it while it
    was open and the channel had a receiver: in their order, up to the first frame that
    cannot be used, and whatever the other connections do, those that could not be
    accepted included. *)
Theorem listener_delivers (evs : list ListenerEvent) :
  for_each evs (listener_event decode) (mkListener [] [] true) = (Ok tt, listener_run decode evs) /\
  forall w, from_conn w (ls_deliver (listener_run decode evs)) = receive_frames decode (arrived 0 w evs).
Proof.
  destruct (listener_from evs (mkListener [] [] true)) as (s' & Hs & Hw).
  unfold listener_run. rewrite Hs. split; [done|]. intros w. exact (Hw w).
Qed.
End Listener.

(** The frames and the messages for an address among those with several addresses. *)
Definition frames_for {X} (a : SocketAddr) (l : list (X * list SocketAddr)) : list X :=
  l ≫= fun n => (fun _ => n.1) <$> filter (fun b => b = a) n.2.

Lemma frames_for_elem {X} a (l : list (X * list SocketAddr)) m :
  m ∈ frames_for a l -> exists n, n ∈ l /\ n.1 = m /\ a ∈ n.2.
Proof.
  intros (n & Hm & Hn)%list_elem_of_bind. apply list_elem_of_fmap in Hm as (b & -> & Hb).
  apply list_elem_of_filter in Hb as [-> Hb]. by exists n.
Qed.

Lemma stream_of_one a ws w x :
  NoDup (wk_address <$> ws) -> ws !! w = Some x -> wk_address x = a ->
  stream a ws = wk_written x ++ wk_queue x.
Proof.
  intros Hn Hw Ha. pose proof (delete_Permutation _ _ _ Hw) as Hp. rewrite Hp in Hn. csimpl in Hn.
  apply NoDup_cons in Hn as [Hni _]. clear Hp.
  rewrite delete_take_drop, fmap_app in Hni.
  rewrite <- (take_drop_middle _ _ _ Hw), stream_app, stream_cons.
  rewrite (decide_True _ _ Ha), !stream_other; cycle 1.
  - intros y Hy Hya. apply Hni, elem_of_app. right. apply list_elem_of_fmap. exists y.
    split; [congruence | done].
  - intros y Hy Hya. apply Hni, elem_of_app. left. apply list_elem_of_fmap. exists y.
    split; [congruence | done].
  - by rewrite app_nil_r.
Qed.

Section Wire.
Context `{MessageCodec} `{!MessageCodecLaws}.

Lemma encodes_for a done net :
  Forall2 encodes done net ->
  Forall2 (fun m b => encode_message m = Some b) (frames_for a done) (frames_for a net).
Proof.
  induction 1 as [|x n done net [He Ha] _ IH]; [constructor|].
  unfold frames_for. simpl. apply Forall2_app; [|exact IH]. rewrite Ha.
  induction (filter (fun b => b = a) x.2); simpl; by constructor.
Qed.

(** C34: From core to core.  The filter's output goes through a sender whose
    connections do not break, in any interleaving with the work of its workers.  The
    messages [passed] are those whose encodings and addresses the filter has put out,
    in the order in which it did; with those still pending they are what was given to
    it.  What the peer's receiver makes of the frames written so far on the connection
    to an address are the messages of [passed] for this address, in their order and
    from the first on; only as many are missing as the connection still has queued. *)
Theorem wire_delivers (p : Parameters) (fevs : list (Z * FilterEvent)) (f : Filter)
    (evs : list SenderEvent) (w : nat) (x : Worker) :
  filter_reach p fevs f ->
  (forall bytes a, SendTo false bytes a ∉ evs) -> (forall v, Fails v ∉ evs) ->
  (forall a, submitted a evs = frames_for a (network (opt_lane f))) ->
  workers (sender_run evs) !! w = Some x ->
  exists passed queued,
    Forall2 encodes passed (network (opt_lane f)) /\
    passed ++ (pending (opt_lane f)).*1 ≡ₚ received (opt_events fevs) /\
    frames_for (wk_address x) passed =
      receive_frames decode_message (Some <$> wk_written x) ++ queued /\
    length queued = length (wk_queue x).
Proof.
  intros Hr Hn Hf Hsub Hw. apply filter_inv in Hr as (_ & [(passed & Hp & Hperm) _] & _).
  destruct (ns_inv_run evs) as [_ [_ _ _ _ Hal Ho]]. destruct (Ho Hn Hf) as [_ Hnd].
  pose proof (stream_of_one _ _ _ _ Hnd Hw eq_refl) as Hpre.
  rewrite Hal in Hpre by (intros bytes; apply Hn). rewrite Hsub in Hpre.
  pose proof (encodes_for (wk_address x) _ _ Hp) as He. rewrite Hpre in He.
  apply Forall2_app_inv_r in He as (ms1 & ms2 & Hms1 & Hms2 & Hms).
  exists passed, ms2. split_and!; [exact Hp | by rewrite Hperm | |by eapply Forall2_length].
  rewrite Hms. f_equal. rewrite <- (app_nil_r (Some <$> wk_written x)).
  rewrite (receive_encoded encode_message decode_message message_roundtrip ms1) by done.
  by rewrite app_nil_r.
Qed.
End Wire.

(** ** Witnesses: a delayed proposal is overtaken by a request *)

#[export] Instance toy_codec : MessageCodec := {|
  encode_message := fun m =>
    match m with
    | HsPropose b => Some (0 :: put b [])
    | SyncRequest d k => Some (1 :: put d (put k []))
    | _ => None
    end;
  decode_message := fun l =>
    match l with
    | 0 :: l => '(b, _) ← get l; Some (HsPropose b)
    | 1 :: l => '(d, l) ← get l; '(k, _) ← get l; Some (SyncRequest d k)
    | _ => None
    end;
|}.

#[export] Instance toy_codec_laws : MessageCodecLaws.
Proof.
  constructor. intros m bytes. destruct m; try discriminate; intros Hb; apply Some_inj in Hb;
    rewrite <- Hb.
  - exact (f_equal (fun o => '(b, _) ← o; Some (HsPropose b)) (get_put b [])).
  - etransitivity.
    + exact (f_equal (fun o => '(d, l) ← o; '(k, _) ← get l; Some (SyncRequest d k))
        (get_put d (put sender []))).
    + exact (f_equal (fun o => '(k, _) ← o; Some (SyncRequest d k)) (get_put sender [])).
Qed.

Definition slow : Parameters :=
  {| node_sync_time := 500; timeout_delay := 5000; sync_retry_delay := 10000;
     network_delay := 100; max_payload_size := 500; min_block_delay := 100; ddos := true;
     random_ddos := false; random_ddos_chance := 5; fallback_length := 3; exp := 1;
     leader_window := 2 |}.

Definition peer_address : SocketAddr := mkSocketAddr [127; 0; 0; 1] 7202.
Definition proposal : FilterInput := (HsPropose Block.genesis, [peer_address]).
Definition request : FilterInput := (SyncRequest (mkDigest [5]) (key 1), [peer_address]).

Definition slow_events : list (Z * FilterEvent) :=
  ((((([] ++ [(0, OptLane (Received proposal))])
    ++ [(0, OptLane (Polled 0 false 0))])
    ++ [(5, OptLane (Received request))])
    ++ [(5, OptLane (Polled 1 false 5))])
    ++ [(5, OptLane (Elapsed 1))]).

Definition request_bytes : list Z := 1 :: put (mkDigest [5]) (put (key 1) []).

Definition slow_filter : Filter :=
  mkFilter slow (mkLane [(proposal, Some 100)] [(request_bytes, [peer_address])]) (mkLane [] []).

Lemma slow_reach : filter_reach slow slow_events slow_filter.
Proof.
  eapply filter_step; [eapply filter_step; [eapply filter_step; [eapply filter_step;
    [eapply filter_step; [apply filter_start|..]|..]|..]|..]|..].
  all: try reflexivity; try exact I.
  exists request, 5. by split.
Qed.

Lemma filter_forwards_witness :
  exists done, Forall2 encodes done [(request_bytes, [peer_address])] /\
    [proposal; request] ≡ₚ done ++ [proposal].
Proof. exact (proj1 (filter_forwards slow slow_events slow_filter slow_reach)). Defined.

Definition wire_events : list SenderEvent :=
  [SendTo true request_bytes peer_address; Writes 0].

Lemma wire_submitted a :
  submitted a wire_events = frames_for a (network (opt_lane slow_filter)).
Proof.
  unfold submitted, frames_for. simpl. rewrite filter_cons, filter_nil.
  destruct (decide (peer_address = a)); reflexivity.
Qed.

Lemma wire_delivers_witness :
  exists passed queued, Forall2 encodes passed [(request_bytes, [peer_address])] /\
    passed ++ [proposal] ≡ₚ [proposal; request] /\
    frames_for peer_address passed = [SyncRequest (mkDigest [5]) (key 1)] ++ queued /\
    length queued = 0%nat.
Proof.
  exact (wire_delivers slow slow_events slow_filter wire_events 0
    (mkWorker peer_address [] [request_bytes] true) slow_reach
    ltac:(intros bytes a [Hx|[Hx|Hx]%elem_of_cons]%elem_of_cons; [done | done | by apply elem_of_nil in Hx])
    ltac:(intros v [Hx|[Hx|Hx]%elem_of_cons]%elem_of_cons; [done | done | by apply elem_of_nil in Hx])
    wire_submitted eq_refl).
Defined.
