(* ===== verification/CommitFacts.v ===== *)
(** * Facts about the chain walks: commit and get_ancestors

    A block's parent is genesis or what the store holds under the digest its
    certificate names.  [commit] walks up this chain to the last committed height;
    [get_ancestors] takes two steps up. *)

From S2P Require Import Prelude Machine Crypto Config Messages Leader Aggregator Timer Store.
From S2P Require Import Sync Core Handlers Fixture.

Section Chain.
Context `{CryptoLib} `{NodeEnv}.

(** RocksDB answers every read. *)
Hypothesis no_fault : forall n, db_get_fault n = false.

(** ** Parents *)

Inductive Parent : Type :=
| Found (b : Block.t)
| Missing
| Corrupt.

Definition parent_in (kv : gmap Key Value) (b : Block.t) : Parent :=
  if QC.eqb (Block.qc b) QC.genesis then Found Block.genesis
  else
    match kv !! Digest_to_vec (Block.parent b) with
    | Some bytes =>
        match deserialize_block bytes with Some p => Found p | None => Corrupt end
    | None => Missing
    end.

(** A read leaves the map. *)
Definition same_kv (st st' : StoreClient) : Prop := kv st' = kv st.

Lemma store_read_eq k st :
  store_read k st = (Ok (kv st !! k), mkStoreClient (kv st) (S (reads st))).
Proof. unfold store_read, mbind, act_bind. simpl. by rewrite no_fault. Qed.

Lemma get_parent_block_eq b st ch :
  exists st', same_kv st st' /\
  get_parent_block b (st, ch) =
  match parent_in (kv st) b with
  | Found p => (Ok (Some p), (st', ch))
  | Missing => (Ok None, (st', ch ++ [b]))
  | Corrupt => (Err SerializationError, (st', ch))
  end.
Proof.
  unfold get_parent_block, parent_in. destruct (QC.eqb _ _); [by exists st|].
  exists (mkStoreClient (kv st) (S (reads st))). split; [done|].
  unfold mbind at 1, act_bind at 1, on_store, zoom. cbn [fst snd].
  rewrite store_read_eq.
  destruct (kv st !! Digest_to_vec (Block.parent b)) as [bytes|]; [|done].
  unfold decode_block. by destruct (deserialize_block bytes).
Qed.

(** [get_ancestors].  The two ancestors returned are the parent and the parent's
    parent; a block whose parent is not stored is handed to the synchronizer and
    nothing else happens; a stored parent whose own parent is missing is the panic
    of the source. *)
Theorem get_ancestors_spec (block : Block.t) (st : StoreClient) (ch : list Block.t) :
  exists st', same_kv st st' /\
  get_ancestors block (st, ch) =
  match parent_in (kv st) block with
  | Missing => (Ok None, (st', ch ++ [block]))
  | Corrupt => (Err SerializationError, (st', ch))
  | Found b1 =>
      match parent_in (kv st) b1 with
      | Found b0 => (Ok (Some (b0, b1)), (st', ch))
      | Missing =>
          (Panic "We should have all ancestors of delivered blocks", (st', ch ++ [b1]))
      | Corrupt => (Err SerializationError, (st', ch))
      end
  end.
Proof.
  destruct (get_parent_block_eq block st ch) as (st1 & Hkv1 & H1).
  unfold get_ancestors, mbind, act_bind. rewrite H1.
  destruct (parent_in (kv st) block) as [b1| |]; [|by exists st1..].
  destruct (get_parent_block_eq b1 st1 ch) as (st2 & Hkv2 & H2). rewrite H2.
  unfold same_kv in *. rewrite Hkv1 in *.
  exists st2. split; [congruence|]. by destruct (parent_in (kv st) b1).
Qed.

(** ** The walk of [commit] *)

(** The blocks above the last committed height, from a block up to the first
    ancestor that is not above it. *)
Inductive walk (kvs : gmap Key Value) (last : Z) : Block.t -> list Block.t -> Prop :=
| walk_end b : Block.height b <= last -> walk kvs last b []
| walk_up b p l : last < Block.height b -> parent_in kvs b = Found p ->
    walk kvs last p l -> walk kvs last b (b :: l).

Lemma walk_fun kvs last b l1 l2 : walk kvs last b l1 -> walk kvs last b l2 -> l1 = l2.
Proof.
  intros H1. revert l2. induction H1 as [b Hle|b p l Hlt Hp _ IH]; intros l2 H2;
    inversion H2; subst; try lia; [done|].
  rewrite Hp in *. simplify_eq. f_equal. by apply IH.
Qed.

(** The keys read on the way: each is in the store, and leads to a shorter walk. *)
Lemma walk_keys kvs last b l :
  0 <= last -> walk kvs last b l ->
  exists K : gset Key, K ⊆ dom kvs /\ (length l <= S (size K))%nat /\
    forall k, k ∈ K -> exists bytes p l', kvs !! k = Some bytes /\
      deserialize_block bytes = Some p /\ walk kvs last p l' /\ (length l' < length l)%nat.
Proof.
  intros Hlast Hw. induction Hw as [b Hle|b p l Hlt Hp Hw (K & Hsub & Hlen & HK)].
  - exists ∅. split_and!; [set_solver | simpl; lia | set_solver].
  - unfold parent_in in Hp. destruct (QC.eqb _ _).
    + injection Hp as <-. inversion Hw; subst; [|simpl in *; lia].
      exists ∅. split_and!; [set_solver | simpl; lia | set_solver].
    + set (k := Digest_to_vec (Block.parent b)) in *.
      destruct (kvs !! k) as [bytes|] eqn:Hk; [|done].
      destruct (deserialize_block bytes) as [q|] eqn:Hd; [|done]. injection Hp as ->.
      assert (k ∉ K) as Hnew.
      { intros Hin. destruct (HK k Hin) as (bytes' & q & l' & Hk' & Hd' & Hw' & Hl').
        assert (l' = l) as ->; [|lia]. simplify_eq. by eapply walk_fun. }
      exists ({[k]} ∪ K). split_and!.
      * apply union_subseteq. split; [|done]. apply singleton_subseteq_l, elem_of_dom. eauto.
      * rewrite size_union, size_singleton by set_solver. simpl. lia.
      * intros k' [Hin%elem_of_singleton|Hin]%elem_of_union.
        -- subst k'. exists bytes, p, l. split_and!; [done.. | simpl; lia].
        -- destruct (HK k' Hin) as (bytes' & q & l' & ? & ? & ? & ?).
           exists bytes', q, l'. split_and!; [done.. | simpl; lia].
Qed.

Lemma walk_length kvs last b l :
  0 <= last -> walk kvs last b l -> (length l <= S (size kvs))%nat.
Proof.
  intros Hlast Hw. destruct (walk_keys kvs last b l Hlast Hw) as (K & Hsub & Hlen & _).
  apply subseteq_size in Hsub. rewrite size_dom in Hsub. lia.
Qed.

(** The requests a walk sends: the payload of each block that has one. *)
Definition cleanups (l : list Block.t) : list ConsensusMempoolMessage :=
  (fun b => MempoolCleanup (Block.payload b) (Block.height b))
    <$> filter (fun b => Block.payload b <> []) l.

Definition walked (l : list Block.t) (st : StoreClient) (s : Core) : Core :=
  s <| mempool_driver := mempool_driver s ++ cleanups l |> <| store := st |>.

Lemma walked_nil s : walked [] (store s) s = s.
Proof. destruct s. unfold walked. cbn. by rewrite app_nil_r. Qed.

Lemma cleanup_when b s :
  (when (negb (bool_decide (Block.payload b = []))) (on_mempool (driver_cleanup_par b))) s =
  (Ok tt, walked [b] (store s) s).
Proof.
  destruct s. unfold walked, cleanups. rewrite filter_cons, filter_nil.
  destruct (decide (Block.payload b = [])) as [He|Hne].
  - rewrite bool_decide_true by done. rewrite decide_False by tauto. cbn. by rewrite app_nil_r.
  - rewrite bool_decide_false by done. by rewrite decide_True by done.
Qed.

Lemma cleanups_cons b l : cleanups (b :: l) = cleanups [b] ++ cleanups l.
Proof.
  unfold cleanups. change (b :: l) with ([b] ++ l). by rewrite filter_app, fmap_app.
Qed.

Lemma walked_cons b l st st' s :
  walked l st' (walked [b] (store s) s <| store := st |> <| synchronizer := synchronizer s |>)
  = walked (b :: l) st' s.
Proof.
  transitivity (s <| mempool_driver := (mempool_driver s ++ cleanups [b]) ++ cleanups l |>
                  <| store := st' |>); [by destruct s|].
  unfold walked. by rewrite (cleanups_cons b l), app_assoc.
Qed.

Lemma commit_loop_walk fuel b l s :
  walk (kv (store s)) (last_committed_height s) b l -> (length l < fuel)%nat ->
  exists st, same_kv (store s) st /\ commit_loop fuel b s = (Ok tt, walked l st s).
Proof.
  revert b l s. induction fuel as [|fuel IH]; intros b l s Hw Hf; [lia|].
  inversion Hw as [b' Hle|b' p l' Hlt Hp Hw']; subst; cbn [commit_loop];
    unfold mbind at 1, act_bind at 1, gets.
  - rewrite (proj2 (Z.ltb_ge _ _)) by done. exists (store s). by rewrite walked_nil.
  - rewrite (proj2 (Z.ltb_lt _ _)) by done.
    unfold mbind at 1, act_bind at 1. rewrite cleanup_when.
    unfold mbind at 1, act_bind at 1, on_synchronizer, zoom.
    cbn [store walked synchronizer set].
    destruct (get_parent_block_eq b (store s) (synchronizer s)) as (st & Hkv & ->).
    rewrite Hp. unfold same_kv in Hkv. 
    edestruct (IH p l') as (st' & Hkv' & Heq); [| |].
    3:{ rewrite Heq. exists st'. split; [exact (eq_trans Hkv' Hkv)|].
        f_equal. apply walked_cons. }
    + cbn. rewrite Hkv. exact Hw'.
    + simpl in Hf. lia.
Qed.

(** C16: [commit] on a complete chain.  When the chain from the block reaches an
    ancestor that is not above the last committed height, the walk returns (its fuel,
    two more than the number of stored keys, is always enough), having told the
    mempool to forget the payload of each block above that height, in the order of
    the walk; besides the mempool's requests and the store's read counter nothing
    has changed. *)
Theorem commit_walks_chain (block : Block.t) (l : list Block.t) (s : Core) :
  0 <= last_committed_height s ->
  walk (kv (store s)) (last_committed_height s) block l ->
  exists st, same_kv (store s) st /\
    commit block s =
      (Ok tt, s <| mempool_driver := mempool_driver s ++ cleanups l |> <| store := st |>).
Proof.
  intros Hlast Hw. pose proof (walk_length _ _ _ _ Hlast Hw) as Hlen.
  destruct (commit_loop_walk (S (S (size (kv (store s))))) block l s Hw) as (st & Hkv & Hc);
    [lia|].
  exists st. split; [exact Hkv | exact Hc].
Qed.
End Chain.

(** ** Witnesses: a chain of two blocks in the store *)

Definition block1 : Block.t :=
  Block.mk QC.genesis (key 2) 1 0 [mkDigest [5]] Signature_default OPT 0.
Definition block2 : Block.t :=
  Block.mk (QC.mk (Block.digest block1) 1 0 0 OPT (key 2) (key 2) []) (key 3) 2 0
    [mkDigest [6]] Signature_default OPT 0.

Definition chain_store : StoreClient :=
  mkStoreClient {[Digest_to_vec (Block.digest block1) := serialize_block block1]} 0.

Definition chain_node : Core := toy_node 1 true true <| store := chain_store |>.

Lemma block2_parent : parent_in (kv chain_store) block2 = Found block1.
Proof. by vm_compute. Qed.

Lemma block1_parent : parent_in (kv chain_store) block1 = Found Block.genesis.
Proof. by vm_compute. Qed.

Lemma chain_walk : walk (kv chain_store) 0 block2 [block2; block1].
Proof.
  apply (walk_up _ _ block2 block1); [done | exact block2_parent|].
  apply (walk_up _ _ block1 Block.genesis); [done | exact block1_parent|].
  by apply walk_end.
Qed.

Lemma commit_walks_chain_witness :
  exists st, same_kv chain_store st /\
    commit block2 chain_node =
      (Ok tt, chain_node
         <| mempool_driver := mempool_driver chain_node ++ cleanups [block2; block1] |>
         <| store := st |>).
Proof.
  apply (@commit_walks_chain toy_crypto toy_env (fun _ => eq_refl) block2 [block2; block1] chain_node).
  - done.
  - exact chain_walk.
Defined.

Lemma get_ancestors_spec_witness :
  parent_in (kv chain_store) block2 = Found block1 /\
  exists st', same_kv chain_store st' /\
    get_ancestors block2 (chain_store, []) =
    match parent_in (kv chain_store) block2 with
    | Missing => (Ok None, (st', [] ++ [block2]))
    | Corrupt => (Err SerializationError, (st', []))
    | Found b1 =>
        match parent_in (kv chain_store) b1 with
        | Found b0 => (Ok (Some (b0, b1)), (st', []))
        | Missing =>
            (Panic "We should have all ancestors of delivered blocks", (st', [] ++ [b1]))
        | Corrupt => (Err SerializationError, (st', []))
        end
    end.
Proof.
  split; [exact block2_parent|].
  exact (@get_ancestors_spec toy_env (fun _ => eq_refl) block2 chain_store []).
Defined.
