(* ===== verification/BlockSyncFacts.v ===== *)
(** * Facts about the background task of the consensus synchronizer

    What is sent back to the core, which parents are requested and requested again,
    and how a request is served by a peer's core. *)

From S2P Require Import Prelude Machine Crypto Config Messages Leader Aggregator Timer Store Sync.
From S2P Require Import BlockSync Core Handlers Fixture CommitFacts.

Section Facts.
Context `{CryptoLib}.

Notation bid x := (Block.digest x.2).

(** ** The handlers *)

Lemma bs_transmit_eq m s :
  bs_transmit m s =
    (Ok tt, s <| bs_network := bs_network s ++ [(m, broadcast_addresses (bs_committee s) (bs_name s))] |>).
Proof. reflexivity. Qed.

Definition request_of (s : BlockSync) (d : Digest) : FilterInput :=
  (SyncRequest d (bs_name s), broadcast_addresses (bs_committee s) (bs_name s)).

Lemma on_block_known now b s :
  Block.digest b ∈ bs_pending s -> on_block now b s = (Ok tt, s).
Proof. intros Hp. unfold on_block. run_act. by rewrite bool_decide_true. Qed.

Lemma on_block_new now b s :
  Block.digest b ∉ bs_pending s ->
  on_block now b s =
    (Ok tt, s <| bs_pending := {[Block.digest b]} ∪ bs_pending s |>
              <| bs_waiting := bs_waiting s ++ [(Block.parent b, b)] |>
              <| bs_requests := if bool_decide (is_Some (bs_requests s !! Block.parent b))
                                then bs_requests s else <[Block.parent b := now]> (bs_requests s) |>
              <| bs_network := if bool_decide (is_Some (bs_requests s !! Block.parent b))
                               then bs_network s
                               else bs_network s ++ [request_of s (Block.parent b)] |>).
Proof.
  intros Hp. unfold on_block. run_act. rewrite bool_decide_false by done.
  cbn [bs_requests set]. case_bool_decide; [by destruct s|].
  run_act. by rewrite bs_transmit_eq.
Qed.

Lemma on_parent_ok i p b s :
  bs_waiting s !! i = Some (p, b) ->
  on_parent i true s =
    (Ok tt, s <| bs_waiting := delete i (bs_waiting s) |>
              <| bs_pending := bs_pending s ∖ {[Block.digest b]} |>
              <| bs_requests := delete (Block.parent b) (bs_requests s) |>
              <| bs_core := bs_core s ++ [HsLoopBack b] |>).
Proof. intros Hw. unfold on_parent. run_act. by rewrite Hw. Qed.

Lemma on_parent_failed i p b s :
  bs_waiting s !! i = Some (p, b) ->
  on_parent i false s = (Ok tt, s <| bs_waiting := delete i (bs_waiting s) |>).
Proof. intros Hw. unfold on_parent. run_act. by rewrite Hw. Qed.

(** The digests that a pass of the retransmission loop asks for. *)
Definition expired (delay : Z) (l : list (Z * (Digest * Z))) : list Digest :=
  (fun x => x.2.1) <$> filter (fun x => x.2.2 + delay < x.1) l.

Lemma retry_loop delay l s :
  for_each l (fun '(now, (digest, timestamp)) =>
    if timestamp + delay <? now then
      me ← gets bs_name;
      bs_transmit (SyncRequest digest me)
    else mret tt) s
  = (Ok tt, s <| bs_network := bs_network s ++ (request_of s <$> expired delay l) |>).
Proof.
  revert s. induction l as [|[now [d t]] l IH]; intros s.
  - simpl. unfold expired. simpl. rewrite app_nil_r. by destruct s.
  - cbn [for_each]. unfold expired. rewrite filter_cons. simpl.
    destruct (Z.ltb_spec (t + delay) now) as [Hlt|Hge].
    + rewrite decide_True by done. run_act. rewrite bs_transmit_eq.
      etransitivity; [apply IH|]. unfold expired. simpl. rewrite <- app_assoc. by destruct s.
    + rewrite decide_False by lia. run_act. etransitivity; [apply IH|]. by destruct s.
Qed.

Definition stamped (clock : nat -> Z) (m : gmap Digest Z) : list (Z * (Digest * Z)) :=
  imap (fun k x => (clock k, x)) (map_to_list m).

Lemma on_retry_eq clock s :
  on_retry clock s =
    (Ok tt, s <| bs_network := bs_network s ++
                 (request_of s <$> expired (bs_retry_delay s) (stamped clock (bs_requests s))) |>).
Proof. unfold on_retry. run_act. apply retry_loop. Qed.

Lemma stamped_snd clock m : snd <$> stamped clock m = map_to_list m.
Proof.
  unfold stamped. generalize (map_to_list m). intros l. revert clock.
  induction l as [|x l IH]; intros clock; simpl; [done|]. f_equal. apply IH.
Qed.

Lemma expired_spec delay clock m d :
  d ∈ expired delay (stamped clock m) <->
  exists k t, m !! d = Some t /\ map_to_list m !! k = Some (d, t) /\ t + delay < clock k.
Proof.
  unfold expired. rewrite list_elem_of_fmap. split.
  - intros ([now [d' t]] & -> & [Hlt Hin]%list_elem_of_filter). simpl in *.
    apply list_elem_of_lookup in Hin as [k Hk]. unfold stamped in Hk.
    rewrite list_lookup_imap in Hk. destruct (map_to_list m !! k) as [x|] eqn:Hx; [|done].
    injection Hk as <- ->. exists k, t. split; [|done].
    apply elem_of_map_to_list. by eapply list_elem_of_lookup_2.
  - intros (k & t & Hm & Hk & Hlt). exists (clock k, (d, t)). split; [done|].
    apply list_elem_of_filter. split; [done|]. apply (list_elem_of_lookup_2 _ k).
    unfold stamped. by rewrite list_lookup_imap, Hk.
Qed.

Lemma expired_nodup delay clock m : NoDup (expired delay (stamped clock m)).
Proof.
  unfold expired. apply (sublist_NoDup _ ((fun x => x.2.1) <$> stamped clock m)).
  - change (fun x : Z * (Digest * Z) => x.2.1) with (fst ∘ snd : Z * (Digest * Z) -> Digest).
    rewrite list_fmap_compose, stamped_snd. apply NoDup_fst_map_to_list.
  - generalize (stamped clock m). intros l. induction l as [|x l IH]; [done|].
    rewrite filter_cons. case_decide; csimpl; by constructor.
Qed.

(** ** The invariant *)

Record bs_inv (db : gmap Key Value) (evs : list BlockSyncEvent) (s : BlockSync) : Prop := {
  bsi_nodup : NoDup ((fun x => bid x) <$> bs_waiting s);
  bsi_pending : forall x, x ∈ bs_waiting s -> bid x ∈ bs_pending s;
  bsi_given : forall x, x ∈ bs_waiting s ->
    x.1 = Block.parent x.2 /\ exists now, BsBlock now x.2 ∈ evs;
  bsi_requested : forall x, x ∈ bs_waiting s ->
    is_Some (bs_requests s !! x.1) \/ is_Some (db !! Digest_to_vec x.1);
}.

Lemma given_mono evs ev b :
  (exists now, BsBlock now b ∈ evs) -> exists now, BsBlock now b ∈ evs ++ [ev].
Proof. intros [now ?]. exists now. apply elem_of_app. by left. Qed.

Lemma bs_inv_more db evs ev s : bs_inv db evs s -> bs_inv db (evs ++ [ev]) s.
Proof.
  intros [? ? Hg ?]. constructor; [done..| |done].
  intros x Hx. destruct (Hg x Hx) as [? ?]. eauto using given_mono.
Qed.

Lemma bs_inv_network db evs s n : bs_inv db evs s -> bs_inv db evs (s <| bs_network := n |>).
Proof. by intros [? ? ? ?]. Qed.

Lemma bs_inv_block db evs now b s :
  bs_inv db evs s -> Block.digest b ∉ bs_pending s ->
  bs_inv db (evs ++ [BsBlock now b]) (on_block now b s).2.
Proof.
  intros [Hn Hp Hg Hr] Hd. rewrite on_block_new by done. constructor; cbn -[elem_of].
  - rewrite fmap_app. apply NoDup_app. split; [done|]. split; [|apply NoDup_singleton].
    intros d Hx Heq. apply list_elem_of_singleton in Heq.
    apply list_elem_of_fmap in Hx as (x & Hxd & Hx). apply Hd. simpl in Heq.
    rewrite <- Heq, Hxd. by apply Hp.
  - intros x [Hx| ->%list_elem_of_singleton]%elem_of_app; [|set_solver].
    specialize (Hp x Hx). set_solver.
  - intros x [Hx| ->%list_elem_of_singleton]%elem_of_app.
    + destruct (Hg x Hx). eauto using given_mono.
    + split; [done|]. exists now. apply elem_of_app. right. by left.
  - intros x [Hx| ->%list_elem_of_singleton]%elem_of_app.
    + destruct (Hr x Hx) as [Hq|Hq]; [left|by right].
      case_bool_decide; [done|]. apply lookup_insert_is_Some'. by right.
    + left. simpl. case_bool_decide; [done|]. rewrite lookup_insert_eq. eauto.
Qed.

Lemma waiting_delete (i : nat) x (l : list (Digest * Block.t)) : x ∈ delete i l -> x ∈ l.
Proof. intros Hx. eapply elem_of_sublist; [exact Hx | apply sublist_delete]. Qed.

Lemma nodup_delete i x (l : list (Digest * Block.t)) :
  NoDup ((fun x => bid x) <$> l) -> l !! i = Some x ->
  NoDup ((fun x => bid x) <$> delete i l) /\ forall y, y ∈ delete i l -> bid y <> bid x.
Proof.
  intros Hn Hx. rewrite (delete_Permutation l i x Hx) in Hn. csimpl in Hn.
  apply NoDup_cons in Hn as [Hni Hn]. split; [done|]. intros y Hy Heq. apply Hni.
  apply list_elem_of_fmap. eauto.
Qed.

Lemma bs_inv_parent db evs i ok s :
  bs_inv db evs s -> bs_enabled db (BsParent i ok) s -> bs_inv db evs (on_parent i ok s).2.
Proof.
  intros [Hn Hp Hg Hr] (p & b & Hw & Hok).
  destruct (nodup_delete i _ _ Hn Hw) as [Hn' Hne]. simpl in Hne.
  destruct (Hg (p, b)) as [Hpb _]; [by eapply list_elem_of_lookup_2|]. simpl in Hpb.
  destruct ok.
  - rewrite (on_parent_ok i p b s Hw). constructor; cbn -[elem_of]; [done|..].
    + intros x Hx. specialize (Hne x Hx). apply waiting_delete, Hp in Hx. set_solver.
    + intros x Hx. by apply Hg, (waiting_delete i).
    + intros x Hx. apply waiting_delete, Hr in Hx as [Hx|Hx]; [|by right].
      destruct (decide (x.1 = p)) as [->|Hd]; [by right; apply Hok|].
      left. by rewrite lookup_delete_ne by congruence.
  - rewrite (on_parent_failed i p b s Hw). constructor; cbn -[elem_of]; [done|..];
      intros x Hx%waiting_delete; eauto.
Qed.

Lemma bs_inv_reach name c retry db evs s :
  bs_reach name c retry db evs s ->
  bs_inv db evs s /\ bs_name s = name /\ bs_committee s = c /\ bs_retry_delay s = retry.
Proof.
  induction 1 as [db|db db' evs s _ (Hi & Hf) Hsub|db evs s ev s' _ (Hi & Hf) He Hs].
  - split; [|done]. constructor; simpl; [constructor|..]; intros x Hx; by apply elem_of_nil in Hx.
  - split; [|done]. destruct Hi as [? ? ? Hr]. constructor; [done..|].
    intros x Hx. destruct (Hr x Hx) as [?|Hd]; [by left|]. right.
    apply elem_of_dom, Hsub, elem_of_dom. exact Hd.
  - destruct ev as [now b|i ok|clock]; simpl in Hs.
    + destruct (decide (Block.digest b ∈ bs_pending s)) as [Hd|Hd].
      * rewrite on_block_known in Hs by done. injection Hs as <-. split; [by apply bs_inv_more|done].
      * pose proof (bs_inv_block db evs now b s Hi Hd) as Hi'. rewrite Hs in Hi'.
        split; [done|]. rewrite on_block_new in Hs by done. by injection Hs as <-.
    + pose proof (bs_inv_parent db evs i ok s Hi He) as Hi'. rewrite Hs in Hi'.
      split; [by apply bs_inv_more|]. destruct He as (p & b & Hw & _).
      destruct ok; [rewrite (on_parent_ok i p b s Hw) in Hs
                   |rewrite (on_parent_failed i p b s Hw) in Hs]; by injection Hs as <-.
    + rewrite on_retry_eq in Hs. injection Hs as <-.
      split; [by apply bs_inv_more, bs_inv_network | done].
Qed.

(** ** The properties *)

(** C31: The loop-back.  Whatever the order of the events, the task sends to the core
    only blocks that were given to it and whose parent is in the store; a waiting
    block whose parent is stored can complete, is sent back, and may be given again;
    and a block that is not pending waits as soon as it is given. *)
Theorem block_sync_loopback (name : PublicKey) (c : Committee) (retry : Z)
    (db : gmap Key Value) (evs : list BlockSyncEvent) (s : BlockSync) :
  bs_reach name c retry db evs s ->
  (forall ev s', bs_enabled db ev s -> bs_event ev s = (Ok tt, s') ->
     bs_core s' = bs_core s \/
     exists now b, BsBlock now b ∈ evs /\ is_Some (db !! Digest_to_vec (Block.parent b)) /\
       bs_core s' = bs_core s ++ [HsLoopBack b]) /\
  (forall i p b, bs_waiting s !! i = Some (p, b) -> is_Some (db !! Digest_to_vec (Block.parent b)) ->
     bs_enabled db (BsParent i true) s /\
     exists s', bs_event (BsParent i true) s = (Ok tt, s') /\
       bs_core s' = bs_core s ++ [HsLoopBack b] /\ Block.digest b ∉ bs_pending s') /\
  (forall now b, Block.digest b ∉ bs_pending s ->
     exists s', bs_event (BsBlock now b) s = (Ok tt, s') /\
       (Block.parent b, b) ∈ bs_waiting s').
Proof.
  intros Hr. apply bs_inv_reach in Hr as [[Hn Hp Hg Hq] _]. split; [|split].
  - intros ev s' He Hs. destruct ev as [now b|i ok|clock]; simpl in Hs.
    + left. destruct (decide (Block.digest b ∈ bs_pending s)).
      * rewrite on_block_known in Hs by done. by injection Hs as <-.
      * rewrite on_block_new in Hs by done. by injection Hs as <-.
    + destruct He as (p & b & Hw & Hok). destruct ok.
      * right. destruct (Hg (p, b)) as [Hpb [now Hin]]; [by eapply list_elem_of_lookup_2|].
        simpl in Hpb, Hin. subst p. exists now, b. split; [done|]. split; [by apply Hok|].
        rewrite (on_parent_ok i _ b s Hw) in Hs. by injection Hs as <-.
      * left. rewrite (on_parent_failed i p b s Hw) in Hs. by injection Hs as <-.
    + left. rewrite on_retry_eq in Hs. by injection Hs as <-.
  - intros i p b Hw Hd. destruct (Hg (p, b)) as [Hpb _]; [by eapply list_elem_of_lookup_2|].
    simpl in Hpb. subst p. split; [by exists (Block.parent b), b|]. eexists.
    split; [exact (on_parent_ok i _ b s Hw)|]. split; [done|]. simpl. set_solver.
  - intros now b Hd. eexists. split; [by apply on_block_new|]. simpl.
    apply elem_of_app. right. by left.
Qed.

(** C32: A missing parent is asked for until it arrives.  The parent of every waiting
    block is stored or has a recorded request.  A tick of the timer broadcasts one
    request for each digest of a list [asked] without repetitions, and nothing else:
    every recorded request that is older than the retry delay at every time the loop
    reads the clock, and only recorded requests that are older at one of them; the
    record stays as it is. *)
Theorem missing_parents_requested (name : PublicKey) (c : Committee) (retry : Z)
    (db : gmap Key Value) (evs : list BlockSyncEvent) (s : BlockSync) (clock : nat -> Z) :
  bs_reach name c retry db evs s ->
  (forall p b, (p, b) ∈ bs_waiting s -> db !! Digest_to_vec p = None ->
     is_Some (bs_requests s !! p)) /\
  exists asked s', bs_event (BsTimer clock) s = (Ok tt, s') /\
    bs_network s' = bs_network s ++
      ((fun d => (SyncRequest d name, broadcast_addresses c name)) <$> asked) /\
    bs_requests s' = bs_requests s /\ NoDup asked /\
    (forall d t, bs_requests s !! d = Some t ->
       (forall k, t + retry < clock k) -> d ∈ asked) /\
    (forall d, d ∈ asked -> exists k t, bs_requests s !! d = Some t /\ t + retry < clock k).
Proof.
  intros Hr. apply bs_inv_reach in Hr as [[Hn Hp Hg Hq] (Hname & Hc & Hd)]. split.
  - intros p b Hw Hm. destruct (Hq (p, b) Hw) as [?|[v Hv]]; [done|]. simpl in Hv. congruence.
  - subst name c retry. exists (expired (bs_retry_delay s) (stamped clock (bs_requests s))).
    eexists. split; [apply on_retry_eq|]. do 2 (split; [reflexivity|]). split; [apply expired_nodup|].
    split.
    + intros d t Ht Hlt. apply expired_spec. apply elem_of_map_to_list, list_elem_of_lookup in Ht as [k Hk].
      exists k, t. split; [|by split]. apply elem_of_map_to_list. by eapply list_elem_of_lookup_2.
    + intros d (k & t & Ht & _ & Hlt)%expired_spec. by exists k, t.
Qed.
End Facts.

(** ** A request and its answer *)

Section CatchUp.
Context `{CryptoLib} `{NodeEnv} `{!BincodeLaws}.

Lemma in_broadcast c k a me :
  wf_committee c -> authorities c !! k = Some a -> k <> me ->
  auth_address a ∈ broadcast_addresses c me.
Proof.
  intros Hwf Hk Hne. apply list_elem_of_fmap. exists a. split; [done|].
  apply list_elem_of_filter. split; [by rewrite (wf_name c Hwf k a Hk)|].
  apply list_elem_of_fmap. exists (k, a). split; [done|]. by apply elem_of_map_to_list.
Qed.

(** C33: Catching up.  The synchronizer of a member asks for the missing parent of a
    block with one broadcast, which is addressed to every other member; and the core
    of a member that has the parent in its store answers that message with the
    parent, sent to the address of the member that asked. *)
Theorem catch_up_served (name : PublicKey) (c : Committee) (retry : Z)
    (db : gmap Key Value) (evs : list BlockSyncEvent) (s : BlockSync) (now : Z)
    (b p : Block.t) (a a' : Authority) (peer : Core) (fuel : nat) :
  bs_reach name c retry db evs s ->
  Block.digest b ∉ bs_pending s -> bs_requests s !! Block.parent b = None ->
  wf_committee c -> authorities c !! name = Some a ->
  committee peer = c -> authorities c !! Core.name peer = Some a' -> Core.name peer <> name ->
  kv (store peer) !! Digest_to_vec (Block.parent b) = Some (serialize_block p) ->
  db_get_fault (reads (store peer)) = false ->
  exists s' m addresses peer',
    bs_event (BsBlock now b) s = (Ok tt, s') /\
    bs_network s' = bs_network s ++ [(m, addresses)] /\
    auth_address a' ∈ addresses /\
    dispatch fuel (OnCoreChannel m) peer = (Ok tt, peer') /\
    network_filter peer' = network_filter peer ++ [(SyncReply p, [auth_address a])].
Proof.
  intros Hr Hb Hq Hwf Ha Hc Ha' Hne Hkv Hf.
  apply bs_inv_reach in Hr as [_ (Hname & Hbc & _)].
  eexists _, (SyncRequest (Block.parent b) name), (broadcast_addresses c name), _.
  split; [by apply on_block_new|]. split.
  { simpl. rewrite Hq, bool_decide_false by (by intros []). unfold request_of. by rewrite Hname, Hbc. }
  split; [by eapply in_broadcast|].
  cbn [dispatch handle_core_channel]. unfold handle_sync_request, read_store, store_read, zoom.
  run_act. simpl. rewrite Hf. cbn. rewrite Hkv. run_act. unfold lift, decode_block.
  rewrite bincode_roundtrip. run_act.
  unfold transmit_opt, zoom, transmit, transmit_addresses. run_act. cbn.
  unfold address. rewrite Hc, Ha. run_act. by split.
Qed.
End CatchUp.

(** ** Witnesses: member 3 misses the parent of a block, member 1 has it *)

Definition parent_stored : gmap Key Value := kv chain_store.

Definition asked_once : BlockSync :=
  BlockSync_new (key 3) toy_committee 10000
    <| bs_pending := {[Block.digest block2]} |>
    <| bs_waiting := [(Block.parent block2, block2)] |>
    <| bs_requests := {[Block.parent block2 := 100]} |>
    <| bs_network := [(SyncRequest (Block.parent block2) (key 3),
                       broadcast_addresses toy_committee (key 3))] |>.

#[local] Instance Authority_eq_dec : EqDecision Authority.
Proof. solve_decision. Defined.

Lemma asked_once_reach db :
  bs_reach (key 3) toy_committee 10000 db [BsBlock 100 block2] asked_once.
Proof.
  apply (bs_step _ _ _ db [] (BlockSync_new (key 3) toy_committee 10000));
    [constructor | exact I |].
  cbn [bs_event]. by rewrite on_block_new by (apply not_elem_of_empty).
Qed.

Lemma block_sync_loopback_witness :
  exists s', bs_event (BsParent 0 true) asked_once = (Ok tt, s') /\
    bs_core s' = [HsLoopBack block2].
Proof.
  destruct (block_sync_loopback (key 3) toy_committee 10000 parent_stored _ asked_once
    (asked_once_reach _)) as (_ & Hl & _).
  destruct (Hl 0%nat (Block.parent block2) block2 eq_refl) as (_ & s' & Hs & Hc & _).
  - exists (serialize_block block1). apply lookup_singleton_eq.
  - by exists s'.
Defined.

Lemma missing_parents_requested_witness :
  exists s', bs_event (BsTimer (fun _ => 20000)) asked_once = (Ok tt, s') /\
    (SyncRequest (Block.parent block2) (key 3), broadcast_addresses toy_committee (key 3))
      ∈ bs_network s'.
Proof.
  destruct (missing_parents_requested (key 3) toy_committee 10000 ∅ _ asked_once (fun _ => 20000)
    (asked_once_reach _)) as (_ & asked & s' & Hs & Hn & _ & _ & Ha & _).
  exists s'. split; [exact Hs|]. rewrite Hn. apply elem_of_app. right.
  apply list_elem_of_fmap. exists (Block.parent block2). split; [reflexivity|].
  apply (Ha _ 100); [apply lookup_singleton_eq | intros _; lia].
Defined.

Lemma catch_up_served_witness :
  exists m peer', dispatch 0 (OnCoreChannel m) chain_node = (Ok tt, peer') /\
    network_filter peer' = [(SyncReply block1, [mkSocketAddr [127; 0; 0; 1] 7203])].
Proof.
  destruct (catch_up_served (key 3) toy_committee 10000 ∅ []
    (BlockSync_new (key 3) toy_committee 10000) 100 block2 block1
    (mkAuthority (key 3) 3 1 (mkSocketAddr [127; 0; 0; 1] 7203) (mkSocketAddr [127; 0; 0; 1] 7303))
    (mkAuthority (key 1) 1 1 (mkSocketAddr [127; 0; 0; 1] 7201) (mkSocketAddr [127; 0; 0; 1] 7301))
    chain_node 0) as (s' & m & addresses & peer' & _ & _ & _ & Hd & Hn).
  - constructor.
  - apply not_elem_of_empty.
  - apply lookup_empty.
  - exact toy_committee_wf.
  - apply (bool_decide_unpack _). by vm_compute.
  - reflexivity.
  - apply (bool_decide_unpack _). by vm_compute.
  - apply (bool_decide_unpack _). by vm_compute.
  - apply (bool_decide_unpack _). by vm_compute.
  - reflexivity.
  - exists m, peer'. by split.
Defined.
