(* ===== verification/ConfigFacts.v ===== *)
(** * Facts about the committee and about keys

    The thresholds over the integers and how quorums of them intersect, who a
    broadcast reaches, and the base64 form of keys. *)

From S2P Require Import Prelude Machine Crypto Config Fixture.

(** Quorum intersection.  Two sets of members that reach the quorum share more
    than [f] of the stake when [N = 3 f + 1]; with [N = 3 f + 1 + k] the bound drops
    to [f + 1 - k]. *)
Lemma quorum_intersection (c : Committee) (f k : Z) (S T : gset PublicKey) :
  wf_committee c -> sum_of_stakes c = 3 * f + 1 + k -> 0 <= k < 3 ->
  quorum_threshold c <= weight c S -> quorum_threshold c <= weight c T ->
  f + 1 - k <= weight c (S ∩ T).
Proof.
  intros Hwf HN Hk HS HT. pose proof (quorum_overlap c S T Hwf HS HT) as Ho.
  rewrite quorum_threshold_exact, HN in Ho by done. dlia.
Qed.

(** C27: The thresholds.  For a committee without negative stakes whose total [N] is at
    least 1 and below [2 ^ 32], write [N = 3 f + 1 + k] with [0 <= k < 3].  The quorum
    is [2 f + 1]: this is [k] less than the [N - f] that the comment of the code claims.
    The coin threshold is [f + 1] and the large threshold is [N - 1].  Members with
    all but [f] of the stake reach the quorum, and two quorums share at least
    [f + 1 - k] of the stake: more than [f] only when [k = 0] ([disjoint_quorums]). *)
Theorem thresholds_exact (c : Committee) (f k : Z) :
  wf_committee c -> sum_of_stakes c = 3 * f + 1 + k -> 0 <= k < 3 ->
  quorum_threshold c = 2 * f + 1 /\
  quorum_threshold c = sum_of_stakes c - f - k /\
  random_coin_threshold c = f + 1 /\
  large_threshold c = sum_of_stakes c - 1 /\
  (forall S, weight c (members c ∖ S) <= f -> quorum_threshold c <= weight c S) /\
  (forall S T, quorum_threshold c <= weight c S -> quorum_threshold c <= weight c T ->
     f + 1 - k <= weight c (S ∩ T)).
Proof.
  intros Hwf HN Hk.
  assert ((sum_of_stakes c - 1) / 3 = f) as Hf by (rewrite HN; dlia).
  split_and!; [| | | | | by intros S T; apply quorum_intersection].
  all: rewrite ?quorum_threshold_exact, ?random_coin_threshold_exact, ?Hf by done; try lia.
  - unfold large_threshold. rewrite total_votes_exact by done.
    pose proof (wf_total c Hwf). apply wrap32_small. lia.
  - intros S HS. pose proof (weight_split c (members c) S) as Hsplit.
    rewrite weight_members in Hsplit.
    pose proof (weight_mono c (members c ∩ S) S Hwf ltac:(set_solver)). lia.
Qed.

(** Two quorums without a common member, in a committee of six members of stake 1
    ([f = 1], [k = 2]): there the quorum of the code does not make agreement safe even
    when nobody deviates. *)
Theorem disjoint_quorums :
  let c := committee_of 6 in
  sum_of_stakes c = 3 * 1 + 1 + 2 /\
  exists S T, S ∩ T = ∅ /\ S ⊆ members c /\ T ⊆ members c /\
    quorum_threshold c = weight c S /\ quorum_threshold c = weight c T.
Proof.
  cbv zeta. split; [by vm_compute|].
  exists {[key 1; key 2; key 3]}, {[key 4; key 5; key 6]}.
  split_and!; by apply (bool_decide_unpack _); vm_compute.
Qed.

(** A broadcast of a member goes to the address of every other member, once
    each, and never to its own; the same for the agreement's addresses. *)
Theorem broadcast_reaches_others (c : Committee) (me : PublicKey) :
  wf_committee c -> me ∈ members c ->
  broadcast_addresses c me ≡ₚ auth_address <$> (map_to_list (delete me (authorities c))).*2 /\
  smvba_broadcast_addresses c me
    ≡ₚ auth_smvba_address <$> (map_to_list (delete me (authorities c))).*2.
Proof.
  intros Hwf Hme. unfold members in Hme. apply elem_of_dom in Hme as [a Ha].
  assert (filter (fun x => auth_name x <> me) (authority_list c)
    ≡ₚ (map_to_list (delete me (authorities c))).*2) as Hp.
  { unfold authority_list.
    pose proof (wf_name c Hwf) as Hname.
    rewrite <- (insert_delete_id (authorities c) me a Ha) at 1.
    rewrite map_to_list_insert by apply lookup_delete_eq. csimpl.
    rewrite filter_cons_False by (intros Hne; apply Hne; by apply Hname).
    assert (Forall (fun x => auth_name x <> me) (map_to_list (delete me (authorities c))).*2)
      as Hall.
    { apply Forall_fmap, Forall_forall. intros [k x] Hin. apply elem_of_map_to_list in Hin.
      simpl. apply lookup_delete_Some in Hin as [Hne Hx].
      intros Heq. apply Hne. rewrite <- Heq. by apply Hname. }
    induction Hall as [|x l Hx _ IH]; [done|]. by rewrite filter_cons_True, IH. }
  unfold broadcast_addresses, smvba_broadcast_addresses. by rewrite Hp.
Qed.

(** ** Keys in base64 *)

Section Base64.
Context `{CryptoLib} `{!Base64Laws}.

Lemma array_base64_roundtrip n bytes :
  Forall (fun b => 0 <= b < 256) bytes -> length bytes = n ->
  array_from_base64 n (base64_encode bytes) = Ok bytes.
Proof.
  intros Hb Hlen. unfold array_from_base64. rewrite base64_roundtrip by done. simpl.
  rewrite bool_decide_true by lia. by rewrite take_ge by lia.
Qed.

(** A public key and a secret key survive the trip through base64. *)
Theorem key_base64_roundtrip (pk : PublicKey) (sk : SecretKey) :
  Forall (fun b => 0 <= b < 256) (pk_bytes pk) -> length (pk_bytes pk) = 32%nat ->
  Forall (fun b => 0 <= b < 256) (sk_bytes sk) -> length (sk_bytes sk) = 64%nat ->
  PublicKey_from_base64 (PublicKey_to_base64 pk) = Ok pk /\
  SecretKey_from_base64 (SecretKey_to_base64 sk) = Ok sk.
Proof.
  intros Hp Hpl Hs Hsl. unfold PublicKey_from_base64, PublicKey_to_base64,
    SecretKey_from_base64, SecretKey_to_base64.
  rewrite !array_base64_roundtrip by done. by destruct pk, sk.
Qed.
End Base64.

(** ** Witnesses *)

Lemma toy_total : sum_of_stakes toy_committee = 4.
Proof. by vm_compute. Qed.

Lemma thresholds_exact_witness :
  sum_of_stakes toy_committee = 3 * 1 + 1 + 0 /\ quorum_threshold toy_committee = 3.
Proof.
  split; [exact toy_total|].
  apply (thresholds_exact toy_committee 1 0 toy_committee_wf); [exact toy_total | lia].
Defined.

Lemma toy_weight : weight toy_committee {[key 1; key 2; key 3]} = 3.
Proof. by vm_compute. Qed.

Lemma quorum_intersection_witness :
  weight toy_committee {[key 1; key 2; key 3]} = 3 /\
  1 + 1 - 0 <= weight toy_committee ({[key 1; key 2; key 3]} ∩ {[key 1; key 2; key 3]}).
Proof.
  split; [exact toy_weight|].
  apply (quorum_intersection toy_committee 1 0); [exact toy_committee_wf | exact toy_total | lia |
    rewrite toy_weight; by vm_compute..].
Defined.

Lemma broadcast_reaches_others_witness :
  key 1 ∈ members toy_committee /\
  broadcast_addresses toy_committee (key 1)
    ≡ₚ auth_address <$> (map_to_list (delete (key 1) (authorities toy_committee))).*2.
Proof.
  assert (key 1 ∈ members toy_committee) as Hin.
  { apply elem_of_dom. eexists. by vm_compute. }
  split; [exact Hin|]. by apply (broadcast_reaches_others toy_committee (key 1) toy_committee_wf).
Defined.

Lemma key_base64_roundtrip_witness :
  length (pk_bytes (key 7)) = 32%nat /\
  PublicKey_from_base64 (PublicKey_to_base64 (key 7)) = Ok (key 7).
Proof.
  split; [done|].
  apply (key_base64_roundtrip (key 7) (mkSecretKey (replicate 64 9)));
    try done; apply Forall_replicate; lia.
Defined.
