(* ===== verification/TimerFacts.v ===== *)
(** * Facts about the proposal timer

    A run of polls and resets: when the timer fires, and that no wake-up is lost. *)

From S2P Require Import Prelude Timer.

(** The deadline the last reset of a run has set. *)
Fixpoint last_deadline (l : list timer_event) (d : option Z) : option Z :=
  match l with
  | [] => d
  | TPoll _ _ :: l => last_deadline l d
  | TReset now r :: l => last_deadline l ((fun x => now + x) <$> r)
  end.

Lemma run_timer_app l1 l2 t :
  run_timer (l1 ++ l2) t =
  let '(o1, t1) := run_timer l1 t in
  let '(o2, t2) := run_timer l2 t1 in (o1 ++ o2, t2).
Proof.
  revert t. induction l1 as [|e l IH]; intros t.
  - simpl. by destruct (run_timer l2 t).
  - destruct e as [now cx|now d]; cbn [run_timer app].
    + destruct (poll now cx t) as [r t']. rewrite IH.
      destruct (run_timer l t') as [o1 t1]. by destruct (run_timer l2 t1).
    + destruct (reset now d t) as [w t']. rewrite IH.
      destruct (run_timer l t') as [o1 t1]. by destruct (run_timer l2 t1).
Qed.

Lemma poll_sleep now cx t : sleep (poll now cx t).2 = sleep t.
Proof. by destruct t as [[d|] w]. Qed.

Lemma reset_sleep now d t : sleep (reset now d t).2 = (fun x => now + x) <$> d.
Proof. by destruct d. Qed.

Lemma reset_waker now d t : waker (reset now d t).2 = None.
Proof. by destruct d. Qed.

Lemma reset_wakes now d t : (reset now d t).1 = waker t.
Proof. by destruct d. Qed.

Lemma run_timer_sleep l t : sleep (run_timer l t).2 = last_deadline l (sleep t).
Proof.
  revert t. induction l as [|[now cx|now d] l IH]; intros t; cbn [run_timer last_deadline]; [done|..].
  - pose proof (poll_sleep now cx t) as Hp. destruct (poll now cx t) as [r t'].
    specialize (IH t'). destruct (run_timer l t'). simpl in *. by rewrite IH, Hp.
  - pose proof (reset_sleep now d t) as Hp. destruct (reset now d t) as [r t'].
    specialize (IH t'). destruct (run_timer l t'). simpl in *. by rewrite IH, Hp.
Qed.

(** When the timer fires.  After any run of polls and resets a poll is ready
    exactly when the last reset gave a duration and its deadline has passed; a timer
    that was never reset, or was last reset without a duration, stays pending. *)
Theorem timer_fires_at_deadline (l : list timer_event) (now : Z) (cx : nat) :
  (poll now cx (run_timer l Timer_new).2).1 = Ready <->
  exists d, last_deadline l None = Some d /\ d <= now.
Proof. rewrite poll_ready_iff, run_timer_sleep. done. Qed.

(** No lost wake-up.  Whatever happened before, a reset wakes the task that
    polled last, and it wakes nobody when it follows another reset directly: each
    stored waker is used once. *)
Theorem timer_no_lost_wakeup (l : list timer_event) (now1 now2 now3 : Z) (cx : nat)
    (d1 d2 : option Z) :
  exists r, (run_timer (l ++ [TPoll now1 cx; TReset now2 d1; TReset now3 d2]) Timer_new).1 =
    (run_timer l Timer_new).1 ++ [Polled r; Woken (Some cx); Woken None].
Proof.
  rewrite run_timer_app. destruct (run_timer l Timer_new) as [o t]. cbn [run_timer].
  exists (poll now1 cx t).1. pose proof (reset_wakes_last_poller now1 now2 cx d1 t) as Hw.
  destruct (poll now1 cx t) as [r t1]. cbn [fst snd] in *.
  pose proof (reset_waker now2 d1 t1) as Hnone.
  destruct (reset now2 d1 t1) as [w t2]. cbn [fst snd] in *. rewrite Hw.
  pose proof (reset_wakes now3 d2 t2) as Hw2. rewrite Hnone in Hw2.
  destruct (reset now3 d2 t2) as [w2 t3]. cbn [fst] in *. by rewrite Hw2.
Qed.
