(* ===== verification/StoreFacts.v ===== *)
(** * Facts about the store task

    The store against its specification: a map for reads and writes, and for a
    [notify_read] the value the key has now or will first get. *)

From S2P Require Import Prelude Store.

(** ** Runs *)

Lemma store_run_app l1 l2 s :
  store_run (l1 ++ l2) s =
  let '(r1, s1) := store_run l1 s in
  let '(r2, s2) := store_run l2 s1 in (r1 ++ r2, s2).
Proof.
  revert s. induction l1 as [|[fault c] l IH]; intros s; simpl.
  - by destruct (store_run l2 s).
  - destruct (store_step fault c s) as [r s']. rewrite IH.
    destruct (store_run l s') as [r1 s1]. destruct (store_run l2 s1). by rewrite app_assoc.
Qed.

(** Commands that the database executes. *)
Definition sound (l : list StoreCommand) : list (bool * StoreCommand) := (fun c => (false, c)) <$> l.

(** The value of a key after the writes of a list, and the first value it gets. *)
Fixpoint last_write (key : Key) (l : list StoreCommand) (v : option Value) : option Value :=
  match l with
  | [] => v
  | Write k x :: l => last_write key l (if decide (k = key) then Some x else v)
  | _ :: l => last_write key l v
  end.

Fixpoint first_write (key : Key) (l : list StoreCommand) : option Value :=
  match l with
  | [] => None
  | Write k x :: l => if decide (k = key) then Some x else first_write key l
  | _ :: l => first_write key l
  end.

(** A run, command by command. *)
Lemma store_run_db l s key :
  db (store_run (sound l) s).2 !! key = last_write key l (db s !! key).
Proof.
  revert s. induction l as [|c l IH]; intros s; simpl; [done|].
  destruct (store_step false c s) as [r s'] eqn:Hs.
  pose proof (IH s') as Hrun. destruct (store_run (sound l) s') as [r1 s1].
  simpl in *. rewrite Hrun. clear Hrun IH.
  destruct c as [k v|k t|k t]; simpl in Hs.
  - assert (db s' = <[k := v]> (db s)) as ->.
    { destruct (obligations s !! k); injection Hs as <- <-; done. }
    destruct (decide (k = key)) as [->|Hne];
      [by rewrite lookup_insert_eq | by rewrite lookup_insert_ne].
  - by injection Hs as <- <-.
  - destruct (db s !! k); injection Hs as <- <-; done.
Qed.

(** No key is both stored and waited for, as long as the database answers. *)
Definition waits_for_absent (s : StoreState) : Prop :=
  forall key, is_Some (obligations s !! key) -> db s !! key = None.

Lemma waits_step c s :
  waits_for_absent s -> waits_for_absent (store_step false c s).2.
Proof.
  intros Hw. destruct c as [k v|k t|k t]; simpl; [|done|].
  - destruct (obligations s !! k) as [senders|] eqn:Ho; simpl; intros key Hk; simpl in *.
    + apply lookup_delete_is_Some in Hk as [Hne Hk].
      rewrite lookup_insert_ne by done. by apply Hw.
    + destruct (decide (k = key)) as [->|Hne]; [rewrite Ho in Hk; by destruct Hk|].
      rewrite lookup_insert_ne by done. by apply Hw.
  - destruct (db s !! k) eqn:Hd; simpl; [done|]. intros key Hk. simpl in *.
    destruct (decide (k = key)) as [->|Hne]; [done|].
    rewrite lookup_insert_ne in Hk by done. by apply Hw.
Qed.

Lemma waits_run l s :
  waits_for_absent s -> waits_for_absent (store_run (sound l) s).2.
Proof.
  revert s. induction l as [|c l IH]; intros s Hw; simpl; [done|].
  pose proof (waits_step c s Hw) as Hw'. destruct (store_step false c s) as [r s'].
  specialize (IH s' Hw'). by destruct (store_run (sound l) s').
Qed.

(** A token that waits for a key gets the first value written, or keeps waiting. *)
Lemma waiting_token l s key t :
  t ∈ default [] (obligations s !! key) ->
  match first_write key l with
  | Some v => (t, ReplyNotify v) ∈ (store_run (sound l) s).1
  | None => t ∈ default [] (obligations (store_run (sound l) s).2 !! key)
  end.
Proof.
  revert s. induction l as [|c l IH]; intros s Ht; simpl; [done|].
  destruct (store_step false c s) as [r s'] eqn:Hs.
  assert (forall s'', s' = s'' -> t ∈ default [] (obligations s'' !! key) ->
    match first_write key l with
    | Some v => (t, ReplyNotify v) ∈ (store_run (sound l) s').1
    | None => t ∈ default [] (obligations (store_run (sound l) s').2 !! key)
    end) as Hnext by (intros s'' ->; apply IH).
  destruct (store_run (sound l) s') as [rs s1]. simpl in *.
  assert (forall o, match o with Some v => (t, ReplyNotify v) ∈ rs
                   | None => t ∈ default [] (obligations s1 !! key) end ->
                  match o with Some v => (t, ReplyNotify v) ∈ r ++ rs
                   | None => t ∈ default [] (obligations s1 !! key) end) as Happ.
  { intros [v|]; [|done]. rewrite elem_of_app. auto. }
  destruct c as [k v|k t'|k t']; simpl in Hs.
  - destruct (decide (k = key)) as [->|Hne].
    + destruct (obligations s !! key) as [senders|] eqn:Ho; [|by apply elem_of_nil in Ht].
      injection Hs as <- <-. apply elem_of_app. left. apply list_elem_of_fmap. by exists t.
    + apply Happ. destruct (obligations s !! k) as [senders|] eqn:Ho; injection Hs as <- <-;
        eapply Hnext; [done | | done |]; simpl; [by rewrite lookup_delete_ne | done].
  - apply Happ. injection Hs as <- <-. by eapply Hnext.
  - apply Happ. destruct (db s !! k); injection Hs as <- <-; (eapply Hnext; [done|]);
      simpl; [done|].
    destruct (decide (k = key)) as [->|Hne].
    + rewrite lookup_insert_eq. simpl. apply elem_of_app. by left.
    + by rewrite lookup_insert_ne.
Qed.

(** ** Counting replies *)

Definition is_request (c : StoreCommand) : bool :=
  match c with Write _ _ => false | _ => true end.

Definition pending (s : StoreState) : nat :=
  map_fold (fun _ senders n => length senders + n)%nat 0%nat (obligations s).

Lemma pending_insert k l s :
  pending (s <| obligations := <[k := l]> (obligations s) |>) =
  (length l + pending (s <| obligations := delete k (obligations s) |>))%nat.
Proof.
  unfold pending. simpl. rewrite <- insert_delete_eq.
  rewrite map_fold_insert_L; [done | intros; lia | apply lookup_delete_eq].
Qed.

Lemma pending_lookup k s :
  pending s = (length (default [] (obligations s !! k)) +
               pending (s <| obligations := delete k (obligations s) |>))%nat.
Proof.
  destruct (obligations s !! k) as [l|] eqn:Hl; simpl.
  - rewrite <- pending_insert. unfold pending. simpl. by rewrite insert_id.
  - unfold pending. simpl. by rewrite delete_id.
Qed.

Lemma store_step_count fault c s :
  (length (store_step fault c s).1 + pending (store_step fault c s).2 =
   (if is_request c then 1 else 0) + pending s)%nat.
Proof.
  destruct c as [k v|k t|k t]; simpl.
  - assert (obligations (if fault then s else s <| db := <[k := v]> (db s) |>) = obligations s)
      as Hob by (by destruct fault).
    rewrite (pending_lookup k s).
    set (s1 := if fault then s else s <| db := <[k := v]> (db s) |>) in *.
    rewrite Hob. destruct (obligations s !! k) as [l|] eqn:Hl; simpl.
    + rewrite length_fmap. unfold pending. simpl. by rewrite ?Hob.
    + unfold pending. simpl. by rewrite ?Hob, delete_id.
  - done.
  - destruct fault; [done|]. destruct (db s !! k); simpl; [done|].
    rewrite pending_insert, (pending_lookup k s), length_app. simpl. lia.
Qed.

(** ** The properties *)

(** C37: The store refines its specification.  With a database that answers, after
    any commands: a read returns the last value written to its key; a notify-read of
    a stored key returns its value at once; and a notify-read of an absent key is
    answered by the first later write to it with the value written, or still waits
    when there is none. *)
Theorem store_refines_spec (before after : list StoreCommand) (key : Key) (t : nat) :
  let s := (store_run (sound before) store_init).2 in
  (store_step false (Read key t) s).1 = [(t, ReplyRead (last_write key before None))] /\
  match last_write key before None with
  | Some v => store_step false (NotifyRead key t) s = ([(t, ReplyNotify v)], s)
  | None =>
      let s' := (store_step false (NotifyRead key t) s).2 in
      match first_write key after with
      | Some v => (t, ReplyNotify v) ∈ (store_run (sound after) s').1
      | None => t ∈ default [] (obligations (store_run (sound after) s').2 !! key)
      end
  end.
Proof.
  cbv zeta. pose proof (store_run_db before store_init key) as Hdb.
  replace (db store_init !! key) with (@None Value) in Hdb by (symmetry; apply lookup_empty).
  destruct (store_run (sound before) store_init) as [rs s]. simpl in *. rewrite Hdb.
  split; [done|]. destruct (last_write key before None) as [v|]; simpl; [done|].
  apply waiting_token. simpl. rewrite lookup_insert_eq. simpl. apply elem_of_app. right.
  by apply list_elem_of_singleton.
Qed.

(** Every request is answered exactly once or
    is waiting: whatever commands and database failures, the replies sent and the
    readers waiting add up to the requests received. *)
Theorem store_requests_conserved (l : list (bool * StoreCommand)) :
  (length (store_run l store_init).1 + pending (store_run l store_init).2 =
   length (filter (fun x => is_request x.2 = true) l))%nat.
Proof.
  assert (forall s, length (store_run l s).1 + pending (store_run l s).2 =
    length (filter (fun x => is_request x.2 = true) l) + pending s)%nat as Hgen.
  { induction l as [|[fault c] l IH]; intros s; simpl; [done|].
    pose proof (store_step_count fault c s) as Hc. destruct (store_step fault c s) as [r s'].
    specialize (IH s'). destruct (store_run l s') as [rs s1]. simpl in *.
    rewrite length_app, filter_cons. simpl. destruct (is_request c); simpl in *.
    all: lia. }
  assert (pending store_init = 0%nat) as Hinit by reflexivity.
  specialize (Hgen store_init). lia.
Qed.

(** As long as the database answers, no reader waits for a key that is stored. *)
Theorem store_no_stale_wait (l : list StoreCommand) (key : Key) (v : Value) :
  db (store_run (sound l) store_init).2 !! key = Some v ->
  obligations (store_run (sound l) store_init).2 !! key = None.
Proof.
  intros Hd. pose proof (waits_run l store_init) as Hw.
  destruct (obligations _ !! key) eqn:Ho; [|done].
  rewrite Hw in Hd; [done | | by rewrite Ho].
  intros k Hk. simpl in Hk. by destruct (lookup_empty_is_Some k Hk).
Qed.

Lemma store_no_stale_wait_witness :
  db (store_run (sound [NotifyRead [1] 7%nat; Write [1] [2]]) store_init).2 !! [1] = Some [2] /\
  obligations (store_run (sound [NotifyRead [1] 7%nat; Write [1] [2]]) store_init).2 !! [1] = None.
Proof. split; [by vm_compute | apply (store_no_stale_wait _ [1] [2]); by vm_compute]. Defined.
