(* ===== verification/MessageFacts.v ===== *)
(** * Facts about messages

    The byte strings under the signatures of the eight signed messages (their
    lengths, injectivity, and which kinds can be told apart), what the [verify]
    methods accept, and that what a node signs its peers accept. *)

From S2P Require Import Prelude Machine Crypto Config Messages Leader Aggregator Timer Store.
From S2P Require Import Sync Core Handlers Fixture.

(** ** Typed messages

    Keys and digests are 32 bytes, heights, rounds and epochs are [u64], tags and
    phases [u8]. *)

Definition wf_key (k : PublicKey) : Prop := length (pk_bytes k) = 32%nat.
Definition wf_digest (d : Digest) : Prop := length (digest_bytes d) = 32%nat.
Definition in_u8 (x : Z) : Prop := 0 <= x < 256.

Lemma bytes_eq_app (a b c d : list Z) :
  length a = length c -> a ++ b = c ++ d -> a = c /\ b = d.
Proof. intros Hl He. by apply app_inj_1. Qed.

Lemma pk_bytes_inj k l : pk_bytes k = pk_bytes l -> k = l.
Proof. destruct k, l. simpl. by intros ->. Qed.

Lemma digest_bytes_inj d e : digest_bytes d = digest_bytes e -> d = e.
Proof. destruct d, e. simpl. by intros ->. Qed.

#[export] Hint Rewrite @length_app length_u64_le length_u64_be length_u8_le : digest.
#[export] Hint Resolve u64_le_inj u8_le_inj pk_bytes_inj digest_bytes_inj : digest.

(** Splits an equation of two concatenations whose parts have known lengths. *)
Ltac split_bytes :=
  repeat match goal with
  | H : ?a ++ _ = ?c ++ _ |- _ =>
      apply bytes_eq_app in H as [? H];
      [|unfold wf_key, wf_digest in *; autorewrite with digest; congruence]
  end.

(** ** Votes and certificates *)

Definition wf_vote (v : HVote.t) : Prop :=
  wf_digest (HVote.hash v) /\ wf_key (HVote.proposer v) /\ in_u64 (HVote.height v) /\
  in_u64 (HVote.round v) /\ in_u64 (HVote.epoch v) /\ in_u8 (HVote.tag v).

Definition wf_qc (q : QC.t) : Prop :=
  wf_digest (QC.hash q) /\ wf_key (QC.proposer q) /\ in_u64 (QC.height q) /\
  in_u64 (QC.round q) /\ in_u64 (QC.epoch q) /\ in_u8 (QC.tag q).

(** The fields a vote and a certificate share. *)
Definition vote_matches (v : HVote.t) (q : QC.t) : Prop :=
  HVote.hash v = QC.hash q /\ HVote.height v = QC.height q /\ HVote.round v = QC.round q /\
  HVote.tag v = QC.tag q /\ HVote.epoch v = QC.epoch q /\ HVote.proposer v = QC.proposer q.

Lemma vote_qc_preimage v q :
  wf_vote v -> wf_qc q -> HVote.preimage v = QC.preimage q -> vote_matches v q.
Proof.
  intros (? & ? & ? & ? & ? & ?) (? & ? & ? & ? & ? & ?) He.
  unfold HVote.preimage, QC.preimage in He. split_bytes.
  repeat split; eauto with digest.
Qed.

Lemma vote_preimage_inj v w :
  wf_vote v -> wf_vote w -> HVote.preimage v = HVote.preimage w ->
  HVote.hash v = HVote.hash w /\ HVote.height v = HVote.height w /\
  HVote.round v = HVote.round w /\ HVote.tag v = HVote.tag w /\
  HVote.epoch v = HVote.epoch w /\ HVote.proposer v = HVote.proposer w.
Proof.
  intros Hv (? & ? & ? & ? & ? & ?) He.
  apply (vote_qc_preimage v (QC.mk (HVote.hash w) (HVote.height w) (HVote.epoch w)
    (HVote.round w) (HVote.tag w) (HVote.proposer w) (HVote.proposer w) []) Hv); [|exact He].
  unfold wf_qc. simpl. tauto.
Qed.

(** ** The eight kinds of signed message *)

Section Kinds.
Context `{CryptoLib}.

Definition signable_preimage (m : Signable) : list Z :=
  match m with
  | SignedBlock b => Block.preimage b
  | SignedHVote v => HVote.preimage v
  | SignedPrePare p => PrePare.preimage p
  | SignedSPBVote v => SPBVote.preimage v
  | SignedDone m => MDoneAndShare.preimage m
  | SignedPreVote m => MPreVote.preimage m
  | SignedMVote m => MVote.preimage m
  | SignedHalt m => MHalt.preimage m
  end.

Definition signable_digest (m : Signable) : Digest := hash_bytes (signable_preimage m).

(** The keys and digests of a message have their size. *)
Definition sized (m : Signable) : Prop :=
  match m with
  | SignedBlock b =>
      wf_key (Block.author b) /\ wf_digest (QC.hash (Block.qc b)) /\
      Forall wf_digest (Block.payload b)
  | SignedHVote v => wf_digest (HVote.hash v) /\ wf_key (HVote.proposer v)
  | SignedPrePare _ => True
  | SignedSPBVote v => wf_digest (SPBVote.hash v)
  | SignedDone m => wf_key (MDoneAndShare.author m)
  | SignedPreVote m => wf_key (MPreVote.author m) /\ wf_key (MPreVote.leader m)
  | SignedMVote m => wf_key (MVote.author m)
  | SignedHalt m => wf_key (MHalt.author m)
  end.

Inductive Kind : Type := KBlock | KHVote | KPrePare | KSPBVote | KDone | KPreVote | KMVote | KHalt.

#[export] Instance Kind_eq_dec : EqDecision Kind.
Proof. solve_decision. Defined.

Definition kind (m : Signable) : Kind :=
  match m with
  | SignedBlock _ => KBlock
  | SignedHVote _ => KHVote
  | SignedPrePare _ => KPrePare
  | SignedSPBVote _ => KSPBVote
  | SignedDone _ => KDone
  | SignedPreVote _ => KPreVote
  | SignedMVote _ => KMVote
  | SignedHalt _ => KHalt
  end.

Lemma length_payload (l : list Digest) :
  Forall wf_digest l -> length (concat (digest_bytes <$> l)) = (32 * length l)%nat.
Proof.
  induction 1 as [|d l Hd _ IH]; csimpl; [done|].
  rewrite length_app, IH. unfold wf_digest in Hd. lia.
Qed.

(** The length of the byte string gives the kind away, up to [MDoneAndShare] and
    [MHalt]. *)
Lemma signable_length m :
  sized m ->
  match m with
  | SignedBlock b => length (signable_preimage m) = (81 + 32 * length (Block.payload b))%nat
  | SignedHVote _ => length (signable_preimage m) = 89%nat
  | SignedPrePare _ => length (signable_preimage m) = 1%nat
  | SignedSPBVote _ => length (signable_preimage m) = 33%nat
  | SignedDone _ | SignedHalt _ => length (signable_preimage m) = 56%nat
  | SignedPreVote p =>
      length (signable_preimage m) = (if MPreVote.is_yes p then 99 else 98)%nat
  | SignedMVote v =>
      length (signable_preimage m) =
        (match MVote.tag v with MVote_Yes _ _ _ => 64 | MVote_No => 63 end)%nat
  end.
Proof.
  destruct m; simpl.
  - intros (Ha & Hq & Hp). unfold Block.preimage. autorewrite with digest.
    rewrite length_payload by done. unfold wf_key, wf_digest in *. lia.
  - intros (Hh & Hp). unfold HVote.preimage. autorewrite with digest.
    unfold wf_key, wf_digest in *. lia.
  - intros _. done.
  - unfold SPBVote.preimage, be_bytes, wf_digest. intros Hd. autorewrite with digest.
    rewrite length_rev, length_le_bytes. lia.
  - unfold MDoneAndShare.preimage, wf_key. intros Hk. autorewrite with digest. lia.
  - unfold MPreVote.preimage, wf_key, MPreVote.is_yes. intros [? ?]. autorewrite with digest.
    destruct (MPreVote.tag m); simpl; lia.
  - unfold MVote.preimage, wf_key. intros ?. autorewrite with digest.
    destruct (MVote.tag m); simpl; lia.
  - unfold MHalt.preimage, wf_key. intros ?. autorewrite with digest. lia.
Qed.

(** The two kinds that share a length. *)
Definition confusable (m k : Signable) : Prop :=
  kind m = KDone /\ kind k = KHalt \/ kind m = KHalt /\ kind k = KDone.

Lemma kind_of_preimage m k :
  sized m -> sized k -> signable_preimage m = signable_preimage k ->
  kind m = kind k \/ confusable m k.
Proof.
  intros Hm Hk He. pose proof (signable_length m Hm) as Lm.
  pose proof (signable_length k Hk) as Lk. rewrite <- He in Lk. unfold confusable.
  destruct m, k; simpl in *; try (left; reflexivity); try tauto; exfalso;
    repeat match goal with
    | H : context [if ?b then _ else _] |- _ => destruct b
    | H : context [match ?t with MVote_Yes _ _ _ => _ | MVote_No => _ end] |- _ => destruct t
    end; lia.
Qed.
End Kinds.

(** ** What [QC::verify] accepts *)

(** The signers of a list of votes. *)
Definition signers (votes : list (PublicKey * Signature)) : gset PublicKey :=
  list_to_set votes.*1.

Lemma check_votes_ok c votes used w :
  wf_committee c ->
  QC.check_votes c votes used (weight c used) = Ok w <->
  NoDup votes.*1 /\ Forall (fun k => k ∉ used /\ 0 < stake c k) votes.*1 /\
  w = weight c (used ∪ signers votes).
Proof.
  intros Hwf. unfold signers. revert used. induction votes as [|[k sg] votes IH]; intros used; csimpl.
  - replace (used ∪ ∅) with used by set_solver. split.
    + intros [= <-]. repeat split; constructor.
    + intros (_ & _ & ->). done.
  - rewrite NoDup_cons, Forall_cons.
    destruct (decide (k ∈ used)) as [Hin|Hout].
    { rewrite bool_decide_true by done. simpl. split; [done | naive_solver]. }
    rewrite bool_decide_false by done. simpl.
    destruct (Z.ltb_spec 0 (stake c k)) as [Hs|Hs]; simpl; [|split; [done | naive_solver lia]].
    assert (weight c used +32 stake c k = weight c ({[k]} ∪ used)) as ->.
    { pose proof (weight_le_total c ({[k]} ∪ used) Hwf). pose proof (wf_total c Hwf).
      pose proof (weight_nonneg c used Hwf). rewrite weight_insert in * by done.
      rewrite wrap32_small; lia. }
    rewrite IH.
    replace ({[k]} ∪ used ∪ list_to_set votes.*1)
      with (used ∪ ({[k]} ∪ list_to_set votes.*1)) by set_solver.
    rewrite !Forall_forall. split.
    + intros (Hnd & Hall & ->). split_and!; try done; [|set_solver].
      intros Hk. destruct (Hall k Hk). set_solver.
    + intros ((Hk & Hnd) & (_ & Hall) & ->). split_and!; [done | | done].
      intros x Hx. destruct (Hall x Hx). split; [|done]. set_solver.
Qed.

Section Accept.
Context `{CryptoLib}.

(** [QC::verify] accepts exactly the certificates whose signers are distinct, all
    have voting rights, together reach the quorum, and whose signatures the batch
    check accepts; over a well-formed committee no sum wraps. *)
Lemma qc_verify_spec (q : QC.t) (c : Committee) :
  wf_committee c ->
  QC.verify q c = Ok tt <->
  NoDup (QC.votes q).*1 /\ Forall (fun k => 0 < stake c k) (QC.votes q).*1 /\
  quorum_threshold c <= weight c (signers (QC.votes q)) /\
  Signature_verify_batch (QC.digest q) (QC.votes q) = Ok tt.
Proof.
  intros Hwf. pose proof (check_votes_ok c (QC.votes q) ∅) as Hck.
  rewrite weight_empty in Hck.
  replace (∅ ∪ signers (QC.votes q)) with (signers (QC.votes q)) in Hck by set_solver.
  assert (forall l, Forall (fun k : PublicKey => k ∉ (∅ : gset PublicKey) /\ 0 < stake c k) l
    <-> Forall (fun k => 0 < stake c k) l) as Hempty.
  { intros l. rewrite !Forall_forall. set_solver. }
  setoid_rewrite Hempty in Hck.
  unfold QC.verify. destruct (QC.check_votes c (QC.votes q) ∅ 0) as [w|x|y|] eqn:Hc; csimpl.
  2-4: split; [done|]; intros (Hnd & Hall & _);
    pose proof (proj2 (Hck _ Hwf) (conj Hnd (conj Hall eq_refl))); done.
  destruct (proj1 (Hck w Hwf) eq_refl) as (Hnd & Hall & ->).
  destruct (Z.leb_spec (quorum_threshold c) (weight c (signers (QC.votes q)))); csimpl.
  - destruct (Signature_verify_batch _ _) as [[]| | |]; simpl; naive_solver.
  - split; [done | naive_solver lia].
Qed.
Lemma qc_verify_quorum q c :
  wf_committee c -> QC.verify q c = Ok tt ->
  set_Forall (fun k => 0 < stake c k) (signers (QC.votes q)) /\
  quorum_threshold c <= weight c (signers (QC.votes q)).
Proof.
  intros Hwf Hv. apply qc_verify_spec in Hv as (_ & Hall & Hq & _); [|done].
  split; [|done]. intros k Hk. unfold signers in Hk. rewrite elem_of_list_to_set in Hk.
  rewrite Forall_forall in Hall. by apply Hall.
Qed.

(** C17: What [QC::verify] accepts: exactly the certificates whose signers are
    distinct, all have voting rights, together reach the quorum, and whose
    signatures the batch check accepts; over a well-formed committee no sum wraps. *)
Theorem qc_verify_iff (q : QC.t) (c : Committee) :
  wf_committee c ->
  (QC.verify q c = Ok tt <->
   NoDup (QC.votes q).*1 /\ Forall (fun k => 0 < stake c k) (QC.votes q).*1 /\
   quorum_threshold c <= weight c (signers (QC.votes q)) /\
   Signature_verify_batch (QC.digest q) (QC.votes q) = Ok tt).
Proof. apply qc_verify_spec. Qed.

(** ** What a node signs, its peers accept *)

(** A signature service that signs with the key of [k]. *)
Definition signs_for (k : PublicKey) (svc : SignatureService) : Prop :=
  service_key svc = k /\ forall d, is_ok (sign_with svc d).

Lemma sign_with_ok `{!DalekSign} svc d sg :
  sign_with svc d = Ok sg -> check_signature sg d (service_key svc) = Ok tt.
Proof.
  unfold sign_with, check_signature. intros Hs.
  destruct (request_signature svc d) as [sg'| | |] eqn:Hr; simpl in Hs; try done.
  injection Hs as ->. by rewrite (request_signature_verifies svc d sg Hr).
Qed.

Lemma ensure_stake c k (m : ConsensusResult unit) :
  0 < stake c k -> (ensure (0 <? stake c k) (UnknownAuthority k) ;; m) = m.
Proof. intros Hs. by rewrite (proj2 (Z.ltb_lt _ _) Hs). Qed.

Lemma new_vote_verifies `{!DalekSign} svc c block tag v :
  0 < stake c (service_key svc) ->
  HVote.new block (service_key svc) tag svc = Ok v -> HVote.verify v c = Ok tt.
Proof.
  intros Hs. unfold HVote.new. destruct (sign_with _ _) eqn:Hsg; [|done..].
  simpl. intros [= <-]. unfold HVote.verify. rewrite ensure_stake by done. by apply sign_with_ok.
Qed.

Lemma new_block_verifies `{!DalekSign} svc c qc h e round payload tag b :
  0 < stake c (service_key svc) ->
  Block.new qc (service_key svc) h e round payload svc tag = Ok b ->
  QC.eqb qc QC.genesis = true \/ QC.verify qc c = Ok tt -> Block.verify b c = Ok tt.
Proof.
  intros Hstake. unfold Block.new.
  destruct (sign_with _ _) eqn:Hs; [|done..]. simpl. intros [= <-] Hqc.
  unfold Block.verify. rewrite ensure_stake by done. simpl.
  change (Block.digest _) with (Block.digest
    (Block.mk qc (service_key svc) h e payload Signature_default tag round)).
  rewrite (sign_with_ok _ _ _ Hs). simpl.
  destruct Hqc as [->| ->]; [done|]. by destruct (negb _).
Qed.

(** C25: Completeness of the votes and of the messages of the agreement.  What a
    member builds and signs with its own key passes the [verify] method its peers
    run: a vote of either chain, a vote of the broadcast, a block on a verified (or
    the genesis) certificate, a pre-vote and a vote, and a halt whose value and
    proof verify. *)
Theorem signed_messages_verify `{!DalekSign} (svc : SignatureService) (me : PublicKey)
    (c : Committee) (len : Z) :
  service_key svc = me -> 0 < stake c me ->
  (forall block tag v, HVote.new block me tag svc = Ok v -> HVote.verify v c = Ok tt) /\
  (forall value v, SPBVote.new value me svc = Ok v -> SPBVote.verify v c = Ok tt) /\
  (forall qc h e round payload tag b,
     Block.new qc me h e round payload svc tag = Ok b ->
     QC.eqb qc QC.genesis = true \/ QC.verify qc c = Ok tt -> Block.verify b c = Ok tt) /\
  (forall leader round h e tag m,
     MPreVote.new me leader svc round h e tag = Ok m ->
     PreVoteTag_verify tag c len = Ok tt -> MPreVote.verify m c len = Ok tt) /\
  (forall leader round h e tag pks m,
     MVote.new me leader svc round h e tag = Ok m ->
     MVoteTag_verify tag c len = Ok tt -> MVote.verify m c pks len = Ok tt) /\
  (forall leader value proof pks m,
     MHalt.new me leader value proof svc = Ok m ->
     SPBProof.phase proof = FIN_PHASE -> SPBValue_verify value c proof len = Ok tt ->
     MHalt.verify m c pks len = Ok tt).
Proof.
  intros <- Hstake. split_and!.
  - intros block tag v. by apply new_vote_verifies.
  - intros value v. unfold SPBVote.new. destruct (sign_with _ _) eqn:Hs; [|done..].
    simpl. intros [= <-]. unfold SPBVote.verify. rewrite ensure_stake by done.
    by apply sign_with_ok.
  - intros qc h e round payload tag b. by apply new_block_verifies.
  - intros leader round h e tag m. unfold MPreVote.new.
    destruct (sign_with _ _) eqn:Hs; [|done..]. simpl. intros [= <-] Ht.
    unfold MPreVote.verify. rewrite ensure_stake by done.
    change (MPreVote.digest _) with (MPreVote.digest
      (MPreVote.mk (service_key svc) Signature_default leader round h e tag)).
    simpl. by rewrite (sign_with_ok _ _ _ Hs).
  - intros leader round h e tag pks m. unfold MVote.new.
    destruct (sign_with _ _) eqn:Hs; [|done..]. simpl. intros [= <-] Ht.
    unfold MVote.verify. rewrite ensure_stake by done.
    change (MVote.digest _) with (MVote.digest
      (MVote.mk (service_key svc) leader round h e Signature_default tag)).
    simpl. by rewrite (sign_with_ok _ _ _ Hs).
  - intros leader value proof pks m. unfold MHalt.new.
    destruct (sign_with _ _) eqn:Hs; [|done..]. simpl. intros [= <-] Hp Hv.
    unfold MHalt.verify. rewrite ensure_stake by done. simpl.
    change (MHalt.digest (MHalt.mk _ _ _ _ _ _ _ _)) with (MHalt.digest
      (MHalt.mk (service_key svc) leader value proof (SPBProof.round proof)
         (SPBProof.height proof) (Block.epoch (SPBValue.block value)) Signature_default)).
    rewrite (sign_with_ok _ _ _ Hs). simpl. by rewrite Hp.
Qed.

(** C26: Domain separation among the messages of the consensus core.  Two messages of
    different kinds, of the eight that the core signs (the constructors of [Signable]),
    are never signed over the same bytes, except a [MDoneAndShare] and a [MHalt] (which
    carry the same fields, the round in the other byte order).  The payloads that the
    node's mempool signs with the same key are a ninth kind and are not separated from
    blocks: [Injections.client_forges_block]. *)
Theorem domain_separation (m k : Signable) :
  sized m -> sized k -> signable_preimage m = signable_preimage k ->
  kind m = kind k \/ confusable m k.
Proof. apply kind_of_preimage. Qed.

(** A vote's bytes determine everything it votes for: the block's digest,
    height, round, epoch and proposer, and the chain (the tag); and they are the
    bytes of the certificate made from such votes. *)
Theorem vote_bytes_injective (v : HVote.t) (q : QC.t) :
  wf_vote v -> wf_qc q -> (HVote.preimage v = QC.preimage q <-> vote_matches v q).
Proof.
  intros Hv Hq. split; [by apply vote_qc_preimage|].
  intros (Hh & Hht & Hr & Ht & He & Hp). unfold HVote.preimage, QC.preimage. congruence.
Qed.
End Accept.
