(* ===== verification/Types.v ===== *)
(** * The types of the values a node handles

    Integers are [Z] and byte arrays are lists in the model.  This file says which
    of them are values of the Rust types: [u64] and [u8] fields in range, keys and
    digests of 32 bytes, signatures of two halves of 32 bytes, in every struct of
    the messages, in every collection of the core, and in what a node receives.
    That they stay so is proved in [TypeFacts]. *)

From S2P Require Import Prelude Machine Crypto Config Messages Leader Aggregator Timer Store.
From S2P Require Import Sync Core Handlers Fixture MessageFacts.

(** ** Laws of the third-party code *)

(** SHA-512 yields 64 bytes. *)
Class HashLaws `{CryptoLib} : Prop := {
  sha512_length : forall l, length (sha512 l) = 64%nat;
}.

(** The mempool proposes digests. *)
Class MempoolTypes `{NodeEnv} : Prop := {
  mempool_get_typed : forall history max tag, Forall wf_digest (mempool_get history max tag);
}.

(** ** Collections *)

Definition ty_pair {A B} (P : A -> Prop) (Q : B -> Prop) (x : A * B) : Prop := P x.1 /\ Q x.2.

Definition ty_option {A} (P : A -> Prop) (o : option A) : Prop :=
  match o with Some a => P a | None => True end.

Definition ty_map {K V} `{Countable K} (P : K -> Prop) (Q : V -> Prop) (m : gmap K V) : Prop :=
  map_Forall (fun k v => P k /\ Q v) m.

Definition any {A} : A -> Prop := fun _ => True.

Definition in_u32 (x : Z) : Prop := 0 <= x < 2 ^ 32.

Notation u64_pair := (ty_pair in_u64 in_u64).

(** ** Messages *)

Record ty_sig (s : Signature) : Prop := {
  ts_part1 : length (part1 s) = 32%nat;
  ts_part2 : length (part2 s) = 32%nat;
}.

Notation ty_votes := (Forall (ty_pair wf_key ty_sig)).

Record ty_qc (q : QC.t) : Prop := {
  tq_hash : wf_digest (QC.hash q);
  tq_height : in_u64 (QC.height q);
  tq_epoch : in_u64 (QC.epoch q);
  tq_round : in_u64 (QC.round q);
  tq_tag : in_u8 (QC.tag q);
  tq_proposer : wf_key (QC.proposer q);
  tq_acceptor : wf_key (QC.acceptor q);
  tq_votes : ty_votes (QC.votes q);
}.

Record ty_block (b : Block.t) : Prop := {
  tb_qc : ty_qc (Block.qc b);
  tb_author : wf_key (Block.author b);
  tb_height : in_u64 (Block.height b);
  tb_epoch : in_u64 (Block.epoch b);
  tb_payload : Forall wf_digest (Block.payload b);
  tb_signature : ty_sig (Block.signature b);
  tb_tag : in_u8 (Block.tag b);
  tb_round : in_u64 (Block.round b);
}.

Record ty_hvote (v : HVote.t) : Prop := {
  th_hash : wf_digest (HVote.hash v);
  th_height : in_u64 (HVote.height v);
  th_round : in_u64 (HVote.round v);
  th_epoch : in_u64 (HVote.epoch v);
  th_proposer : wf_key (HVote.proposer v);
  th_tag : in_u8 (HVote.tag v);
  th_author : wf_key (HVote.author v);
  th_signature : ty_sig (HVote.signature v);
}.

Record ty_prepare (p : PrePare.t) : Prop := {
  tp_author : wf_key (PrePare.author p);
  tp_epoch : in_u64 (PrePare.epoch p);
  tp_height : in_u64 (PrePare.height p);
  tp_val : in_u8 (PrePare.val p);
  tp_qc : ty_qc (PrePare.qc p);
  tp_signature : ty_sig (PrePare.signature p);
}.

Record ty_value (v : SPBValue.t) : Prop := {
  tv_val : in_u8 (SPBValue.val v);
  tv_signatures : ty_votes (SPBValue.signatures v);
  tv_block : ty_block (SPBValue.block v);
  tv_round : in_u64 (SPBValue.round v);
  tv_phase : in_u8 (SPBValue.phase v);
}.

Record ty_spb_vote (v : SPBVote.t) : Prop := {
  tw_hash : wf_digest (SPBVote.hash v);
  tw_phase : in_u8 (SPBVote.phase v);
  tw_height : in_u64 (SPBVote.height v);
  tw_epoch : in_u64 (SPBVote.epoch v);
  tw_round : in_u64 (SPBVote.round v);
  tw_proposer : wf_key (SPBVote.proposer v);
  tw_author : wf_key (SPBVote.author v);
  tw_signature : ty_sig (SPBVote.signature v);
}.

Record ty_proof (p : SPBProof.t) : Prop := {
  tf_phase : in_u8 (SPBProof.phase p);
  tf_round : in_u64 (SPBProof.round p);
  tf_height : in_u64 (SPBProof.height p);
  tf_shares : Forall ty_spb_vote (SPBProof.shares p);
}.

Notation ty_value_proof := (ty_pair ty_value ty_proof).

Definition ty_prevote_tag (t : PreVoteTag) : Prop :=
  match t with PreVote_Yes v p => ty_value v /\ ty_proof p | PreVote_No => True end.

Record ty_prevote (m : MPreVote.t) : Prop := {
  tr_author : wf_key (MPreVote.author m);
  tr_signature : ty_sig (MPreVote.signature m);
  tr_leader : wf_key (MPreVote.leader m);
  tr_round : in_u64 (MPreVote.round m);
  tr_height : in_u64 (MPreVote.height m);
  tr_epoch : in_u64 (MPreVote.epoch m);
  tr_tag : ty_prevote_tag (MPreVote.tag m);
}.

Definition ty_mvote_tag (t : MVoteTag) : Prop :=
  match t with
  | MVote_Yes v p w => ty_value v /\ ty_proof p /\ ty_spb_vote w
  | MVote_No => True
  end.

Record ty_mvote (m : MVote.t) : Prop := {
  tm_author : wf_key (MVote.author m);
  tm_leader : wf_key (MVote.leader m);
  tm_round : in_u64 (MVote.round m);
  tm_height : in_u64 (MVote.height m);
  tm_epoch : in_u64 (MVote.epoch m);
  tm_signature : ty_sig (MVote.signature m);
  tm_tag : ty_mvote_tag (MVote.tag m);
}.

Record ty_halt (m : MHalt.t) : Prop := {
  tl_author : wf_key (MHalt.author m);
  tl_leader : wf_key (MHalt.leader m);
  tl_value : ty_value (MHalt.value m);
  tl_proof : ty_proof (MHalt.proof m);
  tl_round : in_u64 (MHalt.round m);
  tl_height : in_u64 (MHalt.height m);
  tl_epoch : in_u64 (MHalt.epoch m);
  tl_signature : ty_sig (MHalt.signature m);
}.

Section Types.
Context `{CryptoLib}.

Record ty_share (s : RandomnessShare.t) : Prop := {
  te_height : in_u64 (RandomnessShare.height s);
  te_epoch : in_u64 (RandomnessShare.epoch s);
  te_round : in_u64 (RandomnessShare.round s);
  te_author : wf_key (RandomnessShare.author s);
}.

Record ty_coin (c : RandomCoin.t) : Prop := {
  ti_height : in_u64 (RandomCoin.height c);
  ti_epoch : in_u64 (RandomCoin.epoch c);
  ti_round : in_u64 (RandomCoin.round c);
  ti_leader : wf_key (RandomCoin.leader c);
  ti_shares : Forall ty_share (RandomCoin.shares c);
}.

Record ty_done (m : MDoneAndShare.t) : Prop := {
  td_author : wf_key (MDoneAndShare.author m);
  td_signature : ty_sig (MDoneAndShare.signature m);
  td_epoch : in_u64 (MDoneAndShare.epoch m);
  td_height : in_u64 (MDoneAndShare.height m);
  td_round : in_u64 (MDoneAndShare.round m);
  td_share : ty_share (MDoneAndShare.share m);
}.

Definition ty_message (m : ConsensusMessage) : Prop :=
  match m with
  | HsPropose b | HsLoopBack b | SyncReply b | ParLoopBack b | FBPropose b | FBLoopBack b =>
      ty_block b
  | HSVote v | FBVote v => ty_hvote v
  | SyncRequest d k => wf_digest d /\ wf_key k
  | SPBPropose v p | SPBFinsh v p => ty_value v /\ ty_proof p
  | SPBVoteMsg v => ty_spb_vote v
  | SPBDoneAndShare m => ty_done m
  | SMVBAPreVote m => ty_prevote m
  | SMVBAVote m => ty_mvote m
  | SMVBAHalt m => ty_halt m
  | ParPrePare p => ty_prepare p
  end.

Definition ty_signable (m : Signable) : Prop :=
  match m with
  | SignedBlock b => ty_block b
  | SignedHVote v => ty_hvote v
  | SignedPrePare p => ty_prepare p
  | SignedSPBVote v => ty_spb_vote v
  | SignedDone m => ty_done m
  | SignedPreVote m => ty_prevote m
  | SignedMVote m => ty_mvote m
  | SignedHalt m => ty_halt m
  end.

Definition ty_mempool (m : ConsensusMempoolMessage) : Prop :=
  match m with
  | MempoolGet _ tag => in_u8 tag
  | MempoolVerify b tag => ty_block b /\ in_u8 tag
  | MempoolCleanup digests h => Forall wf_digest digests /\ in_u64 h
  end.

(** ** The components of the core *)

Definition ty_committee (c : Committee) : Prop :=
  forall k, k ∈ authority_keys c -> wf_key k.

Definition ty_elector (e : LeaderElector) : Prop :=
  Forall wf_key (names e) /\ ty_map wf_key any (name_to_idx e) /\
  ty_map u64_pair ty_coin (random_coins e).

Record ty_qc_maker (m : QCMaker) : Prop := {
  tk_weight : in_u32 (qm_weight m);
  tk_votes : ty_votes (qm_votes m);
  tk_used : set_Forall wf_key (qm_used m);
}.

Record ty_proof_maker (m : ProofMaker) : Prop := {
  to_weight : in_u32 (pm_weight m);
  to_votes : Forall ty_spb_vote (pm_votes m);
  to_used : set_Forall wf_key (pm_used m);
}.

Record ty_coin_maker (m : SMVBARandomCoinMaker) : Prop := {
  tn_weight : in_u32 (cm_weight m);
  tn_shares : Forall ty_share (cm_shares m);
  tn_used : set_Forall wf_key (cm_used m);
}.

Record ty_aggregator (a : Aggregator) : Prop := {
  ta_committee : ty_committee (agg_committee a);
  ta_hs : ty_map (ty_pair in_u64 wf_digest) ty_qc_maker (hs_votes_aggregators a);
  ta_fallback : ty_map u64_pair ty_qc_maker (fallback_votes_aggregators a);
  ta_spb : ty_map (ty_pair u64_pair in_u8) ty_proof_maker (spb_votes_aggregators a);
  ta_pre : ty_map u64_pair ty_proof_maker (pre_votes_aggregators a);
  ta_coin : ty_map u64_pair ty_coin_maker (smvba_randomcoin_aggregators a);
}.

Context `{NodeEnv}.

(** A value of the store that is a block is a well-typed one. *)
Definition ty_stored (v : Value) : Prop :=
  forall b, deserialize_block v = Some b -> ty_block b.

Definition ty_store (st : StoreClient) : Prop := map_Forall (fun _ v => ty_stored v) (kv st).

(** ** The core *)

Record ty_core (s : Core) : Prop := {
  tc_name : wf_key (name s);
  tc_committee : ty_committee (committee s);
  tc_store : ty_store (store s);
  tc_elector : ty_elector (leader_elector s);
  tc_mempool : Forall ty_mempool (mempool_driver s);
  tc_synchronizer : Forall ty_block (synchronizer s);
  tc_core : Forall ty_message (tx_core s);
  tc_smvba : Forall ty_message (tx_smvba s);
  tc_filter : Forall (ty_pair ty_message any) (network_filter s);
  tc_filter_smvba : Forall (ty_pair ty_message any) (network_filter_smvba s);
  tc_commits : Forall ty_block (commit_channel s);
  tc_height : in_u64 (height s);
  tc_epoch : in_u64 (epoch s);
  tc_voted : in_u64 (last_voted_height s);
  tc_committed : in_u64 (last_committed_height s);
  tc_fallback : ty_map in_u64 any (fallback_is_invoke s);
  tc_unhandled : Forall (ty_pair in_u64 ty_message) (unhandle_message s);
  tc_high_qc : ty_qc (high_qc s);
  tc_aggregator : ty_aggregator (aggregator s);
  tc_y : ty_map u64_pair any (smvba_y_flag s);
  tc_n : ty_map u64_pair any (smvba_n_flag s);
  tc_d : ty_map u64_pair any (smvba_d_flag s);
  tc_proposes : ty_map u64_pair ty_value (spb_proposes s);
  tc_finishs : ty_map u64_pair (ty_map wf_key ty_value_proof) (spb_finishs s);
  tc_locks : ty_map u64_pair (ty_map wf_key ty_value_proof) (spb_locks s);
  tc_phase : ty_map u64_pair in_u8 (spb_current_phase s);
  tc_abandon : ty_map in_u64 any (spb_abandon_flag s);
  tc_halt : ty_map in_u64 any (smvba_halt_falg s);
  tc_dones : ty_map u64_pair (set_Forall wf_key) (smvba_dones s);
  tc_round : ty_map in_u64 in_u64 (smvba_current_round s);
  tc_votes : ty_map u64_pair (set_Forall wf_key) (smvba_votes s);
  tc_no_prevotes : ty_map u64_pair (set_Forall wf_key) (smvba_no_prevotes s);
  tc_invoked : ty_map in_u64 any (smvba_is_invoke s);
  tc_prepare : ty_map in_u64 ty_prepare (prepare_tag s);
  tc_opts : ty_map in_u64 (ty_map wf_key ty_sig) (par_prepare_opts s);
  tc_pess : ty_map in_u64 (ty_map wf_key ty_sig) (par_prepare_pess s);
  tc_length : in_u64 (core_fallback_length s);
  tc_fallback_qc : ty_map u64_pair (ty_option ty_qc) (fallback_high_qc s);
  tc_signed : Forall ty_signable (signed s);
}.

(** ** What a node receives *)

Definition ty_input (i : Input) : Prop :=
  match i with
  | OnCoreChannel m | OnSmvbaChannel m => ty_message m
  | OnTimer => True
  end.

Definition ty_event (ev : Event) : Prop :=
  match ev with
  | Deliver i => ty_input i
  | Tick _ => True
  | ForeignWrite _ v => ty_stored v
  end.

(** The states of a node that receives values of the types it reads. *)
Inductive typed_run (core : Core) : Core -> Prop :=
| typed_boot n : typed_run core (run_boot n core).2
| typed_step n ev s : typed_run core s -> ty_event ev -> typed_run core (node_event n ev s).2.
End Types.

(** ** Whether a value is of its type can be computed *)

Lemma decide_iff (P Q : Prop) : (Q <-> P) -> Decision P -> Decision Q.
Proof. intros Hiff [Hp|Hp]; [left | right]; tauto. Defined.

#[export] Instance in_u64_dec x : Decision (in_u64 x).
Proof. unfold in_u64. apply _. Defined.
#[export] Instance in_u8_dec x : Decision (in_u8 x).
Proof. unfold in_u8. apply _. Defined.
#[export] Instance wf_key_dec k : Decision (wf_key k).
Proof. unfold wf_key. apply _. Defined.
#[export] Instance wf_digest_dec d : Decision (wf_digest d).
Proof. unfold wf_digest. apply _. Defined.
#[export] Instance ty_pair_dec {A B} (P : A -> Prop) (Q : B -> Prop)
  `{forall a, Decision (P a)} `{forall b, Decision (Q b)} x : Decision (ty_pair P Q x).
Proof. unfold ty_pair. apply _. Defined.

(** The conjunction of the fields of a record of facts. *)
Ltac decide_fields P :=
  refine (decide_iff P _ _ _); [split; [intros []; tauto | intros; constructor; tauto]].

#[export] Instance ty_sig_dec s : Decision (ty_sig s).
Proof. decide_fields (length (part1 s) = 32%nat /\ length (part2 s) = 32%nat). Defined.
#[export] Instance ty_qc_dec q : Decision (ty_qc q).
Proof.
  decide_fields (wf_digest (QC.hash q) /\ in_u64 (QC.height q) /\ in_u64 (QC.epoch q) /\
    in_u64 (QC.round q) /\ in_u8 (QC.tag q) /\ wf_key (QC.proposer q) /\
    wf_key (QC.acceptor q) /\ ty_votes (QC.votes q)).
Defined.
#[export] Instance ty_block_dec b : Decision (ty_block b).
Proof.
  decide_fields (ty_qc (Block.qc b) /\ wf_key (Block.author b) /\ in_u64 (Block.height b) /\
    in_u64 (Block.epoch b) /\ Forall wf_digest (Block.payload b) /\
    ty_sig (Block.signature b) /\ in_u8 (Block.tag b) /\ in_u64 (Block.round b)).
Defined.
#[export] Instance ty_hvote_dec v : Decision (ty_hvote v).
Proof.
  decide_fields (wf_digest (HVote.hash v) /\ in_u64 (HVote.height v) /\
    in_u64 (HVote.round v) /\ in_u64 (HVote.epoch v) /\ wf_key (HVote.proposer v) /\
    in_u8 (HVote.tag v) /\ wf_key (HVote.author v) /\ ty_sig (HVote.signature v)).
Defined.
#[export] Instance ty_prepare_dec p : Decision (ty_prepare p).
Proof.
  decide_fields (wf_key (PrePare.author p) /\ in_u64 (PrePare.epoch p) /\ in_u64 (PrePare.height p) /\
    in_u8 (PrePare.val p) /\ ty_qc (PrePare.qc p) /\ ty_sig (PrePare.signature p)).
Defined.
#[export] Instance ty_value_dec v : Decision (ty_value v).
Proof.
  decide_fields (in_u8 (SPBValue.val v) /\ ty_votes (SPBValue.signatures v) /\ ty_block (SPBValue.block
    v) /\ in_u64 (SPBValue.round v) /\ in_u8 (SPBValue.phase v)).
Defined.
#[export] Instance ty_spb_vote_dec v : Decision (ty_spb_vote v).
Proof.
  decide_fields (wf_digest (SPBVote.hash v) /\ in_u8 (SPBVote.phase v) /\ in_u64 (SPBVote.height v) /\
    in_u64 (SPBVote.epoch v) /\ in_u64 (SPBVote.round v) /\ wf_key (SPBVote.proposer v) /\
    wf_key (SPBVote.author v) /\ ty_sig (SPBVote.signature v)).
Defined.
#[export] Instance ty_proof_dec p : Decision (ty_proof p).
Proof.
  decide_fields (in_u8 (SPBProof.phase p) /\ in_u64 (SPBProof.round p) /\ in_u64 (SPBProof.height p) /\
    Forall ty_spb_vote (SPBProof.shares p)).
Defined.
#[export] Instance ty_prevote_tag_dec t : Decision (ty_prevote_tag t).
Proof. destruct t; apply _. Defined.
#[export] Instance ty_prevote_dec m : Decision (ty_prevote m).
Proof.
  decide_fields (wf_key (MPreVote.author m) /\ ty_sig (MPreVote.signature m) /\ wf_key (MPreVote.leader
    m) /\ in_u64 (MPreVote.round m) /\ in_u64 (MPreVote.height m) /\ in_u64 (MPreVote.epoch
    m) /\ ty_prevote_tag (MPreVote.tag m)).
Defined.
#[export] Instance ty_mvote_tag_dec t : Decision (ty_mvote_tag t).
Proof. destruct t; apply _. Defined.
#[export] Instance ty_mvote_dec m : Decision (ty_mvote m).
Proof.
  decide_fields (wf_key (MVote.author m) /\ wf_key (MVote.leader m) /\ in_u64 (MVote.round m) /\ in_u64
    (MVote.height m) /\ in_u64 (MVote.epoch m) /\ ty_sig (MVote.signature m) /\ ty_mvote_tag
    (MVote.tag m)).
Defined.
#[export] Instance ty_halt_dec m : Decision (ty_halt m).
Proof.
  decide_fields (wf_key (MHalt.author m) /\ wf_key (MHalt.leader m) /\ ty_value (MHalt.value m) /\
    ty_proof (MHalt.proof m) /\ in_u64 (MHalt.round m) /\ in_u64 (MHalt.height m) /\ in_u64
    (MHalt.epoch m) /\ ty_sig (MHalt.signature m)).
Defined.
#[export] Instance ty_share_dec `{CryptoLib} s : Decision (ty_share s).
Proof.
  decide_fields (in_u64 (RandomnessShare.height s) /\ in_u64 (RandomnessShare.epoch s) /\ in_u64
    (RandomnessShare.round s) /\ wf_key (RandomnessShare.author s)).
Defined.
#[export] Instance ty_done_dec `{CryptoLib} m : Decision (ty_done m).
Proof.
  decide_fields (wf_key (MDoneAndShare.author m) /\ ty_sig (MDoneAndShare.signature m) /\ in_u64
    (MDoneAndShare.epoch m) /\ in_u64 (MDoneAndShare.height m) /\ in_u64
    (MDoneAndShare.round m) /\ ty_share (MDoneAndShare.share m)).
Defined.
#[export] Instance ty_message_dec `{CryptoLib} m : Decision (ty_message m).
Proof. destruct m; simpl; apply _. Defined.
#[export] Instance ty_input_dec `{CryptoLib} i : Decision (ty_input i).
Proof. destruct i; simpl; apply _. Defined.

(** The instance of the witnesses has the laws. *)
#[export] Instance toy_hash_laws : HashLaws.
Proof. by constructor. Qed.
#[export] Instance toy_mempool_types : MempoolTypes.
Proof. constructor. intros. constructor. Qed.
