(* ===== verification/TypeFacts.v ===== *)
(** * A node handles values of the Rust types only

    The type invariant of the core: [typed m Q] says that a method, run from a
    well-typed state, leaves a well-typed state whatever its outcome and returns
    values with [Q].  Every handler is typed, so is every state of a node that
    receives well-typed messages. *)

From S2P Require Import Prelude Machine Crypto Config Messages Leader Aggregator Timer Store.
From S2P Require Import Sync Core Handlers Fixture MessageFacts Types.

(** ** Integers, hashes, collections *)

Lemma in_u64_wrap x : in_u64 (wrap64 x).
Proof. apply wrap64_range. Qed.
Lemma in_u32_wrap x : in_u32 (wrap32 x).
Proof. apply wrap32_range. Qed.
Lemma in_u8_next x : in_u8 (next_phase x).
Proof. apply Z.mod_pos_bound. lia. Qed.
Lemma in_u64_max x y : in_u64 x -> in_u64 y -> in_u64 (Z.max x y).
Proof. unfold in_u64. lia. Qed.
Lemma any_intro {A} (a : A) : any a.
Proof. exact I. Qed.

Section Collections.
Context {K V : Type} `{Countable K} (P : K -> Prop) (Q : V -> Prop).
Implicit Types m : gmap K V.

Lemma ty_map_empty : ty_map P Q ∅.
Proof. apply map_Forall_empty. Qed.
Lemma ty_map_insert k v m : P k -> Q v -> ty_map P Q m -> ty_map P Q (<[k := v]> m).
Proof. intros. by apply map_Forall_insert_2. Qed.
Lemma ty_map_delete k m : ty_map P Q m -> ty_map P Q (delete k m).
Proof. intros. by apply map_Forall_delete. Qed.
Lemma ty_map_filter (R : K * V -> Prop) `{forall x, Decision (R x)} m :
  ty_map P Q m -> ty_map P Q (filter R m).
Proof. intros Hm k v [Hk _]%map_lookup_filter_Some. by apply Hm. Qed.
Lemma ty_map_value k v m : m !! k = Some v -> ty_map P Q m -> Q v.
Proof. intros Hk Hm. by apply (Hm k v). Qed.
Lemma ty_map_default d k m : Q d -> ty_map P Q m -> Q (default d (m !! k)).
Proof. intros Hd Hm. destruct (m !! k) eqn:Hk; [by eapply ty_map_value | done]. Qed.
Lemma ty_map_list m : ty_map P Q m -> Forall (ty_pair P Q) (map_to_list m).
Proof.
  intros Hm. apply Forall_forall. intros [k v] Hin. apply elem_of_map_to_list in Hin.
  by apply Hm.
Qed.
End Collections.

Lemma ty_pair_intro {A B} (P : A -> Prop) (Q : B -> Prop) a b : P a -> Q b -> ty_pair P Q (a, b).
Proof. by split. Qed.
Lemma ty_snoc {A} (P : A -> Prop) l x : Forall P l -> P x -> Forall P (l ++ [x]).
Proof. intros. apply Forall_app. split; [done | by apply Forall_singleton]. Qed.
Lemma ty_set_add (P : PublicKey -> Prop) (k : PublicKey) (X : gset PublicKey) :
  P k -> set_Forall P X -> set_Forall P ({[k]} ∪ X).
Proof. intros Hk HX. apply set_Forall_union; [by apply set_Forall_singleton | done]. Qed.
Lemma ty_set_empty (P : PublicKey -> Prop) : set_Forall P (∅ : gset PublicKey).
Proof. apply set_Forall_empty. Qed.

Create HintDb types.
#[export] Hint Resolve in_u64_wrap in_u32_wrap in_u8_next in_u64_max any_intro ty_map_empty
  ty_map_insert ty_map_delete ty_map_filter ty_map_list ty_pair_intro ty_snoc ty_set_add
  ty_set_empty Forall_nil_2 : types.
#[export] Hint Resolve ts_part1 ts_part2 tq_hash tq_height tq_epoch tq_round tq_tag tq_proposer
  tq_acceptor tq_votes tb_qc tb_author tb_height tb_epoch tb_payload tb_signature tb_tag tb_round
  th_hash th_height th_round th_epoch th_proposer th_tag th_author th_signature tp_author
  tp_epoch tp_height tp_val tp_qc tp_signature tv_val tv_signatures tv_block tv_round tv_phase
  tw_hash tw_phase tw_height tw_epoch tw_round tw_proposer tw_author tw_signature tf_phase
  tf_round tf_height tf_shares : types.
#[export] Hint Resolve tr_author tr_signature tr_leader tr_round tr_height tr_epoch tr_tag
  tm_author tm_leader tm_round tm_height tm_epoch tm_signature tm_tag tl_author tl_leader tl_value
  tl_proof tl_round tl_height tl_epoch tl_signature te_height te_epoch te_round te_author
  ti_height ti_epoch ti_round ti_leader ti_shares td_author td_signature td_epoch td_height
  td_round td_share tk_weight tk_votes tk_used to_weight to_votes to_used tn_weight tn_shares
  tn_used ta_committee ta_hs ta_fallback ta_spb ta_pre ta_coin : types.
#[export] Hint Extern 1 (in_u8 _) => (unfold in_u8, OPT, PES, FALLBACK, INIT_PHASE, LOCK_PHASE,
  FIN_PHASE; lia) : types.
#[export] Hint Extern 1 (in_u64 _) => (unfold in_u64; lia) : types.
#[export] Hint Extern 1 (in_u32 _) => (unfold in_u32; lia) : types.
#[export] Hint Extern 2 (ty_option _ _) => simpl : types.
#[export] Hint Extern 2 (ty_message _) => simpl : types.
#[export] Hint Extern 2 (ty_signable _) => simpl : types.
#[export] Hint Extern 2 (ty_prevote_tag _) => simpl : types.
#[export] Hint Extern 2 (ty_mvote_tag _) => simpl : types.
#[export] Hint Extern 2 (_ /\ _) => split : types.

Ltac ty := eauto 14 with types.

Lemma ty_sig_default : ty_sig Signature_default.
Proof. by constructor. Qed.
Lemma wf_key_default : wf_key PublicKey_default.
Proof. done. Qed.
#[export] Hint Resolve ty_sig_default wf_key_default : types.

Lemma ty_qc_genesis : ty_qc QC.genesis.
Proof. constructor; try done; cbn; ty. Qed.
#[export] Hint Resolve ty_qc_genesis : types.

Lemma ty_block_genesis : ty_block Block.genesis.
Proof. constructor; try done; cbn; ty. Qed.
#[export] Hint Resolve ty_block_genesis : types.

Lemma ty_qc_wf q : ty_qc q -> wf_qc q.
Proof. intros []. unfold wf_qc. tauto. Qed.
Lemma ty_hvote_wf v : ty_hvote v -> wf_vote v.
Proof. intros []. unfold wf_vote. tauto. Qed.

(** ** The messages a node builds *)

Section Build.
Context `{CryptoLib} `{!HashLaws} `{!DalekSign}.

Lemma wf_hash_bytes l : wf_digest (hash_bytes l).
Proof. unfold wf_digest, hash_bytes. simpl. rewrite length_take, sha512_length. done. Qed.

Lemma ty_sign_with svc d sg : sign_with svc d = Ok sg -> ty_sig sg.
Proof.
  unfold sign_with, request_signature, Signature_new.
  destruct (dalek_keypair_from_bytes _) as [kp|]; simpl; [|done]. intros [= <-].
  pose proof (dalek_sign_length kp (digest_bytes d)) as Hlen.
  constructor; simpl; rewrite ?length_take, ?length_drop; lia.
Qed.
#[local] Hint Resolve wf_hash_bytes : types.

(** Each [new] signs, then fills in the signature. *)
Ltac ty_new :=
  match goal with
  | |- context [sign_with ?svc ?d] =>
      let Hs := fresh "Hs" in
      destruct (sign_with svc d) as [sg| | |] eqn:Hs; [|done..];
      apply ty_sign_with in Hs; simpl; intros [= <-]; constructor; simpl; ty
  end.

Lemma ty_block_new qc me h e r payload svc tag b :
  ty_qc qc -> wf_key me -> in_u64 h -> in_u64 e -> in_u64 r -> Forall wf_digest payload ->
  in_u8 tag -> Block.new qc me h e r payload svc tag = Ok b -> ty_block b.
Proof. intros. revert select (Block.new _ _ _ _ _ _ _ _ = _). unfold Block.new. ty_new. Qed.

Lemma ty_hvote_new b me tag svc v :
  ty_block b -> wf_key me -> in_u8 tag -> HVote.new b me tag svc = Ok v -> ty_hvote v.
Proof. intros ???. unfold HVote.new. ty_new. Qed.

Lemma ty_prepare_new me e h qc val svc p :
  wf_key me -> in_u64 e -> in_u64 h -> ty_qc qc -> in_u8 val ->
  PrePare.new me e h qc val svc = Ok p -> ty_prepare p.
Proof. intros ?????. unfold PrePare.new. ty_new. Qed.

Lemma ty_spb_vote_new value me svc v :
  ty_value value -> wf_key me -> SPBVote.new value me svc = Ok v -> ty_spb_vote v.
Proof. intros ??. unfold SPBVote.new. ty_new. Qed.

Lemma ty_share_new h e r me svc s :
  in_u64 h -> in_u64 e -> in_u64 r -> wf_key me ->
  RandomnessShare.new h e r me svc = Ok s -> ty_share s.
Proof.
  intros ????. unfold RandomnessShare.new. destruct (request_tss_signature _ _); [|done].
  simpl. intros [= <-]. by constructor.
Qed.

Lemma ty_done_new me svc e h r s m :
  wf_key me -> in_u64 e -> in_u64 h -> in_u64 r -> ty_share s ->
  MDoneAndShare.new me svc e h r s = Ok m -> ty_done m.
Proof. intros ?????. unfold MDoneAndShare.new. ty_new. Qed.

Lemma ty_prevote_new me leader svc r h e tag m :
  wf_key me -> wf_key leader -> in_u64 r -> in_u64 h -> in_u64 e -> ty_prevote_tag tag ->
  MPreVote.new me leader svc r h e tag = Ok m -> ty_prevote m.
Proof. intros ??????. unfold MPreVote.new. ty_new. Qed.

Lemma ty_mvote_new me leader svc r h e tag m :
  wf_key me -> wf_key leader -> in_u64 r -> in_u64 h -> in_u64 e -> ty_mvote_tag tag ->
  MVote.new me leader svc r h e tag = Ok m -> ty_mvote m.
Proof. intros ??????. unfold MVote.new. ty_new. Qed.

Lemma ty_halt_new me leader value proof svc m :
  wf_key me -> wf_key leader -> ty_value value -> ty_proof proof ->
  MHalt.new me leader value proof svc = Ok m -> ty_halt m.
Proof. intros ????. unfold MHalt.new. ty_new. Qed.
End Build.

(** ** Makers *)

Lemma ty_qc_maker_new : ty_qc_maker QCMaker_new.
Proof. constructor; simpl; ty. Qed.
Lemma ty_proof_maker_new : ty_proof_maker ProofMaker_new.
Proof. constructor; simpl; ty. Qed.
Lemma ty_coin_maker_new `{CryptoLib} : ty_coin_maker CoinMaker_new.
Proof. constructor; simpl; ty. Qed.
#[export] Hint Resolve ty_qc_maker_new ty_proof_maker_new ty_coin_maker_new : types.

Lemma ty_QCMaker_append v c m :
  ty_hvote v -> ty_qc_maker m ->
  ty_qc_maker (QCMaker_append v c m).2 /\
  forall o, (QCMaker_append v c m).1 = Ok o -> ty_option ty_qc o.
Proof.
  intros Hv Hm. unfold QCMaker_append, ensure_act, lift. run_act.
  destruct (bool_decide _); simpl; [done|].
  destruct (_ <=? _); simpl; split; try (constructor; simpl; ty); intros o [= <-]; [|done].
  constructor; simpl; ty.
Qed.

Lemma ty_ProofMaker_append v c m :
  ty_spb_vote v -> ty_proof_maker m ->
  ty_proof_maker (ProofMaker_append v c m).2 /\
  forall o, (ProofMaker_append v c m).1 = Ok o -> ty_option ty_proof o.
Proof.
  intros Hv Hm. unfold ProofMaker_append, ensure_act, lift. run_act.
  destruct (bool_decide _); simpl; [done|].
  destruct (_ <=? _); simpl; split; try (constructor; simpl; ty); intros o [= <-]; [|done].
  constructor; simpl; ty.
Qed.

Lemma ty_coin_leader `{CryptoLib} c sig k : ty_committee c -> coin_leader c sig = Ok k -> wf_key k.
Proof.
  intros Hc. unfold coin_leader. destruct (_ =? 0); [done|].
  destruct (sort_keys _ !! _) as [k'|] eqn:Hk; simpl; [|done]. intros [= <-].
  apply list_elem_of_lookup_2 in Hk. apply Hc. by rewrite <- (sort_keys_perm (authority_keys c)).
Qed.

Lemma ty_CoinMaker_append `{CryptoLib} sh c pks m :
  ty_committee c -> ty_share sh -> ty_coin_maker m ->
  ty_coin_maker (CoinMaker_append sh c pks m).2 /\
  forall o, (CoinMaker_append sh c pks m).1 = Ok o -> ty_option ty_coin o.
Proof.
  intros Hc Hs Hm. unfold CoinMaker_append, ensure_act, lift. run_act.
  destruct (bool_decide _); simpl; [done|].
  destruct (_ =? _); simpl; [|by split; [constructor; simpl; ty | intros o [= <-]]].
  destruct (share_map _ _ _); simpl; try (split; [constructor; simpl; ty | done]).
  destruct (combine_signatures _ _); simpl; [|by split; [constructor; simpl; ty | intros o [= <-]]].
  destruct (coin_leader c _) as [k| | |] eqn:Hk; simpl;
    (split; [constructor; simpl; ty|]); try done.
  intros o [= <-]. apply ty_coin_leader in Hk; [|done]. constructor; simpl; ty.
Qed.

(** ** Methods that keep an invariant *)

Section Keeps.
Context {S E : Type} (I : S -> Prop).

(** Run from a state of [I], the method leaves a state of [I], whatever its outcome,
    and what it returns has [Q]. *)
Definition keeps {A} (m : act S E A) (Q : A -> Prop) : Prop :=
  forall s, I s -> I (m s).2 /\ forall a, (m s).1 = Ok a -> Q a.

Lemma keeps_bind {A B} (m : act S E A) (f : A -> act S E B) Q R :
  keeps m Q -> (forall a, Q a -> keeps (f a) R) -> keeps (m ≫= f) R.
Proof.
  intros Hm Hf s Hs. unfold mbind, act_bind. destruct (Hm s Hs) as [Hs' Hq].
  destruct (m s) as [[a|x|w|] s']; simpl in *; [|done..]. apply Hf; [by apply Hq | done].
Qed.

Lemma keeps_ret {A} (a : A) (Q : A -> Prop) : Q a -> keeps (mret a) Q.
Proof. intros Ha s Hs. split; [done|]. by intros ? [= <-]. Qed.
Lemma keeps_throw {A} x (Q : A -> Prop) : keeps (throw x) Q.
Proof. by intros s Hs. Qed.
Lemma keeps_lift {A} (m : outcome E A) (Q : A -> Prop) :
  (forall a, m = Ok a -> Q a) -> keeps (lift m) Q.
Proof. by intros Ha s Hs. Qed.
Lemma keeps_ensure b x : keeps (ensure_act b x) any.
Proof. by apply keeps_lift. Qed.
Lemma keeps_gets {A B} (g : S -> A) (f : A -> act S E B) Q :
  (forall s, I s -> keeps (f (g s)) Q) -> keeps (gets g ≫= f) Q.
Proof. intros Hf s Hs. by apply (Hf s Hs). Qed.
Lemma keeps_gets_tail {A} (g : S -> A) (Q : A -> Prop) :
  (forall s, I s -> Q (g s)) -> keeps (gets g) Q.
Proof. intros Hg s Hs. split; [done|]. intros a [= <-]. by apply Hg. Qed.
Lemma keeps_modify f : (forall s, I s -> I (f s)) -> keeps (modify f) any.
Proof. intros Hf s Hs. split; [by apply Hf | done]. Qed.
Lemma keeps_weaken {A} (m : act S E A) (Q R : A -> Prop) :
  keeps m Q -> (forall a, Q a -> R a) -> keeps m R.
Proof. intros Hm HR s Hs. destruct (Hm s Hs). eauto. Qed.
Lemma keeps_when b (m : act S E unit) : keeps m any -> keeps (when b m) any.
Proof. destruct b; [done | intros _; by apply keeps_ret]. Qed.
Lemma keeps_ignore (m : act S E unit) : keeps m any -> keeps (ignore_err m) any.
Proof.
  intros Hm s Hs. destruct (Hm s Hs) as [Hs' _]. split; [|done]. unfold ignore_err.
  by destruct (m s) as [[]].
Qed.
Lemma keeps_expect {A} w (m : act S E A) Q : keeps m Q -> keeps (expect_act w m) Q.
Proof.
  intros Hm s Hs. specialize (Hm s Hs). unfold expect_act.
  by destruct (m s) as [[a|x|y|] s']; simpl in *; destruct Hm.
Qed.
End Keeps.

Lemma keeps_zoom {S T E A} (I : S -> Prop) (J : T -> Prop) (get : S -> T) put
    (m : act T E A) Q :
  keeps J m Q -> (forall s, I s -> J (get s)) -> (forall t s, I s -> J t -> I (put t s)) ->
  keeps I (zoom get put m) Q.
Proof.
  intros Hm Hget Hput s Hs. destruct (Hm (get s) (Hget s Hs)) as [Ht Hq]. unfold zoom.
  destruct (m (get s)) as [r t]. simpl in *. eauto.
Qed.

(** One step through a method: its head, then its continuation. *)
Ltac keeps_step :=
  match goal with
  | |- keeps _ (gets _ ≫= _) _ => apply keeps_gets; intros ? ?
  | |- keeps _ (mret _) _ => apply keeps_ret
  | |- keeps _ (throw _) _ => apply keeps_throw
  | |- keeps _ (modify _) _ => apply keeps_modify
  | |- keeps _ (ensure_act _ _) _ => apply keeps_ensure
  | |- keeps _ (gets _) _ => apply keeps_gets_tail; intros ? ?
  | |- keeps ?I (@mbind _ _ unit _ ?f ?m) _ => apply (keeps_bind I m f any); [|intros ? ?]
  | |- keeps _ (_ ≫= _) _ => eapply keeps_bind; [|intros ? ?]
  | |- keeps _ (when _ _) _ => apply keeps_when
  | |- keeps _ (ignore_err _) _ => apply keeps_ignore
  | |- keeps _ (expect_act _ _) _ => apply keeps_expect
  | |- keeps _ (if ?b then _ else _) _ => destruct b
  end.

(** ** The services of the core *)

Section Services.
Context `{CryptoLib} `{NodeEnv}.

Lemma ty_decode v b : ty_stored v -> decode_block v = Ok b -> ty_block b.
Proof.
  intros Hv. unfold decode_block. destruct (deserialize_block v) eqn:Hd; [|done].
  intros [= <-]. by apply Hv.
Qed.

Lemma keeps_store_read k : keeps ty_store (store_read k) (ty_option ty_stored).
Proof.
  intros st Hst. unfold store_read. run_act. simpl. destruct (db_get_fault _); [done|].
  simpl. split; [done|]. intros o [= <-]. destruct (kv st !! k) eqn:Hk; simpl; [|done].
  by apply (Hst k).
Qed.

Lemma ty_stored_block `{!BincodeLaws} b : ty_block b -> ty_stored (serialize_block b).
Proof. intros Hb b' Hd. rewrite bincode_roundtrip in Hd. by injection Hd as <-. Qed.

Definition ty_sync (s : StoreClient * list Block.t) : Prop :=
  ty_store s.1 /\ Forall ty_block s.2.

Lemma keeps_parent b : ty_block b -> keeps ty_sync (get_parent_block b) (ty_option ty_block).
Proof.
  intros Hb. unfold get_parent_block. keeps_step; [keeps_step; ty|].
  keeps_step.
  { eapply keeps_zoom; [apply keeps_store_read | by intros ? [] | by intros ? ? [] ?]. }
  destruct a as [v|]; simpl in *.
  - keeps_step; [apply keeps_lift; intros ?; by apply ty_decode | by keeps_step].
  - keeps_step; [|by keeps_step]. keeps_step. intros ? []. split; simpl; ty.
Qed.

Lemma keeps_ancestors b :
  ty_block b -> keeps ty_sync (get_ancestors b) (ty_option (ty_pair ty_block ty_block)).
Proof.
  intros Hb. unfold get_ancestors. keeps_step; [by apply keeps_parent|].
  destruct a as [b1|]; [|by keeps_step]. keeps_step; [by apply keeps_parent|].
  keeps_step; [|keeps_step; simpl; ty].
  apply keeps_lift. by destruct a as [b0|]; simpl in *; intros ? [= <-].
Qed.
End Services.

(** ** The helpers of the core *)

#[export] Hint Resolve tc_name tc_committee tc_store tc_elector tc_mempool tc_synchronizer
  tc_core tc_smvba tc_filter tc_filter_smvba tc_commits tc_height tc_epoch tc_voted tc_committed
  tc_fallback tc_unhandled tc_high_qc tc_aggregator tc_y tc_n tc_d tc_proposes tc_finishs
  tc_locks tc_phase tc_abandon tc_halt tc_dones tc_round tc_votes tc_no_prevotes tc_invoked
  tc_prepare tc_opts tc_pess tc_length tc_fallback_qc tc_signed : types.

(** A state in which some fields have changed. *)
Ltac ty_state :=
  match goal with
  | Hs : ty_core ?s |- ty_core _ => destruct (id Hs); constructor; simpl; try assumption; ty
  end.


Section Core.
Context `{CryptoLib} `{NodeEnv} `{!HashLaws} `{!DalekSign} `{!MempoolTypes} `{!BincodeLaws}.

Notation M := (act Core ConsensusError).
Notation typed := (keeps ty_core).

Lemma typed_zoom {T A} (J : T -> Prop) (get : Core -> T) put (m : act T ConsensusError A) Q :
  keeps J m Q -> (forall s, ty_core s -> J (get s)) ->
  (forall t s, ty_core s -> J t -> ty_core (put t s)) -> typed (zoom get put m) Q.
Proof. apply keeps_zoom. Qed.

Lemma typed_signing {A} (rec : A -> Signable) build (Q : A -> Prop) :
  (forall a, Q a -> ty_signable (rec a)) -> (forall svc a, build svc = Ok a -> Q a) ->
  typed (signing rec build) Q.
Proof.
  intros Hr Hb. unfold signing. keeps_step.
  eapply keeps_bind; [by apply keeps_lift; intros a; apply Hb|]. intros a Ha.
  keeps_step; [keeps_step; intros s' Hs'; ty_state | by keeps_step].
Qed.

Lemma typed_entry {K V} `{Countable K} (proj : Core -> gmap K V) `{!Setter proj} k d
    (P : K -> Prop) (Q : V -> Prop) :
  P k -> Q d -> (forall s, ty_core s -> ty_map P Q (proj s)) ->
  (forall s m, ty_core s -> ty_map P Q m -> ty_core (set proj (fun _ => m) s)) ->
  typed (entry proj k d) Q.
Proof.
  intros Hk Hd Hget Hset. unfold entry. keeps_step. destruct (proj s !! k) as [v|] eqn:Hv.
  - keeps_step. eapply ty_map_value; [exact Hv | by apply Hget].
  - keeps_step; [keeps_step; intros s' Hs'; apply Hset; [done | apply ty_map_insert; eauto] | by keeps_step].
Qed.

Lemma typed_store_block b : ty_block b -> typed (store_block b) any.
Proof.
  intros Hb. eapply (typed_zoom ty_store); [|by intros ? []|].
  - unfold store_write. keeps_step. intros st Hst. apply map_Forall_insert_2; [|done].
    by apply ty_stored_block.
  - intros st s Hs Hst. ty_state.
Qed.

Lemma typed_read_store k : typed (read_store k) (ty_option ty_stored).
Proof.
  eapply typed_zoom; [apply keeps_store_read | by intros ? [] |]. intros st s Hs Hst. ty_state.
Qed.

Lemma typed_synchronizer {A} (m : act _ _ A) Q :
  keeps ty_sync m Q -> typed (on_synchronizer m) Q.
Proof.
  intros Hm. eapply typed_zoom; [exact Hm | by intros ? [] |].
  intros [st ch] s Hs [Hst Hch]. simpl in *. ty_state.
Qed.

Lemma typed_transmit_opt m to : ty_message m -> typed (transmit_opt m to) any.
Proof.
  intros Hm. unfold transmit_opt. do 2 keeps_step.
  eapply (typed_zoom (Forall (ty_pair ty_message any))); [| by intros ? [] |].
  - unfold transmit. keeps_step; [by apply (keeps_lift _ _ any)|]. keeps_step. ty.
  - intros l s1 Hs1 Hl. ty_state.
Qed.

Lemma typed_transmit_pes m to : ty_message m -> typed (transmit_pes m to) any.
Proof.
  intros Hm. unfold transmit_pes. do 2 keeps_step.
  eapply (typed_zoom (Forall (ty_pair ty_message any))); [| by intros ? [] |].
  - unfold transmit. keeps_step; [by apply (keeps_lift _ _ any)|]. keeps_step. ty.
  - intros l s1 Hs1 Hl. ty_state.
Qed.

Lemma typed_mempool {A} (m : act _ ConsensusError A) Q :
  keeps (Forall ty_mempool) m Q -> typed (on_mempool m) Q.
Proof.
  intros Hm. eapply typed_zoom; [exact Hm | by intros ? [] |]. intros l s Hs Hl. ty_state.
Qed.

Lemma typed_get max tag : in_u8 tag -> typed (on_mempool (driver_get max tag)) (Forall wf_digest).
Proof.
  intros Ht. apply typed_mempool. unfold driver_get, send_mempool. keeps_step.
  keeps_step; [by keeps_step; intros; apply ty_snoc|]. keeps_step. apply mempool_get_typed.
Qed.

Lemma typed_verify b tag : ty_block b -> in_u8 tag -> typed (on_mempool (driver_verify b tag)) any.
Proof.
  intros Hb Ht. apply typed_mempool. unfold driver_verify, send_mempool. keeps_step.
  keeps_step; [by keeps_step; intros; apply ty_snoc|]. by destruct (mempool_verify _ _ _); keeps_step.
Qed.

Lemma typed_cleanup b : ty_block b -> typed (on_mempool (driver_cleanup_par b)) any.
Proof.
  intros Hb. apply typed_mempool. unfold driver_cleanup_par, send_mempool. keeps_step.
  intros l Hl. apply ty_snoc; [done|]. split; ty.
Qed.

Lemma typed_aggregator {A} (m : act _ ConsensusError A) Q :
  keeps ty_aggregator m Q -> typed (on_aggregator m) Q.
Proof.
  intros Hm. eapply typed_zoom; [exact Hm | by intros ? [] |]. intros a s Hs Ha. ty_state.
Qed.

Ltac ty_add maker Happend :=
  apply typed_aggregator; keeps_step;
  eapply (keeps_zoom _ maker);
    [intros m Hm; by apply Happend; ty | intros a Ha; eapply ty_map_default; ty
    | intros m a Ha Hm; destruct Ha; constructor; simpl; ty].

Lemma typed_add_hs v : ty_hvote v -> typed (on_aggregator (add_hs_vote v)) (ty_option ty_qc).
Proof. intros Hv. unfold add_hs_vote. ty_add ty_qc_maker ty_QCMaker_append. Qed.

Lemma typed_add_fallback v :
  ty_hvote v -> typed (on_aggregator (add_fallback_vote v)) (ty_option ty_qc).
Proof. intros Hv. unfold add_fallback_vote. ty_add ty_qc_maker ty_QCMaker_append. Qed.

Lemma typed_add_spb v : ty_spb_vote v -> typed (on_aggregator (add_spb_vote v)) (ty_option ty_proof).
Proof. intros Hv. unfold add_spb_vote. ty_add ty_proof_maker ty_ProofMaker_append. Qed.

Lemma typed_add_pre v : ty_spb_vote v -> typed (on_aggregator (add_pre_vote v)) (ty_option ty_proof).
Proof. intros Hv. unfold add_pre_vote. ty_add ty_proof_maker ty_ProofMaker_append. Qed.

Lemma typed_add_random sh pks :
  ty_share sh -> typed (on_aggregator (add_smvba_random sh pks)) (ty_option ty_coin).
Proof. intros Hv. unfold add_smvba_random. ty_add ty_coin_maker ty_CoinMaker_append. Qed.

(** ** States that start or end an agreement *)

Lemma ty_update_smvba h r s :
  in_u64 h -> in_u64 r -> ty_core s -> ty_core (update_smvba_state h r s).
Proof. intros Hh Hr Hs. ty_state. Qed.

Lemma ty_update_prepare h s : in_u64 h -> ty_core s -> ty_core (update_prepare_state h s).
Proof. intros Hh Hs. ty_state. Qed.

Lemma ty_cleanup_hs_vote h a : ty_aggregator a -> ty_aggregator (cleanup_hs_vote h a).
Proof. intros []. constructor; simpl; ty. Qed.
Lemma ty_cleanup_spb_vote h a : ty_aggregator a -> ty_aggregator (cleanup_spb_vote h a).
Proof. intros []. constructor; simpl; ty. Qed.
Lemma ty_cleanup_mvba_random h a : ty_aggregator a -> ty_aggregator (cleanup_mvba_random h a).
Proof. intros []. constructor; simpl; ty. Qed.
#[local] Hint Resolve ty_cleanup_hs_vote ty_cleanup_spb_vote ty_cleanup_mvba_random : types.

Lemma ty_clean_smvba h s : ty_core s -> ty_core (clean_smvba_state h s).
Proof. intros Hs. unfold clean_smvba_state, retain1, retain2. ty_state. Qed.

Lemma ty_cleanup_hs h s : ty_core s -> ty_core (s <| aggregator := cleanup_hs_vote h (aggregator s) |>).
Proof. intros Hs. ty_state. Qed.

Lemma ty_elector_new c w : ty_committee c -> ty_elector (LeaderElector_new c w).
Proof.
  intros Hc. unfold LeaderElector_new. split_and!; simpl; [| |ty].
  - apply Forall_forall. intros k Hk. apply Hc. by rewrite <- (sort_keys_perm (authority_keys c)).
  - intros k v Hk. split; [|done]. apply elem_of_list_to_map_2, list_elem_of_fmap in Hk.
    destruct Hk as ([i k'] & [= -> ->] & Hin). apply Hc.
    rewrite <- (sort_keys_perm (authority_keys c)). revert Hin. generalize 0.
    induction (sort_keys _) as [|x l IH]; intros z Hin; simpl in *; [by apply elem_of_nil in Hin|].
    apply elem_of_cons in Hin as [[= _ <-]|Hin]; [by left | right; by eapply IH].
Qed.

Lemma ty_aggregator_new c : ty_committee c -> ty_aggregator (Aggregator_new c).
Proof. intros Hc. constructor; simpl; ty. Qed.
#[local] Hint Resolve ty_elector_new ty_aggregator_new : types.

Lemma ty_epoch_init e s : in_u64 e -> ty_core s -> ty_core (epoch_init e s).
Proof.
  intros He Hs. unfold epoch_init. apply ty_update_prepare; [ty|]. apply ty_update_smvba; [ty..|].
  ty_state.
Qed.

Lemma ty_core_new k c ps svc pks st el opt pes now :
  wf_key k -> ty_committee c -> in_u64 (fallback_length ps) -> ty_store st -> ty_elector el ->
  ty_core (Core_new k c ps svc pks st el opt pes now).
Proof.
  intros Hk Hc Hl Hst Hel. unfold Core_new.
  apply ty_update_prepare; [ty|]. apply ty_update_smvba; [ty..|]. constructor; simpl; ty.
Qed.

(** ** Helpers *)

Lemma typed_sleep d : typed (sleep_ms d) any.
Proof. unfold sleep_ms. keeps_step. intros s Hs. ty_state. Qed.
Lemma typed_timer d : typed (timer_reset d) any.
Proof. unfold timer_reset. keeps_step. intros s Hs. ty_state. Qed.
Lemma typed_terminate h : typed (terminate_smvba h) any.
Proof. unfold terminate_smvba. keeps_step. intros s. apply ty_clean_smvba. Qed.
Lemma typed_check check : typed (check_if_exp check) any.
Proof. unfold check_if_exp. repeat keeps_step; done || by apply keeps_lift. Qed.
Lemma typed_index e k h : typed (lift (index_as_leader e k h)) any.
Proof. by apply keeps_lift. Qed.
Lemma typed_lift_any {A} (m : ConsensusResult A) : typed (lift m) any.
Proof. by apply keeps_lift. Qed.

Lemma typed_generate h r qc tag :
  in_u64 h -> in_u64 r -> ty_option ty_qc qc -> in_u8 tag ->
  typed (generate_proposal h r qc tag) ty_block.
Proof.
  intros Hh Hr Hq Ht. unfold generate_proposal. keeps_step. keeps_step; [by apply typed_get|].
  do 2 keeps_step. apply typed_signing; [done|]. intros svc b Hb.
  eapply ty_block_new; [..|exact Hb]; ty. destruct qc; simpl; ty.
Qed.

Lemma typed_sync_request d k : wf_digest d -> wf_key k -> typed (handle_sync_request d k) any.
Proof.
  intros Hd Hk. unfold handle_sync_request. keeps_step; [apply typed_read_store|].
  destruct a as [v|]; [|by keeps_step].
  keeps_step; [apply keeps_lift; intros b; by apply ty_decode | by apply typed_transmit_opt].
Qed.

Lemma typed_commit_loop fuel b : ty_block b -> typed (commit_loop fuel b) any.
Proof.
  revert b. induction fuel as [|fuel IH]; intros b Hb; [by apply keeps_lift|]. simpl.
  keeps_step. keeps_step; [|by keeps_step].
  keeps_step; [keeps_step; by apply typed_cleanup|].
  keeps_step; [by apply typed_synchronizer, keeps_parent|].
  destruct a0; [by apply IH | by keeps_step].
Qed.

Lemma typed_commit b : ty_block b -> typed (commit b) any.
Proof. intros Hb. unfold commit. keeps_step. by apply typed_commit_loop. Qed.

Lemma typed_record_commit b : ty_block b -> typed (record_commit b) any.
Proof. intros Hb. unfold record_commit. keeps_step. intros s Hs. ty_state. Qed.

Lemma typed_process_qc q : ty_qc q -> typed (process_qc q) any.
Proof.
  intros Hq. unfold process_qc, advance_height, update_high_qc. keeps_step.
  - keeps_step. keeps_step; [by keeps_step|].
    keeps_step; [keeps_step; intros s1 Hs1; by apply ty_cleanup_hs|].
    keeps_step; [keeps_step; intros s1 Hs1; ty_state|].
    keeps_step; [keeps_step; intros s1 Hs1; apply ty_update_prepare; ty|].
    keeps_step. intros s1 Hs1. apply ty_update_smvba; ty.
  - keeps_step. intros s Hs. destruct (_ <? _); [ty_state | done].
Qed.

Lemma typed_send_vote m l : ty_message m -> typed (send_vote m l) any.
Proof.
  intros Hm. induction l as [|k l IH]; simpl; [by keeps_step|].
  keeps_step. keeps_step; [keeps_step; by apply typed_transmit_opt | done].
Qed.

Lemma typed_opt_vote b : ty_block b -> typed (make_opt_vote b) (ty_option ty_hvote).
Proof.
  intros Hb. unfold make_opt_vote. keeps_step. keeps_step; [by keeps_step|].
  keeps_step; [unfold increase_last_voted_round; keeps_step; intros s1 Hs1; ty_state|].
  keeps_step. keeps_step; [|by keeps_step].
  apply typed_signing; [done|]. intros svc v Hv.
  eapply ty_hvote_new; [..|exact Hv]; ty.
Qed.

Lemma typed_fallback_vote b : ty_block b -> typed (make_fallback_vote b) (ty_option ty_hvote).
Proof.
  intros Hb. unfold make_fallback_vote. keeps_step. keeps_step; [by keeps_step|].
  keeps_step. keeps_step; [|by keeps_step].
  apply typed_signing; [done|]. intros svc v Hv.
  eapply ty_hvote_new; [..|exact Hv]; ty.
Qed.

Lemma typed_spb_vote value : ty_value value -> typed (make_spb_vote value) (ty_option ty_spb_vote).
Proof.
  intros Hv. unfold make_spb_vote. keeps_step; [by keeps_step|].
  keeps_step. keeps_step; [|by keeps_step].
  apply typed_signing; [done|]. intros svc w Hw.
  eapply ty_spb_vote_new; [..|exact Hw]; ty.
Qed.
End Core.
