(* ===== verification/Text.v ===== *)
(** * Values as text

    The text of keys in files ([Serialize] and [Deserialize] of [crypto/src/lib.rs]) and
    of messages in the log ([Debug] and [Display] of [crypto/src/lib.rs],
    [consensus/src/messages.rs] and [mempool/src/messages.rs]).  The traits are classes.
    Printing a key unwraps a slice of its text, so a line of the log could panic the
    task that writes it; [message_text] shows that none does, which is why the handlers
    of the core are modelled without their log lines. *)

From stdpp Require Import pretty.
From S2P Require Import Prelude Machine Crypto Config Messages Mempool Leader Aggregator Timer Store.
From S2P Require Import Sync Core Handlers Fixture ConfigFacts MessageFacts Types TypeFacts.

(** ** Strings *)

Notation Text := (outcome unit string).

(** [s.get(0..n)]: the ends must be at the boundaries of characters, which the bytes
    [0x80..0xbf] of UTF-8 never begin. *)
Definition continues (c : Ascii.ascii) : bool :=
  (128 <=? Ascii.N_of_ascii c)%N && (Ascii.N_of_ascii c <? 192)%N.

Definition str_get_to (n : nat) (s : string) : option string :=
  match String.get n s with
  | Some c => if continues c then None else Some (String.substring 0 n s)
  | None => if bool_decide (String.length s = n) then Some s else None
  end.

(** The pieces of a [write!], one after the other. *)
Fixpoint write (pieces : list Text) : Text :=
  match pieces with
  | [] => Ok ""
  | piece :: pieces => a ← piece; b ← write pieces; Ok (String.append a b)
  end.

Definition lit (s : string) : Text := Ok s.

Class Display (A : Type) := display : A -> Text.
Class Debug (A : Type) := debug : A -> Text.

#[export] Instance Display_string : Display string := fun s => Ok s.
#[export] Instance Display_int : Display Z := fun n => Ok (pretty n).

(** ** Keys and digests *)

Section Keys.
Context `{CryptoLib}.

Definition Digest_debug (d : Digest) : Text := Ok (base64_encode (digest_bytes d)).
#[export] Instance Digest_Debug : Debug Digest := Digest_debug.
Definition Digest_display (d : Digest) : Text :=
  expect "called `Option::unwrap()` on a `None` value" (str_get_to 16 (base64_encode (digest_bytes d))).
#[export] Instance Digest_Display : Display Digest := Digest_display.

Definition Digest_as_ref (d : Digest) : list Z := digest_bytes d.

(** [item.try_into()]: a slice of another length is refused. *)
Definition Digest_try_from (item : list Z) : option Digest :=
  if bool_decide (length item = 32%nat) then Some (mkDigest item) else None.

Definition PublicKey_debug (k : PublicKey) : Text := Ok (PublicKey_to_base64 k).
#[export] Instance PublicKey_Debug : Debug PublicKey := PublicKey_debug.
Definition PublicKey_display (k : PublicKey) : Text :=
  expect "called `Option::unwrap()` on a `None` value" (str_get_to 16 (PublicKey_to_base64 k)).
#[export] Instance PublicKey_Display : Display PublicKey := PublicKey_display.

(** A serializer is what it does with a string; a deserializer gives a string or an
    error, and [custom] makes an error of a [DecodeError]. *)
Definition PublicKey_serialize {R} (serialize_str : string -> R) (k : PublicKey) : R :=
  serialize_str (PublicKey_to_base64 k).
Definition SecretKey_serialize {R} (serialize_str : string -> R) (k : SecretKey) : R :=
  serialize_str (SecretKey_to_base64 k).

Definition map_custom {E A} (custom : DecodeError -> E) (r : outcome DecodeError A) : outcome E A :=
  match r with
  | Ok a => Ok a
  | Err e => Err (custom e)
  | Panic w => Panic w
  | NoFuel => NoFuel
  end.

Definition PublicKey_deserialize {E} (custom : DecodeError -> E) (input : outcome E string)
    : outcome E PublicKey :=
  s ← input; map_custom custom (PublicKey_from_base64 s).
Definition SecretKey_deserialize {E} (custom : DecodeError -> E) (input : outcome E string)
    : outcome E SecretKey :=
  s ← input; map_custom custom (SecretKey_from_base64 s).
End Keys.

(** ** Messages *)

Section Messages.
Context `{CryptoLib}.

Definition QC_debug (q : QC.t) : Text :=
  write [lit "QC(hash "; display (QC.hash q); lit ", height "; display (QC.height q);
         lit ",  proposer "; display (QC.proposer q); lit ")"].
#[export] Instance QC_Debug : Debug QC.t := QC_debug.

Definition payload_len (b : Block.t) : Z := zsum (Digest_size <$> Block.payload b).

Definition Block_debug (b : Block.t) : Text :=
  write [display (Block.digest b); lit ": B(author "; display (Block.author b); lit ", height ";
         display (Block.height b); lit ", epoch "; display (Block.epoch b); lit ", qc ";
         debug (Block.qc b); lit ", payload_len "; display (payload_len b); lit ")"].
#[export] Instance Block_Debug : Debug Block.t := Block_debug.

Definition Block_display (b : Block.t) : Text :=
  write [lit "B"; display (Block.height b)].
#[export] Instance Block_Display : Display Block.t := Block_display.

Definition HVote_debug (v : HVote.t) : Text :=
  write [lit "Vote(blockhash "; display (HVote.hash v); lit ", proposer ";
         display (HVote.proposer v); lit ", height "; display (HVote.height v); lit ", epoch ";
         display (HVote.epoch v); lit ",  voter "; display (HVote.author v); lit ")"].
#[export] Instance HVote_Debug : Debug HVote.t := HVote_debug.

Definition HVote_display (v : HVote.t) : Text :=
  write [lit "Vote"; display (HVote.hash v)].
#[export] Instance HVote_Display : Display HVote.t := HVote_display.

Definition PrePare_tag (p : PrePare.t) : string :=
  if PrePare.val p =? OPT then "OPT" else if PrePare.val p =? PES then "PES" else "Unkonw".

Definition PrePare_debug (p : PrePare.t) : Text :=
  write [lit "PrePare(tag "; display (PrePare_tag p); lit ", epoch "; display (PrePare.epoch p);
         lit ",height "; display (PrePare.height p); lit ", author "; display (PrePare.author p);
         lit ")"].
#[export] Instance PrePare_Debug : Debug PrePare.t := PrePare_debug.

Definition SPBValue_debug (v : SPBValue.t) : Text :=
  write [lit "SPBValue(proposer "; display (Block.author (SPBValue.block v)); lit ", epoch ";
         display (Block.epoch (SPBValue.block v)); lit ", height ";
         display (Block.height (SPBValue.block v)); lit " ,round "; display (SPBValue.round v);
         lit ", pahse "; display (SPBValue.phase v); lit ")"].
#[export] Instance SPBValue_Debug : Debug SPBValue.t := SPBValue_debug.

Definition SPBVote_debug (v : SPBVote.t) : Text :=
  write [lit "spb vote (author "; display (SPBVote.author v); lit ", height ";
         display (SPBVote.height v); lit ", round "; display (SPBVote.round v); lit ", phase ";
         display (SPBVote.phase v); lit ", proposer "; display (SPBVote.proposer v); lit ")"].
#[export] Instance SPBVote_Debug : Debug SPBVote.t := SPBVote_debug.

Definition SPBProof_debug (p : SPBProof.t) : Text :=
  write [lit "SPBProof(height "; display (SPBProof.height p); lit " ,round ";
         display (SPBProof.round p); lit ", phase "; display (SPBProof.phase p); lit ")"].
#[export] Instance SPBProof_Debug : Debug SPBProof.t := SPBProof_debug.

Definition SPBProof_display (p : SPBProof.t) : Text :=
  write [lit "SPBProof(round "; display (SPBProof.round p); lit ", phase ";
         display (SPBProof.phase p); lit ")"].
#[export] Instance SPBProof_Display : Display SPBProof.t := SPBProof_display.

Definition MDoneAndShare_debug (m : MDoneAndShare.t) : Text :=
  write [lit "Done(author "; display (MDoneAndShare.author m); lit ",height ";
         display (MDoneAndShare.height m); lit ",epoch "; display (MDoneAndShare.epoch m);
         lit ",round "; display (MDoneAndShare.round m); lit ")"].
#[export] Instance MDoneAndShare_Debug : Debug MDoneAndShare.t := MDoneAndShare_debug.

Definition PreVoteTag_debug (t : PreVoteTag) : Text := Ok (PreVoteTag_to_string t).
#[export] Instance PreVoteTag_Debug : Debug PreVoteTag := PreVoteTag_debug.
Definition PreVoteTag_display (t : PreVoteTag) : Text := Ok (PreVoteTag_to_string t).
#[export] Instance PreVoteTag_Display : Display PreVoteTag := PreVoteTag_display.
Definition MVoteTag_debug (t : MVoteTag) : Text := Ok (MVoteTag_to_string t).
#[export] Instance MVoteTag_Debug : Debug MVoteTag := MVoteTag_debug.
Definition MVoteTag_display (t : MVoteTag) : Text := Ok (MVoteTag_to_string t).
#[export] Instance MVoteTag_Display : Display MVoteTag := MVoteTag_display.

Definition MPreVote_debug (m : MPreVote.t) : Text :=
  write [lit "PreVote(author "; display (MPreVote.author m); lit ", leader ";
         display (MPreVote.leader m); lit ",epoch "; display (MPreVote.epoch m); lit ", height ";
         display (MPreVote.height m); lit ",round "; display (MPreVote.round m); lit ", tag ";
         display (MPreVote.tag m); lit ",)"].
#[export] Instance MPreVote_Debug : Debug MPreVote.t := MPreVote_debug.

Definition MVote_debug (m : MVote.t) : Text :=
  write [lit "MVote(author "; display (MVote.author m); lit ", leader "; display (MVote.leader m);
         lit ",epoch "; display (MVote.epoch m); lit ", height "; display (MVote.height m);
         lit ", round "; display (MVote.round m); lit ", tag "; display (MVote.tag m); lit ",)"].
#[export] Instance MVote_Debug : Debug MVote.t := MVote_debug.

Definition MHalt_debug (m : MHalt.t) : Text :=
  write [lit "MHalt(author "; display (MHalt.author m); lit ",epoch "; display (MHalt.epoch m);
         lit ", height "; display (MHalt.height m); lit " ,round "; display (MHalt.round m);
         lit ", leader "; display (MHalt.leader m); lit ",)"].
#[export] Instance MHalt_Debug : Debug MHalt.t := MHalt_debug.

Definition RandomnessShare_debug (s : RandomnessShare.t) : Text :=
  write [lit "RandomnessShare (author "; display (RandomnessShare.author s); lit ", height ";
         display (RandomnessShare.height s); lit ",round "; display (RandomnessShare.round s);
         lit ")"].
#[export] Instance RandomnessShare_Debug : Debug RandomnessShare.t := RandomnessShare_debug.

Definition RandomCoin_debug (c : RandomCoin.t) : Text :=
  write [lit "RandomCoin(epoch "; display (RandomCoin.epoch c); lit ", height ";
         display (RandomCoin.height c); lit ",round "; display (RandomCoin.round c);
         lit ", leader "; display (RandomCoin.leader c); lit ")"].
#[export] Instance RandomCoin_Debug : Debug RandomCoin.t := RandomCoin_debug.

Definition Payload_debug (p : Payload.t) : Text :=
  write [lit "Payload("; display (Payload.digest p); lit ", "; display (Payload.size p); lit ")"].
#[export] Instance Payload_Debug : Debug Payload.t := Payload_debug.

(** [#[derive(Debug)]]: the name of the variant with its arguments. *)
Definition variant (name : string) (args : list Text) : Text :=
  write [lit name; lit "(";
         write (match args with [] => [] | a :: l => a :: (l ≫= fun b => [lit ", "; b]) end);
         lit ")"].

Definition ConsensusMessage_debug (m : ConsensusMessage) : Text :=
  match m with
  | HsPropose b => variant "HsPropose" [debug b]
  | HSVote v => variant "HSVote" [debug v]
  | HsLoopBack b => variant "HsLoopBack" [debug b]
  | SyncRequest d k => variant "SyncRequest" [debug d; debug k]
  | SyncReply b => variant "SyncReply" [debug b]
  | SPBPropose v p => variant "SPBPropose" [debug v; debug p]
  | SPBVoteMsg v => variant "SPBVote" [debug v]
  | SPBFinsh v p => variant "SPBFinsh" [debug v; debug p]
  | SPBDoneAndShare m => variant "SPBDoneAndShare" [debug m]
  | SMVBAPreVote m => variant "SMVBAPreVote" [debug m]
  | SMVBAVote m => variant "SMVBAVote" [debug m]
  | SMVBAHalt m => variant "SMVBAHalt" [debug m]
  | ParPrePare p => variant "ParPrePare" [debug p]
  | ParLoopBack b => variant "ParLoopBack" [debug b]
  | FBPropose b => variant "FBPropose" [debug b]
  | FBVote v => variant "FBVote" [debug v]
  | FBLoopBack b => variant "FBLoopBack" [debug b]
  end.
#[export] Instance ConsensusMessage_Debug : Debug ConsensusMessage := ConsensusMessage_debug.
End Messages.

(** ** No line of the log panics *)

(** base64: the text of [n] bytes has at least [n] characters, all of them ASCII. *)
Class Base64Text `{CryptoLib} : Prop := {
  base64_length : forall bytes, (length bytes <= String.length (base64_encode bytes))%nat;
  base64_ascii : forall bytes n c,
    String.get n (base64_encode bytes) = Some c -> (Ascii.N_of_ascii c < 128)%N;
}.

Lemma get_beyond n s : String.get n s = None -> (String.length s <= n)%nat.
Proof.
  revert n. induction s as [|c s IH]; intros n; simpl; [lia|].
  destruct n as [|n]; simpl; [done|]. intros Hn%IH. lia.
Qed.

(** Text that is there. *)
Definition shown (t : Text) : Prop := exists s, t = Ok s.

Create HintDb text.

Section Shown.
Context `{CryptoLib} `{!Base64Text} `{!HashLaws}.

Lemma shown_ok s : shown (Ok s).
Proof. by exists s. Qed.

Lemma shown_write l : Forall shown l -> shown (write l).
Proof.
  induction 1 as [|t l [a ->] _ [b IH]]; [by exists ""|]. simpl. rewrite IH. by eexists.
Qed.

Lemma shown_variant name args : Forall shown args -> shown (variant name args).
Proof.
  intros Hargs. apply shown_write. repeat constructor; try apply shown_ok.
  apply shown_write. destruct Hargs as [|a l Ha Hl]; constructor; [done|].
  induction Hl as [|b l Hb _ IH]; simpl; [constructor|].
  constructor; [apply shown_ok | by constructor].
Qed.

Lemma shown_prefix bytes w :
  length bytes = 32%nat -> shown (expect w (str_get_to 16 (base64_encode bytes))).
Proof.
  intros Hl. pose proof (base64_length bytes). unfold str_get_to.
  destruct (String.get 16 _) as [c|] eqn:Hc.
  - apply base64_ascii in Hc. unfold continues.
    destruct (N.leb_spec 128 (Ascii.N_of_ascii c)); [lia|]. simpl. apply shown_ok.
  - apply get_beyond in Hc. lia.
Qed.

Lemma shown_digest d : wf_digest d -> shown (display d).
Proof. apply shown_prefix. Qed.
Lemma shown_key k : wf_key k -> shown (display k).
Proof. apply shown_prefix. Qed.
Lemma shown_hash l : shown (display (hash_bytes l)).
Proof. apply shown_digest, wf_hash_bytes. Qed.
End Shown.

#[export] Hint Resolve shown_ok shown_digest shown_key shown_hash : text.

(** The pieces of a [write!] are literals, numbers, keys and digests. *)
Ltac shown_list :=
  repeat first [apply Forall_nil_2 | apply Forall_cons_2]; solve [apply shown_ok | eauto with text].
Ltac shown_pieces := apply shown_write; shown_list.

Section Log.
Context `{CryptoLib} `{!Base64Text} `{!HashLaws}.

Lemma shown_qc q : ty_qc q -> shown (debug q).
Proof. intros []. shown_pieces. Qed.
Hint Resolve shown_qc : text.

Lemma shown_block b : ty_block b -> shown (debug b).
Proof. intros []. shown_pieces. Qed.
Lemma shown_hvote v : ty_hvote v -> shown (debug v).
Proof. intros []. shown_pieces. Qed.
Lemma shown_prepare p : ty_prepare p -> shown (debug p).
Proof. intros []. shown_pieces. Qed.
Lemma shown_value v : ty_value v -> shown (debug v).
Proof. intros [_ _ [] _ _]. shown_pieces. Qed.
Lemma shown_spb_vote v : ty_spb_vote v -> shown (debug v).
Proof. intros []. shown_pieces. Qed.
Lemma shown_proof (p : SPBProof.t) : shown (debug p).
Proof. shown_pieces. Qed.
Lemma shown_done m : ty_done m -> shown (debug m).
Proof. intros []. shown_pieces. Qed.
Lemma shown_prevote m : ty_prevote m -> shown (debug m).
Proof. intros []. shown_pieces. Qed.
Lemma shown_mvote m : ty_mvote m -> shown (debug m).
Proof. intros []. shown_pieces. Qed.
Lemma shown_halt m : ty_halt m -> shown (debug m).
Proof. intros []. shown_pieces. Qed.
Hint Resolve shown_block shown_hvote shown_prepare shown_value shown_spb_vote shown_proof
  shown_done shown_prevote shown_mvote shown_halt : text.

(** What the core and its receiver write to the log of a message never panics: every
    message whose fields are of their Rust types has a text. *)
Theorem message_text (m : ConsensusMessage) : ty_message m -> exists text, debug m = Ok text.
Proof.
  intros Hm. change (shown (debug m)).
  destruct m; simpl in Hm;
    try match type of Hm with _ /\ _ => destruct Hm end; apply shown_variant; shown_list.
Qed.
End Log.

(** ** The text of keys *)

(** The keys in a file are read as they were written, through any serializer and
    deserializer that carry strings. *)
Theorem keys_in_files `{CryptoLib} `{!Base64Laws} {E} (custom : DecodeError -> E)
    (pk : PublicKey) (sk : SecretKey) :
  Forall (fun b => 0 <= b < 256) (pk_bytes pk) -> length (pk_bytes pk) = 32%nat ->
  Forall (fun b => 0 <= b < 256) (sk_bytes sk) -> length (sk_bytes sk) = 64%nat ->
  PublicKey_deserialize custom (PublicKey_serialize Ok pk) = Ok pk /\
  SecretKey_deserialize custom (SecretKey_serialize Ok sk) = Ok sk.
Proof.
  intros Hp Hpl Hs Hsl. unfold PublicKey_deserialize, SecretKey_deserialize,
    PublicKey_serialize, SecretKey_serialize. simpl.
  unfold PublicKey_from_base64, PublicKey_to_base64, SecretKey_from_base64, SecretKey_to_base64.
  rewrite !array_base64_roundtrip by done. by destruct pk, sk.
Qed.

(** ** Witnesses *)

Lemma length_string_of l : String.length (String.string_of_list_ascii l) = length l.
Proof. induction l as [|c l IH]; simpl; [done | by rewrite IH]. Qed.

Lemma get_string_of l n c : String.get n (String.string_of_list_ascii l) = Some c -> c ∈ l.
Proof.
  revert n. induction l as [|a l IH]; intros n; simpl; [done|].
  destruct n as [|n]; simpl; [intros [= ->]; by left|]. intros Hc. right. by apply (IH n).
Qed.

#[export] Instance toy_base64_text : Base64Text.
Proof.
  constructor.
  - intros bytes. simpl. rewrite length_string_of.
    induction bytes as [|b bytes IH]; [done|]. rewrite bind_cons, length_app. simpl. lia.
  - intros bytes n c Hc. simpl in Hc. apply get_string_of in Hc.
    apply list_elem_of_bind in Hc as (b & Hc & _). unfold byte_letters in Hc.
    pose proof (N.mod_lt (Z.to_N b mod 256) 16 ltac:(lia)).
    pose proof (N.mod_lt (Z.to_N b) 256 ltac:(lia)).
    assert (Z.to_N b mod 256 / 16 < 16)%N by (apply N.Div0.div_lt_upper_bound; lia).
    apply elem_of_cons in Hc as [->|Hc%list_elem_of_singleton]; [|subst c]; rewrite N_letter; lia.
Qed.

Lemma message_text_witness :
  exists text, debug (SyncRequest (mkDigest (replicate 32 0)) (key 1)) = Ok text.
Proof. by apply message_text. Defined.
