(* ===== verification/TypeSteps.v ===== *)
(** * Every handler is typed

    The handlers of the core, the boot, the change of epochs and the event loop keep
    a well-typed state; hence every state of a node that receives values of the Rust
    types is well typed. *)

From S2P Require Import Prelude Machine Crypto Config Messages Leader Aggregator Timer Store.
From S2P Require Import Sync Core Handlers Fixture MessageFacts Types TypeFacts.

(** A struct is well typed when its fields are. *)
#[export] Hint Extern 1 (ty_block (Block.mk _ _ _ _ _ _ _ _)) => constructor; simpl : types.
#[export] Hint Extern 1 (ty_proof (SPBProof.mk _ _ _ _)) => constructor; simpl : types.
#[export] Hint Extern 1 (ty_value (SPBValue.new _ _ _ _ _)) => constructor; simpl : types.
#[export] Hint Extern 1 (ty_value (SPBValue.with_phase _ _)) => constructor; simpl : types.

Section Steps.
Context `{CryptoLib} `{NodeEnv} `{!HashLaws} `{!DalekSign} `{!MempoolTypes} `{!BincodeLaws}.

Notation M := (act Core ConsensusError).
Notation typed := (keeps ty_core).

(** The arguments of a boxed call. *)
Definition ty_call (c : rcall) : Prop :=
  match c with
  | R_process_opt_block b => ty_block b
  | R_handle_opt_vote v | R_handle_fallback_vote v => ty_hvote v
  | R_process_spb_propose v p => ty_value v /\ ty_proof p
  | R_handle_spb_vote v => ty_spb_vote v
  | R_invoke_done_and_share h r => in_u64 h /\ in_u64 r
  end.

Lemma typed_sign {A} (rec : A -> Signable) build :
  (forall svc a, build svc = Ok a -> ty_signable (rec a)) ->
  typed (signing rec build) (fun a => ty_signable (rec a)).
Proof. intros Hb. by apply typed_signing. Qed.

Lemma typed_expect {K V} `{Countable K} (P : K -> Prop) (Q : V -> Prop) w k (m : gmap K V) :
  ty_map P Q m -> typed (lift (expect w (m !! k)) : M V) Q.
Proof.
  intros Hm. apply keeps_lift. intros v. destruct (m !! k) eqn:Hk; simpl; [|done].
  intros [= <-]. by eapply ty_map_value.
Qed.

Lemma ty_add_coin e coin : ty_elector e -> ty_coin coin -> ty_elector (add_random_coin e coin).
Proof. intros (Hn & Hi & Hc) Hcoin. split_and!; simpl; ty. Qed.
#[local] Hint Resolve ty_add_coin : types.

Section Handlers.
Context (rec : rcall -> M unit).
Hypothesis rec_typed : forall c, ty_call c -> typed (rec c) any.

(** A message that one of the [new] methods has built. *)
Ltac ty_built :=
  match goal with
  | Hb : PrePare.new _ _ _ _ _ _ = _ |- _ => eapply ty_prepare_new; [..|exact Hb]; ty
  | Hb : MDoneAndShare.new _ _ _ _ _ _ = _ |- _ => eapply ty_done_new; [..|exact Hb]; ty
  | Hb : MPreVote.new _ _ _ _ _ _ _ = _ |- _ => eapply ty_prevote_new; [..|exact Hb]; ty
  | Hb : MVote.new _ _ _ _ _ _ _ = _ |- _ => eapply ty_mvote_new; [..|exact Hb]; ty
  | Hb : MHalt.new _ _ _ _ _ = _ |- _ => eapply ty_halt_new; [..|exact Hb]; ty
  end.

(** A call of a helper or a handler, with the types of its arguments. *)
Ltac typed_call :=
  lazymatch goal with
  | |- keeps _ (rec _) _ => apply rec_typed; simpl; ty
  | |- keeps _ (sleep_ms _) _ => apply typed_sleep
  | |- keeps _ (timer_reset _) _ => apply typed_timer
  | |- keeps _ (terminate_smvba _) _ => apply typed_terminate
  | |- keeps _ (check_if_exp _) _ => apply typed_check
  | |- keeps _ (transmit_opt _ _) _ => apply typed_transmit_opt; simpl; ty
  | |- keeps _ (transmit_pes _ _) _ => apply typed_transmit_pes; simpl; ty
  | |- keeps _ (process_qc _) _ => apply typed_process_qc; ty
  | |- keeps _ (commit _) _ => apply typed_commit; ty
  | |- keeps _ (record_commit _) _ => apply typed_record_commit; ty
  | |- keeps _ (store_block _) _ => apply typed_store_block; ty
  | |- keeps _ (read_store _) _ => apply typed_read_store
  | |- keeps _ (generate_proposal _ _ _ _) _ => apply typed_generate; simpl; ty
  | |- keeps _ (send_vote _ _) _ => apply typed_send_vote; simpl; ty
  | |- keeps _ (make_opt_vote _) _ => apply typed_opt_vote; ty
  | |- keeps _ (make_fallback_vote _) _ => apply typed_fallback_vote; ty
  | |- keeps _ (make_spb_vote _) _ => apply typed_spb_vote; ty
  | |- keeps _ (on_aggregator (add_hs_vote _)) _ => apply typed_add_hs; ty
  | |- keeps _ (on_aggregator (add_fallback_vote _)) _ => apply typed_add_fallback; ty
  | |- keeps _ (on_aggregator (add_spb_vote _)) _ => apply typed_add_spb; ty
  | |- keeps _ (on_aggregator (add_pre_vote _)) _ => apply typed_add_pre; ty
  | |- keeps _ (on_aggregator (add_smvba_random _ _)) _ => apply typed_add_random; ty
  | |- keeps _ (on_mempool (driver_verify _ _)) _ => apply typed_verify; ty
  | |- keeps _ (on_mempool (driver_cleanup_par _)) _ => apply typed_cleanup; ty
  | |- keeps _ (on_synchronizer (get_ancestors _)) _ => apply typed_synchronizer, keeps_ancestors; ty
  | |- keeps _ (entry _ _ _) _ =>
      eapply typed_entry; cycle 2; [intros; ty | intros; ty_state | ty | ty]
  | |- keeps _ (signing _ _) _ => apply typed_sign; intros ? ? ?; cbn [ty_signable]; ty_built
  | |- keeps _ (lift (decode_block _)) _ => apply keeps_lift; intros ? ?; eapply ty_decode; ty
  | |- keeps _ (lift (RandomnessShare.new _ _ _ _ _)) _ =>
      apply keeps_lift; intros ? ?; eapply ty_share_new; [..|eassumption]; ty
  | |- keeps _ (lift (expect _ (_ !! _))) _ => eapply typed_expect; ty
  | |- keeps _ (lift _) _ => apply typed_lift_any
  | |- keeps _ _ _ => solve [eauto 8 with typed types]
  end.

Ltac open_pairs :=
  try match goal with H : _ !! _ = Some _ |- _ => eapply ty_map_value in H; [|solve [ty]] end;
  try match goal with
  | E : MVote.tag _ = _, H : ty_mvote_tag _ |- _ => rewrite E in H; simpl in H; clear E
  | E : MPreVote.tag _ = _, H : ty_prevote_tag _ |- _ => rewrite E in H; simpl in H; clear E
  end;
  repeat match goal with
  | H : ty_pair _ _ (_, _) |- _ => destruct H as [? ?]; simpl in *
  | H : _ /\ _ |- _ => destruct H
  end.

Ltac typed_step :=
  lazymatch goal with
  | |- keeps _ (let _ := _ in _) _ => cbv zeta
  | |- keeps _ (modify _) _ => apply keeps_modify; intros ? ?;
      solve [apply ty_update_smvba; ty | ty_state]
  | |- keeps _ (if _ then _ else _) _ => keeps_step
  | |- keeps _ (match ?o with _ => _ end) _ => destruct o eqn:?; simpl in *; open_pairs
  | |- keeps _ (mret _) _ => apply keeps_ret; simpl; ty
  | |- keeps ?I (@mbind _ _ Block.t _ ?f ?m) _ =>
      apply (keeps_bind I m f ty_block); [|intros ? ?]
  | |- keeps ?I (@mbind _ _ (option MVote.t) _ ?f ?m) _ =>
      apply (keeps_bind I m f (ty_option ty_mvote)); [|intros ? ?]
  | |- keeps ?I (@mbind _ _ MPreVote.t _ ?f ?m) _ =>
      apply (keeps_bind I m f ty_prevote); [|intros ? ?]
  | |- keeps ?I (@mbind _ _ _ _ ?f (signing ?rec _)) _ =>
      apply (keeps_bind I _ f (fun a => ty_signable (rec a))); [|intros ? ?; cbn [ty_signable] in *]
  | |- keeps _ (_ ≫= _) _ => keeps_step
  | |- keeps _ (gets _) _ => keeps_step
  | |- keeps _ (when _ _) _ => keeps_step
  | |- keeps _ (throw _) _ => keeps_step
  | |- keeps _ (ensure_act _ _) _ => keeps_step
  | |- keeps _ (expect_act _ _) _ => keeps_step
  | |- keeps _ (ignore_err _) _ => keeps_step
  | |- keeps _ _ _ => typed_call
  end.

Ltac typed_auto := repeat typed_step.

Create HintDb typed.

Lemma typed_opt_propose : typed (opt_propose rec) any.
Proof. unfold opt_propose. solve [typed_auto]. Qed.
#[local] Hint Resolve typed_opt_propose : typed.

Lemma typed_opt_proposal b : ty_block b -> typed (handle_opt_proposal rec b) any.
Proof. intros Hb. unfold handle_opt_proposal. solve [typed_auto]. Qed.

Lemma typed_handle_opt_vote v : ty_hvote v -> typed (handle_opt_vote rec v) any.
Proof. intros Hv. unfold handle_opt_vote. solve [typed_auto]. Qed.

Lemma typed_broadcast_pes v p :
  ty_value v -> ty_proof p -> typed (broadcast_pes_propose rec v p) any.
Proof. intros Hv Hp. unfold broadcast_pes_propose. solve [typed_auto]. Qed.
#[local] Hint Resolve typed_broadcast_pes : typed.

Lemma typed_invoke_smvba h val sigs qc :
  in_u64 h -> in_u8 val -> ty_votes sigs -> ty_option ty_qc qc ->
  typed (invoke_smvba rec h val sigs qc) any.
Proof. intros Hh Hv Hs Hq. unfold invoke_smvba. solve [typed_auto]. Qed.
#[local] Hint Resolve typed_invoke_smvba : typed.

Lemma typed_fast_commit p : ty_prepare p -> typed (fast_commit p) any.
Proof. intros Hp. unfold fast_commit. solve [typed_auto]. Qed.
#[local] Hint Resolve typed_fast_commit : typed.

Lemma typed_par_prepare p : ty_prepare p -> typed (handle_par_prepare rec p) any.
Proof. intros Hp. unfold handle_par_prepare. solve [typed_auto]. Qed.
#[local] Hint Resolve typed_par_prepare : typed.

Lemma typed_active_prepare h qc val :
  in_u64 h -> ty_qc qc -> in_u8 val -> typed (active_prepare_phase rec h qc val) any.
Proof. intros Hh Hq Hv. unfold active_prepare_phase. solve [typed_auto]. Qed.
#[local] Hint Resolve typed_active_prepare : typed.

Lemma typed_process_fallback b : ty_block b -> typed (process_fallback_propose rec b) any.
Proof. intros Hb. unfold process_fallback_propose. solve [typed_auto]. Qed.
#[local] Hint Resolve typed_process_fallback : typed.

Lemma typed_broadcast_fallback b : ty_block b -> typed (broadcast_fallback_propose rec b) any.
Proof. intros Hb. unfold broadcast_fallback_propose. solve [typed_auto]. Qed.
#[local] Hint Resolve typed_broadcast_fallback : typed.

Lemma typed_invoke_fallback h qc :
  in_u64 h -> ty_option ty_qc qc -> typed (invoke_fallback rec h qc) any.
Proof. intros Hh Hq. unfold invoke_fallback. solve [typed_auto]. Qed.
#[local] Hint Resolve typed_invoke_fallback : typed.

Lemma typed_handle_fallback_vote v : ty_hvote v -> typed (handle_fallback_vote rec v) any.
Proof. intros Hv. unfold handle_fallback_vote. solve [typed_auto]. Qed.
#[local] Hint Resolve typed_handle_fallback_vote : typed.

Lemma typed_fallback_propose b : ty_block b -> typed (handle_fallback_propose rec b) any.
Proof. intros Hb. unfold handle_fallback_propose. solve [typed_auto]. Qed.
#[local] Hint Resolve typed_fallback_propose : typed.

Lemma typed_process_opt_block b : ty_block b -> typed (process_opt_block rec b) any.
Proof. intros Hb. unfold process_opt_block. solve [typed_auto]. Qed.
#[local] Hint Resolve typed_process_opt_block : typed.

Lemma typed_process_spb v p :
  ty_value v -> ty_proof p -> typed (process_spb_propose rec v p) any.
Proof. intros Hv Hp. unfold process_spb_propose. solve [typed_auto]. Qed.
#[local] Hint Resolve typed_process_spb : typed.

Lemma typed_spb_proposal v p :
  ty_value v -> ty_proof p -> typed (handle_spb_proposal rec v p) any.
Proof. intros Hv Hp. unfold handle_spb_proposal. solve [typed_auto]. Qed.

Lemma typed_spb_finish v p :
  ty_value v -> ty_proof p -> typed (handle_spb_finish rec v p) any.
Proof. intros Hv Hp. unfold handle_spb_finish. solve [typed_auto]. Qed.
#[local] Hint Resolve typed_spb_finish : typed.

Lemma typed_handle_spb_vote v : ty_spb_vote v -> typed (handle_spb_vote rec v) any.
Proof. intros Hv. unfold handle_spb_vote. solve [typed_auto]. Qed.

Lemma typed_par_out b : ty_block b -> typed (process_par_out rec b) any.
Proof. intros Hb. unfold process_par_out. solve [typed_auto]. Qed.
#[local] Hint Resolve typed_par_out : typed.

Lemma typed_halt m : ty_halt m -> typed (handle_smvba_halt rec m) any.
Proof. intros Hm. unfold handle_smvba_halt. solve [typed_auto]. Qed.
#[local] Hint Resolve typed_halt : typed.

Lemma typed_round_advance h r : in_u64 h -> in_u64 r -> typed (smvba_round_advance rec h r) any.
Proof. intros Hh Hr. unfold smvba_round_advance. solve [typed_auto]. Qed.
#[local] Hint Resolve typed_round_advance : typed.

Lemma typed_mvote m : ty_mvote m -> typed (handle_smvba_mvote rec m) any.
Proof. intros Hm. pose proof (tm_tag m Hm). unfold handle_smvba_mvote. solve [typed_auto]. Qed.
#[local] Hint Resolve typed_mvote : typed.

Lemma typed_prevote m : ty_prevote m -> typed (handle_smvba_prevote rec m) any.
Proof. intros Hm. pose proof (tr_tag m Hm). unfold handle_smvba_prevote. solve [typed_auto]. Qed.
#[local] Hint Resolve typed_prevote : typed.

Lemma typed_rs m : ty_share m -> typed (handle_smvba_rs rec m) any.
Proof. intros Hm. unfold handle_smvba_rs. solve [typed_auto]. Qed.
#[local] Hint Resolve typed_rs : typed.

Lemma typed_done m : ty_done m -> typed (handle_smvba_done rec m) any.
Proof. intros Hm. unfold handle_smvba_done. solve [typed_auto]. Qed.
#[local] Hint Resolve typed_done : typed.

Lemma typed_done_with_share m : ty_done m -> typed (handle_smvba_done_with_share rec m) any.
Proof. intros Hm. unfold handle_smvba_done_with_share. solve [typed_auto]. Qed.
#[local] Hint Resolve typed_done_with_share : typed.

Lemma typed_invoke_done h r : in_u64 h -> in_u64 r -> typed (invoke_done_and_share rec h r) any.
Proof. intros Hh Hr. unfold invoke_done_and_share. solve [typed_auto]. Qed.
End Handlers.

#[local] Hint Resolve typed_opt_propose typed_opt_proposal typed_handle_opt_vote
  typed_handle_fallback_vote typed_fallback_propose typed_process_fallback
  typed_process_opt_block typed_process_spb typed_spb_proposal typed_spb_finish
  typed_handle_spb_vote typed_par_prepare typed_par_out typed_halt typed_mvote typed_prevote
  typed_done_with_share typed_invoke_done typed_invoke_fallback typed_sync_request : typed.

(** ** Runs *)

Lemma typed_exec fuel c : ty_call c -> typed (exec fuel c) any.
Proof.
  revert c. induction fuel as [|fuel IH]; intros c Hc; [by apply keeps_lift|].
  change (exec (S fuel) c) with (run_call (exec fuel) c).
  destruct c; simpl in *; destruct_and?; auto with typed.
Qed.
#[local] Hint Resolve typed_exec : typed.

Lemma typed_dispatch fuel i : ty_input i -> typed (dispatch fuel i) any.
Proof.
  intros Hi. destruct i as [m|m|]; [destruct m..|]; simpl in *; destruct_and?;
    first [by apply keeps_ret | auto with typed].
Qed.

Lemma typed_run_boot fuel : typed (run_boot fuel) any.
Proof.
  unfold run_boot. do 2 keeps_step. keeps_step.
  - keeps_step; [|by keeps_step]. do 3 keeps_step.
    eapply keeps_bind; [apply typed_index|]. intros [i|] _; [|by keeps_step].
    keeps_step; [keeps_step; auto with typed | keeps_step; apply typed_timer].
  - keeps_step. keeps_step; [|by keeps_step]. do 2 keeps_step. keeps_step.
    apply typed_invoke_fallback; simpl; ty. auto with typed.
Qed.

Lemma typed_drain l : Forall (ty_pair in_u64 ty_message) l -> typed (drain l) any.
Proof.
  induction 1 as [|[e m] l [He Hm] Hl IH]; simpl in *; [by keeps_step|].
  keeps_step; [keeps_step; intros ? ?; ty_state|]. keeps_step. keeps_step; [|done].
  destruct m; try (by keeps_step); (keeps_step; [keeps_step; intros ? ?; ty_state | done]).
Qed.

Lemma typed_next_epoch fuel : typed (next_epoch fuel) any.
Proof.
  unfold next_epoch. keeps_step.
  keeps_step; [keeps_step; intros ? ?; apply ty_epoch_init; ty|]. keeps_step.
  keeps_step; [apply typed_drain; ty | apply typed_run_boot].
Qed.

Lemma ty_node_event fuel ev s : ty_core s -> ty_event ev -> ty_core (node_event fuel ev s).2.
Proof.
  intros Hs He. destruct ev as [i|d|k v]; simpl.
  - destruct (typed_dispatch fuel i He s Hs) as [Hs1 _].
    destruct (dispatch fuel i s) as [r s1]. simpl in Hs1. destruct (after r); simpl; try exact Hs1.
    destruct (typed_next_epoch fuel s1 Hs1) as [Hs2 _]. by destruct (next_epoch fuel s1).
  - ty_state.
  - ty_state. by apply map_Forall_insert_2.
Qed.

Lemma typed_run_core core s : ty_core core -> typed_run core s -> ty_core s.
Proof.
  intros Hc. induction 1 as [n|n ev s _ IH He]; [by apply typed_run_boot | by apply ty_node_event].
Qed.

(** Types.  A node that is started with well-typed values and receives well-typed
    messages stays well typed: every integer of its state is in the range of its
    Rust type, every key, digest and signature has its length, in every collection,
    and so is everything it signs, sends, stores and commits. *)
Theorem node_stays_typed (k : PublicKey) (c : Committee) (ps : Parameters)
    (svc : SignatureService) (pks : PublicKeySet) (st : StoreClient) (opt pes : bool)
    (now : Z) (s : Core) :
  wf_key k -> ty_committee c -> in_u64 (fallback_length ps) -> ty_store st ->
  typed_run (Core_new k c ps svc pks st (LeaderElector_new c (leader_window ps)) opt pes now) s ->
  ty_core s.
Proof.
  intros Hk Hc Hl Hst. apply typed_run_core, ty_core_new; try done. by apply ty_elector_new.
Qed.
End Steps.
