(* ===== verification/Spec.v ===== *)
(** * What the core promises: the abstract node

    An abstract node keeps the few quantities safety depends on: epoch, height,
    the highest height voted on, the highest height committed, the log of signed
    messages, the committed blocks and the block store.  [astep] lists what a node
    may do within an epoch; [aepoch] starts the next one.  [Refine.v] shows that
    the handlers of the core only make these steps; the invariants here are proved
    on the abstract node once. *)

From S2P Require Import Prelude Machine Crypto Config Messages Store Sync Core.

Section Spec.
Context `{CryptoLib} `{NodeEnv}.

Record anode : Type := mkANode {
  a_name : PublicKey;
  a_epoch : Z;
  a_height : Z;
  a_last_voted : Z;
  a_last_committed : Z;
  a_signed : list Signable;
  a_commits : list Block.t;
  a_db : gmap Key Value;
}.

#[export] Instance anode_eta : Settable anode := fun r =>
  mkANode (a_name r) (a_epoch r) (a_height r) (a_last_voted r) (a_last_committed r)
    (a_signed r) (a_commits r) (a_db r).

(** A vote of the optimistic path. *)
Definition is_opt_vote (m : Signable) : bool :=
  match m with SignedHVote v => HVote.tag v =? OPT | _ => false end.

(** Steps within an epoch. *)
Inductive astep : anode -> anode -> Prop :=
| A_vote a v :
    a_last_voted a < HVote.height v ->
    HVote.height v = a_height a -> HVote.epoch v = a_epoch a ->
    HVote.tag v = OPT -> HVote.author v = a_name a ->
    astep a (a <| a_last_voted := HVote.height v |>
               <| a_signed := a_signed a ++ [SignedHVote v] |>)
| A_skip a h : a_last_voted a < h -> astep a (a <| a_last_voted := h |>)
| A_sign a m : is_opt_vote m = false -> astep a (a <| a_signed := a_signed a ++ [m] |>)
| A_advance a h : a_height a <= h -> astep a (a <| a_height := h +64 1 |>)
| A_commit a b :
    a_last_committed a < Block.height b ->
    astep a (a <| a_last_committed := Block.height b |>
               <| a_commits := a_commits a ++ [b] |>)
| A_store a b :
    astep a (a <| a_db := <[Digest_to_vec (Block.digest b) := serialize_block b]> (a_db a) |>).

(** The start of the next epoch. *)
Definition next_aepoch (a : anode) : anode :=
  a <| a_epoch := a_epoch a +64 1 |> <| a_height := 1 |>
    <| a_last_voted := 0 |> <| a_last_committed := 0 |>.

(** A write to the shared store by another task. *)
Definition foreign_write (k : Key) (v : Value) (a : anode) : anode :=
  a <| a_db := <[k := v]> (a_db a) |>.

(** A run across epochs; the epoch counter has not come round. *)
Inductive arun : anode -> anode -> Prop :=
| arun_refl a : arun a a
| arun_step a b c : arun a b -> astep b c -> arun a c
| arun_epoch a b : arun a b -> a_epoch b < u64_max -> arun a (next_aepoch b)
| arun_foreign a b k v : arun a b -> arun a (foreign_write k v b).

(** A node before its first epoch starts. *)
Definition a_init (n : PublicKey) (db : gmap Key Value) : anode :=
  mkANode n 0 1 0 0 [] [] db.

(** ** Frame properties of steps *)

Lemma astep_epoch a b : astep a b -> a_epoch b = a_epoch a /\ a_name b = a_name a.
Proof. by destruct 1. Qed.

Lemma rtc_astep_epoch a b : rtc astep a b -> a_epoch b = a_epoch a /\ a_name b = a_name a.
Proof.
  induction 1 as [|a b c Hs _ IH]; [done|]. apply astep_epoch in Hs. naive_solver congruence.
Qed.

Lemma arun_rtc a b c : arun a b -> rtc astep b c -> arun a c.
Proof.
  intros Hr Hs. induction Hs as [|b b' c Hs _ IH]; [done|]. apply IH. by eapply arun_step.
Qed.

Lemma arun_trans a b c : arun a b -> arun b c -> arun a c.
Proof.
  intros Hab Hbc. induction Hbc as [b|b c d _ IH Hs|b c _ IH Hm|b c k v _ IH].
  - done.
  - eapply arun_step; [by apply IH | done].
  - apply arun_epoch; [by apply IH | done].
  - apply arun_foreign. by apply IH.
Qed.

(** ** Commits *)

Definition heights (l : list Block.t) : list Z := Block.height <$> l.

(** Within an epoch the blocks committed come in strictly increasing height, above
    what was committed before. *)
Lemma rtc_astep_commits a b :
  rtc astep a b ->
  exists l, a_commits b = a_commits a ++ l /\
    increasing (a_last_committed a) (heights l) /\
    a_last_committed b = last_or (a_last_committed a) (heights l).
Proof.
  induction 1 as [a|a a' b Hs _ (l & Hl & Hinc & Hlast)].
  - exists []. by rewrite app_nil_r.
  - destruct Hs; simpl in *; try (by exists l).
    exists (b0 :: l). rewrite Hl, <- app_assoc. repeat split; done.
Qed.

(** ** Votes *)

(** The heights of the optimistic votes of a log, in order. *)
Definition opt_vote_of (m : Signable) : option HVote.t :=
  match m with
  | SignedHVote v => if HVote.tag v =? OPT then Some v else None
  | _ => None
  end.

Definition opt_votes (l : list Signable) : list HVote.t := omap opt_vote_of l.

Lemma opt_votes_app l k : opt_votes (l ++ k) = opt_votes l ++ opt_votes k.
Proof. apply omap_app. Qed.

Lemma opt_votes_elem v l :
  v ∈ opt_votes l <-> SignedHVote v ∈ l /\ HVote.tag v = OPT.
Proof.
  unfold opt_votes. rewrite list_elem_of_omap. split.
  - intros (m & Hm & Hv). destruct m; simpl in Hv; try done.
    destruct (HVote.tag v0 =? OPT) eqn:Ht; [|done]. injection Hv as ->.
    by apply Z.eqb_eq in Ht.
  - intros [Hin Ht]. eexists; split; [done|]. simpl. by rewrite Ht.
Qed.

Lemma opt_votes_other m : is_opt_vote m = false -> opt_votes [m] = [].
Proof. unfold opt_votes, is_opt_vote. destruct m; simpl; try done. by intros ->. Qed.

Lemma opt_votes_vote v : HVote.tag v = OPT -> opt_votes [SignedHVote v] = [v].
Proof. unfold opt_votes. simpl. by intros ->. Qed.

(** Within an epoch the optimistic votes signed carry that epoch and this node's
    name, and their heights strictly increase. *)
Lemma rtc_astep_votes a b :
  rtc astep a b ->
  exists l, a_signed b = a_signed a ++ l /\
    increasing (a_last_voted a) (HVote.height <$> opt_votes l) /\
    last_or (a_last_voted a) (HVote.height <$> opt_votes l) <= a_last_voted b /\
    Forall (fun v => HVote.epoch v = a_epoch a /\ HVote.author v = a_name a) (opt_votes l).
Proof.
  induction 1 as [a|a a' b Hs _ (l & Hl & Hinc & Hlast & Hall)].
  - exists []. rewrite app_nil_r. simpl. repeat split; [lia | constructor].
  - destruct Hs; simpl in *.
    + exists (SignedHVote v :: l). rewrite Hl, <- app_assoc. split; [done|].
      change (SignedHVote v :: l) with ([SignedHVote v] ++ l).
      rewrite opt_votes_app, opt_votes_vote by done. csimpl.
      repeat split; [done.. |]. constructor; [done | exact Hall].
    + exists l. repeat split; [done | | | done].
      * destruct (HVote.height <$> opt_votes l); simpl in *; [done | split; [lia | tauto]].
      * destruct (HVote.height <$> opt_votes l); simpl in *; lia.
    + exists (m :: l). rewrite Hl, <- app_assoc. split; [done|].
      change (m :: l) with ([m] ++ l). rewrite opt_votes_app, opt_votes_other by done.
      simpl. done.
    + by exists l.
    + by exists l.
    + by exists l.
Qed.

(** The invariant across epochs: votes of past and current epochs. *)
Record vote_inv (a : anode) : Prop := {
  vi_epoch : Forall (fun v => HVote.epoch v <= a_epoch a /\ HVote.author v = a_name a)
               (opt_votes (a_signed a));
  vi_height : Forall (fun v => HVote.epoch v = a_epoch a -> HVote.height v <= a_last_voted a)
                (opt_votes (a_signed a));
  vi_once : forall v w, v ∈ opt_votes (a_signed a) -> w ∈ opt_votes (a_signed a) ->
    HVote.epoch v = HVote.epoch w -> HVote.height v = HVote.height w -> v = w;
}.

Lemma vote_inv_init n db : vote_inv (a_init n db).
Proof. constructor; simpl; [constructor | constructor | set_solver]. Qed.

Lemma vote_inv_step a b : vote_inv a -> astep a b -> vote_inv b.
Proof.
  intros [He Hh Ho] Hs.
  destruct Hs as [a v Hlt Hht Hep Htag Haut|a h Hlt|a m Hm|a h|a b|a b]; simpl in *;
    try by constructor.
  - constructor; simpl; rewrite ?opt_votes_app, ?opt_votes_vote by done.
    + apply Forall_app; split; [done|]. repeat constructor; [lia | done].
    + apply Forall_app; split; [|repeat constructor; lia].
      eapply Forall_impl; [exact Hh|]. simpl. intros w Hw Hwe. specialize (Hw Hwe). lia.
    + rewrite Forall_forall in Hh. intros w1 w2. rewrite !elem_of_app, !list_elem_of_singleton.
      intros [H1| ->] [H2| ->] Hwe Hwh; [by apply Ho | | | done].
      * pose proof (Hh w1 H1 ltac:(congruence)). lia.
      * pose proof (Hh w2 H2 ltac:(congruence)). lia.
  - constructor; simpl; [done | | done].
    eapply Forall_impl; [exact Hh|]. simpl. intros w Hw Hwe. specialize (Hw Hwe). lia.
  - constructor; simpl; rewrite opt_votes_app, opt_votes_other, app_nil_r by done; done.
Qed.

Lemma vote_inv_run a b :
  0 <= a_epoch a -> vote_inv a -> arun a b -> vote_inv b /\ 0 <= a_epoch b.
Proof.
  intros Hpos Hinv Hr. induction Hr as [a|a b c _ IH Hs|a b _ IH Hmax|a b k v _ IH]; [done|..].
  - destruct (IH Hpos Hinv) as [Hb Hb0]. split; [by eapply vote_inv_step|].
    apply astep_epoch in Hs as [-> _]. done.
  - destruct (IH Hpos Hinv) as [[He Hh Ho] Hb0]. unfold u64_max in Hmax.
    unfold next_aepoch. split; [|simpl; rewrite wrap64_small; lia].
    constructor; simpl; rewrite ?wrap64_small by lia.
    + eapply Forall_impl; [exact He|]. simpl. intros v [? ?]. split; [lia | done].
    + eapply Forall_impl; [exact He|]. simpl. intros v [? ?] ?. lia.
    + done.
  - destruct (IH Hpos Hinv) as [[He Hh Ho] Hb0]. by split; [constructor|].
Qed.
End Spec.
