(* ===== verification/Refine.v ===== *)
(** * The core refines the abstract node

    [abstract] maps the state of the core to an abstract node.  A method is
    [quiet] when it leaves the abstract node unchanged, and [safe e] when, started
    in epoch [e], whatever its outcome, it only makes abstract steps.  Every
    handler is shown safe, then the event loop. *)

From S2P Require Import Prelude Machine Crypto Config Messages Leader Aggregator Timer Store.
From S2P Require Import Sync Core Handlers Types Spec.

Section Refine.
Context `{CryptoLib} `{NodeEnv}.

Notation M := (act Core ConsensusError).

Definition abstract (s : Core) : anode :=
  mkANode (name s) (epoch s) (height s) (last_voted_height s) (last_committed_height s)
    (signed s) (commit_channel s) (kv (store s)).

Definition quiet {A} (m : M A) : Prop := forall s, abstract (m s).2 = abstract s.

Definition safe (e : Z) {A} (m : M A) : Prop :=
  forall s, epoch s = e -> rtc astep (abstract s) (abstract (m s).2).

(** ** Quiet methods *)

Lemma quiet_ret {A} (a : A) : quiet (mret a).
Proof. done. Qed.
Lemma quiet_lift {A} (m : ConsensusResult A) : quiet (lift m).
Proof. done. Qed.
Lemma quiet_gets {A} (f : Core -> A) : quiet (gets f).
Proof. done. Qed.
Lemma quiet_throw {A} x : quiet (throw x : M A).
Proof. done. Qed.
Lemma quiet_ensure b x : quiet (ensure_act b x).
Proof. done. Qed.
Lemma quiet_modify f : (forall s, abstract (f s) = abstract s) -> quiet (modify f).
Proof. intros Hf s. apply Hf. Qed.

Lemma quiet_bind {A B} (m : M A) (f : A -> M B) :
  quiet m -> (forall a, quiet (f a)) -> quiet (m ≫= f).
Proof.
  intros Hm Hf s. unfold mbind, act_bind. specialize (Hm s).
  destruct (m s) as [[a|x|w|] s']; simpl in *; [by rewrite Hf | done..].
Qed.

Lemma quiet_when b (m : M unit) : (b = true -> quiet m) -> quiet (when b m).
Proof. destruct b; intros Hm; [by apply Hm | apply quiet_ret]. Qed.

Lemma quiet_zoom {T A} (get : Core -> T) put (m : act T ConsensusError A) :
  (forall t s, abstract (put t s) = abstract s) -> quiet (zoom get put m).
Proof. intros Hput s. unfold zoom. destruct (m (get s)). apply Hput. Qed.

Lemma quiet_entry {K V} `{Countable K} (proj : Core -> gmap K V) `{!Setter proj} k d :
  (forall f s, abstract (set proj f s) = abstract s) -> quiet (entry proj k d).
Proof.
  intros Hset. apply quiet_bind; [apply quiet_gets|]. intros m.
  destruct (m !! k); [apply quiet_ret|]. apply quiet_bind; [|intros; apply quiet_ret].
  apply quiet_modify. intros s. apply Hset.
Qed.

Lemma quiet_mempool {A} (m : act _ _ A) : quiet (on_mempool m).
Proof. by apply quiet_zoom. Qed.
Lemma quiet_aggregator {A} (m : act _ _ A) : quiet (on_aggregator m).
Proof. by apply quiet_zoom. Qed.
Lemma quiet_sleep d : quiet (sleep_ms d).
Proof. by apply quiet_modify. Qed.
Lemma quiet_timer d : quiet (timer_reset d).
Proof. by apply quiet_modify. Qed.
Lemma quiet_transmit_opt m to : quiet (transmit_opt m to).
Proof. repeat (apply quiet_bind; [apply quiet_gets | intros]). by apply quiet_zoom. Qed.
Lemma quiet_transmit_pes m to : quiet (transmit_pes m to).
Proof. repeat (apply quiet_bind; [apply quiet_gets | intros]). by apply quiet_zoom. Qed.
Lemma quiet_terminate h : quiet (terminate_smvba h).
Proof. by apply quiet_modify. Qed.
Lemma quiet_high_qc qc : quiet (update_high_qc qc).
Proof. apply quiet_modify. intros s. by destruct (_ <? _). Qed.
Lemma quiet_check_if_exp f : quiet (check_if_exp f).
Proof.
  apply quiet_bind; [apply quiet_gets|]. intros []; [|apply quiet_ret].
  apply quiet_bind; [apply quiet_gets | intros; apply quiet_lift].
Qed.

(** The store client and the synchronizer read without writing the map. *)
Definition kv_quiet {A} (m : act StoreClient ConsensusError A) : Prop :=
  forall st, kv (m st).2 = kv st.

Lemma store_read_kv k : kv_quiet (store_read k).
Proof. intros st. unfold store_read, mbind, act_bind. simpl. by destruct (db_get_fault _). Qed.

Lemma quiet_read_store k : quiet (read_store k).
Proof.
  intros s. unfold read_store, zoom. pose proof (store_read_kv k (store s)) as Hkv.
  destruct (store_read k (store s)). unfold abstract. simpl in *. by rewrite Hkv.
Qed.

Lemma get_parent_kv block st : kv (get_parent_block block st).2.1 = kv st.1.
Proof.
  unfold get_parent_block. destruct (QC.eqb _ _); [done|].
  unfold mbind, act_bind, on_store, zoom.
  pose proof (store_read_kv (Digest_to_vec (Block.parent block)) st.1) as Hkv.
  destruct (store_read _ _) as [[[bytes|]|x|w|] st']; simpl in *; try done.
  unfold lift. by destruct (decode_block bytes).
Qed.

Lemma get_ancestors_kv block st : kv (get_ancestors block st).2.1 = kv st.1.
Proof.
  unfold get_ancestors, mbind, act_bind. pose proof (get_parent_kv block st) as Hkv.
  destruct (get_parent_block block st) as [[[b1|]|x|w|] st']; simpl in *; try done.
  pose proof (get_parent_kv b1 st') as Hkv'.
  destruct (get_parent_block b1 st') as [[r0|x|w|] st'']; simpl in *; try congruence.
  unfold lift. destruct r0; simpl; congruence.
Qed.

Lemma quiet_synchronizer {A} (m : act _ _ A) :
  (forall st, kv (m st).2.1 = kv st.1) -> quiet (on_synchronizer m).
Proof.
  intros Hm s. unfold on_synchronizer, zoom. specialize (Hm (store s, synchronizer s)).
  destruct (m _) as [r [st sy]]. unfold abstract. simpl in *. by rewrite Hm.
Qed.

Lemma quiet_commit_loop n block : quiet (commit_loop n block).
Proof.
  revert block; induction n as [|n IH]; intros block; simpl; [apply quiet_lift|].
  apply quiet_bind; [apply quiet_gets|]. intros last.
  destruct (_ <? _); [|apply quiet_ret].
  apply quiet_bind; [apply quiet_when; intros; apply quiet_mempool|]. intros _.
  apply quiet_bind; [apply quiet_synchronizer, get_parent_kv|].
  intros [b|]; [apply IH | apply quiet_ret].
Qed.

Lemma quiet_commit block : quiet (commit block).
Proof. apply quiet_bind; [apply quiet_gets | intros; apply quiet_commit_loop]. Qed.

(** ** Safe methods: composition *)

Lemma quiet_safe e {A} (m : M A) : quiet m -> safe e m.
Proof. intros Hq s _. by rewrite Hq. Qed.

Lemma safe_epoch e {A} (m : M A) s : safe e m -> epoch s = e -> epoch (m s).2 = e.
Proof.
  intros Hm He. pose proof (rtc_astep_epoch _ _ (Hm s He)) as [Heq _]. simpl in Heq. congruence.
Qed.

(** The continuation may use what the first part has read and left. *)
Lemma safe_bind_at e {A B} (m : M A) (f : A -> M B) s :
  safe e m -> epoch s = e ->
  (forall a s', m s = (Ok a, s') -> epoch s' = e ->
     rtc astep (abstract s') (abstract (f a s').2)) ->
  rtc astep (abstract s) (abstract ((m ≫= f) s).2).
Proof.
  intros Hm He Hf. unfold mbind, act_bind.
  pose proof (Hm s He) as Hs. pose proof (safe_epoch e m s Hm He) as He'.
  destruct (m s) as [[a|x|w|] s'] eqn:Hms; simpl in *; try done.
  etrans; [exact Hs | by apply Hf].
Qed.

Lemma safe_bind e {A B} (m : M A) (f : A -> M B) :
  safe e m -> (forall a, safe e (f a)) -> safe e (m ≫= f).
Proof. intros Hm Hf s He. apply (safe_bind_at e); [done..|]. intros. by apply Hf. Qed.

(** Reading the state: the continuation knows what was read. *)
Lemma safe_gets_at {A B} (g : Core -> A) (f : A -> M B) s :
  rtc astep (abstract s) (abstract (f (g s) s).2) ->
  rtc astep (abstract s) (abstract ((gets g ≫= f) s).2).
Proof. done. Qed.

(** In epoch [e] the epoch read is [e]. *)
Lemma safe_gets_epoch e {B} (f : Z -> M B) : safe e (f e) -> safe e (gets epoch ≫= f).
Proof. intros Hf s He. apply safe_gets_at. rewrite He. by apply Hf. Qed.

Lemma safe_when e b (m : M unit) : (b = true -> safe e m) -> safe e (when b m).
Proof. destruct b; intros Hm; [by apply Hm | apply quiet_safe, quiet_ret]. Qed.

Lemma safe_expect e w {A} (m : M A) : safe e m -> safe e (expect_act w m).
Proof.
  intros Hm s He. specialize (Hm s He). unfold expect_act. by destruct (m s) as [[]].
Qed.

Lemma safe_ignore e (m : M unit) : safe e m -> safe e (ignore_err m).
Proof.
  intros Hm s He. specialize (Hm s He). unfold ignore_err. by destruct (m s) as [[]].
Qed.

(** Signing anything but an optimistic vote. *)
Lemma safe_signing e {A} (rec : A -> Signable) build :
  (forall svc a, build svc = Ok a -> is_opt_vote (rec a) = false) -> safe e (signing rec build).
Proof.
  intros Hrec s He. unfold signing, mbind, act_bind, gets, lift.
  destruct (build _) as [a|x|w|] eqn:Hb; simpl; [|done..].
  apply rtc_once. apply (A_sign (abstract s)). by eapply Hrec.
Qed.

Lemma safe_store_block e b : safe e (store_block b).
Proof. intros s He. apply rtc_once, (A_store (abstract s)). Qed.
End Refine.

(** ** Automation

    [safe_auto] follows the structure of a method: binds, branches, and the
    methods the [preserve] database knows to be quiet or safe. *)

#[export] Hint Resolve quiet_ret quiet_lift quiet_gets quiet_throw quiet_ensure quiet_mempool
  quiet_aggregator quiet_sleep quiet_timer quiet_transmit_opt quiet_transmit_pes
  quiet_terminate quiet_high_qc quiet_check_if_exp quiet_read_store quiet_commit : preserve.
#[export] Hint Resolve safe_store_block : preserve.
#[export] Hint Extern 1 (quiet (modify _)) => apply quiet_modify; intros; reflexivity : preserve.
#[export] Hint Extern 1 (quiet (entry _ _ _)) => apply quiet_entry; intros; reflexivity : preserve.
#[export] Hint Extern 1 (quiet (on_synchronizer _)) =>
  apply quiet_synchronizer; first [apply get_parent_kv | apply get_ancestors_kv] : preserve.

Ltac safe_leaf :=
  match goal with
  | |- safe _ _ => solve [eauto 3 with preserve nocore | apply quiet_safe; eauto 3 with preserve nocore]
  | |- quiet _ => solve [eauto 3 with preserve nocore]
  end.

Ltac safe_step :=
  match goal with
  | |- safe _ (let _ := _ in _) => cbv zeta
  | |- safe _ (gets epoch ≫= _) => apply safe_gets_epoch
  | |- safe _ (_ ≫= _) => apply safe_bind; [try safe_leaf | intros ?]
  | |- safe _ (when _ _) => apply safe_when; intros ?
  | |- safe _ (expect_act _ _) => apply safe_expect
  | |- safe _ (ignore_err _) => apply safe_ignore
  | |- safe _ (if ?b then _ else _) => destruct b eqn:?
  | |- safe _ (match ?x with _ => _ end) => destruct x eqn:?
  | |- safe _ _ => safe_leaf
  end.

Ltac safe_auto := repeat safe_step.

(** ** The handlers are safe *)

Section HandlersSafe.
Context `{CryptoLib} `{NodeEnv}.

Notation M := (act Core ConsensusError).

(** A bind whose first part ensures something of its result. *)
Lemma safe_bind_post e {A B} (P : A -> Prop) (m : M A) (f : A -> M B) :
  safe e m ->
  (forall s a s', epoch s = e -> m s = (Ok a, s') -> P a) ->
  (forall a, P a -> safe e (f a)) -> safe e (m ≫= f).
Proof.
  intros Hm HP Hf s He. apply (safe_bind_at e); [done..|].
  intros a s' Hr He'. apply Hf; [by apply (HP s a s') | done].
Qed.

(** What the constructors put into what they sign. *)
Lemma block_new_fields qc author h e round payload svc tag b :
  Block.new qc author h e round payload svc tag = Ok b ->
  Block.qc b = qc /\ Block.author b = author /\ Block.height b = h /\ Block.epoch b = e /\
  Block.round b = round /\ Block.payload b = payload /\ Block.tag b = tag.
Proof. unfold Block.new. destruct (sign_with _ _); simpl; intros [= <-]; done. Qed.

Lemma hvote_new_fields block author tag svc v :
  HVote.new block author tag svc = Ok v ->
  HVote.hash v = Block.digest block /\ HVote.height v = Block.height block /\
  HVote.epoch v = Block.epoch block /\ HVote.round v = Block.round block /\
  HVote.proposer v = Block.author block /\ HVote.tag v = tag /\ HVote.author v = author.
Proof. unfold HVote.new. destruct (sign_with _ _); simpl; intros [= <-]; done. Qed.

Lemma safe_generate_proposal e h round qc tag : safe e (generate_proposal h round qc tag).
Proof. unfold generate_proposal. safe_auto. by apply safe_signing. Qed.

Lemma generate_proposal_fields h round qc tag s b s' :
  generate_proposal h round qc tag s = (Ok b, s') ->
  Block.epoch b = epoch s /\ Block.author b = name s /\ Block.height b = h /\
  Block.qc b = default QC.genesis qc /\ Block.tag b = tag /\ Block.round b = round.
Proof.
  unfold generate_proposal, signing, on_mempool, zoom, driver_get, mbind, act_bind, gets, lift.
  simpl. destruct (Block.new _ _ _ _ _ _ _ _) eqn:Hb; simpl; intros [= <- <-].
  apply block_new_fields in Hb. naive_solver.
Qed.

Lemma safe_advance_height e h : safe e (advance_height h).
Proof.
  intros s He. unfold advance_height. apply safe_gets_at.
  destruct (h <? height s) eqn:Hlt; [done|]. apply Z.ltb_ge in Hlt.
  apply rtc_once. apply (A_advance (abstract s) h Hlt).
Qed.

Lemma safe_process_qc e qc : safe e (process_qc qc).
Proof. apply safe_bind; [apply safe_advance_height | intros; safe_auto]. Qed.

Lemma safe_make_fallback_vote e block : safe e (make_fallback_vote block).
Proof.
  unfold make_fallback_vote. safe_auto. apply safe_signing. intros svc v Hv.
  apply hvote_new_fields in Hv as (_ & _ & _ & _ & _ & Ht & _). simpl. by rewrite Ht.
Qed.

Lemma safe_make_spb_vote e value : safe e (make_spb_vote value).
Proof. unfold make_spb_vote. safe_auto. by apply safe_signing. Qed.

(** A commit under the guard of the source. *)
Lemma safe_commit_at block s :
  last_committed_height s < Block.height block ->
  rtc astep (abstract s) (abstract ((commit block ;; record_commit block) s).2).
Proof.
  intros Hlt. unfold mbind, act_bind.
  pose proof (quiet_commit block s) as Hq.
  destruct (commit block s) as [[a|x|w|] s'] eqn:Hc; simpl in *; rewrite <- Hq; try done.
  apply rtc_once. apply (A_commit (abstract s')). rewrite Hq. exact Hlt.
Qed.

Lemma safe_guarded_commit e block :
  safe e (last ← gets last_committed_height;
          when (last <? Block.height block) (commit block ;; record_commit block)).
Proof.
  intros s He. apply safe_gets_at. unfold when.
  destruct (_ <? _) eqn:Hlt; [|done]. apply safe_commit_at, Z.ltb_lt, Hlt.
Qed.

(** The vote of the optimistic path, under the check of [process_opt_block] that
    the block is of the current height. *)
Lemma safe_make_opt_vote_at block s :
  Block.height block = height s -> Block.epoch block = epoch s ->
  rtc astep (abstract s) (abstract (make_opt_vote block s).2).
Proof.
  intros Hh He. unfold make_opt_vote. apply safe_gets_at.
  destruct (last_voted_height s <? Block.height block) eqn:Hlt; [|done].
  destruct (_ =? Block.height block); [|done]. apply Z.ltb_lt in Hlt.
  unfold signing, increase_last_voted_round, mbind, act_bind, gets, lift, modify. simpl.
  rewrite Z.max_r by lia.
  destruct (HVote.new _ _ _ _) as [v|x|w|] eqn:Hv; simpl;
    try (apply rtc_once, (A_skip (abstract s)); exact Hlt).
  apply hvote_new_fields in Hv as (_ & Hvh & Hve & _ & _ & Hvt & Hva). rewrite <- Hvh.
  apply rtc_once, (A_vote (abstract s) v); simpl; congruence || lia.
Qed.

Lemma safe_vote_tail e block (f : option HVote.t -> M unit) :
  Block.epoch block = e -> (forall a, safe e (f a)) ->
  safe e (h ← gets height;
          if negb (Block.height block =? h) then mret tt else made ← make_opt_vote block; f made).
Proof.
  intros Hb Hf s He. apply safe_gets_at.
  destruct (Block.height block =? height s) eqn:Hh; simpl; [|done].
  apply Z.eqb_eq in Hh. unfold mbind, act_bind.
  pose proof (safe_make_opt_vote_at block s Hh ltac:(congruence)) as Hs.
  pose proof (rtc_astep_epoch _ _ Hs) as [He' _]. simpl in He'.
  destruct (make_opt_vote block s) as [[a|x|w|] s']; simpl in *; try done.
  etrans; [exact Hs|]. apply Hf. congruence.
Qed.

(** The guarded commit followed by the rest of a method. *)
Lemma safe_commit_then e block (f : unit -> M unit) :
  (forall a, safe e (f a)) ->
  safe e (last ← gets last_committed_height;
          when (last <? Block.height block) (commit block ;; record_commit block) ≫= f).
Proof.
  intros Hf s He. apply safe_gets_at.
  set (m := when _ _). pose proof (safe_guarded_commit e block s He) as Hs.
  change (rtc astep (abstract s) (abstract (m s).2)) in Hs.
  pose proof (rtc_astep_epoch _ _ Hs) as [He' _]. simpl in He'.
  unfold mbind, act_bind. destruct (m s) as [[a|x|w|] s'] eqn:Hm; simpl in *; try done.
  etrans; [exact Hs|]. apply Hf. congruence.
Qed.

(** *** With the boxed calls *)

(** A block is handed over for processing in the epoch it was made in. *)
Definition rcall_ok (e : Z) (c : rcall) : Prop :=
  match c with R_process_opt_block block => Block.epoch block = e | _ => True end.

Variable rec : rcall -> M unit.
Hypothesis rec_safe : forall e c, rcall_ok e c -> safe e (rec c).

Hint Extern 1 (safe _ (rec _)) => apply rec_safe; exact I : preserve.
Hint Resolve safe_generate_proposal safe_process_qc safe_make_fallback_vote
  safe_make_spb_vote : preserve.
Hint Extern 2 (safe _ (signing _ _)) => apply safe_signing; reflexivity : preserve.

Lemma safe_opt_propose e : safe e (opt_propose rec).
Proof.
  unfold opt_propose. do 5 (apply safe_bind; [safe_leaf | intros ?]).
  apply safe_bind; [safe_leaf | intros qc].
  apply (safe_bind_post e (fun b => Block.epoch b = e)); [safe_leaf | |].
  - intros s b s' He Hb. apply generate_proposal_fields in Hb as [Hb _]. congruence.
  - intros b Hb. safe_auto.
Qed.
Hint Resolve safe_opt_propose : preserve.

Lemma safe_handle_opt_proposal e block : safe e (handle_opt_proposal rec block).
Proof.
  unfold handle_opt_proposal. apply safe_gets_epoch. safe_auto.
  apply rec_safe. simpl. lia.
Qed.

Lemma safe_handle_opt_vote e vote : safe e (handle_opt_vote rec vote).
Proof. unfold handle_opt_vote. safe_auto. Qed.

Lemma safe_broadcast_pes_propose e value proof : safe e (broadcast_pes_propose rec value proof).
Proof. unfold broadcast_pes_propose. safe_auto. Qed.
Hint Resolve safe_broadcast_pes_propose : preserve.

Lemma safe_invoke_smvba e h val sigs qc : safe e (invoke_smvba rec h val sigs qc).
Proof. unfold invoke_smvba. safe_auto. Qed.
Hint Resolve safe_invoke_smvba : preserve.

Lemma safe_fast_commit e prepare : safe e (fast_commit prepare).
Proof.
  unfold fast_commit. apply safe_bind; [safe_leaf | intros [bytes|]]; [|safe_leaf].
  apply safe_bind; [safe_leaf | intros block]. apply safe_guarded_commit.
Qed.
Hint Resolve safe_fast_commit : preserve.

Lemma safe_handle_par_prepare e prepare : safe e (handle_par_prepare rec prepare).
Proof. unfold handle_par_prepare. safe_auto. Qed.
Hint Resolve safe_handle_par_prepare : preserve.

Lemma safe_active_prepare_phase e h qc val : safe e (active_prepare_phase rec h qc val).
Proof. unfold active_prepare_phase. safe_auto. Qed.
Hint Resolve safe_active_prepare_phase : preserve.

Lemma safe_process_fallback_propose e block : safe e (process_fallback_propose rec block).
Proof. unfold process_fallback_propose. safe_auto. Qed.
Hint Resolve safe_process_fallback_propose : preserve.

Lemma safe_broadcast_fallback_propose e block : safe e (broadcast_fallback_propose rec block).
Proof. unfold broadcast_fallback_propose. safe_auto. Qed.
Hint Resolve safe_broadcast_fallback_propose : preserve.

Lemma safe_invoke_fallback e h qc : safe e (invoke_fallback rec h qc).
Proof. unfold invoke_fallback. safe_auto. Qed.
Hint Resolve safe_invoke_fallback : preserve.

Lemma safe_handle_fallback_vote e vote : safe e (handle_fallback_vote rec vote).
Proof. unfold handle_fallback_vote. safe_auto. Qed.

Lemma safe_handle_fallback_propose e block : safe e (handle_fallback_propose rec block).
Proof. unfold handle_fallback_propose. safe_auto. Qed.

Lemma quiet_send_vote m l : quiet (send_vote m l).
Proof.
  induction l as [|leader l IH]; simpl; [apply quiet_ret|].
  apply quiet_bind; [apply quiet_gets|]. intros me.
  apply quiet_bind; [apply quiet_when; intros; apply quiet_transmit_opt | intros; exact IH].
Qed.
Hint Resolve quiet_send_vote : preserve.

Lemma safe_process_opt_block e block :
  Block.epoch block = e -> safe e (process_opt_block rec block).
Proof.
  intros Hb. unfold process_opt_block.
  apply safe_bind; [safe_leaf | intros elector]. apply safe_bind; [safe_leaf | intros me].
  apply safe_bind; [safe_leaf | intros idx].
  apply safe_bind; [safe_auto | intros _].
  apply safe_bind; [safe_leaf | intros [[b0 b1]|]]; [|safe_leaf].
  apply safe_bind; [safe_leaf | intros _]. apply safe_bind; [safe_leaf | intros pes].
  do 4 (apply safe_bind; [safe_auto | intros _]).
  apply safe_commit_then. intros _. apply safe_vote_tail; [done|]. intros made. safe_auto.
Qed.

Lemma safe_process_spb_propose e value proof : safe e (process_spb_propose rec value proof).
Proof. unfold process_spb_propose. safe_auto. Qed.
Hint Resolve safe_process_spb_propose : preserve.

Lemma safe_handle_spb_proposal e value proof : safe e (handle_spb_proposal rec value proof).
Proof. unfold handle_spb_proposal. safe_auto. Qed.

Lemma safe_handle_spb_finish e value proof : safe e (handle_spb_finish rec value proof).
Proof. unfold handle_spb_finish. safe_auto. Qed.
Hint Resolve safe_handle_spb_finish : preserve.

Lemma safe_handle_spb_vote e vote : safe e (handle_spb_vote rec vote).
Proof. unfold handle_spb_vote. safe_auto. Qed.

(** A commit under its guard, in the middle of a method. *)
Lemma safe_commit_record e block (f : unit -> M unit) s :
  (forall a, safe e (f a)) -> epoch s = e -> last_committed_height s < Block.height block ->
  rtc astep (abstract s) (abstract ((commit block ;; record_commit block ≫= f) s).2).
Proof.
  intros Hf He Hlt. pose proof (safe_commit_at block s Hlt) as Hs.
  pose proof (rtc_astep_epoch _ _ Hs) as [He' _]. simpl in He'. revert Hs He'.
  unfold mbind, act_bind.
  destruct (commit block s) as [[a|x|w|] s']; simpl; try done.
  intros Hs He'. etrans; [exact Hs|]. apply Hf. simpl. congruence.
Qed.

Lemma safe_commit_branch e block (f g : unit -> M unit) :
  (forall a, safe e (f a)) -> (forall a, safe e (g a)) ->
  safe e (last ← gets last_committed_height;
          (if last <? Block.height block then commit block ;; record_commit block ≫= f
           else mret tt) ≫= g).
Proof.
  intros Hf Hg s He. apply safe_gets_at.
  destruct (_ <? _) eqn:Hlt; [|by apply Hg]. apply Z.ltb_lt in Hlt.
  pose proof (safe_commit_record e block f s Hf He Hlt) as Hs.
  pose proof (rtc_astep_epoch _ _ Hs) as [He' _]. simpl in He'.
  revert Hs He'. set (m := commit block ;; record_commit block ≫= f). intros Hs He'.
  change (rtc astep (abstract s) (abstract ((m ≫= g) s).2)).
  unfold mbind, act_bind. destruct (m s) as [[a|x|w|] s']; simpl in *; try done.
  etrans; [exact Hs|]. apply Hg. congruence.
Qed.

Lemma safe_process_par_out e block : safe e (process_par_out rec block).
Proof.
  unfold process_par_out. apply safe_gets_epoch. apply safe_bind; [safe_leaf | intros h].
  do 2 (safe_step; [safe_auto|]). apply safe_bind; [safe_leaf | intros _].
  apply safe_commit_branch; intros; safe_auto.
Qed.
Hint Resolve safe_process_par_out : preserve.

Lemma safe_handle_smvba_halt e halt : safe e (handle_smvba_halt rec halt).
Proof. unfold handle_smvba_halt. safe_auto. Qed.
Hint Resolve safe_handle_smvba_halt : preserve.

Lemma safe_smvba_round_advance e h round : safe e (smvba_round_advance rec h round).
Proof. unfold smvba_round_advance. safe_auto. Qed.
Hint Resolve safe_smvba_round_advance : preserve.

Lemma safe_handle_smvba_mvote e mvote : safe e (handle_smvba_mvote rec mvote).
Proof. unfold handle_smvba_mvote. safe_auto. Qed.
Hint Resolve safe_handle_smvba_mvote : preserve.

Lemma safe_handle_smvba_prevote e prevote : safe e (handle_smvba_prevote rec prevote).
Proof. unfold handle_smvba_prevote. safe_auto. Qed.
Hint Resolve safe_handle_smvba_prevote : preserve.

Lemma safe_handle_smvba_rs e share : safe e (handle_smvba_rs rec share).
Proof. unfold handle_smvba_rs. safe_auto. Qed.
Hint Resolve safe_handle_smvba_rs : preserve.

Lemma safe_handle_smvba_done e mdone : safe e (handle_smvba_done rec mdone).
Proof. unfold handle_smvba_done. safe_auto. Qed.
Hint Resolve safe_handle_smvba_done : preserve.

Lemma safe_handle_smvba_done_with_share e mdone :
  safe e (handle_smvba_done_with_share rec mdone).
Proof. unfold handle_smvba_done_with_share. safe_auto. Qed.
Hint Resolve safe_handle_smvba_done_with_share : preserve.

Lemma safe_invoke_done_and_share e h round : safe e (invoke_done_and_share rec h round).
Proof. unfold invoke_done_and_share. safe_auto. Qed.
End HandlersSafe.

(** ** The event loop refines the abstract node *)

Section RunSafe.
Context `{CryptoLib} `{NodeEnv}.

Notation M := (act Core ConsensusError).

#[local] Hint Resolve safe_opt_propose safe_handle_opt_proposal safe_handle_opt_vote
  safe_handle_fallback_vote safe_process_spb_propose safe_handle_spb_vote
  safe_invoke_done_and_share safe_handle_fallback_propose safe_process_fallback_propose
  safe_handle_spb_proposal safe_handle_spb_finish safe_handle_smvba_done_with_share
  safe_handle_smvba_prevote safe_handle_smvba_mvote safe_handle_smvba_halt
  safe_handle_par_prepare safe_process_par_out safe_invoke_fallback : preserve.

Lemma safe_exec n e c : rcall_ok e c -> safe e (exec n c).
Proof.
  revert e c. induction n as [|n IH]; intros e c Hc; [by apply quiet_safe|].
  change (exec (S n) c) with (run_call (exec n) c).
  destruct c; simpl; eauto 3 with preserve. by apply safe_process_opt_block.
Qed.
#[local] Hint Resolve safe_exec : preserve.

(** A block that is looped back for processing is of the node's current epoch. *)
Definition input_ok (i : Input) (s : Core) : Prop :=
  match i with
  | OnCoreChannel (HsLoopBack block) => Block.epoch block = epoch s
  | _ => True
  end.

Lemma quiet_sync_request digest sender : quiet (handle_sync_request digest sender).
Proof.
  apply quiet_bind; [apply quiet_read_store | intros [bytes|]]; [|apply quiet_ret].
  apply quiet_bind; [apply quiet_lift | intros b; apply quiet_transmit_opt].
Qed.

Lemma safe_dispatch n i s :
  input_ok i s -> rtc astep (abstract s) (abstract (dispatch n i s).2).
Proof.
  intros Hi.
  assert (safe (epoch s) (dispatch n i)) as Hs; [|by apply Hs].
  destruct i as [m|m|]; simpl; [destruct m..|]; simpl;
    try solve [eauto 4 with preserve | apply quiet_safe; eauto using quiet_sync_request with preserve].
  apply safe_process_opt_block; [eauto with preserve | exact Hi].
Qed.

Lemma safe_run_boot n e : safe e (run_boot n).
Proof. unfold run_boot. safe_auto. Qed.

Lemma quiet_drain l : quiet (drain l).
Proof.
  induction l as [|[e m] l IH]; simpl; [apply quiet_ret|].
  apply quiet_bind; [by apply quiet_modify | intros _].
  apply quiet_bind; [apply quiet_gets | intros cur].
  destruct (e =? cur); [|exact IH].
  destruct m; try apply quiet_ret;
    (apply quiet_bind; [by apply quiet_modify | intros _; exact IH]).
Qed.

Lemma epoch_init_abstract s :
  abstract (epoch_init (epoch s +64 1) s) = next_aepoch (abstract s).
Proof. done. Qed.

Lemma next_epoch_run n s :
  epoch s < u64_max -> arun (abstract s) (abstract (next_epoch n s).2).
Proof.
  intros Hmax. set (s1 := epoch_init (epoch s +64 1) s).
  apply arun_rtc with (next_aepoch (abstract s)).
  { apply arun_epoch; [apply arun_refl | exact Hmax]. }
  rewrite <- (epoch_init_abstract s). fold s1.
  change (rtc astep (abstract s1)
    (abstract ((l ← gets unhandle_message; drain l ;; run_boot n) s1).2)).
  assert (safe (epoch s1) (l ← gets unhandle_message; drain l ;; run_boot n)) as Hs;
    [|by apply Hs].
  apply safe_bind; [safe_leaf | intros l]. apply safe_bind; [|intros; apply safe_run_boot].
  apply quiet_safe, quiet_drain.
Qed.

(** What the run of a node supposes of its events. *)
Definition event_ok (ev : Event) (s : Core) : Prop :=
  match ev with
  | Deliver i => input_ok i s /\ epoch s < u64_max
  | _ => True
  end.

Fixpoint events_ok (n : nat) (l : list Event) (s : Core) : Prop :=
  match l with
  | [] => True
  | ev :: l =>
      event_ok ev s /\
      match node_event n ev s with (Running, s) => events_ok n l s | _ => True end
  end.

Lemma node_event_run n ev s :
  event_ok ev s -> arun (abstract s) (abstract (node_event n ev s).2).
Proof.
  destruct ev as [i|d|k v]; simpl.
  - intros [Hi Hmax]. pose proof (safe_dispatch n i s Hi) as Hs.
    destruct (dispatch n i s) as [r s'] eqn:Hd. simpl in Hs.
    apply arun_trans with (abstract s'); [by eapply arun_rtc; [apply arun_refl|]|].
    apply rtc_astep_epoch in Hs as [He _]. simpl in He.
    destruct (after r); simpl; try apply arun_refl.
    pose proof (next_epoch_run n s' ltac:(lia)) as Hn.
    by destruct (next_epoch n s').
  - intros _. apply arun_refl.
  - intros _. apply (arun_foreign _ _ k v (arun_refl (abstract s))).
Qed.

Lemma node_run_arun n l s :
  events_ok n l s -> arun (abstract s) (abstract (node_run n l s).2).
Proof.
  revert s. induction l as [|ev l IH]; intros s; simpl; [intros; apply arun_refl|].
  intros [Hev Hl]. pose proof (node_event_run n ev s Hev) as Hr.
  destruct (node_event n ev s) as [[] s'] eqn:He; simpl in *; try done.
  eapply arun_trans; [exact Hr | by apply IH].
Qed.

(** A node: built by [Core_new], booted, then fed with events. *)
Definition start (n : nat) (core : Core) : RunState * Core :=
  let '(r, s) := run_boot n core in (after r, s).

Inductive reachable (core : Core) : Core -> Prop :=
| reach_start n : reachable core (start n core).2
| reach_run n l s : reachable core s -> events_ok n l s ->
    reachable core (node_run n l s).2.

Lemma reachable_arun core s : reachable core s -> arun (abstract core) (abstract s).
Proof.
  induction 1 as [n|n l s _ IH Hok].
  - unfold start. pose proof (safe_run_boot n _ core eq_refl) as Hs.
    destruct (run_boot n core). by eapply arun_rtc; [apply arun_refl|].
  - eapply arun_trans; [exact IH | by apply node_run_arun].
Qed.

(** The runs in which moreover everything received is of its Rust type. *)
Inductive proper_run (core : Core) : Core -> Prop :=
| proper_start n : proper_run core (start n core).2
| proper_event n ev s : proper_run core s -> event_ok ev s -> ty_event ev ->
    proper_run core (node_event n ev s).2.

Lemma proper_run_reachable core s : proper_run core s -> reachable core s.
Proof.
  induction 1 as [n|n ev s _ IH Hok _]; [apply reach_start|].
  assert (events_ok n [ev] s) as Hevs by (split; [done | by destruct (node_event n ev s) as [[]]]).
  pose proof (reach_run core n [ev] s IH Hevs) as Hr. cbn [node_run] in Hr.
  by destruct (node_event n ev s) as [[] s'].
Qed.

Lemma proper_run_typed core s : proper_run core s -> typed_run core s.
Proof.
  induction 1 as [n|n ev s _ IH _ Ht]; [|by apply typed_step].
  unfold start. rewrite (surjective_pairing (run_boot n core)). apply typed_boot.
Qed.
End RunSafe.
