(* ===== verification/Walk.v ===== *)
(** * A walk over the handlers

    Properties of what a node collects, signs and asks are shown by one walk over the
    handlers.  An [Evolution] is a relation between the states before and after a
    method, with the blocks that may be processed in a state; [goes] is the judgement
    that a method keeps to it.  A client of this file proves the obligations of the
    classes [Evolution] and [Walk], which are about the few places where the fields it
    speaks of change, and gets the runs of the node.  [Elections] and [Availability] are
    the clients. *)

From S2P Require Import Prelude Machine Crypto Config Messages Leader Aggregator Timer Store.
From S2P Require Import Sync Core Handlers Types TypeFacts Spec Refine.

Section Defs.
Context `{CryptoLib} `{NodeEnv}.

Notation M := (act Core ConsensusError).

(** What no method changes but those that the obligations name. *)
Definition coins_only (a : Aggregator) : Committee * gmap (Z * Z) SMVBARandomCoinMaker :=
  (agg_committee a, smvba_randomcoin_aggregators a).

Definition settings (s : Core) :=
  (name s, committee s, parameters s, signature_service s, pk_set s, core_fallback_length s).

Definition record (s : Core) :=
  (settings s, epoch s, leader_elector s, coins_only (aggregator s), spb_finishs s, signed s,
   mempool_driver s).

(** Messages whose signing is no obligation of its own. *)
Definition plain_signable (m : Signable) : bool :=
  match m with
  | SignedHVote v => negb (HVote.tag v =? OPT)
  | SignedPreVote _ => false
  | _ => true
  end.

Definition ask (q : ConsensusMempoolMessage) (s : Core) : Core :=
  s <| mempool_driver := mempool_driver s ++ [q] |>.

Definition sign (m : Signable) (s : Core) : Core := s <| signed := signed s ++ [m] |>.

(** The states a method may lead to ([evolves]), and the blocks that may be handed over
    for processing ([may]). *)
Class Evolution (evolves : Core -> Core -> Prop) (may : Core -> Block.t -> Prop) : Prop := {
  ev_right : forall s s', evolves s s' -> evolves s' s';
  ev_trans : forall s s' s'', evolves s s' -> evolves s' s'' -> evolves s s'';
  ev_may : forall s s' b, evolves s s' -> may s b -> may s' b;
  ev_record : forall s s', evolves s s -> record s' = record s -> evolves s s';
  ev_sign : forall s m, evolves s s -> plain_signable m = true -> evolves s (sign m s);
  ev_ask : forall s q, evolves s s -> evolves s (ask q s);
  ev_get : forall s max b, evolves s s ->
    Block.payload b = mempool_get (mempool_driver s) max OPT -> may (ask (MempoolGet max OPT) s) b;
  ev_accept : forall s b, evolves s s ->
    mempool_verify (mempool_driver s) b OPT = Accept -> may (ask (MempoolVerify b OPT) s) b;
  ev_clean : forall s h, evolves s s -> evolves s (clean_smvba_state h s);
  ev_epoch : forall s e, evolves s s -> evolves s (epoch_init e s);
}.

(** The method keeps to the evolution from a state in which the block, if there is one,
    may be processed. *)
Definition goes (evolves : Core -> Core -> Prop) (may : Core -> Block.t -> Prop)
    (o : option Block.t) {A} (m : M A) : Prop :=
  forall s, evolves s s -> (forall b, o = Some b -> may s b) -> evolves s (m s).2.

(** A boxed call may need that its block may be processed. *)
Definition needs (cl : rcall) : option Block.t :=
  match cl with R_process_opt_block b => Some b | _ => None end.
End Defs.

(** ** Composition *)

Section Composition.
Context `{CryptoLib} `{NodeEnv} {evolves may} `{!Evolution evolves may}.

Notation M := (act Core ConsensusError).
Notation go := (goes evolves may).
Implicit Type o : option Block.t.

Lemma goes_weaken o {A} (m : M A) : go None m -> go o m.
Proof. intros Hm s Hs _. by apply Hm. Qed.

Lemma goes_still o {A} (m : M A) : (forall s, record (m s).2 = record s) -> go o m.
Proof. intros Hm s Hs _. by apply ev_record. Qed.

Lemma goes_modify o f :
  (forall s, evolves s s -> evolves s (f s)) -> go o (modify f : M unit).
Proof. intros Hf s Hs _. by apply Hf. Qed.

Lemma goes_bind o {A B} (m : M A) (f : A -> M B) :
  go o m -> (forall a, go o (f a)) -> go o (m ≫= f).
Proof.
  intros Hm Hf s Hs Ho. specialize (Hm s Hs Ho). unfold mbind, act_bind.
  destruct (m s) as [[a|x|w|] s']; simpl in *; try done.
  eapply ev_trans; [exact Hm|]. apply Hf; [by eapply ev_right|].
  intros b Hb. eapply ev_may; [exact Hm | by apply Ho].
Qed.

(** From one state on: the continuation knows the result and the state. *)
Lemma evolves_bind {A B} (m : M A) (f : A -> M B) s :
  evolves s (m s).2 ->
  (forall a s', m s = (Ok a, s') -> evolves s s' -> evolves s' (f a s').2) ->
  evolves s ((m ≫= f) s).2.
Proof.
  intros Hm Hf. unfold mbind, act_bind.
  destruct (m s) as [[a|x|w|] s'] eqn:Hr; simpl in *; try done.
  eapply ev_trans; [exact Hm | by apply Hf].
Qed.

Lemma evolves_none {A} (m : M A) s : go None m -> evolves s s -> evolves s (m s).2.
Proof. intros Hm Hs. by apply Hm. Qed.

(** A first part whose result may be processed. *)
Lemma goes_bind_may o {A B} (block : A -> Block.t) (m : M A) (f : A -> M B) :
  go o m -> (forall s a s', evolves s s -> m s = (Ok a, s') -> may s' (block a)) ->
  (forall a, go (Some (block a)) (f a)) -> go o (m ≫= f).
Proof.
  intros Hm Hb Hf s Hs Ho. specialize (Hm s Hs Ho). unfold mbind, act_bind.
  destruct (m s) as [[a|x|w|] s'] eqn:Hr; simpl in *; try done.
  eapply ev_trans; [exact Hm|]. apply Hf; [by eapply ev_right|].
  intros b [= <-]. by apply (Hb s a s').
Qed.

Lemma goes_gets o {A B} (g : Core -> A) (f : A -> M B) : (forall a, go o (f a)) -> go o (gets g ≫= f).
Proof. intros Hf s Hs Ho. by apply (Hf (g s) s). Qed.

Lemma goes_when o b (m : M unit) : go o m -> go o (when b m).
Proof. destruct b; [done|]. intros _. by apply goes_still. Qed.

Lemma goes_expect o w {A} (m : M A) : go o m -> go o (expect_act w m).
Proof.
  intros Hm s Hs Ho. specialize (Hm s Hs Ho). unfold expect_act. by destruct (m s) as [[] ?].
Qed.

Lemma goes_ignore o (m : M unit) : go o m -> go o (ignore_err m).
Proof.
  intros Hm s Hs Ho. specialize (Hm s Hs Ho). unfold ignore_err. by destruct (m s) as [[] ?].
Qed.

Lemma goes_ret o {A} (a : A) : go o (mret a).
Proof. by apply goes_still. Qed.
Lemma goes_lift o {A} (m : ConsensusResult A) : go o (lift m).
Proof. by apply goes_still. Qed.
Lemma goes_gets_tail o {A} (g : Core -> A) : go o (gets g).
Proof. by apply goes_still. Qed.
Lemma goes_throw o {A} x : go o (throw x : M A).
Proof. by apply goes_still. Qed.
Lemma goes_ensure o b x : go o (ensure_act b x).
Proof. by apply goes_still. Qed.

Lemma goes_zoom o {T A} (get : Core -> T) put (m : act T ConsensusError A) :
  (forall t s, record (put t s) = record s) -> go o (zoom get put m).
Proof. intros Hput. apply goes_still. intros s. unfold zoom. destruct (m (get s)). apply Hput. Qed.

Lemma goes_entry o {K V} `{Countable K} (proj : Core -> gmap K V) `{!Setter proj} k d :
  (forall s f, record (set proj f s) = record s) -> go o (entry proj k d).
Proof.
  intros Hset. apply goes_still. intros s. unfold entry. run_act.
  destruct (proj s !! k); [done | apply Hset].
Qed.

Lemma goes_signing o {A} (rec : A -> Signable) build :
  (forall svc a, build svc = Ok a -> plain_signable (rec a) = true) -> go o (signing rec build).
Proof.
  intros Hb s Hs _. unfold signing. run_act. unfold lift.
  destruct (build (signature_service s)) as [a|x|w|] eqn:Ha; simpl; [|done..].
  apply (ev_sign s (rec a) Hs). by eapply Hb.
Qed.

Lemma goes_aggregator o {A} (m : act Aggregator ConsensusError A) :
  (forall a, coins_only (m a).2 = coins_only a) -> go o (on_aggregator m).
Proof.
  intros Hm. apply goes_still. intros s. unfold on_aggregator, zoom. specialize (Hm (aggregator s)).
  destruct (m (aggregator s)). unfold record. simpl in *. by rewrite Hm.
Qed.

Lemma zoom_coins {T A} (get : Aggregator -> T) put (m : Committee -> act T ConsensusError A) a :
  (forall t a, coins_only (put t a) = coins_only a) ->
  coins_only ((committee ← gets agg_committee; zoom get put (m committee)) a).2 = coins_only a.
Proof.
  intros Hput. unfold zoom. run_act. destruct (m (agg_committee a) (get a)). apply Hput.
Qed.

Lemma goes_transmit_opt o m to : go o (transmit_opt m to).
Proof. apply goes_gets. intros me. apply goes_gets. intros c. by apply goes_zoom. Qed.
Lemma goes_transmit_pes o m to : go o (transmit_pes m to).
Proof. apply goes_gets. intros me. apply goes_gets. intros c. by apply goes_zoom. Qed.

Lemma goes_terminate o h : go o (terminate_smvba h).
Proof. apply goes_modify. intros s. apply ev_clean. Qed.

Lemma goes_check o check : go o (check_if_exp check).
Proof.
  apply goes_still. intros s. unfold check_if_exp. run_act. by destruct (exp _ =? 1).
Qed.

(** The requests to the mempool. *)
Lemma goes_get o max tag : go o (on_mempool (driver_get max tag)).
Proof. intros s Hs _. exact (ev_ask s _ Hs). Qed.
Lemma goes_verify o b tag : go o (on_mempool (driver_verify b tag)).
Proof.
  intros s Hs _. unfold on_mempool, zoom, driver_verify. run_act.
  destruct (mempool_verify _ _ _); exact (ev_ask s _ Hs).
Qed.
Lemma goes_cleanup o b : go o (on_mempool (driver_cleanup_par b)).
Proof. intros s Hs _. exact (ev_ask s _ Hs). Qed.
End Composition.

(** ** Automation *)

Create HintDb walk.

Ltac goes_call :=
  lazymatch goal with
  | |- goes _ _ _ (transmit_opt _ _) => apply goes_transmit_opt
  | |- goes _ _ _ (transmit_pes _ _) => apply goes_transmit_pes
  | |- goes _ _ _ (on_mempool (driver_get _ _)) => apply goes_get
  | |- goes _ _ _ (on_mempool (driver_verify _ _)) => apply goes_verify
  | |- goes _ _ _ (on_mempool (driver_cleanup_par _)) => apply goes_cleanup
  | |- goes _ _ _ (on_synchronizer _) => apply goes_zoom; intros; reflexivity
  | |- goes _ _ _ (store_block _) => apply goes_zoom; intros; reflexivity
  | |- goes _ _ _ (read_store _) => apply goes_zoom; intros; reflexivity
  | |- goes _ _ _ (on_aggregator _) =>
      apply goes_aggregator; intros ?; apply zoom_coins; intros; reflexivity
  | |- goes _ _ _ (terminate_smvba _) => apply goes_terminate
  | |- goes _ _ _ (check_if_exp _) => apply goes_check
  | |- goes _ _ _ (signing _ _) => apply goes_signing; intros ? ? ?; reflexivity
  | |- goes _ _ _ (entry _ _ _) => apply goes_entry; intros; reflexivity
  | |- goes _ _ _ (lift _) => apply goes_lift
  | |- goes _ _ _ (modify _) => apply goes_still; intros; reflexivity
  | |- goes _ _ _ _ => solve [eauto 3 with walk nocore | apply goes_weaken; eauto 3 with walk nocore]
  end.

Ltac goes_step :=
  lazymatch goal with
  | |- goes _ _ _ (let _ := _ in _) => cbv zeta
  | |- goes _ _ _ (gets _ ≫= _) => apply goes_gets; intros ?
  | |- goes _ _ _ (_ ≫= _) => apply goes_bind; [|intros ?]
  | |- goes _ _ _ (mret _) => apply goes_ret
  | |- goes _ _ _ (gets _) => apply goes_gets_tail
  | |- goes _ _ _ (throw _) => apply goes_throw
  | |- goes _ _ _ (ensure_act _ _) => apply goes_ensure
  | |- goes _ _ _ (when _ _) => apply goes_when
  | |- goes _ _ _ (expect_act _ _) => apply goes_expect
  | |- goes _ _ _ (ignore_err _) => apply goes_ignore
  | |- goes _ _ _ (if ?b then _ else _) => destruct b
  | |- goes _ _ _ (match ?x with _ => _ end) => destruct x
  | |- goes _ _ _ _ => goes_call
  end.

Ltac goes_auto := repeat goes_step.

(** ** Helpers of the core *)

Section Helpers.
Context `{CryptoLib} `{NodeEnv} {evolves may} `{!Evolution evolves may}.

Notation M := (act Core ConsensusError).
Notation go := (goes evolves may).
Implicit Type o : option Block.t.

Lemma goes_sleep o d : go o (sleep_ms d).
Proof. unfold sleep_ms. goes_auto. Qed.
Lemma goes_timer o d : go o (timer_reset d).
Proof. unfold timer_reset. goes_auto. Qed.
Lemma goes_record o b : go o (record_commit b).
Proof. unfold record_commit. goes_auto. Qed.

Lemma goes_commit_loop o n b : go o (commit_loop n b).
Proof. revert b. induction n as [|n IH]; intros b; simpl; [|pose proof IH]; goes_auto. Qed.
Lemma goes_commit o b : go o (commit b).
Proof. unfold commit. apply goes_gets. intros s. apply goes_commit_loop. Qed.

Lemma goes_send_vote o m l : go o (send_vote m l).
Proof. induction l as [|k l IH]; simpl; goes_auto. Qed.

Lemma goes_generate o h round qc tag : go o (generate_proposal h round qc tag).
Proof. unfold generate_proposal. goes_auto. Qed.

Lemma goes_spb_vote o value : go o (make_spb_vote value).
Proof. unfold make_spb_vote. goes_auto. Qed.

Lemma goes_fallback_vote o block : go o (make_fallback_vote block).
Proof.
  unfold make_fallback_vote. goes_step. goes_step; [goes_auto|]. goes_step.
  apply goes_bind; [|intros; goes_auto]. apply goes_signing. intros svc v Hv.
  apply hvote_new_fields in Hv as (_ & _ & _ & _ & _ & Ht & _). simpl. by rewrite Ht.
Qed.

Lemma goes_process_qc o qc : go o (process_qc qc).
Proof.
  unfold process_qc, advance_height, update_high_qc. repeat goes_step.
  apply goes_still. intros s. simpl. by destruct (_ <? _).
Qed.

(** The own proposal of the optimistic path may be processed. *)
Lemma generate_may h round qc s b s' :
  evolves s s -> generate_proposal h round qc OPT s = (Ok b, s') -> may s' b.
Proof.
  intros Hs. unfold generate_proposal, signing, on_mempool, zoom, driver_get, mbind, act_bind, gets, lift.
  simpl. destruct (Block.new _ _ _ _ _ _ _ _) eqn:Hb; simpl; intros [= <- <-].
  apply block_new_fields in Hb as (_ & _ & _ & _ & _ & Hp & _).
  pose proof (ev_get s _ _ Hs Hp) as Hmay. pose proof (fun q => ev_ask s q Hs) as Hask.
  exact (ev_may _ _ _ (ev_sign _ (SignedBlock _) (ev_right _ _ (Hask _)) eq_refl) Hmay).
Qed.

(** A block that the mempool accepts may be processed. *)
Lemma goes_accepted o block (f : M unit) :
  go (Some block) f ->
  go o (available ← on_mempool (driver_verify block OPT); if negb available then mret tt else f).
Proof.
  intros Hf s Hs Ho. pose proof (goes_verify o block OPT s Hs Ho) as Hv. revert Hv.
  unfold mbind, act_bind. unfold on_mempool, zoom, driver_verify. run_act.
  destruct (mempool_verify (mempool_driver s) block OPT) eqn:Ha; simpl; intros Hv; try exact Hv.
  eapply ev_trans; [exact Hv|]. apply Hf; [by eapply ev_right|]. intros b [= <-].
  exact (ev_accept s block Hs Ha).
Qed.
End Helpers.

#[export] Hint Resolve goes_sleep goes_timer goes_record goes_commit goes_send_vote goes_generate
  goes_spb_vote goes_fallback_vote goes_process_qc : walk.

(** ** The handlers *)

(** The handlers that change the fields of [record] in a way of their own. *)
Class Walk `{CryptoLib} `{NodeEnv} (evolves : Core -> Core -> Prop) (may : Core -> Block.t -> Prop)
    : Prop := {
  wk_evolution :: Evolution evolves may;
  wk_vote : forall s b, evolves s s -> may s b -> evolves s (make_opt_vote b s).2;
  wk_finish : forall rec value proof,
    (forall cl, goes evolves may (needs cl) (rec cl)) ->
    goes evolves may None (handle_spb_finish rec value proof);
  wk_share : forall rec share,
    (forall m, goes evolves may None (handle_smvba_prevote rec m)) ->
    (forall m, goes evolves may None (handle_smvba_halt rec m)) ->
    goes evolves may None (handle_smvba_rs rec share);
}.

#[export] Hint Extern 1 (Evolution _ _) => typeclasses eauto : walk.
#[export] Hint Extern 1 (Walk _ _) => typeclasses eauto : walk.

Section Handlers.
Context `{CryptoLib} `{NodeEnv} {evolves may} `{!Walk evolves may}.

Notation M := (act Core ConsensusError).
Notation go := (goes evolves may).
Implicit Type o : option Block.t.

Context (rec : rcall -> M unit).
Hypothesis rec_goes : forall cl, go (needs cl) (rec cl).

Lemma goes_rec o cl : needs cl = None -> go o (rec cl).
Proof. intros Hn. apply goes_weaken. rewrite <- Hn. apply rec_goes. Qed.

Lemma goes_process b : go (Some b) (rec (R_process_opt_block b)).
Proof. exact (rec_goes (R_process_opt_block b)). Qed.

Hint Resolve goes_process : walk.
Hint Extern 1 (goes _ _ _ (rec _)) => apply goes_rec; reflexivity : walk.

Lemma goes_opt_propose o : go o (opt_propose rec).
Proof.
  unfold opt_propose. do 3 goes_step. do 2 (goes_step; [goes_auto|]). goes_step.
  apply (goes_bind_may o (fun b => b)); [apply goes_generate | | intros b; goes_auto].
  intros s b s' Hs Hb. by eapply generate_may.
Qed.
Hint Resolve goes_opt_propose : walk.

Lemma goes_handle_opt_vote o v : go o (handle_opt_vote rec v).
Proof. unfold handle_opt_vote. goes_auto. Qed.
Lemma goes_handle_opt_proposal o b : go o (handle_opt_proposal rec b).
Proof.
  unfold handle_opt_proposal. goes_step. destruct (_ <? _); [goes_auto|].
  destruct (_ <? _); [goes_auto|]. cbv zeta. goes_step. goes_step; [goes_auto|].
  goes_step; [goes_auto|]. goes_step. goes_step; [goes_auto|]. goes_step.
  do 2 (goes_step; [goes_auto|]). apply goes_accepted, goes_process.
Qed.
Lemma goes_broadcast_pes o value proof : go o (broadcast_pes_propose rec value proof).
Proof. unfold broadcast_pes_propose. goes_auto. Qed.
Hint Resolve goes_broadcast_pes : walk.
Lemma goes_invoke_smvba o h val sigs qc : go o (invoke_smvba rec h val sigs qc).
Proof. unfold invoke_smvba. goes_auto. Qed.
Lemma goes_fast_commit o p : go o (fast_commit p).
Proof. unfold fast_commit. goes_auto. Qed.
Hint Resolve goes_invoke_smvba goes_fast_commit : walk.
Lemma goes_handle_par_prepare o p : go o (handle_par_prepare rec p).
Proof. unfold handle_par_prepare. goes_auto. Qed.
Hint Resolve goes_handle_par_prepare : walk.
Lemma goes_active_prepare o h qc val : go o (active_prepare_phase rec h qc val).
Proof. unfold active_prepare_phase. goes_auto. Qed.
Lemma goes_process_fallback o b : go o (process_fallback_propose rec b).
Proof. unfold process_fallback_propose. goes_auto. Qed.
Hint Resolve goes_active_prepare goes_process_fallback : walk.
Lemma goes_broadcast_fallback o b : go o (broadcast_fallback_propose rec b).
Proof. unfold broadcast_fallback_propose. goes_auto. Qed.
Hint Resolve goes_broadcast_fallback : walk.
Lemma goes_invoke_fallback o h qc : go o (invoke_fallback rec h qc).
Proof. unfold invoke_fallback. goes_auto. Qed.
Hint Resolve goes_invoke_fallback : walk.
Lemma goes_handle_fallback_vote o v : go o (handle_fallback_vote rec v).
Proof. unfold handle_fallback_vote. goes_auto. Qed.
Lemma goes_handle_fallback_propose o b : go o (handle_fallback_propose rec b).
Proof. unfold handle_fallback_propose. goes_auto. Qed.

Lemma goes_make_vote b : go (Some b) (make_opt_vote b).
Proof. intros s Hs Hb. apply wk_vote; [done | by apply Hb]. Qed.
Hint Resolve goes_make_vote goes_handle_opt_vote : walk.

Lemma goes_process_opt_block b : go (Some b) (process_opt_block rec b).
Proof. unfold process_opt_block. goes_auto. Qed.

Lemma goes_process_spb o value proof : go o (process_spb_propose rec value proof).
Proof. unfold process_spb_propose. goes_auto. Qed.
Hint Resolve goes_process_spb : walk.
Lemma goes_handle_spb_proposal o value proof : go o (handle_spb_proposal rec value proof).
Proof. unfold handle_spb_proposal. goes_auto. Qed.
Lemma goes_handle_spb_finish o value proof : go o (handle_spb_finish rec value proof).
Proof. by apply goes_weaken, wk_finish. Qed.
Hint Resolve goes_handle_spb_finish : walk.
Lemma goes_handle_spb_vote o v : go o (handle_spb_vote rec v).
Proof. unfold handle_spb_vote. goes_auto. Qed.
Lemma goes_process_par_out o b : go o (process_par_out rec b).
Proof. unfold process_par_out. goes_auto. Qed.
Hint Resolve goes_process_par_out : walk.
Lemma goes_handle_halt o m : go o (handle_smvba_halt rec m).
Proof. unfold handle_smvba_halt. goes_auto. Qed.
Lemma goes_round_advance o h round : go o (smvba_round_advance rec h round).
Proof. unfold smvba_round_advance. goes_auto. Qed.
Hint Resolve goes_handle_halt goes_round_advance : walk.
Lemma goes_handle_mvote o m : go o (handle_smvba_mvote rec m).
Proof. unfold handle_smvba_mvote. goes_auto. Qed.
Hint Resolve goes_handle_mvote : walk.
Lemma goes_handle_prevote o m : go o (handle_smvba_prevote rec m).
Proof. unfold handle_smvba_prevote. goes_auto. Qed.
Hint Resolve goes_handle_prevote : walk.
Lemma goes_handle_done o m : go o (handle_smvba_done rec m).
Proof. unfold handle_smvba_done. goes_auto. Qed.
Lemma goes_handle_rs o share : go o (handle_smvba_rs rec share).
Proof. apply goes_weaken, wk_share; intros m; [apply goes_handle_prevote | apply goes_handle_halt]. Qed.
Hint Resolve goes_handle_done goes_handle_rs : walk.
Lemma goes_handle_done_with_share o m : go o (handle_smvba_done_with_share rec m).
Proof. unfold handle_smvba_done_with_share. goes_auto. Qed.
Hint Resolve goes_handle_done_with_share : walk.
Lemma goes_invoke_done o h round : go o (invoke_done_and_share rec h round).
Proof. unfold invoke_done_and_share. goes_auto. Qed.
End Handlers.

#[export] Hint Resolve goes_opt_propose goes_handle_opt_proposal
  goes_handle_opt_vote goes_process_opt_block goes_handle_fallback_vote
  goes_handle_fallback_propose goes_handle_par_prepare goes_process_spb
  goes_handle_spb_proposal goes_handle_spb_vote goes_handle_spb_finish
  goes_handle_done_with_share goes_handle_prevote goes_handle_mvote goes_handle_halt
  goes_process_par_out goes_invoke_done goes_invoke_fallback goes_process_fallback : walk.

(** ** Runs *)

Section Runs.
Context `{CryptoLib} `{NodeEnv} {evolves may} `{!Walk evolves may}.

Notation go := (goes evolves may).

Lemma goes_exec n cl : go (needs cl) (exec n cl).
Proof.
  revert cl. induction n as [|n IH]; intros cl; [by apply goes_lift|].
  change (exec (S n) cl) with (run_call (exec n) cl).
  destruct cl; simpl; eauto 3 with walk nocore.
Qed.

Lemma goes_exec_none n cl : needs cl = None -> go None (exec n cl).
Proof. intros <-. apply goes_exec. Qed.
Hint Resolve goes_exec : walk.

(** The block of a loop-back must be one that may be processed. *)
Definition input_may (may : Core -> Block.t -> Prop) (i : Input) (s : Core) : Prop :=
  match i with OnCoreChannel (HsLoopBack b) => may s b | _ => True end.

Definition input_block (i : Input) : option Block.t :=
  match i with OnCoreChannel (HsLoopBack b) => Some b | _ => None end.

Lemma goes_dispatch n i : go (input_block i) (dispatch n i).
Proof.
  destruct i as [m|m|]; simpl; [destruct m..|]; simpl; unfold handle_sync_request; goes_auto.
Qed.

Lemma goes_boot n : go None (run_boot n).
Proof. unfold run_boot. goes_auto. Qed.

Lemma goes_drain l : go None (drain l).
Proof. induction l as [|[e m] l IH]; simpl; goes_auto. Qed.

Lemma goes_next_epoch n : go None (next_epoch n).
Proof.
  unfold next_epoch. pose proof goes_drain. pose proof (goes_boot n).
  goes_step. goes_step; [|goes_auto]. apply goes_modify. intros s. apply ev_epoch.
Qed.

(** The runs of a node in which the loop-backs are of blocks that may be processed. *)
Lemma evolves_event n ev s :
  evolves s s -> match ev with Deliver i => input_may may i s | _ => True end ->
  evolves s (node_event n ev s).2.
Proof.
  intros Hs Hev. destruct ev as [i|d|k v]; simpl; [|by apply ev_record..].
  assert (evolves s (dispatch n i s).2) as Hd.
  { apply goes_dispatch; [done|]. intros b. destruct i as [m|m|]; try done. destruct m; try done.
    by intros [= ->]. }
  destruct (dispatch n i s) as [r s']. simpl in Hd. destruct (after r); try exact Hd.
  pose proof (goes_next_epoch n s' (ev_right _ _ Hd) ltac:(done)) as He.
  destruct (next_epoch n s'). simpl in *. by eapply ev_trans.
Qed.

Lemma evolves_start n core : evolves core core -> evolves core (start n core).2.
Proof.
  intros Hs. pose proof (goes_boot n core Hs ltac:(done)) as Hb. unfold start.
  by destruct (run_boot n core).
Qed.

Lemma evolves_run n l s :
  (forall s b, evolves s s -> may s b) -> evolves s s -> evolves s (node_run n l s).2.
Proof.
  intros Hmay. revert s. induction l as [|ev l IH]; intros s Hs; simpl; [done|].
  assert (evolves s (node_event n ev s).2) as He.
  { apply evolves_event; [done|]. destruct ev as [i| |]; try done.
    destruct i as [m|m|]; try done. destruct m; try done. by apply Hmay. }
  destruct (node_event n ev s) as [[] s']; simpl in *; try done.
  eapply ev_trans; [exact He|]. apply IH. by eapply ev_right.
Qed.
End Runs.
