(* ===== verification/Cluster.v ===== *)
(** * A synchronous run of four nodes

    A small simulator used by the witnesses: the nodes of the toy committee start,
    and in each round every node receives what the others have sent it.  Every state
    it computes is that of a proper run in the sense of [Refine.v]. *)

From S2P Require Import Prelude Machine Crypto Config Messages Leader Aggregator Timer Store.
From S2P Require Import Sync Core Handlers Fixture MessageFacts Types Spec Refine.

Definition sim_fuel : nat := 20.

(** Deliver an input the node may take. *)
Definition may_take (i : Input) (s : Core) : bool :=
  match i with
  | OnCoreChannel (HsLoopBack block) => Block.epoch block =? epoch s
  | _ => true
  end && (epoch s <? u64_max) && bool_decide (ty_input i).

Definition receive (i : Input) (s : Core) : Core :=
  if may_take i s then (node_event sim_fuel (Deliver i) s).2 else s.

Lemma may_take_spec i s : may_take i s = true -> event_ok (Deliver i) s /\ ty_event (Deliver i).
Proof.
  unfold may_take. rewrite !andb_true_iff, Z.ltb_lt, bool_decide_eq_true. intros [[Hf He] Ht].
  split; [|exact Ht]. split; [|exact He].
  destruct i as [m|m|]; [|exact I..]. destruct m; try exact I. by apply Z.eqb_eq.
Qed.

Lemma receive_proper core i s : proper_run core s -> proper_run core (receive i s).
Proof.
  intros Hr. unfold receive. destruct (may_take i s) eqn:Hb; [|done].
  destruct (may_take_spec i s Hb). by apply proper_event.
Qed.

(** The messages of a mail bag addressed to a node. *)
Definition inbox (mail : list FilterInput) (a : ConsensusResult SocketAddr)
    : list ConsensusMessage :=
  match a with
  | Ok a => (filter (fun m => a ∈ m.2) mail).*1
  | _ => []
  end.

(** A node with the numbers of its messages already delivered. *)
Notation Seat := (Core * (nat * nat))%type.

(** [recv] is what a node does with an input: [receive], or a stricter one. *)
Section Simulator.
Variable recv : Input -> Core -> Core.

Definition receive_mail (opt_mail pes_mail : list FilterInput) (s : Core) : Core :=
  let s1 := fold_left (fun s m => recv (OnCoreChannel m) s)
              (inbox opt_mail (address (committee s) (name s))) s in
  fold_left (fun s m => recv (OnSmvbaChannel m) s)
    (inbox pes_mail (smvba_address (committee s) (name s))) s1.

(** The messages a round delivers. *)
Definition opt_mail (nodes : list Seat) : list FilterInput :=
  nodes ≫= fun x => drop x.2.1 (network_filter x.1).
Definition pes_mail (nodes : list Seat) : list FilterInput :=
  nodes ≫= fun x => drop x.2.2 (network_filter_smvba x.1).

Definition sim_round (nodes : list Seat) : list Seat :=
  (fun x => (receive_mail (opt_mail nodes) (pes_mail nodes) x.1,
             (length (network_filter x.1), length (network_filter_smvba x.1)))) <$> nodes.

Fixpoint simulate (rounds : nat) (nodes : list Seat) : list Seat :=
  match rounds with
  | O => nodes
  | S rounds => simulate rounds (sim_round nodes)
  end.

(** The last round of a simulation. *)
Lemma simulate_last rounds nodes : simulate (S rounds) nodes = sim_round (simulate rounds nodes).
Proof. revert nodes. induction rounds as [|r IH]; intros nodes; [done | exact (IH (sim_round nodes))]. Qed.

Lemma simulate_length rounds nodes : length (simulate rounds nodes) = length nodes.
Proof.
  revert nodes. induction rounds as [|r IH]; intros nodes; simpl; [done|].
  rewrite IH. unfold sim_round. by rewrite length_fmap.
Qed.
End Simulator.

Definition cluster (opt pes : bool) : list Seat :=
  (fun i => ((start sim_fuel (toy_node i opt pes)).2, (O, O))) <$> [1; 2; 3; 4].

(** The state of node [i] among the seats. *)
Definition seat (opt pes : bool) (nodes : list Seat) (i : Z) : Core :=
  match nodes !! Z.to_nat (i - 1) with
  | Some (s, _) => s
  | None => toy_node i opt pes
  end.

Lemma seat_round recv opt pes nodes i :
  (Z.to_nat (i - 1) < length nodes)%nat ->
  seat opt pes (sim_round recv nodes) i =
    receive_mail recv (opt_mail nodes) (pes_mail nodes) (seat opt pes nodes i).
Proof.
  intros Hi. unfold seat, sim_round. rewrite list_lookup_fmap.
  by destruct (lookup_lt_is_Some_2 _ _ Hi) as [[s x] ->].
Qed.

Definition sim_node (opt pes : bool) (rounds : nat) (i : Z) : Core :=
  seat opt pes (simulate receive rounds (cluster opt pes)) i.

(** ** Reachability *)

(** Any property of single states that [recv] keeps holds of every simulated node. *)
Section Simulated.
Variable recv : Input -> Core -> Core.
Variable R : Core -> Core -> Prop.
Hypothesis recv_keeps : forall core i s, R core s -> R core (recv i s).

Lemma fold_receive_keeps core {A} (f : A -> Input) l s :
  R core s -> R core (fold_left (fun s m => recv (f m) s) l s).
Proof. revert s. induction l as [|m l IH]; intros s Hs; simpl; [done|]. by apply IH, recv_keeps. Qed.

Lemma simulate_keeps rounds nodes cores :
  Forall2 (fun core x => R core x.1) cores nodes ->
  Forall2 (fun core x => R core x.1) cores (simulate recv rounds nodes).
Proof.
  revert nodes. induction rounds as [|rounds IH]; intros nodes Hn; simpl; [done|].
  apply IH. unfold sim_round. apply Forall2_fmap_r.
  eapply Forall2_impl; [exact Hn|]. intros core [s k] Hs. simpl in *.
  unfold receive_mail. by apply fold_receive_keeps, fold_receive_keeps.
Qed.

Lemma seat_keeps opt pes rounds nodes i :
  (forall i, R (toy_node i opt pes) (start sim_fuel (toy_node i opt pes)).2) ->
  nodes = simulate recv rounds (cluster opt pes) ->
  i ∈ [1; 2; 3; 4] -> R (toy_node i opt pes) (seat opt pes nodes i).
Proof.
  intros Hstart Hn Hi.
  assert (Forall2 (fun core x => R core x.1)
    ((fun i => toy_node i opt pes) <$> [1; 2; 3; 4]) (cluster opt pes)) as Hc.
  { repeat constructor; apply Hstart. }
  apply (simulate_keeps rounds) in Hc. rewrite <- Hn in Hc. unfold seat.
  assert (((fun i => toy_node i opt pes) <$> [1; 2; 3; 4]) !! Z.to_nat (i - 1)
    = Some (toy_node i opt pes)) as Hl.
  { repeat (apply elem_of_cons in Hi as [->|Hi]; [reflexivity|]). by apply elem_of_nil in Hi. }
  destruct (Forall2_lookup_l _ _ _ _ _ Hc Hl) as ([s k] & -> & Hs). exact Hs.
Qed.
End Simulated.

Lemma sim_node_proper opt pes rounds i :
  i ∈ [1; 2; 3; 4] -> proper_run (toy_node i opt pes) (sim_node opt pes rounds i).
Proof.
  intros Hi.
  apply (seat_keeps receive (fun core s => proper_run core s)) with (rounds := rounds).
  - intros core j s. apply receive_proper.
  - intros j. apply proper_start.
  - exact eq_refl.
  - exact Hi.
Qed.

Lemma sim_node_reachable opt pes rounds i :
  i ∈ [1; 2; 3; 4] -> reachable (toy_node i opt pes) (sim_node opt pes rounds i).
Proof. intros Hi. exact (proper_run_reachable _ _ (sim_node_proper opt pes rounds i Hi)). Qed.

(** The toy nodes are well typed. *)
Lemma toy_committee_typed : ty_committee toy_committee.
Proof.
  refine (proj1 (Forall_forall wf_key (authority_keys toy_committee)) _).
  apply (bool_decide_unpack _). by vm_compute.
Qed.
