(* ===== verification/CoreFacts.v ===== *)
(** * Facts about the handlers

    What the guards of the handlers keep out, and what happens at an epoch change. *)

From S2P Require Import Prelude Machine Crypto Config Messages Leader Aggregator Timer Store.
From S2P Require Import Sync Core Handlers Fixture Cluster.

Section Guards.
Context `{CryptoLib} `{NodeEnv}.

End Guards.

(** ** Epoch change *)

Section Epochs.
Context `{CryptoLib} `{NodeEnv}.

(** The messages the handlers buffer for a later epoch. *)
Definition proposal_kind (m : ConsensusMessage) : Prop :=
  match m with HsPropose _ | SPBPropose _ _ | FBPropose _ => True | _ => False end.

Definition for_core (m : ConsensusMessage) : bool :=
  match m with HsPropose _ => true | _ => false end.

(** The buffered messages of an epoch. *)
Definition of_epoch (e : Z) (l : list (Z * ConsensusMessage)) : list ConsensusMessage :=
  (filter (fun x => x.1 = e) l).*2.

Lemma drain_eq l s :
  unhandle_message s = l -> Forall (fun x => proposal_kind x.2) l ->
  drain l s =
  (Ok tt, s <| unhandle_message := [] |>
            <| tx_core := tx_core s ++ filter (fun m => for_core m = true) (of_epoch (epoch s) l) |>
            <| tx_smvba := tx_smvba s ++ filter (fun m => for_core m = false) (of_epoch (epoch s) l) |>).
Proof.
  intros Hl Hall. revert s Hl. induction Hall as [|[e m] l Hm _ IH]; intros s Hl.
  - cbn. rewrite !app_nil_r. destruct s. simpl in Hl. by subst.
  - cbn [drain]. unfold mbind at 1, act_bind at 1, modify. unfold mbind at 1, act_bind at 1, gets.
    cbn [epoch set]. unfold of_epoch. rewrite filter_cons. cbn [fst].
    set (s1 := s <| unhandle_message := l |>).
    change (epoch s1) with (epoch s).
    destruct (Z.eqb_spec e (epoch s)) as [He|Hne].
    + rewrite decide_True by done. csimpl.
      destruct m; try done; unfold mbind at 1, act_bind at 1, modify;
        rewrite IH by reflexivity; rewrite !filter_cons; csimpl;
        rewrite ?app_nil_r, <- ?app_assoc; by destruct s.
    + rewrite decide_False by done. rewrite IH by done. by destruct s.
Qed.

(** The next epoch.  After [run] has returned, the node starts the next epoch
    from a state in which heights, votes, locks and aggregators are those of a new
    node, the signed log, the commits, the store and the sent messages are kept, the
    buffered proposals of the new epoch are queued again in their order, each on its
    channel, and those of every other epoch (earlier or later) are dropped; then it
    boots. *)
Theorem next_epoch_spec (n : nat) (s : Core) :
  Forall (fun x => proposal_kind x.2) (unhandle_message s) ->
  exists s1, next_epoch n s = run_boot n s1 /\
    epoch s1 = epoch s +64 1 /\
    height s1 = 1 /\ last_voted_height s1 = 0 /\ last_committed_height s1 = 0 /\
    high_qc s1 = QC.genesis /\ aggregator s1 = Aggregator_new (committee s) /\
    unhandle_message s1 = [] /\
    signed s1 = signed s /\ commit_channel s1 = commit_channel s /\ store s1 = store s /\
    network_filter s1 = network_filter s /\
    tx_core s1 = tx_core s ++
      filter (fun m => for_core m = true) (of_epoch (epoch s +64 1) (unhandle_message s)) /\
    tx_smvba s1 = tx_smvba s ++
      filter (fun m => for_core m = false) (of_epoch (epoch s +64 1) (unhandle_message s)).
Proof.
  intros Hall. set (s0 := epoch_init (epoch s +64 1) s).
  pose proof (drain_eq (unhandle_message s) s0 eq_refl Hall) as Hd.
  change (epoch s0) with (epoch s +64 1) in Hd.
  change (tx_core s0) with (tx_core s) in Hd. change (tx_smvba s0) with (tx_smvba s) in Hd.
  eexists. split.
  - unfold next_epoch, mbind at 1, act_bind at 1, gets.
    unfold mbind at 1, act_bind at 1, modify.
    unfold mbind at 1, act_bind at 1. fold s0.
    change (unhandle_message s0) with (unhandle_message s).
    unfold mbind, act_bind. rewrite Hd. reflexivity.
  - repeat split.
Qed.
End Epochs.

(** ** Witness: a node that has buffered proposals of two later epochs *)

Definition early_proposal (e : Z) : Block.t :=
  Block.mk QC.genesis (key 2) 1 e [] Signature_default OPT 0.

Definition waiting_node : Core :=
  toy_node 1 true false
    <| unhandle_message := [(1, HsPropose (early_proposal 1)); (2, HsPropose (early_proposal 2))] |>.

Lemma next_epoch_spec_witness :
  exists s1, next_epoch 20 waiting_node = run_boot 20 s1 /\ epoch s1 = 1 /\
    tx_core s1 = [HsPropose (early_proposal 1)].
Proof.
  destruct (next_epoch_spec 20 waiting_node) as (s1 & Hrun & He & _ & _ & _ & _ & _ & _ & _ &
    _ & _ & _ & Hc & _); [repeat constructor|].
  exists s1. split; [exact Hrun|]. split; [exact He|]. exact Hc.
Defined.
