(* ===== verification/Safety.v ===== *)
(** * Safety of one node

    The consequences of the refinement for a node that has been built, booted and
    run: what it votes for and what it commits. *)

From S2P Require Import Prelude Machine Crypto Config Messages Leader Aggregator Timer Store.
From S2P Require Import Sync Core Handlers Fixture Spec Refine Cluster.

(** ** Commits, epoch by epoch *)

Section Commits.
Context `{CryptoLib} `{NodeEnv}.

(** The blocks committed so far, cut at the ends of epochs: one segment for each
    finished epoch and one for the current epoch; heights strictly increase in each
    segment. *)
Definition commits_by_epoch (a : anode) : Prop :=
  exists past cur,
    a_commits a = concat past ++ cur /\ Z.of_nat (length past) = a_epoch a /\
    Forall (fun seg => increasing 0 (heights seg)) past /\
    increasing 0 (heights cur) /\ a_last_committed a = last_or 0 (heights cur).

Lemma commits_by_epoch_init n db : commits_by_epoch (a_init n db).
Proof. by exists [], []. Qed.

Lemma commits_by_epoch_step a b : commits_by_epoch a -> astep a b -> commits_by_epoch b.
Proof.
  intros (past & cur & Hc & Hlen & Hpast & Hcur & Hlast) Hs.
  destruct Hs as [a v|a h|a m|a h|a blk Hlt|a blk]; simpl in *;
    try solve [exists past, cur; simpl; repeat split; assumption].
  exists past, (cur ++ [blk]). unfold heights in *. simpl.
  rewrite Hc, <- app_assoc, !fmap_app. repeat split; [done.. | |].
  - apply increasing_app. split; [done|]. simpl. split; [lia | done].
  - rewrite last_or_app. done.
Qed.

Lemma commits_by_epoch_run a b :
  0 <= a_epoch a -> commits_by_epoch a -> arun a b -> commits_by_epoch b /\ 0 <= a_epoch b.
Proof.
  intros Hpos Hinv Hr. induction Hr as [a|a b c _ IH Hs|a b _ IH Hmax|a b k v _ IH]; [done|..].
  - destruct (IH Hpos Hinv) as [Hb Hb0]. split; [by eapply commits_by_epoch_step|].
    apply astep_epoch in Hs as [-> _]. done.
  - destruct (IH Hpos Hinv) as [(past & cur & Hc & Hlen & Hpast & Hcur & Hlast) Hb0].
    unfold u64_max in Hmax. split; [|simpl; rewrite wrap64_small; lia].
    exists (past ++ [cur]), []. simpl. rewrite concat_app, length_app, wrap64_small by lia.
    simpl. rewrite !app_nil_r. split_and!; [done | lia | | done..].
    apply Forall_app. split; [done | by constructor].
  - destruct (IH Hpos Hinv) as [Hb Hb0]. split; [exact Hb | exact Hb0].
Qed.
End Commits.

(** ** The properties *)

Section Properties.
Context `{CryptoLib} `{NodeEnv}.
Context (n : PublicKey) (c : Committee) (ps : Parameters) (svc : SignatureService).
Context (pks : PublicKeySet) (st : StoreClient) (el : LeaderElector) (opt pes : bool) (now : Z).

Let core : Core := Core_new n c ps svc pks st el opt pes now.

Lemma reachable_vote_inv s : reachable core s -> vote_inv (abstract s).
Proof.
  intros Hr. apply reachable_arun in Hr.
  eapply (vote_inv_run (abstract core)); [done | | exact Hr].
  exact (vote_inv_init n (kv st)).
Qed.

(** C4: Refinement.  A node built by [Core::new], started and fed with events (in any
    order, messages of any sender on both channels, with any answers of the mempool
    and the database, at any fuel) is at every point a run of the abstract node of
    [Spec.v]: its epochs, heights, votes, signatures, commits and writes to the
    store change only by the abstract steps.  Two conditions on the events
    ([Refine.event_ok]): the block of an [HsLoopBack] is of the node's current epoch,
    which the code does not check, and the epoch is below [2^64 - 1]. *)
Theorem node_refines_spec (s : Core) :
  reachable core s -> arun (a_init n (kv st)) (abstract s).
Proof. intros Hr. exact (reachable_arun _ _ Hr). Qed.

(** C5: A node never signs two different votes of the optimistic path for the same
    epoch and height, and each of its votes carries its own name, as long as the block
    of every [HsLoopBack] it receives is of its current epoch and its epoch is below
    [2^64 - 1] ([Refine.event_ok]).  With a loop-back of another epoch, which a peer
    can send, it does: the second part of [Injections.loop_backs_break_safety]. *)
Theorem optimistic_vote_once (s : Core) (v w : HVote.t) :
  reachable core s ->
  SignedHVote v ∈ signed s -> SignedHVote w ∈ signed s ->
  HVote.tag v = OPT -> HVote.tag w = OPT ->
  HVote.epoch v = HVote.epoch w -> HVote.height v = HVote.height w ->
  v = w /\ HVote.author v = n.
Proof.
  intros Hr Hv Hw Htv Htw He Hh.
  destruct (reachable_vote_inv s Hr) as [Hep _ Honce]. simpl in *.
  assert (v ∈ opt_votes (signed s)) as Hv' by (by apply opt_votes_elem).
  assert (w ∈ opt_votes (signed s)) as Hw' by (by apply opt_votes_elem).
  split; [by apply Honce|]. rewrite Forall_forall in Hep.
  destruct (Hep v Hv') as [_ ->].
  apply reachable_arun in Hr.
  assert (forall a b, arun a b -> a_name b = a_name a) as Hname.
  { induction 1 as [|a b d _ IH Hs| |]; [done | | done..].
    apply astep_epoch in Hs as [_ ->]. exact IH. }
  pose proof (Hname _ _ Hr) as Hn. exact Hn.
Qed.

(** C8: The commit channel of a node is cut into one segment per epoch, and within
    an epoch the committed blocks come in strictly increasing height, so no height
    is committed twice; [last_committed_height] is the height of the last one.  (The
    events are those of [node_refines_spec].) *)
Theorem commits_strictly_increase (s : Core) :
  reachable core s ->
  exists past cur,
    commit_channel s = concat past ++ cur /\ Z.of_nat (length past) = epoch s /\
    Forall (fun seg => StronglySorted Z.lt (Block.height <$> seg)) (past ++ [cur]) /\
    last_committed_height s = default 0 (last (Block.height <$> cur)).
Proof.
  intros Hr. apply reachable_arun in Hr.
  eapply commits_by_epoch_run in Hr; [|done | exact (commits_by_epoch_init n (kv st))].
  destruct Hr as [(past & cur & Hc & Hlen & Hpast & Hcur & Hlast) _].
  exists past, cur. split; [done|]. split; [done|]. split.
  - apply Forall_app. split; [|constructor; [by eapply increasing_sorted | done]].
    eapply Forall_impl; [exact Hpast|]. intros seg. apply increasing_sorted.
  - simpl in Hlast. rewrite Hlast. unfold heights. clear.
    induction (Block.height <$> cur) as [|x l IH] using rev_ind; [done|].
    by rewrite last_or_app, last_snoc.
Qed.
End Properties.

(** ** Witnesses *)

(** Node 3 after the first round: it has received the first proposal and voted. *)
Notation replica := (sim_node true false 1 3).

Lemma replica_reachable : reachable (toy_node 3 true false) replica.
Proof. apply sim_node_reachable. set_solver. Qed.

Lemma node_refines_spec_witness :
  reachable (toy_node 3 true false) replica /\ arun (a_init (key 3) ∅) (abstract replica).
Proof.
  split; [exact replica_reachable|].
  apply (node_refines_spec (key 3) toy_committee Parameters_default (toy_service 3) tt
    (mkStoreClient ∅ 0) (LeaderElector_new toy_committee 2) true false 0).
  exact replica_reachable.
Defined.

Definition first_vote (s : Core) : HVote.t :=
  match opt_votes (signed s) with v :: _ => v | [] => HVote.unsigned Block.genesis (key 0) PES end.

Definition toy_vote : HVote.t := first_vote replica.

Lemma first_vote_signed s :
  length (opt_votes (signed s)) <> O ->
  SignedHVote (first_vote s) ∈ signed s /\ HVote.tag (first_vote s) = OPT.
Proof.
  intros Hne. apply opt_votes_elem. unfold first_vote.
  destruct (opt_votes (signed s)); [done | set_solver].
Qed.

Lemma toy_vote_signed : SignedHVote toy_vote ∈ signed replica.
Proof. apply first_vote_signed. by vm_compute. Qed.

Lemma toy_vote_tag : HVote.tag toy_vote = OPT.
Proof. apply first_vote_signed. by vm_compute. Qed.

Lemma optimistic_vote_once_witness :
  SignedHVote toy_vote ∈ signed replica /\ HVote.tag toy_vote = OPT /\
  toy_vote = toy_vote /\ HVote.author toy_vote = key 3.
Proof.
  split; [exact toy_vote_signed|]. split; [exact toy_vote_tag|].
  apply (optimistic_vote_once (key 3) toy_committee Parameters_default (toy_service 3) tt
    (mkStoreClient ∅ 0) (LeaderElector_new toy_committee 2) true false 0 replica).
  - exact replica_reachable.
  - exact toy_vote_signed.
  - exact toy_vote_signed.
  - exact toy_vote_tag.
  - exact toy_vote_tag.
  - reflexivity.
  - reflexivity.
Defined.

Notation committer := (sim_node true false 5 1).

Lemma committer_reachable : reachable (toy_node 1 true false) committer.
Proof. apply sim_node_reachable. set_solver. Qed.

(** After five rounds node 1 has committed a block of height 1. *)
Lemma commits_strictly_increase_witness :
  Block.height <$> commit_channel committer = [1] /\
  exists past cur,
    commit_channel committer = concat past ++ cur /\
    Z.of_nat (length past) = epoch committer /\
    Forall (fun seg => StronglySorted Z.lt (Block.height <$> seg)) (past ++ [cur]) /\
    last_committed_height committer = default 0 (last (Block.height <$> cur)).
Proof.
  split; [by vm_compute|].
  apply (commits_strictly_increase (key 1) toy_committee Parameters_default (toy_service 1) tt
    (mkStoreClient ∅ 0) (LeaderElector_new toy_committee 2) true false 0).
  exact committer_reachable.
Defined.
