(* ===== verification/LeaderFacts.v ===== *)
(** * Facts about leader election

    The two sides of the leader window agree: [get_leaders] lists exactly the
    members [index_as_leader] places in the window, at their positions; every node
    of a committee computes the same window; and each member leads in turn. *)

From S2P Require Import Prelude Machine Crypto Config Messages Leader Aggregator Timer Store.
From S2P Require Import Sync Core Handlers Fixture.

(** ** [enumerate] and [collect] *)

Lemma elem_of_enumerate {A} (i j : Z) (x : A) l :
  (j, x) ∈ enumerate i l <-> i <= j /\ l !! Z.to_nat (j - i) = Some x.
Proof.
  revert i. induction l as [|y l IH]; intros i; simpl.
  - rewrite elem_of_nil. naive_solver.
  - rewrite elem_of_cons, IH. split.
    + intros [[= -> ->]|[Hle Hl]]; [by rewrite Z.sub_diag|].
      split; [lia|]. replace (Z.to_nat (j - i)) with (S (Z.to_nat (j - (i + 1)))) by lia. done.
    + intros [Hle Hl]. destruct (decide (j = i)) as [->|Hne].
      * rewrite Z.sub_diag in Hl. simpl in Hl. left. congruence.
      * right. split; [lia|].
        replace (Z.to_nat (j - i)) with (S (Z.to_nat (j - (i + 1)))) in Hl by lia. done.
Qed.

Lemma enumerate_values {A} (i : Z) (l : list A) : (enumerate i l).*2 = l.
Proof. revert i. induction l as [|x l IH]; intros i; csimpl; [done | by rewrite IH]. Qed.

Lemma collect_lookup {A B} (f : A -> ConsensusResult B) (g : A -> option B) l :
  Forall (fun x => exists y, f x = Ok y /\ g x = Some y) l ->
  exists ys, collect f l = Ok ys /\ forall i : nat, ys !! i = l !! i ≫= g.
Proof.
  induction 1 as [|x l (y & Hf & Hg) _ (ys & Hc & Hys)]; simpl.
  - exists []. split; [done|]. intros i. by rewrite !lookup_nil.
  - rewrite Hf. simpl. rewrite Hc. simpl. exists (y :: ys). split; [done|].
    intros [|i]; simpl; [done | apply Hys].
Qed.

(** Positions modulo [n], for values below [2 n]. *)
Lemma mod_once n x : 0 < n -> 0 <= x < 2 * n -> x mod n = if decide (x < n) then x else x - n.
Proof.
  intros Hn Hx. destruct (decide (x < n)); [apply Z.mod_small; lia|].
  symmetry. apply (Z.mod_unique_pos x n 1); lia.
Qed.

Lemma window_position n s j p :
  0 <= s < n -> 0 <= j < n -> 0 <= p < n ->
  (p + n - s) mod n = j <-> (s + j) mod n = p.
Proof.
  intros Hs Hj Hp. destruct (decide (s = 0)) as [->|Hs0].
  - rewrite Z.sub_0_r, Z.add_0_l, (Z.mod_small j) by lia.
    rewrite <- (Z.mul_1_l n) at 1. rewrite Z.mod_add, Z.mod_small by lia. lia.
  - rewrite !mod_once by lia. repeat destruct (decide _); lia.
Qed.

Section Window.
Context `{CryptoLib} (c : Committee) (w : Z).

Notation e := (LeaderElector_new c w).
Notation n := (committee_size c).

Hypothesis Hsize : 0 < n.
Hypothesis Hwindow : 0 <= w <= n.
Hypothesis Hbound : 3 * n < 2 ^ 64.

Lemma names_length : names_len e = n.
Proof.
  clear. unfold names_len, LeaderElector_new, committee_size, authority_keys. simpl.
  rewrite sort_keys_perm, length_fmap. by rewrite length_map_to_list.
Qed.

Lemma names_nodup : NoDup (names e).
Proof.
  clear. unfold LeaderElector_new, authority_keys. simpl. rewrite sort_keys_perm.
  apply NoDup_fst_map_to_list.
Qed.

Lemma name_index name (p : Z) :
  name_to_idx e !! name = Some p <-> 0 <= p /\ names e !! Z.to_nat p = Some name.
Proof.
  clear Hsize Hwindow Hbound. pose proof names_nodup as Hnd. simpl in *.
  set (l := sort_keys (authority_keys c)) in *.
  rewrite <- elem_of_list_to_map.
  - rewrite list_elem_of_fmap. split.
    + intros ([j x] & [= -> ->] & Hin). apply elem_of_enumerate in Hin.
      rewrite Z.sub_0_r in Hin. done.
    + intros Hp. exists (p, name). split; [done|]. apply elem_of_enumerate.
      by rewrite Z.sub_0_r.
  - rewrite <- list_fmap_compose.
    replace (fst ∘ (fun '(idx, name) => (name, idx)) <$> enumerate 0 l) with (enumerate 0 l).*2.
    + by rewrite enumerate_values.
    + apply list_fmap_ext. by intros i [j x] _.
Qed.

Lemma names_in_range (p : Z) : 0 <= p < n -> exists k, names e !! Z.to_nat p = Some k.
Proof.
  intros Hp. apply lookup_lt_is_Some_2. pose proof names_length as Hl.
  unfold names_len in Hl. lia.
Qed.

Lemma leader_at_in_window (h i : Z) :
  0 <= i < w ->
  exists k, leader_at e (h mod n + i) = Ok k /\
    names e !! Z.to_nat ((h mod n + i) mod n) = Some k.
Proof.
  intros Hi. pose proof (Z.mod_pos_bound h n Hsize).
  destruct (names_in_range ((h mod n + i) mod n)) as [k Hk]; [by apply Z.mod_pos_bound|].
  exists k. split; [|done]. unfold leader_at. rewrite names_length.
  rewrite wrap64_small by lia.
  replace ((h mod n + i + n) mod n) with ((h mod n + i) mod n).
  - by rewrite Hk.
  - rewrite <- (Z.mod_add (h mod n + i) 1 n) by lia. f_equal. lia.
Qed.

Lemma get_leaders_spec (h : Z) :
  exists l, get_leaders e h = Ok l /\
    forall i, 0 <= i -> l !! Z.to_nat i =
      if decide (i < w) then names e !! Z.to_nat ((h mod n + i) mod n) else None.
Proof.
  unfold get_leaders, get_leader_idx. rewrite names_length.
  rewrite (proj2 (Z.eqb_neq n 0)) by lia. simpl.
  pose proof (Z.mod_pos_bound h n Hsize). rewrite wrap64_small by lia.
  replace (h mod n + w - h mod n) with w by lia.
  destruct (collect_lookup (leader_at e)
    (fun j => names e !! Z.to_nat (j mod n)) (seqZ (h mod n) w)) as (l & Hl & Hlook).
  { apply Forall_forall. intros j Hj. apply elem_of_seqZ in Hj.
    destruct (leader_at_in_window h (j - h mod n)) as (k & Hk & Hn); [lia|].
    replace (h mod n + (j - h mod n)) with j in * by lia. eauto. }
  exists l. split; [exact Hl|]. intros i Hi. rewrite Hlook.
  destruct (decide (i < w)).
  - rewrite lookup_seqZ_lt by lia. simpl. by rewrite Z2Nat.id by lia.
  - rewrite lookup_seqZ_ge by lia. done.
Qed.

Lemma index_as_leader_spec (name : PublicKey) (h i : Z) :
  index_as_leader e name h = Ok (Some i) <->
  0 <= i < w /\ names e !! Z.to_nat ((h mod n + i) mod n) = Some name.
Proof.
  unfold index_as_leader, get_leader_idx. rewrite names_length.
  rewrite (proj2 (Z.eqb_neq n 0)) by lia. cbn -[LeaderElector_new Z.modulo].
  pose proof (Z.mod_pos_bound h n Hsize) as Hm.
  destruct (name_to_idx e !! name) as [p|] eqn:Hp; cbn -[LeaderElector_new Z.modulo].
  - apply name_index in Hp as [Hp0 Hp].
    assert (p < n) as Hpn.
    { apply lookup_lt_Some in Hp. pose proof names_length. unfold names_len in *. lia. }
    rewrite !wrap64_small by (rewrite ?wrap64_small; lia).
    assert (forall i, 0 <= i < w -> (p + n - h mod n) mod n = i <-> (h mod n + i) mod n = p) as Hiff.
    { intros j Hj. apply window_position; lia. }
    change (window e) with w.
    destruct (Z.ltb_spec ((p + n - h mod n) mod n) w) as [Hlt|Hge]; split.
    + intros Heq. assert ((p + n - h mod n) mod n = i) as Hi by congruence.
      pose proof (Z.mod_pos_bound (p + n - h mod n) n Hsize).
      split; [lia|]. by rewrite (proj1 (Hiff i ltac:(lia)) Hi).
    + intros [Hi Hn]. do 2 f_equal. apply Hiff; [done|].
      pose proof (Z.mod_pos_bound (h mod n + i) n Hsize).
      pose proof (NoDup_lookup _ _ _ _ names_nodup Hp Hn). lia.
    + done.
    + intros [Hi Hn]. exfalso. pose proof (Z.mod_pos_bound (h mod n + i) n Hsize).
      pose proof (NoDup_lookup _ _ _ _ names_nodup Hp Hn).
      pose proof (proj2 (Hiff i Hi) ltac:(lia)). lia.
  - split; [done|]. intros [Hi Hn].
    assert (name_to_idx e !! name = Some ((h mod n + i) mod n)) as Hsome; [|congruence].
    apply name_index. split; [|done]. by apply Z.mod_pos_bound.
Qed.

Lemma names_members name : name ∈ names e <-> name ∈ members c.
Proof.
  clear Hsize Hwindow Hbound. unfold LeaderElector_new, authority_keys, members. simpl.
  rewrite sort_keys_perm, elem_of_dom, list_elem_of_fmap. split.
  - intros ([k a] & -> & Hk). apply elem_of_map_to_list in Hk. eauto.
  - intros [a Ha]. exists (name, a). by rewrite elem_of_map_to_list.
Qed.

(** Every member has a place or none; nobody's place is a panic. *)
Lemma member_place name h :
  name ∈ members c -> exists o, index_as_leader e name h = Ok o.
Proof.
  intros Hn. apply names_members, list_elem_of_lookup in Hn as [p Hp].
  assert (name_to_idx e !! name = Some (Z.of_nat p)) as Hi.
  { apply name_index. rewrite Nat2Z.id. split; [lia | done]. }
  unfold index_as_leader, get_leader_idx. rewrite names_length.
  rewrite (proj2 (Z.eqb_neq n 0)) by lia. cbn -[LeaderElector_new Z.modulo]. rewrite Hi. eauto.
Qed.

(** There is exactly one first leader. *)
Lemma first_leader h :
  0 < w -> exists name, name ∈ members c /\ index_as_leader e name h = Ok (Some 0).
Proof.
  intros Hw. destruct (names_in_range ((h mod n + 0) mod n)) as [k Hk];
    [by apply Z.mod_pos_bound|].
  exists k. split; [apply names_members; by eapply list_elem_of_lookup_2|].
  apply index_as_leader_spec. split; [lia | done].
Qed.

Lemma first_leader_unique h k k' :
  index_as_leader e k h = Ok (Some 0) -> index_as_leader e k' h = Ok (Some 0) -> k = k'.
Proof. rewrite !index_as_leader_spec. intros [_ Hk] [_ Hk']. congruence. Qed.

Lemma get_leaders_members h :
  exists l, get_leaders e h = Ok l /\ Forall (fun k => k ∈ members c) l /\
    forall k i, index_as_leader e k h = Ok (Some i) -> k ∈ l.
Proof.
  destruct (get_leaders_spec h) as (l & Hl & Hlook). exists l. split; [done|]. split.
  - apply Forall_forall. intros k Hk. apply list_elem_of_lookup in Hk as [i Hi].
    specialize (Hlook (Z.of_nat i) ltac:(lia)). rewrite Nat2Z.id, Hi in Hlook.
    destruct (decide _); [|done]. apply names_members. by eapply list_elem_of_lookup_2.
  - intros k i [Hi Hn]%index_as_leader_spec. apply list_elem_of_lookup.
    exists (Z.to_nat i). by rewrite Hlook, decide_True by lia.
Qed.
End Window.

(** ** Every node computes the same window *)

Lemma elector_of_members `{CryptoLib} c1 c2 w :
  members c1 = members c2 -> LeaderElector_new c1 w = LeaderElector_new c2 w.
Proof.
  intros Hm. unfold LeaderElector_new.
  assert (sort_keys (authority_keys c1) = sort_keys (authority_keys c2)) as ->; [|done].
  apply sort_keys_unique. unfold authority_keys.
  apply NoDup_Permutation; [apply NoDup_fst_map_to_list..|].
  assert (forall c k, k ∈ (map_to_list (authorities c)).*1 <-> k ∈ members c) as Hin.
  { intros c k. unfold members. rewrite elem_of_dom, list_elem_of_fmap. split.
    - intros ([k' a] & -> & Hk). apply elem_of_map_to_list in Hk. eauto.
    - intros [a Ha]. exists (k, a). by rewrite elem_of_map_to_list. }
  intros k. by rewrite !Hin, Hm.
Qed.

Section Properties.
Context `{CryptoLib}.

(** C28: The two views of the leader window agree.  For a window no larger than the
    committee, [get_leaders] returns, for any height, the list whose [i]-th entry
    is the member [index_as_leader] gives index [i]; nobody else is in the window. *)
Theorem leader_window_consistent (c : Committee) (w h : Z) :
  0 < committee_size c -> 0 <= w <= committee_size c -> 3 * committee_size c < 2 ^ 64 ->
  exists l, get_leaders (LeaderElector_new c w) h = Ok l /\
    Z.of_nat (length l) = w /\
    forall (i : nat) (name : PublicKey),
      l !! i = Some name <->
      index_as_leader (LeaderElector_new c w) name h = Ok (Some (Z.of_nat i)).
Proof.
  intros Hn Hw Hb. destruct (get_leaders_spec c w Hn Hw Hb h) as (l & Hl & Hlook).
  exists l. split; [done|]. split.
  - assert (forall i : nat, is_Some (l !! i) <-> Z.of_nat i < w) as Hlen.
    { intros i. specialize (Hlook (Z.of_nat i) ltac:(lia)). rewrite Nat2Z.id in Hlook.
      rewrite Hlook. destruct (decide (Z.of_nat i < w)); split; intros Hi; try lia; try done.
      destruct (names_in_range c w
        ((h mod committee_size c + Z.of_nat i) mod committee_size c)) as [k ->];
        [by apply Z.mod_pos_bound | done]. }
    pose proof (proj1 (lookup_lt_is_Some l (length l))) as Hend.
    destruct (Z.lt_trichotomy (Z.of_nat (length l)) w) as [Hlt|[Heq|Hgt]]; [|done|].
    + apply Hlen in Hlt. apply Hend in Hlt. lia.
    + assert (is_Some (l !! Z.to_nat w)) as Hs by (apply lookup_lt_is_Some; lia).
      apply Hlen in Hs. lia.
  - intros i name. rewrite index_as_leader_spec by done.
    specialize (Hlook (Z.of_nat i) ltac:(lia)). rewrite Nat2Z.id in Hlook. rewrite Hlook.
    destruct (decide (Z.of_nat i < w)); split; [intros; split; [lia | done] | naive_solver |
      done | naive_solver lia].
Qed.

(** Rotation.  Within any [n] consecutive heights every member is the first
    leader of exactly one height. *)
Theorem leader_rotation (c : Committee) (w h0 : Z) (name : PublicKey) :
  0 < w <= committee_size c -> 3 * committee_size c < 2 ^ 64 ->
  name ∈ members c ->
  exists h, h0 <= h < h0 + committee_size c /\
    forall h', h0 <= h' < h0 + committee_size c ->
      index_as_leader (LeaderElector_new c w) name h' = Ok (Some 0) <-> h' = h.
Proof.
  intros Hw Hb Hname. set (n := committee_size c) in *.
  assert (name ∈ names (LeaderElector_new c w)) as Hin.
  { simpl. rewrite sort_keys_perm. unfold authority_keys. apply list_elem_of_fmap.
    unfold members in Hname. apply elem_of_dom in Hname as [a Ha]. exists (name, a).
    by rewrite elem_of_map_to_list. }
  apply list_elem_of_lookup in Hin as [p Hp].
  assert (Z.of_nat p < n) as Hpn.
  { pose proof (names_length c w) as Hlen. apply lookup_lt_Some in Hp.
    unfold names_len in Hlen. lia. }
  exists (h0 + (Z.of_nat p - h0) mod n).
  pose proof (Z.mod_pos_bound (Z.of_nat p - h0) n ltac:(lia)) as Hmod.
  split; [lia|]. intros h' Hh'. rewrite index_as_leader_spec by (fold n; lia). fold n.
  rewrite Z.add_0_r, Z.mod_mod by lia.
  assert (h' mod n = Z.of_nat p <-> h' = h0 + (Z.of_nat p - h0) mod n) as Hiff.
  { split; intros Heq.
    - enough (h' - h0 = (Z.of_nat p - h0) mod n) by lia.
      apply (Z.mod_unique_pos _ n (- (h' / n))); [lia|].
      pose proof (Z.div_mod h' n). lia.
    - symmetry. pose proof (Z.div_mod (Z.of_nat p - h0) n ltac:(lia)).
      apply (Z.mod_unique_pos _ n (- ((Z.of_nat p - h0) / n))); lia. }
  rewrite <- Hiff. split.
  - intros [_ Hn]. pose proof (NoDup_lookup _ _ _ _ (names_nodup c w) Hp Hn).
    pose proof (Z.mod_pos_bound h' n). lia.
  - intros ->. rewrite Nat2Z.id. split; [lia | done].
Qed.

(** Two nodes whose committees have the same members elect the same leaders for
    every height, in whatever order their maps hold the members. *)
Theorem leaders_agree (c1 c2 : Committee) (w h : Z) (name : PublicKey) :
  members c1 = members c2 ->
  get_leaders (LeaderElector_new c1 w) h = get_leaders (LeaderElector_new c2 w) h /\
  index_as_leader (LeaderElector_new c1 w) name h =
    index_as_leader (LeaderElector_new c2 w) name h.
Proof. intros Hm. by rewrite (elector_of_members c1 c2 w Hm). Qed.
End Properties.
