(* ===== verification/Agreement.v ===== *)
(** * Agreement of the optimistic path

    The system: a committee whose total stake is [3 f + 1], of which members that do
    not follow the protocol hold at most [f]; every other member is a reachable state
    of the core.  Signatures are ideal: a certificate that verifies contains, for
    each honest signer, only a digest this signer has signed; and what honest nodes
    sign does not collide with the certificate under the hash. *)

From S2P Require Import Prelude Machine Crypto Config Messages Leader Aggregator Timer Store.
From S2P Require Import Sync Core Handlers Fixture MessageFacts Types TypeFacts TypeSteps Spec Refine Cluster Safety.

(** ** Quorums of a [3 f + 1] committee *)

Section Quorums.
Context (c : Committee) (f : Z).
Hypothesis Hwf : wf_committee c.
Hypothesis Htotal : sum_of_stakes c = 3 * f + 1.

Lemma quorum_is_2f1 : quorum_threshold c = 2 * f + 1.
Proof. rewrite quorum_threshold_exact, Htotal by done. dlia. Qed.

Lemma subset_members S : set_Forall (fun k => 0 < stake c k) S -> S ⊆ members c.
Proof. intros HS k Hk. apply stake_pos_member. by apply HS. Qed.

(** Two quorums share a member outside any set of [f] stake. *)
Lemma honest_in_overlap S T (honest : gset PublicKey) :
  set_Forall (fun k => 0 < stake c k) S ->
  weight c (members c ∖ honest) <= f ->
  quorum_threshold c <= weight c S -> quorum_threshold c <= weight c T ->
  exists k, k ∈ S /\ k ∈ T /\ k ∈ honest.
Proof.
  intros Hmem Hbyz HS HT. pose proof (quorum_overlap c S T Hwf HS HT) as Hov.
  rewrite quorum_is_2f1, Htotal in Hov.
  destruct (decide (S ∩ T ∩ honest = ∅)) as [Hempty|Hne].
  - assert (S ∩ T ⊆ members c ∖ honest) as Hsub.
    { pose proof (subset_members S Hmem). set_solver. }
    pose proof (weight_mono c _ _ Hwf Hsub). lia.
  - apply set_choose_L in Hne as [k Hk]. exists k. set_solver.
Qed.
End Quorums.

(** ** Ideal signatures *)

Section Ideal.
Context `{CryptoLib} `{NodeEnv}.

(** The honest members, each with the state of its core. *)
Implicit Types honest : gmap PublicKey Core.

Definition follows_protocol (c : Committee) (k : PublicKey) (s : Core) : Prop :=
  exists ps svc pks st el opt pes now,
    let core := Core_new k c ps svc pks st el opt pes now in
    ty_core core /\ proper_run core s.

(** The signatures of honest members in a certificate are over what they signed. *)
Definition unforged honest (q : QC.t) : Prop :=
  forall k sg s, (k, sg) ∈ QC.votes q -> honest !! k = Some s ->
    exists m, m ∈ signed s /\ signable_digest m = QC.digest q.

(** Nothing an honest member signed collides with the certificate. *)
Definition collision_free honest (q : QC.t) : Prop :=
  forall k s m, honest !! k = Some s -> m ∈ signed s ->
    signable_digest m = QC.digest q -> signable_preimage m = QC.preimage q.

(** The values of a signed message are in the ranges of their Rust types. *)
Definition typed (m : Signable) : Prop :=
  sized m /\ match m with SignedHVote v => wf_vote v | _ => True end.

Lemma ty_signable_typed m : ty_signable m -> typed m.
Proof.
  destruct m as [b|v|p|v|m|m|m|m]; simpl; intros Hm; (split; [simpl|]);
    solve [done | by apply ty_hvote_wf | split_and?; ty].
Qed.

Lemma follows_protocol_log `{!HashLaws} `{!DalekSign} `{!MempoolTypes} `{!BincodeLaws} c k s :
  follows_protocol c k s -> Forall typed (signed s).
Proof.
  intros (ps & svc & pks & st & el & opt & pes & now & Hc & Hr).
  apply proper_run_typed, typed_run_core in Hr; [|done].
  eapply Forall_impl; [exact (tc_signed s Hr) | exact ty_signable_typed].
Qed.

Lemma signed_matches q m :
  typed m -> wf_qc q -> signable_preimage m = QC.preimage q ->
  exists v, m = SignedHVote v /\ vote_matches v q.
Proof.
  intros [Hs Hv] Hq He. destruct (Hq) as (Hh & Hp & _).
  set (w := HVote.mk (QC.hash q) (QC.height q) (QC.round q) (QC.epoch q) (QC.proposer q)
    (QC.tag q) (QC.proposer q) Signature_default).
  destruct (kind_of_preimage m (SignedHVote w) Hs (conj Hh Hp) He) as [Hk|[[_ Hk]|[_ Hk]]];
    [|done..].
  destruct m as [|v| | | | | |]; try done. exists v. split; [done|].
  by apply vote_qc_preimage.
Qed.

(** A signer whose log is typed holds the matching vote. *)
Lemma signer_vote honest q k s sg :
  Forall typed (signed s) -> wf_qc q -> unforged honest q -> collision_free honest q ->
  honest !! k = Some s -> (k, sg) ∈ QC.votes q ->
  exists v, SignedHVote v ∈ signed s /\ vote_matches v q.
Proof.
  intros Ht Hq Hun Hcf Hk Hin. destruct (Hun k sg s Hin Hk) as (m & Hm & Hd).
  rewrite Forall_forall in Ht. pose proof (Hcf k s m Hk Hm Hd) as Hp.
  destruct (signed_matches q m (Ht m Hm) Hq Hp) as (v & -> & Hv). by exists v.
Qed.

Lemma elem_signers (votes : list (PublicKey * Signature)) k :
  k ∈ signers votes -> exists sg, (k, sg) ∈ votes.
Proof.
  unfold signers. rewrite elem_of_list_to_set, list_elem_of_fmap.
  intros ([k' sg] & -> & Hin). by exists sg.
Qed.
End Ideal.

(** ** Agreement *)

Section Agreement.
Context `{CryptoLib} `{NodeEnv} `{!HashLaws} `{!DalekSign} `{!MempoolTypes} `{!BincodeLaws}.
Context (c : Committee) (f : Z) (honest : gmap PublicKey Core).
Hypothesis Hwf : wf_committee c.
Hypothesis Htotal : sum_of_stakes c = 3 * f + 1.
Hypothesis Hbyz : weight c (members c ∖ dom honest) <= f.
Hypothesis Hhonest : map_Forall (follows_protocol c) honest.

(** An honest signer of the certificate holds the matching vote. *)
Lemma honest_signer_vote q k s sg :
  wf_qc q -> unforged honest q -> collision_free honest q ->
  honest !! k = Some s -> (k, sg) ∈ QC.votes q ->
  exists v, SignedHVote v ∈ signed s /\ vote_matches v q.
Proof.
  intros Hq Hun Hcf Hk Hin. apply (signer_vote honest q k s sg); try done.
  exact (follows_protocol_log c k s (Hhonest k s Hk)).
Qed.

(** C6: Agreement of the optimistic path.  In a committee of total stake [3 f + 1]
    with at most [f] stake that is not honest, two certificates of the optimistic
    path that verify and are for the same epoch and height certify the same block:
    same digest, round and proposer.  Honest members run [proper_run]: the block of
    every [HsLoopBack] that they receive is of their current epoch, below [2^64 - 1],
    and all values are of their Rust types (with a loop-back of another epoch they vote
    twice, [Injections.loop_backs_break_safety]).  The signatures of honest members in
    the certificates are over bytes that they signed, without digest collisions. *)
Theorem optimistic_certificates_agree (q1 q2 : QC.t) :
  wf_qc q1 -> wf_qc q2 ->
  QC.verify q1 c = Ok tt -> QC.verify q2 c = Ok tt ->
  unforged honest q1 -> unforged honest q2 ->
  collision_free honest q1 -> collision_free honest q2 ->
  QC.tag q1 = OPT -> QC.tag q2 = OPT ->
  QC.epoch q1 = QC.epoch q2 -> QC.height q1 = QC.height q2 ->
  QC.hash q1 = QC.hash q2 /\ QC.round q1 = QC.round q2 /\ QC.proposer q1 = QC.proposer q2.
Proof.
  intros Hw1 Hw2 Hv1 Hv2 Hu1 Hu2 Hc1 Hc2 Ht1 Ht2 He Hh.
  apply qc_verify_quorum in Hv1 as (Hs1 & Hq1); [|done].
  apply qc_verify_quorum in Hv2 as (_ & Hq2); [|done].
  destruct (honest_in_overlap c f Hwf Htotal _ _ (dom honest) Hs1 Hbyz Hq1 Hq2)
    as (k & Hk1 & Hk2 & Hk).
  apply elem_of_dom in Hk as [s Hk].
  apply elem_signers in Hk1 as [sg1 Hk1]. apply elem_signers in Hk2 as [sg2 Hk2].
  destruct (honest_signer_vote q1 k s sg1) as (v1 & Hin1 & Hm1); [done..|].
  destruct (honest_signer_vote q2 k s sg2) as (v2 & Hin2 & Hm2); [done..|].
  destruct (Hhonest k s Hk) as (ps & svc & pks & st & el & opt & pes & now & _ & Hr).
  apply proper_run_reachable, reachable_vote_inv in Hr as [_ _ Honce].
  unfold vote_matches in Hm1, Hm2.
  assert (v1 = v2) as ->; [|naive_solver congruence].
  apply Honce; [apply opt_votes_elem; split; [done | naive_solver congruence]..| |];
    naive_solver congruence.
Qed.
End Agreement.
