(* ===== verification/Availability.v ===== *)
(** * Availability of payloads

    What a vote of the optimistic path promises: that the payloads of its block can be
    had.  [PayloadService] is what the core relies on of a mempool; [votes_backed]
    holds of every state a core reaches with such a mempool, and follows from the walk
    over the handlers.  [served] is the mempool of [Mempool] as such a service, with
    the messages of its peers and the writes of the core to the shared store between
    the core's requests.  Together: of the members that signed a certificate of the
    optimistic path, an honest one has every payload of the certified block. *)

From S2P Require Import Prelude Machine Crypto Config Messages Leader Aggregator Timer Store.
From S2P Require Import Sync Mempool Core Handlers MempoolFacts MessageFacts Types TypeFacts TypeSteps.
From S2P Require Import Spec Refine Walk Safety Agreement.

(** ** What the core relies on *)

(** [have l d]: the payload of [d] can be had between the requests [l] and the next
    one. *)
Class PayloadService `{CryptoLib} `{NodeEnv} : Type := {
  have : list ConsensusMempoolMessage -> Digest -> Prop;
  have_more : forall l q d, have l d -> have (l ++ [q]) d;
  have_get : forall l max tag d,
    d ∈ mempool_get l max tag -> have (l ++ [MempoolGet max tag]) d;
  have_accept : forall l b tag d,
    mempool_verify l b tag = Accept -> d ∈ Block.payload b -> have (l ++ [MempoolVerify b tag]) d;
}.

Section Votes.
Context `{CryptoLib} `{NodeEnv} `{!PayloadService}.

Definition all_had (l : list ConsensusMempoolMessage) (b : Block.t) : Prop :=
  Forall (have l) (Block.payload b).

Lemma all_had_more l l' b : all_had l b -> all_had (l ++ l') b.
Proof.
  revert l. induction l' as [|q l' IH]; intros l Hb; [by rewrite app_nil_r|].
  rewrite cons_middle, app_assoc. apply IH. eapply Forall_impl; [exact Hb|]. intros d. apply have_more.
Qed.

(** A signed vote of the optimistic path is for a block whose payloads are had. *)
Definition backed (l : list ConsensusMempoolMessage) (m : Signable) : Prop :=
  match m with
  | SignedHVote v =>
      HVote.tag v = OPT ->
      exists b me svc, HVote.new b me OPT svc = Ok v /\ all_had l b
  | _ => True
  end.

Definition votes_backed (s : Core) : Prop := Forall (backed (mempool_driver s)) (signed s).

(** The driver's requests only grow, and the votes stay backed. *)
Definition serves (s s' : Core) : Prop :=
  votes_backed s' /\ exists l, mempool_driver s' = mempool_driver s ++ l.

Definition payload_had (s : Core) (b : Block.t) : Prop := all_had (mempool_driver s) b.

Lemma votes_backed_same s s' :
  mempool_driver s' = mempool_driver s -> signed s' = signed s -> votes_backed s -> votes_backed s'.
Proof. unfold votes_backed. by intros -> ->. Qed.

Lemma serves_same s s' :
  mempool_driver s' = mempool_driver s -> signed s' = signed s -> serves s s -> serves s s'.
Proof.
  intros Hm Hs [Hv _]. split; [by eapply votes_backed_same|]. exists []. by rewrite app_nil_r.
Qed.

Lemma serves_sign s m : serves s s -> backed (mempool_driver s) m -> serves s (sign m s).
Proof.
  intros [Hv _] Hm. split; [apply Forall_app; split; [exact Hv | by constructor]|].
  exists []. by rewrite app_nil_r.
Qed.

Lemma backed_plain l m : plain_signable m = true -> backed l m.
Proof. destruct m; try done. simpl. intros Hp Ht. by rewrite Ht in Hp. Qed.

Lemma backed_more l l' m : backed l m -> backed (l ++ l') m.
Proof.
  destruct m; try done. simpl. intros Hv Ht. destruct (Hv Ht) as (b & me & svc & Hn & Hb).
  exists b, me, svc. split; [done | by apply all_had_more].
Qed.

#[export] Instance serves_evolution : Evolution serves payload_had.
Proof.
  constructor.
  - intros s s' [Hv _]. split; [done|]. exists []. by rewrite app_nil_r.
  - intros s s' s'' [_ [l Hl]] [Hv [l' Hl']]. split; [done|]. exists (l ++ l').
    by rewrite Hl', Hl, app_assoc.
  - intros s s' b [_ [l Hl]]. unfold payload_had. rewrite Hl. apply all_had_more.
  - intros s s' Hs. unfold record. intros [= _ _ _ _ _ _ _ _ _ _ _ Hg Hm]. by apply serves_same.
  - intros s m Hs Hm. by apply serves_sign, backed_plain.
  - intros s q [Hv _]. split; [|by exists [q]]. eapply Forall_impl; [exact Hv|].
    intros m. apply backed_more.
  - intros s max b _ Hp. apply Forall_forall. intros d. rewrite Hp. apply have_get.
  - intros s b _ Ha. apply Forall_forall. intros d. by apply have_accept.
  - intros s h. by apply serves_same.
  - intros s e. by apply serves_same.
Qed.
End Votes.

(** ** The runs of a core *)

Section Runs.
Context `{CryptoLib} `{NodeEnv} `{!PayloadService}.

Notation go := (goes serves payload_had).
Implicit Type o : option Block.t.

Lemma goes_sign_prevote o build : go o (signing SignedPreVote build).
Proof.
  intros s Hs _. unfold signing. run_act. unfold lift.
  destruct (build _) as [m|x|w|]; simpl; [by apply serves_sign | done..].
Qed.

Lemma serves_vote s b : serves s s -> payload_had s b -> serves s (make_opt_vote b s).2.
Proof.
  intros Hs Hb. unfold make_opt_vote, increase_last_voted_round, signing. run_act.
  destruct (negb _); [done|]. unfold lift. simpl.
  destruct (HVote.new b _ _ _) as [v|x|w|] eqn:Hv; simpl; try exact (serves_same _ _ eq_refl eq_refl Hs).
  destruct Hs as [Hs _]. split; [|exists []; by rewrite app_nil_r].
  apply Forall_app. split; [exact Hs|]. constructor; [|done]. intros _. by eexists b, _, _.
Qed.

Lemma goes_same o {A} (m : act Core ConsensusError A) :
  (forall s, mempool_driver (m s).2 = mempool_driver s /\ signed (m s).2 = signed s) -> go o m.
Proof. intros Hm s Hs _. destruct (Hm s). by apply serves_same. Qed.

Lemma goes_on_aggregator o {A} (m : act Aggregator ConsensusError A) : go o (on_aggregator m).
Proof. apply goes_same. intros s. unfold on_aggregator, zoom. by destruct (m (aggregator s)). Qed.

Lemma goes_finishs o k : go o (entry spb_finishs k ∅).
Proof. apply goes_same. intros s. unfold entry. run_act. by destruct (spb_finishs s !! k). Qed.

#[export] Instance serves_walk : Walk serves payload_had.
Proof.
  constructor; [exact _ | exact serves_vote | |].
  - intros rec value proof Hrec. unfold handle_spb_finish.
    pose proof (fun o cl => goes_rec (may := payload_had) rec Hrec o cl).
    pose proof (goes_finishs None). goes_auto; auto. by apply goes_same.
  - intros rec share Hpre Hhalt. unfold handle_smvba_rs.
    pose proof (goes_sign_prevote None). pose proof (goes_finishs None).
    pose proof (fun A => goes_on_aggregator None (A := A)). goes_auto; auto. by apply goes_same.
Qed.
(** What is looped back to the core are blocks whose payloads are had: what the
    synchronizer of the mempool waits for. *)
Definition looped_back_had (ev : Event) (s : Core) : Prop :=
  match ev with Deliver i => input_may payload_had i s | _ => True end.

Inductive fed_run (core : Core) : Core -> Prop :=
| fed_start n : fed_run core (start n core).2
| fed_event n ev s : fed_run core s -> event_ok ev s -> ty_event ev -> looped_back_had ev s ->
    fed_run core (node_event n ev s).2.

Lemma fed_run_proper core s : fed_run core s -> proper_run core s.
Proof. induction 1; [apply proper_start | by apply proper_event]. Qed.

Lemma fed_run_backed core s : votes_backed core -> fed_run core s -> votes_backed s.
Proof.
  intros Hc Hr. cut (serves s s); [by intros []|]. induction Hr as [n|n ev s _ IH _ _ Hev].
  - apply (ev_right (may := payload_had) core). apply (evolves_start (may := payload_had)).
    split; [done|]. exists []. by rewrite app_nil_r.
  - apply (ev_right (may := payload_had) s). by apply (evolves_event (may := payload_had)).
Qed.
End Runs.

(** ** The mempool as such a service *)

(** What happens to the mempool between two requests of the core. *)
Inductive Between : Type :=
| PeerMessage (m : MempoolMessage)
| CoreWrite (k : Key) (v : Value).

(** A mempool, and what happens before each request. *)
Record Deployment `{CryptoLib} : Type := mkDeployment {
  dp_name : PublicKey;
  dp_committee : MCommittee;
  dp_parameters : MParameters;
  dp_store : StoreClient;
  dp_maker : Runner;
  dp_before : nat -> list Between;
}.

Section Service.
Context `{CryptoLib} `{MempoolEnv} (dp : Deployment).

Definition happening (x : Between) : MEvent :=
  match x with
  | PeerMessage p => MMessage (FromPeer p)
  | CoreWrite k v => MForeignWrite k v
  end.

Definition pass (n : nat) (m : MCore) : MCore := m_run (happening <$> dp_before dp n) m.

Definition first_mempool : MCore :=
  MCore_new (dp_name dp) (dp_committee dp) (dp_parameters dp) (dp_store dp) (dp_maker dp).

(** The mempool after the requests, the latest first; [asked l] is the mempool when it
    is asked the next one. *)
Fixpoint answered (l : list ConsensusMempoolMessage) : MCore :=
  match l with
  | [] => first_mempool
  | q :: l => (m_handle (FromConsensus q) (pass (length l) (answered l))).2
  end.

Definition asked (l : list ConsensusMempoolMessage) : MCore := pass (length l) (answered (reverse l)).

(** The core's environment with this mempool.  When the mempool has panicked there is
    no answer, and the core proposes and accepts nothing. *)
Definition with_mempool (node : NodeEnv) : NodeEnv := {|
  serialize_block := @serialize_block node;
  deserialize_block := @deserialize_block node;
  mempool_get := fun l max tag =>
    match (m_handle (FromConsensus (MempoolGet max tag)) (asked l)).1 with
    | Ok (ReplyDigests ds) => ds
    | _ => []
    end;
  mempool_verify := fun l b tag =>
    match (m_handle (FromConsensus (MempoolVerify b tag)) (asked l)).1 with
    | Ok (ReplyStatus st) => st
    | _ => Reject
    end;
  db_get_fault := @db_get_fault node;
|}.

Lemma answered_snoc l q :
  answered (reverse (l ++ [q])) = (m_handle (FromConsensus q) (asked l)).2.
Proof. rewrite reverse_snoc. simpl. unfold asked. by rewrite length_reverse. Qed.

Context `{!MempoolLaws}.

Lemma pass_grows n m : grows m (pass n m).
Proof. apply m_run_grows. Qed.

Lemma answered_ready l : ready (answered l).
Proof.
  induction l as [|q l IH]; [apply ready_new|].
  cbn [answered]. by apply m_handle_grows, pass_grows.
Qed.

Lemma asked_ready l : ready (asked l).
Proof. apply pass_grows, answered_ready. Qed.

(** From one request to the next. *)
Lemma asked_grows l q : grows (asked l) (asked (l ++ [q])).
Proof.
  unfold asked at 2. rewrite answered_snoc. etrans; [apply m_handle_grows | apply pass_grows].
Qed.

(** What is proposed is held afterwards, and is the digest of a payload. *)
Lemma asked_proposes l q ds d :
  (m_handle (FromConsensus q) (asked l)).1 = Ok (ReplyDigests ds) -> d ∈ ds ->
  held (asked (l ++ [q])) d /\ payload_digest d.
Proof.
  intros Hr Hd. destruct (m_handle_proposes _ _ _ d Hr Hd) as [Hq|Hs].
  - destruct (asked_ready l d Hq) as [Hh Hp]. split; [|done].
    by apply (grows_held (asked l)); [apply asked_grows|].
  - split; [|by eapply stored_payload]. unfold asked. rewrite answered_snoc.
    apply (grows_held _ _ d (pass_grows _ _)). by apply stored_held.
Qed.

(** What the mempool holds is had, by the laws of [PayloadService]. *)
#[export] Instance mempool_serves (node : NodeEnv) : @PayloadService _ (with_mempool node).
Proof.
  refine {| have := fun l d => held (asked l) d |}.
  - intros l q d. apply grows_held, asked_grows.
  - intros l max tag d. cbn [mempool_get with_mempool].
    destruct (m_handle _ _).1 as [[|ds|]|x|w|] eqn:Hr; try by intros ?%elem_of_nil.
    intros Hd. by apply (asked_proposes l (MempoolGet max tag) ds).
  - intros l b tag d. cbn [mempool_verify with_mempool].
    destruct (m_handle _ _).1 as [[| |st]|x|w|] eqn:Hr; try done. intros -> Hd.
    apply (grows_held (asked l)); [apply asked_grows | by eapply m_handle_accepts].
Defined.

Lemma all_had_held (node : NodeEnv) l b :
  @all_had _ _ (mempool_serves node) l b -> Forall (held (asked l)) (Block.payload b).
Proof. intros Hb. exact Hb. Qed.

#[export] Instance mempool_typed `{!HashLaws} (node : NodeEnv) : @MempoolTypes (with_mempool node).
Proof.
  constructor. intros l max tag. cbn [mempool_get with_mempool]. apply Forall_forall.
  destruct (m_handle _ _).1 as [[|ds|]|x|w|] eqn:Hr; try by intros ? ?%elem_of_nil.
  intros d Hd. destruct (asked_proposes l (MempoolGet max tag) ds d Hr Hd) as [_ (p & <-)].
  apply wf_hash_bytes.
Qed.
End Service.

(** ** Certificates *)

Section Certified.
Context `{CryptoLib} `{MempoolEnv} `{!HashLaws} `{!DalekSign} `{!MempoolLaws}.

(** A member: what its core relies on besides the mempool, its mempool, its core. *)
Record Replica : Type := mkReplica {
  rp_node : NodeEnv;
  rp_mempool : Deployment;
  rp_core : Core;
}.

Definition rp_env (r : Replica) : NodeEnv := with_mempool (rp_mempool r) (rp_node r).

(** The mempool when the core next asks it. *)
Definition mempool_of (r : Replica) : MCore := asked (rp_mempool r) (mempool_driver (rp_core r)).

Definition runs_protocol (c : Committee) (k : PublicKey) (r : Replica) : Prop :=
  @BincodeLaws (rp_node r) /\
  exists ps svc pks st el opt pes now,
    let core := Core_new k c ps svc pks st el opt pes now in
    @ty_core _ (rp_env r) core /\ @fed_run _ (rp_env r) _ core (rp_core r).

Lemma runs_follows c k r :
  runs_protocol c k r -> @follows_protocol _ (rp_env r) c k (rp_core r).
Proof.
  intros [_ (ps & svc & pks & st & el & opt & pes & now & Hc & Hr)].
  exists ps, svc, pks, st, el, opt, pes, now. split; [exact Hc|].
  exact (fed_run_proper (H0 := rp_env r) _ _ Hr).
Qed.

Lemma runs_typed c k r : runs_protocol c k r -> Forall typed (signed (rp_core r)).
Proof.
  intros Hr. pose proof (runs_follows c k r Hr) as Hf. destruct Hr as [Hb _].
  refine (@follows_protocol_log _ (rp_env r) _ _ _ _ c k _ Hf).
  constructor. exact (@bincode_roundtrip _ Hb).
Qed.

(** The votes of a member are for blocks whose payloads its mempool holds. *)
Lemma runs_backed c k r v :
  runs_protocol c k r -> SignedHVote v ∈ signed (rp_core r) -> HVote.tag v = OPT ->
  exists b, HVote.hash v = Block.digest b /\ HVote.height v = Block.height b /\
    Forall (held (mempool_of r)) (Block.payload b).
Proof.
  intros [_ (ps & svc & pks & st & el & opt & pes & now & _ & Hr)] Hv Ht.
  assert (votes_backed (H0 := rp_env r) (rp_core r)) as Hall.
  { refine (fed_run_backed (H0 := rp_env r) _ _ _ Hr). unfold votes_backed. simpl. constructor. }
  unfold votes_backed in Hall. rewrite Forall_forall in Hall.
  destruct (Hall _ Hv Ht) as (b & me & svc' & Hn & Hb). exists b.
  apply hvote_new_fields in Hn as (Hh & Hhe & _). split; [exact Hh|]. split; [exact Hhe|].
  exact (all_had_held _ _ _ _ Hb).
Qed.

Context (c : Committee) (f : Z) (replicas : gmap PublicKey Replica).
Hypothesis Hwf : wf_committee c.
Hypothesis Htotal : sum_of_stakes c = 3 * f + 1.
Hypothesis Hbyz : weight c (members c ∖ dom replicas) <= f.
Hypothesis Hruns : map_Forall (runs_protocol c) replicas.

(** C7: Certified payloads can be fetched.  In a committee of total stake [3 f + 1] with
    at most [f] stake that is not honest, where each honest member runs its core with
    its mempool, whatever the peers send to the mempools and whenever: the signers of
    a certificate of the optimistic path that verifies include honest members of more
    than [f] stake, each of which has voted for a block with the certified digest and
    has, in its store, a value under every payload digest of that block.  The value
    may be a block that the core stored under that digest.  A condition on what the
    cores receive ([fed_run]): an [HsLoopBack], whose payloads the code does not check
    again, is of a block of the current epoch all of whose payloads the node holds, as
    its own synchronizers send it; every other message is any message.  And as in
    [optimistic_certificates_agree] nothing is forged and no digests collide. *)
Theorem certified_payloads_held (q : QC.t) :
  wf_qc q -> QC.verify q c = Ok tt -> QC.tag q = OPT ->
  unforged (rp_core <$> replicas) q -> collision_free (rp_core <$> replicas) q ->
  exists holders, holders ⊆ signers (QC.votes q) /\ f < weight c holders /\
    forall k, k ∈ holders ->
      exists r b, replicas !! k = Some r /\ Block.digest b = QC.hash q /\
        Block.height b = QC.height q /\ Forall (held (mempool_of r)) (Block.payload b).
Proof.
  intros Hq Hv Ht Hun Hcf. apply qc_verify_quorum in Hv as (Hs & Hquorum); [|done].
  exists (signers (QC.votes q) ∩ dom replicas). split; [set_solver|]. split.
  { rewrite (quorum_is_2f1 c f Hwf Htotal) in Hquorum.
    rewrite (weight_split c _ (dom replicas)) in Hquorum.
    assert (signers (QC.votes q) ∖ dom replicas ⊆ members c ∖ dom replicas) as Hsub.
    { pose proof (subset_members c _ Hs). set_solver. }
    pose proof (weight_mono c _ _ Hwf Hsub). lia. }
  intros k [Hk Hd]%elem_of_intersection. apply elem_of_dom in Hd as [r Hr].
  apply elem_signers in Hk as [sg Hk]. pose proof (Hruns k r Hr) as Hrun.
  destruct (signer_vote (rp_core <$> replicas) q k (rp_core r) sg) as (v & Hin & Hm); try done.
  { by eapply runs_typed. }
  { by rewrite lookup_fmap, Hr. }
  unfold vote_matches in Hm.
  destruct (runs_backed c k r v Hrun Hin) as (b & Hb & Hbh & Hp); [naive_solver congruence|].
  exists r, b. split_and!; naive_solver congruence.
Qed.
End Certified.
