(* ===== verification/AggregatorFacts.v ===== *)
(** * Facts about aggregation

    What the makers of [Aggregator.v] emit and when: the certificates and proofs
    they build pass the peers' [verify], an author counts once, the first append
    that reaches the quorum emits, and a committee whose total stake is below two
    quorums never gets a second certificate from the same maker. *)

From S2P Require Import Prelude Machine Crypto Config Messages Leader Aggregator Timer Store.
From S2P Require Import Sync Core Handlers Fixture MessageFacts.

(** ** Feeding a maker *)

Fixpoint feed {S V R} (append : V -> act S ConsensusError R) (l : list V) (m : S)
    : list (ConsensusResult R) * S :=
  match l with
  | [] => ([], m)
  | v :: l =>
      let '(r, m) := append v m in
      let '(rs, m) := feed append l m in
      (r :: rs, m)
  end.

(** The results that carry something built. *)
Definition emitted {R} (l : list (ConsensusResult (option R))) : list R :=
  omap (fun r => match r with Ok (Some x) => Some x | _ => None end) l.

(** An invariant of single appends is one of the feed, and so is a property of what
    they emit. *)
Lemma feed_inv {S V R} (append : V -> act S ConsensusError (option R)) (I : S -> Prop)
    (P : V -> Prop) (Q : R -> Prop) l m :
  (forall v m, P v -> I m ->
     I (append v m).2 /\ forall x, (append v m).1 = Ok (Some x) -> Q x) ->
  Forall P l -> I m ->
  I (feed append l m).2 /\ Forall Q (emitted (feed append l m).1).
Proof.
  intros Hstep Hl. revert m. induction Hl as [|v l Hv Hl IH]; intros m Hm; simpl.
  - split; [done | constructor].
  - destruct (Hstep v m Hv Hm) as [Hm' Hq]. destruct (append v m) as [r m']. simpl in *.
    destruct (IH m' Hm') as [Hi Ha]. destruct (feed append l m') as [rs m'']. simpl in *.
    split; [done|]. unfold emitted. simpl.
    destruct r as [[x|]|e|w|]; simpl; try exact Ha. constructor; [by apply Hq | exact Ha].
Qed.

(** ** [QCMaker] *)

Section QCMaker.
Context (c : Committee).

(** The result of an append, in one equation. *)
Lemma QCMaker_append_eq v m :
  QCMaker_append v c m =
  if decide (HVote.author v ∈ qm_used m) then
    (Err (AuthorityReuseinQC (HVote.author v)), m)
  else
    let votes := qm_votes m ++ [(HVote.author v, HVote.signature v)] in
    let w := qm_weight m +32 stake c (HVote.author v) in
    let used := {[HVote.author v]} ∪ qm_used m in
    if quorum_threshold c <=? w then
      (Ok (Some (qc_of_vote v votes)), mkQCMaker 0 votes used)
    else (Ok None, mkQCMaker w votes used).
Proof.
  unfold QCMaker_append, mbind, act_bind, gets, ensure_act, lift, ensure, modify, throw.
  destruct (decide (HVote.author v ∈ qm_used m)) as [Hin|Hout].
  - by rewrite bool_decide_true.
  - rewrite bool_decide_false by done. simpl. by destruct (_ <=? _).
Qed.

(** The votes a maker has kept: distinct authors, recorded as used. *)
Record qm_inv (m : QCMaker) : Prop := {
  qi_nodup : NoDup (qm_votes m).*1;
  qi_used : qm_used m = signers (qm_votes m);
  qi_weight : 0 <= qm_weight m <= weight c (qm_used m);
}.

Lemma qm_inv_new : qm_inv QCMaker_new.
Proof.
  constructor; simpl; [constructor | done|]. rewrite weight_empty. lia.
Qed.

Lemma signers_snoc votes k sg : signers (votes ++ [(k, sg)]) = {[k]} ∪ signers votes.
Proof. unfold signers. rewrite fmap_app, list_to_set_app_L. simpl. set_solver. Qed.

Lemma elem_signers_votes votes k : k ∈ votes.*1 <-> k ∈ signers votes.
Proof. unfold signers. by rewrite elem_of_list_to_set. Qed.

(** Adding a new author to a counted weight does not wrap. *)
Lemma counted_weight w k used :
  wf_committee c -> 0 <= w <= weight c used -> k ∉ used ->
  w +32 stake c k = w + stake c k /\ 0 <= w + stake c k <= weight c ({[k]} ∪ used).
Proof.
  intros Hwf Hw Hk. pose proof (weight_le_total c ({[k]} ∪ used) Hwf).
  pose proof (wf_total c Hwf). pose proof (stake_nonneg c k Hwf).
  rewrite weight_insert in * by done. rewrite wrap32_small by lia. lia.
Qed.

Lemma qm_inv_append v m : wf_committee c -> qm_inv m -> qm_inv (QCMaker_append v c m).2.
Proof.
  intros Hwf [Hnd Hu Hw]. rewrite QCMaker_append_eq.
  destruct (decide _) as [Hin|Hout]; [by constructor|]. cbv zeta.
  destruct (counted_weight _ _ _ Hwf Hw Hout) as [Heq Hle]. rewrite Heq.
  assert (NoDup (qm_votes m ++ [(HVote.author v, HVote.signature v)]).*1) as Hnd'.
  { rewrite fmap_app. apply NoDup_app. split; [done|]. split.
    - intros k Hk Hk'. apply list_elem_of_singleton in Hk' as ->.
      apply Hout. rewrite Hu. by apply elem_signers_votes.
    - apply NoDup_singleton. }
  destruct (_ <=? _); constructor; simpl; rewrite ?signers_snoc, <- ?Hu; auto; lia.
Qed.
End QCMaker.

Section QCMakerVerify.
Context `{CryptoLib} `{!DalekBatch} (c : Committee).
Hypothesis Hwf : wf_committee c.

(** With verified votes over one digest. *)
Definition votes_verify (d : Digest) (m : QCMaker) : Prop :=
  Forall (fun '(k, sg) => 0 < stake c k /\ Signature_verify sg d k = Ok tt) (qm_votes m).

Lemma hvote_verify_inv v d :
  HVote.verify v c = Ok tt -> HVote.digest v = d ->
  0 < stake c (HVote.author v) /\ Signature_verify (HVote.signature v) d (HVote.author v) = Ok tt.
Proof.
  intros Hv <-. unfold HVote.verify, ensure in Hv.
  destruct (Z.ltb_spec 0 (stake c (HVote.author v))) as [Hs|Hs]; simpl in Hv; [|done].
  split; [done|]. unfold check_signature in Hv.
  by destruct (Signature_verify _ _ _) as [[]| | |].
Qed.

Lemma QCMaker_append_verifies d v m :
  HVote.verify v c = Ok tt -> HVote.digest v = d -> qm_inv c m -> votes_verify d m ->
  votes_verify d (QCMaker_append v c m).2 /\
  forall qc, (QCMaker_append v c m).1 = Ok (Some qc) -> QC.verify qc c = Ok tt.
Proof.
  intros Hv Hd Hinv Hm. pose proof (qm_inv_append c v m Hwf Hinv) as [Hnd Hu Hw].
  destruct Hinv as [_ _ Hw0]. revert Hnd Hu Hw. rewrite QCMaker_append_eq.
  destruct (decide _) as [Hin|Hout]; [done|]. cbv zeta.
  destruct (counted_weight c _ _ _ Hwf Hw0 Hout) as [Heq Hle]. rewrite Heq.
  assert (votes_verify d (mkQCMaker 0
    (qm_votes m ++ [(HVote.author v, HVote.signature v)]) ∅)) as Hall.
  { apply Forall_app. split; [exact Hm|]. constructor; [|constructor]. by apply hvote_verify_inv. }
  destruct (Z.leb_spec (quorum_threshold c) (qm_weight m + stake c (HVote.author v)));
    simpl; intros Hnd Hu Hw; (split; [exact Hall|]); [|done].
  intros qc [= <-]. apply qc_verify_spec; [done|]. simpl.
  unfold votes_verify in Hall. simpl in Hall.
  split_and!; [done | | rewrite <- Hu; lia |].
  - apply Forall_fmap. eapply Forall_impl; [exact Hall|]. by intros [k sg] [? _].
  - apply verify_batch_complete. change (QC.digest _) with (HVote.digest v). rewrite Hd.
    eapply Forall_impl; [exact Hall|]. by intros [k sg] [_ ?].
Qed.
End QCMakerVerify.

(** *** Counting emissions *)

Section Count.
Context (c : Committee).
Hypothesis Hwf : wf_committee c.

Notation feed_votes := (feed (fun v => QCMaker_append v c)).

(** Each certificate uses up a quorum of the stake of the authors seen. *)
Lemma feed_count l m (n : Z) :
  qm_inv c m -> n * quorum_threshold c + qm_weight m <= weight c (qm_used m) ->
  (n + Z.of_nat (length (emitted (feed_votes l m).1))) * quorum_threshold c
    <= sum_of_stakes c.
Proof.
  revert m n. induction l as [|v l IH]; intros m n Hinv Hn; simpl.
  - pose proof (weight_le_total c (qm_used m) Hwf). pose proof (qi_weight c m Hinv). nia.
  - pose proof (qm_inv_append c v m Hwf Hinv) as Hinv'.
    destruct Hinv as [_ _ Hw]. revert Hinv'. rewrite QCMaker_append_eq.
    destruct (decide _) as [Hin|Hout].
    + intros Hinv'. specialize (IH m n Hinv' Hn). by destruct (feed_votes l m).
    + cbv zeta. destruct (counted_weight c _ _ _ Hwf Hw Hout) as [Heq _]. rewrite Heq.
      pose proof (weight_insert c (HVote.author v) (qm_used m) Hout) as Hins.
      destruct (Z.leb_spec (quorum_threshold c) (qm_weight m + stake c (HVote.author v)));
        simpl; intros Hinv'; match goal with |- context [feed_votes l ?m1] =>
          specialize (IH m1); destruct (feed_votes l m1) as [rs m2] end; simpl in *.
      * specialize (IH (n + 1) Hinv' ltac:(lia)).
        unfold emitted in *. simpl. lia.
      * specialize (IH n Hinv' ltac:(lia)). exact IH.
Qed.
End Count.

(** *** Before the first emission *)

Definition authors (l : list HVote.t) : gset PublicKey := list_to_set (HVote.author <$> l).
Definition ballots (l : list HVote.t) : list (PublicKey * Signature) :=
  (fun v => (HVote.author v, HVote.signature v)) <$> l.

Lemma authors_snoc l v : authors (l ++ [v]) = {[HVote.author v]} ∪ authors l.
Proof. unfold authors. rewrite fmap_app, list_to_set_app_L. simpl. set_solver. Qed.

Lemma feed_snoc {S V R} (append : V -> act S ConsensusError R) l v m :
  feed append (l ++ [v]) m =
  let '(rs, m1) := feed append l m in
  let '(r, m2) := append v m1 in (rs ++ [r], m2).
Proof.
  revert m. induction l as [|x l IH]; intros m; simpl.
  - by destruct (append v m).
  - destruct (append x m) as [r0 m0]. rewrite IH. destruct (feed append l m0) as [rs m1].
    by destruct (append v m1).
Qed.

Section First.
Context (c : Committee).
Hypothesis Hwf : wf_committee c.

Notation feed_votes := (feed (fun v => QCMaker_append v c)).

(** Below the quorum a maker accepts each new author and keeps the exact sum. *)
Lemma feed_below l :
  NoDup (HVote.author <$> l) -> weight c (authors l) < quorum_threshold c ->
  feed_votes l QCMaker_new =
    (replicate (length l) (Ok None), mkQCMaker (weight c (authors l)) (ballots l) (authors l)).
Proof.
  induction l as [|v l IH] using rev_ind; intros Hnd Hlt.
  - by rewrite <- (weight_empty c) at 1.
  - rewrite fmap_app in Hnd. apply NoDup_app in Hnd as (Hnd & Hnew & _).
    assert (HVote.author v ∉ authors l) as Hout.
    { unfold authors. rewrite elem_of_list_to_set. intros Hin. apply (Hnew _ Hin). set_solver. }
    rewrite authors_snoc in *. rewrite weight_insert in * by done.
    pose proof (stake_nonneg c (HVote.author v) Hwf).
    pose proof (weight_nonneg c (authors l) Hwf).
    rewrite feed_snoc, IH by (done || lia). rewrite QCMaker_append_eq. simpl.
    rewrite decide_False by done.
    destruct (counted_weight c (weight c (authors l)) _ (authors l) Hwf ltac:(lia) Hout) as [-> _].
    destruct (Z.leb_spec (quorum_threshold c) (weight c (authors l) + stake c (HVote.author v)));
      [lia|].
    unfold ballots. rewrite length_app, replicate_add, fmap_app, Z.add_comm. done.
Qed.
End First.

(** ** The properties of [QCMaker] *)

Section QCMakerProperties.
Context `{CryptoLib}.

(** C18: Soundness of the certificates a leader builds.  From votes that each pass
    [HVote::verify] and are over the same bytes, in any order and with any
    repetitions, every certificate [QCMaker::append] returns passes [QC::verify]. *)
Theorem qc_emitted_verifies `{!DalekBatch} (c : Committee) (d : Digest) (l : list HVote.t) :
  wf_committee c ->
  Forall (fun v => HVote.verify v c = Ok tt /\ HVote.digest v = d) l ->
  Forall (fun qc => QC.verify qc c = Ok tt)
    (emitted (feed (fun v => QCMaker_append v c) l QCMaker_new).1).
Proof.
  intros Hwf Hl.
  apply (feed_inv _ (fun m => qm_inv c m /\ votes_verify c d m)
    (fun v => HVote.verify v c = Ok tt /\ HVote.digest v = d)); [|done|].
  - intros v m [Hv Hd] [Hinv Hm].
    destruct (QCMaker_append_verifies c Hwf d v m Hv Hd Hinv Hm) as [Hm' Hqc].
    split; [|exact Hqc]. split; [by apply qm_inv_append | exact Hm'].
  - split; [apply qm_inv_new | constructor].
Qed.

(** C19: The certificate comes exactly with the quorum.  As long as the distinct
    authors of the votes hold less than the quorum nothing is built; the vote that
    reaches it returns the certificate with all ballots in order of arrival; and a
    second vote of an author is an error that changes nothing. *)
Theorem qc_at_quorum (c : Committee) (l : list HVote.t) (v : HVote.t) :
  wf_committee c ->
  NoDup (HVote.author <$> l) -> weight c (authors l) < quorum_threshold c ->
  let '(rs, m) := feed (fun v => QCMaker_append v c) l QCMaker_new in
  rs = replicate (length l) (Ok None) /\
  (HVote.author v ∈ authors l ->
   QCMaker_append v c m = (Err (AuthorityReuseinQC (HVote.author v)), m)) /\
  (HVote.author v ∉ authors l ->
   (QCMaker_append v c m).1 =
     Ok (if quorum_threshold c <=? weight c (authors (l ++ [v]))
         then Some (qc_of_vote v (ballots (l ++ [v]))) else None)).
Proof.
  intros Hwf Hnd Hlt. rewrite feed_below by done. split; [done|].
  rewrite QCMaker_append_eq. simpl. split; intros Hv.
  - by rewrite decide_True.
  - rewrite decide_False by done. pose proof (weight_nonneg c (authors l) Hwf).
    destruct (counted_weight c (weight c (authors l)) _ (authors l) Hwf ltac:(lia) Hv) as [-> _].
    rewrite authors_snoc, weight_insert, Z.add_comm by done.
    unfold ballots. rewrite fmap_app. by destruct (_ <=? _).
Qed.

(** A maker builds at most [N / quorum] certificates, whatever votes it is fed:
    at most one when the total stake [N] is below two quorums. *)
Theorem qc_made_once (c : Committee) (l : list HVote.t) :
  wf_committee c ->
  let n := Z.of_nat (length (emitted (feed (fun v => QCMaker_append v c) l QCMaker_new).1)) in
  n * quorum_threshold c <= sum_of_stakes c /\
  (sum_of_stakes c < 2 * quorum_threshold c -> n <= 1).
Proof.
  intros Hwf. pose proof (feed_count c Hwf l QCMaker_new 0 (qm_inv_new c)) as Hn.
  cbv zeta. simpl in Hn. rewrite weight_empty in Hn. specialize (Hn ltac:(lia)).
  split; [exact Hn|]. intros Hlt. pose proof (wf_total c Hwf). nia.
Qed.
End QCMakerProperties.

(** ** [ProofMaker] *)

Section ProofMaker.
Context (c : Committee).
Hypothesis Hwf : wf_committee c.

Definition share_authors (l : list SPBVote.t) : gset PublicKey :=
  list_to_set (SPBVote.author <$> l).

Lemma ProofMaker_append_eq v m :
  ProofMaker_append v c m =
  if decide (SPBVote.author v ∈ pm_used m) then
    (Err (AuthorityReuseinProof (SPBVote.author v) (pm_used m)), m)
  else
    let votes := pm_votes m ++ [v] in
    let w := pm_weight m +32 stake c (SPBVote.author v) in
    let used := {[SPBVote.author v]} ∪ pm_used m in
    if quorum_threshold c <=? w then
      (Ok (Some (SPBProof.mk (next_phase (SPBVote.phase v)) (SPBVote.round v)
                   (SPBVote.height v) votes)), mkProofMaker 0 votes used)
    else (Ok None, mkProofMaker w votes used).
Proof.
  unfold ProofMaker_append, mbind, act_bind, gets, ensure_act, lift, ensure, modify, throw.
  destruct (decide (SPBVote.author v ∈ pm_used m)) as [Hin|Hout].
  - by rewrite bool_decide_true.
  - rewrite bool_decide_false by done. simpl. by destruct (_ <=? _).
Qed.

Record pm_inv (m : ProofMaker) : Prop := {
  pi_nodup : NoDup (SPBVote.author <$> pm_votes m);
  pi_used : pm_used m = share_authors (pm_votes m);
  pi_weight : 0 <= pm_weight m <= weight c (pm_used m);
}.

Lemma pm_inv_new : pm_inv ProofMaker_new.
Proof. constructor; simpl; [constructor | done|]. rewrite weight_empty. lia. Qed.

Lemma share_authors_snoc l v :
  share_authors (l ++ [v]) = {[SPBVote.author v]} ∪ share_authors l.
Proof. clear. unfold share_authors. rewrite fmap_app, list_to_set_app_L. simpl. set_solver. Qed.

Lemma pm_inv_append v m : pm_inv m -> pm_inv (ProofMaker_append v c m).2.
Proof.
  intros [Hnd Hu Hw]. rewrite ProofMaker_append_eq.
  destruct (decide _) as [Hin|Hout]; [by constructor|]. cbv zeta.
  destruct (counted_weight c _ _ _ Hwf Hw Hout) as [Heq Hle]. rewrite Heq.
  assert (NoDup (SPBVote.author <$> (pm_votes m ++ [v]))) as Hnd'.
  { rewrite fmap_app. apply NoDup_app. split; [done|]. split; [|apply NoDup_singleton].
    intros k Hk Hk'. apply list_elem_of_singleton in Hk' as ->. apply Hout.
    rewrite Hu. unfold share_authors. by rewrite elem_of_list_to_set. }
  destruct (_ <=? _); constructor; simpl; rewrite ?share_authors_snoc, <- ?Hu; auto; lia.
Qed.

(** The first loop of [SPBProof::verify] on distinct members with voting rights. *)
Lemma shares_weight_exact shares used :
  NoDup (SPBVote.author <$> shares) ->
  Forall (fun s => SPBVote.author s ∉ used /\ 0 < stake c (SPBVote.author s)) shares ->
  SPBProof.shares_weight c shares (weight c used) = Ok (weight c (used ∪ share_authors shares)).
Proof.
  revert used. induction shares as [|s shares IH]; intros used; csimpl.
  - intros _ _. unfold share_authors. simpl. do 2 f_equal. set_solver.
  - rewrite NoDup_cons, Forall_cons. intros [Hn Hnd] [[Hs Hst] Hall].
    rewrite (proj2 (Z.ltb_lt _ _) Hst). simpl.
    pose proof (weight_nonneg c used Hwf).
    destruct (counted_weight c (weight c used) (SPBVote.author s) used Hwf ltac:(lia) Hs)
      as [-> _].
    rewrite Z.add_comm, <- weight_insert by done. rewrite IH; [|done|].
    + unfold share_authors. simpl. do 2 f_equal. set_solver.
    + rewrite Forall_forall in Hall |- *. intros x Hx. destruct (Hall x Hx). split; [|done].
      intros [Hu|Hu]%elem_of_union; [|done]. apply elem_of_singleton in Hu. apply Hn.
      rewrite <- Hu. by apply list_elem_of_fmap_2.
Qed.

Lemma verify_shares_all `{CryptoLib} shares :
  Forall (fun s => SPBVote.verify s c = Ok tt) shares ->
  SPBProof.verify_shares c shares = Ok tt.
Proof. clear Hwf. induction 1 as [|s l Hs _ IH]; simpl; [done|]. by rewrite Hs. Qed.

Lemma spbvote_verify_stake `{CryptoLib} v :
  SPBVote.verify v c = Ok tt -> 0 < stake c (SPBVote.author v).
Proof.
  clear Hwf. unfold SPBVote.verify, ensure.
  by destruct (Z.ltb_spec 0 (stake c (SPBVote.author v))).
Qed.

Lemma ProofMaker_append_verifies `{CryptoLib} v m :
  SPBVote.verify v c = Ok tt -> pm_inv m ->
  Forall (fun s => SPBVote.verify s c = Ok tt) (pm_votes m) ->
  Forall (fun s => SPBVote.verify s c = Ok tt) (pm_votes (ProofMaker_append v c m).2) /\
  forall p, (ProofMaker_append v c m).1 = Ok (Some p) -> SPBProof.verify p c = Ok tt.
Proof.
  intros Hv Hinv Hm. pose proof (pm_inv_append v m Hinv) as [Hnd Hu Hw].
  destruct Hinv as [_ _ Hw0]. revert Hnd Hu Hw. rewrite ProofMaker_append_eq.
  destruct (decide _) as [Hin|Hout]; [done|]. cbv zeta.
  destruct (counted_weight c _ _ _ Hwf Hw0 Hout) as [Heq Hle]. rewrite Heq.
  assert (Forall (fun s => SPBVote.verify s c = Ok tt) (pm_votes m ++ [v])) as Hall.
  { apply Forall_app. split; [exact Hm|]. by constructor. }
  destruct (Z.leb_spec (quorum_threshold c) (pm_weight m + stake c (SPBVote.author v)));
    simpl; intros Hnd Hu Hw; (split; [exact Hall|]); [|done].
  intros p [= <-]. unfold SPBProof.verify. cbn [SPBProof.phase SPBProof.shares].
  destruct (_ <=? INIT_PHASE); [done|]. destruct (LOCK_PHASE <=? _); [|done].
  pose proof (shares_weight_exact (pm_votes m ++ [v]) ∅ Hnd) as Hsum.
  rewrite weight_empty in Hsum. rewrite Hsum.
  2:{ eapply Forall_impl; [exact Hall|]. intros s Hs. split; [set_solver|].
      by apply spbvote_verify_stake. }
  replace (∅ ∪ share_authors (pm_votes m ++ [v])) with (share_authors (pm_votes m ++ [v]))
    by (symmetry; apply union_empty_l_L).
  rewrite <- Hu. simpl. rewrite (proj2 (Z.leb_le _ _)) by lia. simpl.
  by apply verify_shares_all.
Qed.
End ProofMaker.

(** Soundness of the proofs of the broadcast.  From votes that each pass
    [SPBVote::verify], every proof [ProofMaker::append] returns passes
    [SPBProof::verify], for either phase. *)
Theorem proof_emitted_verifies `{CryptoLib} (c : Committee) (l : list SPBVote.t) :
  wf_committee c ->
  Forall (fun v => SPBVote.verify v c = Ok tt) l ->
  Forall (fun p => SPBProof.verify p c = Ok tt)
    (emitted (feed (fun v => ProofMaker_append v c) l ProofMaker_new).1).
Proof.
  intros Hwf Hl.
  apply (feed_inv _ (fun m => pm_inv c m /\ Forall (fun s => SPBVote.verify s c = Ok tt) (pm_votes m))
    (fun v => SPBVote.verify v c = Ok tt)); [|done|].
  - intros v m Hv [Hinv Hm].
    destruct (ProofMaker_append_verifies c Hwf v m Hv Hinv Hm) as [Hm' Hp].
    split; [|exact Hp]. split; [by apply pm_inv_append | exact Hm'].
  - split; [apply pm_inv_new | constructor].
Qed.

(** ** [SMVBARandomCoinMaker] *)

Section Coin.
Context `{CryptoLib} (c : Committee) (pks : PublicKeySet).

Lemma CoinMaker_append_eq s m :
  CoinMaker_append s c pks m =
  if decide (RandomnessShare.author s ∈ cm_used m) then
    (Err (AuthorityReuseinCoin (RandomnessShare.author s)), m)
  else
    let shares := cm_shares m ++ [s] in
    let w := cm_weight m +32 stake c (RandomnessShare.author s) in
    let m' := mkCoinMaker w shares ({[RandomnessShare.author s]} ∪ cm_used m) in
    (if w =? random_coin_threshold c then
       sigs ← share_map c shares ∅;
       match combine_signatures pks sigs with
       | Some sig =>
           leader ← coin_leader c sig;
           Ok (Some (RandomCoin.mk _ (RandomnessShare.height s) (RandomnessShare.epoch s)
                       (RandomnessShare.round s) leader shares))
       | None => Ok None
       end
     else Ok None, m').
Proof.
  unfold CoinMaker_append, mbind, act_bind, gets, ensure_act, lift, ensure, modify, throw.
  destruct (decide (RandomnessShare.author s ∈ cm_used m)) as [Hin|Hout].
  - by rewrite bool_decide_true.
  - rewrite bool_decide_false by done. simpl. destruct (_ =? _); [|done]. simpl.
    destruct (share_map _ _ _) as [sigs| | |]; simpl; try done.
    destruct (combine_signatures pks sigs) as [sig|]; simpl; [|done].
    by destruct (coin_leader c sig).
Qed.

(** A share of the coin over the bytes [msg], in the sense of its [verify]. *)
Definition share_verifies (msg : list Z) (s : RandomnessShare.t) : Prop :=
  RandomnessShare.verify s c pks = Ok tt /\ digest_bytes (RandomnessShare.digest s) = msg.

Lemma share_verify_inv s msg id :
  share_verifies msg s -> committee_id c (RandomnessShare.author s) = Ok id ->
  tss_verify (public_key_share pks id) (RandomnessShare.signature_share s) msg = true.
Proof.
  intros [Hv <-] Hid. unfold RandomnessShare.verify in Hv.
  destruct (ensure (0 <? _) _); simpl in Hv; [|done..]. rewrite Hid in Hv. simpl in Hv.
  by destruct (tss_verify _ _ _).
Qed.

Lemma share_map_verified msg shares sigs r :
  Forall (share_verifies msg) shares ->
  map_Forall (fun i sh => tss_verify (public_key_share pks i) sh msg = true) sigs ->
  share_map c shares sigs = Ok r ->
  map_Forall (fun i sh => tss_verify (public_key_share pks i) sh msg = true) r.
Proof.
  intros Hall. revert sigs. induction Hall as [|s shares Hs _ IH]; intros sigs Hsigs; simpl.
  - by intros [= <-].
  - destruct (committee_id c (RandomnessShare.author s)) as [id| | |] eqn:Hid; simpl; try done.
    apply IH. apply map_Forall_insert_2; [|done]. by apply share_verify_inv.
Qed.

(** What an emitted coin's leader comes from. *)
Definition leader_of_shares (msg : list Z) (coin : RandomCoin.t) : Prop :=
  exists sigs sig,
    map_Forall (fun i sh => tss_verify (public_key_share pks i) sh msg = true) sigs /\
    combine_signatures pks sigs = Some sig /\ coin_leader c sig = Ok (RandomCoin.leader coin).

Lemma CoinMaker_append_leader msg s m :
  share_verifies msg s -> Forall (share_verifies msg) (cm_shares m) ->
  Forall (share_verifies msg) (cm_shares (CoinMaker_append s c pks m).2) /\
  forall coin, (CoinMaker_append s c pks m).1 = Ok (Some coin) -> leader_of_shares msg coin.
Proof.
  intros Hs Hm. rewrite CoinMaker_append_eq. destruct (decide _) as [Hin|Hout]; [done|].
  cbv zeta. simpl.
  assert (Forall (share_verifies msg) (cm_shares m ++ [s])) as Hall.
  { apply Forall_app. split; [done|]. by constructor. }
  split; [exact Hall|]. intros coin. destruct (_ =? _); [|done].
  destruct (share_map _ _ _) as [sigs| | |] eqn:Hmap; simpl; try done.
  destruct (combine_signatures pks sigs) as [sig|] eqn:Hsig; simpl; [|done].
  destruct (coin_leader c sig) as [leader| | |] eqn:Hl; simpl; try done. intros [= <-].
  exists sigs, sig. split; [|done].
  eapply share_map_verified; [exact Hall | apply map_Forall_empty | exact Hmap].
Qed.

Lemma coins_of_shares msg l :
  Forall (share_verifies msg) l ->
  Forall (leader_of_shares msg) (emitted (feed (fun s => CoinMaker_append s c pks) l CoinMaker_new).1).
Proof.
  intros Hl. apply (feed_inv _ (fun m => Forall (share_verifies msg) (cm_shares m))
    (share_verifies msg)); [|done | constructor].
  intros s m Hs Hm. by apply CoinMaker_append_leader.
Qed.

Lemma coin_leader_member sig k : coin_leader c sig = Ok k -> k ∈ members c.
Proof.
  unfold coin_leader. destruct (committee_size c =? 0); [done|].
  destruct (sort_keys _ !! _) as [k'|] eqn:Hk; simpl; [|done]. intros [= ->].
  apply list_elem_of_lookup_2 in Hk. rewrite sort_keys_perm in Hk.
  unfold authority_keys in Hk. apply list_elem_of_fmap in Hk as ([k' a] & -> & Hin).
  apply elem_of_map_to_list in Hin. unfold members. apply elem_of_dom. eauto.
Qed.
End Coin.

(** Agreement of the coin.  Two nodes that collect shares of the same coin, each
    share passing [RandomnessShare::verify], elect the same leader, whichever shares
    each of them has; and the leader is a member of the committee. *)
Theorem coin_agreement `{CryptoLib} `{!ThresholdUnique} (c : Committee) (pks : PublicKeySet)
    (msg : list Z) (l1 l2 : list RandomnessShare.t) (coin1 coin2 : RandomCoin.t) :
  Forall (share_verifies c pks msg) l1 -> Forall (share_verifies c pks msg) l2 ->
  coin1 ∈ emitted (feed (fun s => CoinMaker_append s c pks) l1 CoinMaker_new).1 ->
  coin2 ∈ emitted (feed (fun s => CoinMaker_append s c pks) l2 CoinMaker_new).1 ->
  RandomCoin.leader coin1 = RandomCoin.leader coin2 /\ RandomCoin.leader coin1 ∈ members c.
Proof.
  intros Hl1 Hl2 Hc1 Hc2.
  pose proof (coins_of_shares c pks msg l1 Hl1) as H1.
  pose proof (coins_of_shares c pks msg l2 Hl2) as H2.
  rewrite Forall_forall in H1, H2.
  destruct (H1 _ Hc1) as (m1 & s1 & Hv1 & Hs1 & Hk1).
  destruct (H2 _ Hc2) as (m2 & s2 & Hv2 & Hs2 & Hk2).
  assert (s1 = s2) as -> by exact (combine_unique pks msg m1 m2 s1 s2 Hv1 Hv2 Hs1 Hs2).
  split; [congruence|]. by eapply coin_leader_member.
Qed.
