(* ===== verification/Chain.v ===== *)
(** * The chain a node builds on: evidence for certificates, votes and commits

    For the deployment that runs the optimistic path alone ([Protocol::HotStuff]: no
    agreement, nothing on the agreement's channel): every certificate a node builds
    on is backed by signatures of a quorum, every vote it signs and every block it
    stores or commits builds on such a certificate.  [chain_inv] is the invariant;
    this file proves that the handlers keep it. *)

From S2P Require Import Prelude Machine Crypto Config Messages Leader Aggregator Timer Store.
From S2P Require Import Sync Core Handlers Fixture MessageFacts Spec Refine AggregatorFacts.

Section Evidence.
Context `{CryptoLib} `{NodeEnv}.

(** [genuine k v]: if [k] follows the protocol, it has signed what [v] says.
    [known b]: the block [b] has been sent to a node. *)
Context (c : Committee) (n : PublicKey).
Context (genuine : PublicKey -> HVote.t -> Prop) (known : Block.t -> Prop).

Implicit Types log : list Signable.

(** What node [n], with this log of signatures, knows of a signature and a block. *)
Definition signed_by log (k : PublicKey) (v : HVote.t) : Prop :=
  genuine k v \/ (k = n /\ SignedHVote v ∈ log).

(** The vote that an entry of a certificate stands for. *)
Definition qc_vote (q : QC.t) (x : PublicKey * Signature) : HVote.t :=
  HVote.mk (QC.hash q) (QC.height q) (QC.round q) (QC.epoch q) (QC.proposer q) (QC.tag q)
    x.1 x.2.

Definition in_play log (b : Block.t) : Prop := known b \/ SignedBlock b ∈ log.

(** A quorum of signatures for one digest and height. *)
Definition backed log (h : Z) (d : Digest) : Prop :=
  exists l : list HVote.t,
    set_Forall (fun k => 0 < stake c k) (authors l) /\
    quorum_threshold c <= weight c (authors l) /\
    Forall (fun v => HVote.hash v = d /\ HVote.height v = h /\
                     signed_by log (HVote.author v) v) l.

Definition good_qc log (q : QC.t) : Prop :=
  QC.eqb q QC.genesis = true \/ backed log (QC.height q) (QC.hash q).

Definition good_block log (b : Block.t) : Prop := in_play log b /\ good_qc log (Block.qc b).

(** The vote is for this block, which extends a good certificate by one height. *)
Definition vote_for log (v : HVote.t) (b : Block.t) : Prop :=
  good_block log b /\ QC.height (Block.qc b) +64 1 = Block.height b /\
  HVote.hash v = Block.digest b /\ HVote.height v = Block.height b /\
  HVote.epoch v = Block.epoch b.

(** The two-chain rule: [b] has a child [b1], one height above, and both are
    certified. *)
Definition two_chain log (b : Block.t) : Prop :=
  in_play log b /\ 0 < Block.height b /\
  exists b1 q,
    good_block log b1 /\ QC.hash (Block.qc b1) = Block.digest b /\
    backed log (QC.height (Block.qc b1)) (Block.digest b) /\
    QC.hash q = Block.digest b1 /\ backed log (QC.height q) (Block.digest b1) /\
    Block.height b +64 1 = Block.height b1.

Definition log_entry log (m : Signable) : Prop :=
  match m with
  | SignedBlock _ => True
  | SignedHVote v => HVote.tag v = OPT /\ HVote.author v = n /\ exists b, vote_for log v b
  | _ => False
  end.

(** A vote collected for a height and digest. *)
Definition collected log (h : Z) (d : Digest) (k : PublicKey) : Prop :=
  0 < stake c k /\
  exists v, HVote.author v = k /\ HVote.hash v = d /\ HVote.height v = h /\
    signed_by log k v.

(** The blocks given to the mempool to wait for. *)
Definition verifying (l : list ConsensusMempoolMessage) : list Block.t :=
  omap (fun m => match m with MempoolVerify b _ => Some b | _ => None end) l.

Record chain_inv (s : Core) : Prop := {
  ci_name : name s = n;
  ci_committee : committee s = c /\ agg_committee (aggregator s) = c;
  ci_paths : opt_path s = true /\ pes_path s = false;
  ci_last : 0 <= last_committed_height s;
  ci_high : good_qc (signed s) (high_qc s);
  ci_makers : forall h d m, hs_votes_aggregators (aggregator s) !! (h, d) = Some m ->
    qm_inv c m /\ Forall (fun k => collected (signed s) h d k) (qm_votes m).*1;
  ci_log : Forall (log_entry (signed s)) (signed s);
  ci_store : forall k bytes b, kv (store s) !! k = Some bytes ->
    deserialize_block bytes = Some b ->
    k = Digest_to_vec (Block.digest b) /\ good_block (signed s) b;
  ci_waiting : Forall (good_block (signed s)) (synchronizer s ++ verifying (mempool_driver s));
  ci_commits : Forall (two_chain (signed s)) (commit_channel s);
}.

(** ** Evidence is kept as the log grows *)

Section Grow.
Context (log log' : list Signable).
Hypothesis Hgrow : log `prefix_of` log'.

Lemma prefix_elem m : m ∈ log -> m ∈ log'.
Proof. intros Hm. destruct Hgrow as [l ->]. apply elem_of_app. by left. Qed.

Lemma signed_by_grow k v : signed_by log k v -> signed_by log' k v.
Proof. intros [Hg|[-> Hm]]; [by left | right; eauto using prefix_elem]. Qed.

Lemma in_play_grow b : in_play log b -> in_play log' b.
Proof. intros [Hk|Hs]; [by left | right; by apply prefix_elem]. Qed.

Lemma backed_grow h d : backed log h d -> backed log' h d.
Proof.
  intros (l & Hs & Hq & Hl). exists l. split; [done|]. split; [done|].
  eapply Forall_impl; [exact Hl|]. intros v (? & ? & ?). eauto using signed_by_grow.
Qed.

Lemma good_qc_grow q : good_qc log q -> good_qc log' q.
Proof. intros [Hg|Hb]; [by left | right; by apply backed_grow]. Qed.

Lemma good_block_grow b : good_block log b -> good_block log' b.
Proof. intros [Hp Hq]. split; [by apply in_play_grow | by apply good_qc_grow]. Qed.

Lemma vote_for_grow v b : vote_for log v b -> vote_for log' v b.
Proof. intros (Hb & ?). split; [by apply good_block_grow | done]. Qed.

Lemma two_chain_grow b : two_chain log b -> two_chain log' b.
Proof.
  intros (Hb & Hh & b1 & q & Hb1 & He & Hbk & Hq & Hbk1 & Hh1).
  split; [by apply in_play_grow|]. split; [done|]. exists b1, q.
  eauto 10 using good_block_grow, backed_grow.
Qed.

Lemma log_entry_grow m : log_entry log m -> log_entry log' m.
Proof.
  destruct m; simpl; try done. intros (? & ? & b & Hb). eauto using vote_for_grow.
Qed.

Lemma collected_grow h d k : collected log h d k -> collected log' h d k.
Proof. intros (? & v & ? & ? & ? & ?). split; [done|]. exists v. eauto using signed_by_grow. Qed.
End Grow.
End Evidence.
