(* ===== verification/ChainInv.v ===== *)
(** * The handlers keep the chain invariant

    The handlers of the optimistic path, the boot and the change of epochs keep
    [Chain.chain_inv] when the inputs carry no forged signatures of honest members
    and the agreement's channel is silent. *)

From S2P Require Import Prelude Machine Crypto Config Messages Leader Aggregator Timer Store.
From S2P Require Import Sync Core Handlers Fixture MessageFacts Types Spec Refine AggregatorFacts Chain.

Section Steps.
Context `{CryptoLib} `{NodeEnv} `{!BincodeLaws}.
Context (c : Committee) (n : PublicKey).
Context (genuine : PublicKey -> HVote.t -> Prop) (known : Block.t -> Prop).
Hypothesis Hwf : wf_committee c.

Notation M := (act Core ConsensusError).
Notation inv := (chain_inv c n genuine known).
Notation good_qc := (good_qc c n genuine).
Notation good_block := (good_block c n genuine known).
Notation signed_by := (signed_by n genuine).
Notation in_play := (in_play known).
Notation backed := (backed c n genuine).
Notation two_chain := (two_chain c n genuine known).
Notation log_entry := (log_entry c n genuine known).
Notation collected := (collected c n genuine).

(** From [s] to [s'] the invariant holds again and the log has grown. *)
Definition ext (s s' : Core) : Prop := inv s' /\ signed s `prefix_of` signed s'.

Lemma ext_refl s : inv s -> ext s s.
Proof. by split. Qed.

Lemma ext_trans s s' s'' : ext s s' -> ext s' s'' -> ext s s''.
Proof. intros [_ Hp] [Hi Hp']. split; [done | by etrans]. Qed.

(** One run of a method from a state: the invariant, and what it returns. *)
Definition does {A} (m : M A) (s : Core) (Q : A -> Core -> Prop) : Prop :=
  ext s (m s).2 /\ forall a s', m s = (Ok a, s') -> Q a s'.

Lemma does_bind {A B} (m : M A) (f : A -> M B) s Q R :
  does m s Q ->
  (forall a s', m s = (Ok a, s') -> ext s s' -> Q a s' -> does (f a) s' R) ->
  does (m ≫= f) s R.
Proof.
  intros [Hm HQ] Hf. unfold does, mbind, act_bind.
  destruct (m s) as [[a|x|w|] s'] eqn:Hr; simpl in *; try (by split).
  destruct (Hf a s' eq_refl Hm (HQ a s' eq_refl)) as [He HR]. split; [|exact HR].
  by eapply ext_trans.
Qed.

Lemma does_gets {A B} (g : Core -> A) (f : A -> M B) s R :
  does (f (g s)) s R -> does (gets g ≫= f) s R.
Proof. done. Qed.

Lemma does_ret {A} (a : A) s (Q : A -> Core -> Prop) : inv s -> Q a s -> does (mret a) s Q.
Proof. intros Hi Ha. split; [by apply ext_refl|]. by intros ? ? [= <- <-]. Qed.

Lemma does_lift {A} (m : ConsensusResult A) s (Q : A -> Core -> Prop) :
  inv s -> (forall a, m = Ok a -> Q a s) -> does (lift m) s Q.
Proof. intros Hi Ha. split; [by apply ext_refl|]. intros a s' [= -> <-]. by apply Ha. Qed.

Lemma does_modify f s : ext s (f s) -> does (modify f) s (fun _ s' => s' = f s).
Proof. intros He. split; [exact He|]. by intros a s' [= <- <-]. Qed.

Lemma does_weaken {A} (m : M A) s (Q R : A -> Core -> Prop) :
  does m s Q -> (forall a s', Q a s' -> R a s') -> does m s R.
Proof. intros [He HQ] HR. split; [exact He | eauto]. Qed.

Lemma does_ignore (m : M unit) s Q :
  does m s Q -> does (ignore_err m) s (fun _ _ => True).
Proof. intros [He _]. split; [|done]. unfold ignore_err. by destruct (m s) as [[]]. Qed.

(** ** Methods that leave the fields of the invariant *)

Definition view (s : Core) :=
  (name s, committee s, agg_committee (aggregator s), hs_votes_aggregators (aggregator s),
   (opt_path s, pes_path s), last_committed_height s, high_qc s, signed s, kv (store s),
   synchronizer s, verifying (mempool_driver s), commit_channel s).

Definition still {A} (m : M A) : Prop := forall s, view (m s).2 = view s.

Lemma view_inv s s' : view s' = view s -> inv s -> ext s s'.
Proof.
  unfold view. intros [= E1 E2 E3 E4 E5 E6 E7 E8 E9 E10 E11 E12 E13] [].
  split; [|by rewrite E9]. constructor; rewrite ?E1, ?E2, ?E3, ?E4, ?E5, ?E6, ?E7, ?E8, ?E9,
    ?E10, ?E11, ?E12, ?E13; assumption.
Qed.

Lemma still_does {A} (m : M A) s :
  still m -> inv s -> does m s (fun _ s' => view s' = view s).
Proof.
  intros Hm Hi. split; [by apply view_inv|]. intros a s' Hr. specialize (Hm s). by rewrite Hr in Hm.
Qed.

Lemma still_bind {A B} (m : M A) (f : A -> M B) :
  still m -> (forall a, still (f a)) -> still (m ≫= f).
Proof.
  intros Hm Hf s. unfold mbind, act_bind. specialize (Hm s).
  destruct (m s) as [[a|x|w|] s']; simpl in *; [by rewrite Hf | done..].
Qed.

Lemma still_ret {A} (a : A) : still (mret a). Proof. done. Qed.
Lemma still_lift {A} (m : ConsensusResult A) : still (lift m). Proof. done. Qed.
Lemma still_gets {A} (f : Core -> A) : still (gets f). Proof. done. Qed.
Lemma still_ensure b x : still (ensure_act b x). Proof. done. Qed.
Lemma still_throw {A} x : still (throw x : M A). Proof. done. Qed.
Lemma still_sleep d : still (sleep_ms d). Proof. done. Qed.
Lemma still_timer d : still (timer_reset d). Proof. done. Qed.
Lemma still_terminate h : still (terminate_smvba h). Proof. done. Qed.

Lemma still_transmit_opt m to : still (transmit_opt m to).
Proof.
  intros s. unfold transmit_opt, mbind, act_bind, gets, zoom.
  by destruct (transmit _ _ _ _ _ _).
Qed.

Lemma still_when b (m : M unit) : still m -> still (when b m).
Proof. by destruct b. Qed.

Lemma still_send_vote m l : still (send_vote m l).
Proof.
  induction l as [|leader l IH]; simpl; [done|].
  apply still_bind; [done | intros me]. apply still_bind; [|intros; exact IH].
  apply still_when, still_transmit_opt.
Qed.

Lemma still_read_store k : still (read_store k).
Proof.
  intros s. unfold read_store, zoom. pose proof (store_read_kv k (store s)) as Hkv.
  destruct (store_read k (store s)). unfold view. simpl in *. by rewrite Hkv.
Qed.

Lemma still_sync_request d k : still (handle_sync_request d k).
Proof.
  apply still_bind; [apply still_read_store | intros [bytes|]; [|done]].
  apply still_bind; [done | intros b; apply still_transmit_opt].
Qed.

(** ** Signing *)

Lemma sign_entry s m :
  inv s -> log_entry (signed s ++ [m]) m -> ext s (s <| signed := signed s ++ [m] |>).
Proof.
  intros [Hn Hc Hp Hl Hh Hm Hg Hs Hw Hcm] He.
  assert (signed s `prefix_of` signed s ++ [m]) as Hgrow by (by exists [m]).
  split; [|exact Hgrow]. constructor; simpl; try done.
  - by eapply good_qc_grow.
  - intros h d mk Hk. destruct (Hm h d mk Hk) as [Hq Hv]. split; [done|].
    eapply Forall_impl; [exact Hv|]. intros k. by apply collected_grow.
  - apply Forall_app. split; [|by repeat constructor].
    eapply Forall_impl; [exact Hg|]. intros m'. by apply log_entry_grow.
  - intros k bytes b Hk Hb. destruct (Hs k bytes b Hk Hb) as [? ?].
    split; [done | by eapply good_block_grow].
  - eapply Forall_impl; [exact Hw|]. intros b. by apply good_block_grow.
  - eapply Forall_impl; [exact Hcm|]. intros b. by apply two_chain_grow.
Qed.

Lemma does_signing {A} (rec : A -> Signable) build s :
  inv s -> (forall a, build (signature_service s) = Ok a ->
              log_entry (signed s ++ [rec a]) (rec a)) ->
  does (signing rec build) s (fun a s' => build (signature_service s) = Ok a /\ rec a ∈ signed s').
Proof.
  intros Hi He. unfold signing. apply does_gets.
  eapply does_bind; [apply (does_lift _ s (fun a s' => s' = s /\ build (signature_service s) = Ok a))|];
    [done | done |].
  intros a s' _ _ [-> Hb]. eapply does_bind; [apply does_modify, sign_entry; [done | by apply He]|].
  intros _ s' _ [Hi' _] ->. apply does_ret; [done|]. split; [done|]. simpl.
  apply elem_of_app. right. by left.
Qed.

(** ** The mempool and the store *)

Lemma view_mempool s l :
  inv s -> verifying l = [] -> ext s (s <| mempool_driver := mempool_driver s ++ l |>).
Proof.
  intros Hi Hl. apply view_inv; [|done]. unfold view, verifying in *. simpl.
  by rewrite omap_app, Hl, app_nil_r.
Qed.

Lemma does_mempool_get max tag s :
  inv s -> does (on_mempool (driver_get max tag)) s (fun _ _ => True).
Proof.
  intros Hi. split; [|done]. unfold on_mempool, zoom, driver_get. simpl. by apply view_mempool.
Qed.

Lemma does_verify b tag s :
  inv s -> good_block (signed s) b -> does (on_mempool (driver_verify b tag)) s (fun _ _ => True).
Proof.
  intros Hi Hb. split; [|done]. unfold on_mempool, zoom, driver_verify.
  assert (inv (s <| mempool_driver := mempool_driver s ++ [MempoolVerify b tag] |>)) as Hi'.
  { destruct Hi as [Hn Hc Hp Hl Hh Hm Hg Hs Hw Hcm]. constructor; simpl; try done.
    unfold verifying in *. rewrite omap_app, app_assoc. simpl.
    apply Forall_app. split; [done | by apply Forall_singleton]. }
  unfold mbind, act_bind, send_mempool, gets, modify. simpl.
  destruct (mempool_verify (mempool_driver s) b tag); simpl; (split; [exact Hi' | done]).
Qed.

Lemma does_generate h round qc tag s :
  inv s -> does (generate_proposal h round qc tag) s (fun b s' =>
    Block.qc b = default QC.genesis qc /\ SignedBlock b ∈ signed s').
Proof.
  intros Hi. unfold generate_proposal. apply does_gets.
  eapply does_bind; [by apply does_mempool_get|]. intros payload s1 _ [Hi1 _] _.
  do 2 apply does_gets.
  eapply does_weaken; [by apply does_signing|]. intros b s' [Hb Hin]. split; [|done].
  by apply block_new_fields in Hb as [-> _].
Qed.

Lemma does_store_block b s :
  inv s -> good_block (signed s) b -> does (store_block b) s (fun _ _ => True).
Proof.
  intros [Hn Hc Hp Hl Hh Hm Hg Hs Hw Hcm] Hb. split; [|done]. split; [|done].
  constructor; simpl; try done. intros k bytes b' Hk Hd.
  destruct (decide (k = Digest_to_vec (Block.digest b))) as [->|Hne].
  - rewrite lookup_insert_eq in Hk. injection Hk as <-.
    rewrite bincode_roundtrip in Hd. by injection Hd as <-.
  - rewrite lookup_insert_ne in Hk by done. by apply (Hs k bytes).
Qed.

(** ** Ancestors *)

(** What [get_parent_block] finds for [b]: genesis when the certificate says so,
    else a stored block with the digest of the certificate. *)
Definition parent_of (log : list Signable) (b p : Block.t) : Prop :=
  QC.eqb (Block.qc b) QC.genesis = true /\ p = Block.genesis \/
  QC.eqb (Block.qc b) QC.genesis = false /\ Block.digest p = QC.hash (Block.qc b) /\
  good_block log p.

Lemma vec_inj d e : Digest_to_vec d = Digest_to_vec e -> d = e.
Proof. apply digest_bytes_inj. Qed.

(** The fields a walk of the chain may change. *)
Definition walked (s s' : Core) : Prop :=
  signed s' = signed s /\ commit_channel s' = commit_channel s /\
  last_committed_height s' = last_committed_height s /\ height s' = height s /\
  epoch s' = epoch s /\ pes_path s' = pes_path s.

Lemma walked_refl s : walked s s. Proof. done. Qed.
Lemma walked_trans s s' s'' : walked s s' -> walked s' s'' -> walked s s''.
Proof. unfold walked. intuition congruence. Qed.

Definition waiting_inv (st : StoreClient) (ch : list Block.t) (s : Core) : Prop :=
  kv st = kv (store s) /\ Forall (good_block (signed s)) ch.

(** A call of the synchronizer that only adds good blocks to those that wait. *)
Lemma does_synchronizer {A} (m : act (StoreClient * list Block.t) ConsensusError A) s
    (Q : A -> Prop) :
  inv s ->
  (forall st ch, kv st = kv (store s) ->
     exists add, Forall (good_block (signed s)) add /\ (m (st, ch)).2.2 = ch ++ add /\
       kv (m (st, ch)).2.1 = kv st /\ forall a, (m (st, ch)).1 = Ok a -> Q a) ->
  does (on_synchronizer m) s (fun a s' => Q a /\ walked s s').
Proof.
  intros [Hn Hc Hp Hl Hh Hm Hg Hs Hw Hcm] Hcall.
  destruct (Hcall (store s) (synchronizer s) eq_refl) as (add & Hadd & Hch & Hkv & HQ).
  unfold does, on_synchronizer, zoom. destruct (m (store s, synchronizer s)) as [r [st ch]].
  simpl in *. subst ch. split.
  - split; [|done]. constructor; simpl; try done; rewrite ?Hkv; [done|].
    rewrite Forall_app in Hw |- *. destruct Hw. split; [|done]. apply Forall_app. by split.
  - intros a s' [= -> <-]. split; [by apply HQ | done].
Qed.

Lemma parent_call s b st ch :
  inv s -> good_block (signed s) b -> kv st = kv (store s) ->
  exists add, Forall (good_block (signed s)) add /\
    (get_parent_block b (st, ch)).2.2 = ch ++ add /\
    kv (get_parent_block b (st, ch)).2.1 = kv st /\
    forall r, (get_parent_block b (st, ch)).1 = Ok r ->
      match r with Some p => parent_of (signed s) b p | None => True end.
Proof.
  intros Hi Hb Hst. rewrite get_parent_kv. unfold get_parent_block.
  destruct (QC.eqb (Block.qc b) QC.genesis) eqn:Hq.
  { exists []. rewrite app_nil_r. split; [constructor|]. do 2 (split; [done|]).
    intros r [= <-]. by left. }
  unfold on_store, zoom, store_read, mbind, act_bind, gets, modify, throw, lift. simpl.
  destruct (db_get_fault (reads st)); simpl.
  { exists []. rewrite app_nil_r. by split; [constructor|]. }
  destruct (kv st !! Digest_to_vec (Block.parent b)) as [bytes|] eqn:Hk; simpl.
  - exists []. rewrite app_nil_r. unfold decode_block.
    destruct (deserialize_block bytes) as [p|] eqn:Hd; simpl; (split; [constructor|]);
      (split; [done|]); (split; [done|]); [|done].
    intros r [= <-]. right. rewrite Hst in Hk.
    destruct (ci_store _ _ _ _ _ Hi _ _ _ Hk Hd) as [He Hg]. apply vec_inj in He.
    split; [done|]. split; [by rewrite <- He | exact Hg].
  - exists [b]. split; [by apply Forall_singleton|]. do 2 (split; [done|]). by intros r [= <-].
Qed.

Lemma does_parent b s :
  inv s -> good_block (signed s) b ->
  does (on_synchronizer (get_parent_block b)) s (fun r s' =>
    match r with Some p => parent_of (signed s) b p | None => True end /\ walked s s').
Proof. intros Hi Hb. apply does_synchronizer; [done|]. intros st ch. by apply parent_call. Qed.

(** The two ancestors of [b], when none of them is genesis. *)
Definition ancestors_of (log : list Signable) (b b0 b1 : Block.t) : Prop :=
  b0 = Block.genesis \/
  parent_of log b b1 /\ QC.eqb (Block.qc b) QC.genesis = false /\
  parent_of log b1 b0 /\ QC.eqb (Block.qc b1) QC.genesis = false.

Lemma does_ancestors b s :
  inv s -> good_block (signed s) b ->
  does (on_synchronizer (get_ancestors b)) s (fun r s' =>
    match r with Some (b0, b1) => ancestors_of (signed s) b b0 b1 | None => True end /\
    walked s s').
Proof.
  intros Hi Hb. apply does_synchronizer; [done|]. intros st ch Hst.
  destruct (parent_call s b st ch Hi Hb Hst) as (add & Hadd & Hch & Hkv & Hr).
  unfold get_ancestors, mbind, act_bind, lift.
  destruct (get_parent_block b (st, ch)) as [[[b1|]|x|w|] [st1 ch1]] eqn:Hp1; simpl in *;
    try (exists add; split_and!; done || by intros r [= <-]).
  destruct (Hr _ eq_refl) as [[Hq ->]|(Hq & Hd & Hg1)].
  { exists add. simpl. split_and!; [done..|]. intros r [= <-]. by left. }
  destruct (parent_call s b1 st1 ch1 Hi Hg1) as (add' & Hadd' & Hch' & Hkv' & Hr');
    [congruence|].
  exists (add ++ add').
  destruct (get_parent_block b1 (st1, ch1)) as [[[b0|]|x|w|] [st2 ch2]]; simpl in *;
    (split; [by apply Forall_app|]); (split; [by rewrite Hch', Hch, app_assoc|]);
    (split; [congruence|]); try done.
  intros r [= <-]. destruct (Hr' _ eq_refl) as [[Hq' ->]|Hp0]; [by left|].
  right. split; [by right|]. split; [done|]. split; [by right | apply Hp0].
Qed.

(** ** Commit *)

Lemma does_cleanup b cond s :
  inv s -> does (when cond (on_mempool (driver_cleanup_par b))) s (fun _ s' => walked s s').
Proof.
  intros Hi. destruct cond; [|by apply does_ret].
  split; [by apply view_mempool | by intros a s' [= <- <-]].
Qed.

Lemma does_commit_loop fuel b s :
  inv s -> good_block (signed s) b \/ Block.height b <= 0 ->
  does (commit_loop fuel b) s (fun _ s' => walked s s').
Proof.
  revert b s. induction fuel as [|fuel IH]; intros b s Hi Hb; simpl; [by apply does_lift|].
  apply does_gets. destruct (Z.ltb_spec (last_committed_height s) (Block.height b)) as [Hlt|_];
    [|by apply does_ret].
  destruct Hb as [Hb|Hb]; [|pose proof (ci_last _ _ _ _ _ Hi); lia].
  eapply does_bind; [by apply does_cleanup|]. intros _ s1 _ [Hi1 Hg1] Hw1.
  assert (good_block (signed s1) b) as Hb1 by (by eapply good_block_grow).
  eapply does_bind; [by apply does_parent|]. intros r s2 _ [Hi2 _] [Hp Hw2].
  destruct r as [p|]; [|apply does_ret; [done | by eapply walked_trans]].
  eapply does_weaken; [apply IH; [done|]|].
  - destruct Hp as [[_ ->]|(_ & _ & Hp)]; [by right | left]. by destruct Hw2 as [-> _].
  - intros a s3 Hw3. eapply walked_trans; [exact Hw1|]. by eapply walked_trans.
Qed.

Lemma does_commit b s :
  inv s -> two_chain (signed s) b -> good_block (signed s) b ->
  does (commit b ;; record_commit b) s (fun _ s' => pes_path s' = false).
Proof.
  intros Hi Htc Hb. eapply does_bind.
  { unfold commit. apply does_gets. apply does_commit_loop; [done | by left]. }
  intros _ s1 _ [Hi1 _] Hw. destruct Hw as (Hsg & Hcc & _ & _ & _ & _).
  eapply does_weaken; [apply does_modify|].
  - destruct Hi1 as [Hn Hc Hp Hl Hh Hm Hg Hs Hwt Hcm]. split; [|done]. constructor; simpl; try done.
    + destruct Htc as (_ & Hpos & _). lia.
    + apply Forall_app. split; [done|]. apply Forall_singleton. by rewrite Hsg.
  - intros a s2 ->. simpl. by apply (ci_paths _ _ _ _ _ Hi1).
Qed.

(** ** Certificates *)

Lemma does_advance_height h s :
  inv s -> does (advance_height h) s (fun _ _ => True).
Proof.
  intros Hi. split; [|done]. unfold advance_height, mbind, act_bind, gets.
  destruct (h <? height s); simpl; [by apply ext_refl|].
  destruct Hi as [Hn Hc Hp Hl Hh Hm Hg Hs Hw Hcm]. split; [|done]. constructor; simpl; try done.
  intros h' d m Hk. apply map_lookup_filter_Some in Hk as [Hk _]. by apply Hm.
Qed.

Lemma does_process_qc q s :
  inv s -> good_qc (signed s) q -> does (process_qc q) s (fun _ _ => True).
Proof.
  intros Hi Hq. unfold process_qc. eapply does_bind; [by apply does_advance_height|].
  intros _ s1 _ [Hi1 Hg1] _. split; [|done]. unfold update_high_qc, modify. simpl.
  destruct (_ <? _); [|by apply ext_refl].
  destruct Hi1 as [Hn Hc Hp Hl Hh Hm Hg Hs Hw Hcm]. split; [|done]. constructor; simpl; try done.
  by eapply good_qc_grow.
Qed.

(** A vote that verifies enters its maker, and the certificate the maker returns is
    backed by the votes it has collected. *)
Lemma append_collected v m log :
  qm_inv c m -> Forall (collected log (HVote.height v) (HVote.hash v)) (qm_votes m).*1 ->
  0 < stake c (HVote.author v) -> signed_by log (HVote.author v) v ->
  Forall (collected log (HVote.height v) (HVote.hash v)) (qm_votes (QCMaker_append v c m).2).*1 /\
  forall q, (QCMaker_append v c m).1 = Ok (Some q) -> good_qc log q.
Proof.
  intros Hinv Hm Hst Hsg. rewrite QCMaker_append_eq.
  destruct (decide _) as [Hin|Hout]; [done|]. cbv zeta.
  destruct Hinv as [_ Hu Hw]. destruct (counted_weight c _ _ _ Hwf Hw Hout) as [Heq Hle].
  set (votes := qm_votes m ++ [(HVote.author v, HVote.signature v)]).
  assert (Forall (collected log (HVote.height v) (HVote.hash v)) votes.*1) as Hall.
  { unfold votes. rewrite fmap_app. apply Forall_app. split; [done|]. apply Forall_singleton.
    split; [done|]. by exists v. }
  rewrite Heq. destruct (Z.leb_spec (quorum_threshold c) (qm_weight m + stake c (HVote.author v)));
    simpl; (split; [exact Hall|]); [|done].
  intros q [= <-]. right. simpl.
  assert (exists l : list HVote.t, HVote.author <$> l = votes.*1 /\
    Forall (fun w => HVote.hash w = HVote.hash v /\ HVote.height w = HVote.height v /\
                     signed_by log (HVote.author w) w) l) as (l & Hl & Hs).
  { clear -Hall. induction Hall as [|k l (_ & w & Hk & ?) _ (ws & Hws & ?)]; [by exists []|].
    exists (w :: ws). rewrite fmap_cons, Hws, Hk. split; [done|]. constructor; [|done].
    subst k. tauto. }
  assert (authors l = {[HVote.author v]} ∪ qm_used m) as Ha.
  { unfold authors. rewrite Hl. unfold votes. rewrite Hu. apply signers_snoc. }
  exists l. rewrite Ha. split; [|split; [lia | exact Hs]].
  intros k Hk. rewrite <- Ha in Hk. unfold authors in Hk. rewrite Hl, elem_of_list_to_set in Hk.
  rewrite Forall_forall in Hall. by apply Hall.
Qed.

Lemma does_add_vote v s :
  inv s -> 0 < stake c (HVote.author v) ->
  signed_by (signed s) (HVote.author v) v ->
  does (on_aggregator (add_hs_vote v)) s (fun made s' =>
    match made with Some q => good_qc (signed s') q | None => True end).
Proof.
  intros [Hn Hc Hp Hl Hh Hm Hg Hs Hw Hcm] Hst Hsg.
  unfold does, on_aggregator, zoom, add_hs_vote, mbind, act_bind, gets.
  set (k := (HVote.height v, HVote.hash v)).
  set (m := default QCMaker_new (hs_votes_aggregators (aggregator s) !! k)).
  assert (qm_inv c m /\ Forall (collected (signed s) (HVote.height v) (HVote.hash v))
    (qm_votes m).*1) as [Hq Hv].
  { unfold m. destruct (hs_votes_aggregators (aggregator s) !! k) as [mk|] eqn:Hk; simpl.
    - by apply Hm.
    - split; [apply qm_inv_new | constructor]. }
  destruct Hc as [Hc1 Hc2]. unfold zoom. rewrite Hc2. fold m.
  pose proof (qm_inv_append c v m Hwf Hq) as Hq'.
  destruct (append_collected v m _ Hq Hv Hst Hsg) as [Hv' Hmade].
  destruct (QCMaker_append v c m) as [r m']. simpl in *. split.
  - split; [|done]. constructor; simpl; try done.
    intros h d mk Hk. destruct (decide ((h, d) = k)) as [He|Hne].
    + rewrite He, lookup_insert_eq in Hk. injection Hk as <-. unfold k in He.
      injection He as -> ->. done.
    + rewrite lookup_insert_ne in Hk by done. by apply Hm.
  - intros made s' [= -> <-]. destruct made as [q|]; [by apply Hmade | done].
Qed.

(** A verified certificate whose signatures are genuine is good. *)
Lemma verified_good q log :
  QC.eqb q QC.genesis = true \/ QC.verify q c = Ok tt ->
  (QC.verify q c = Ok tt -> forall x, x ∈ QC.votes q -> genuine x.1 (qc_vote q x)) ->
  good_qc log q.
Proof.
  intros [Hg|Hv] Hgen; [by left|]. right. specialize (Hgen Hv).
  apply qc_verify_quorum in Hv as [Hst Hq]; [|done].
  assert (authors (qc_vote q <$> QC.votes q) = signers (QC.votes q)) as Ha.
  { unfold authors, signers. f_equal. rewrite <- list_fmap_compose. by apply list_fmap_ext. }
  exists (qc_vote q <$> QC.votes q). rewrite Ha. do 2 (split; [done|]).
  apply Forall_fmap, Forall_forall. intros [k sg] Hin. simpl. do 2 (split; [done|]).
  left. by apply (Hgen (k, sg)).
Qed.

(** ** Votes *)

Lemma does_make_opt_vote b s :
  inv s -> good_block (signed s) b ->
  does (make_opt_vote b) s (fun made s' =>
    match made with
    | Some v => SignedHVote v ∈ signed s' /\ HVote.author v = n
    | None => True
    end).
Proof.
  intros Hi Hb. unfold make_opt_vote. apply does_gets.
  destruct (last_voted_height s <? Block.height b); [|by apply does_ret].
  destruct (QC.height (Block.qc b) +64 1 =? Block.height b) eqn:Hh; [|by apply does_ret].
  apply Z.eqb_eq in Hh. simpl.
  eapply does_bind; [apply still_does; [by intros ? | done]|].
  intros _ s1 _ [Hi1 Hg1] Hv1. apply does_gets.
  assert (good_block (signed s1) b) as Hb1 by (by eapply good_block_grow).
  eapply does_bind; [apply does_signing; [done|]|].
  - intros v Hv. apply hvote_new_fields in Hv as (Hd & Hvh & Hve & _ & _ & Ht & Ha). simpl.
    split; [done|]. split; [rewrite Ha; apply (ci_name _ _ _ _ _ Hi1)|]. exists b.
    split; [|done]. eapply good_block_grow; [|exact Hb1]. by eexists.
  - intros v s2 _ [Hi2 _] [Hv Hin]. apply does_ret; [done|]. split; [done|].
    apply hvote_new_fields in Hv as (_ & _ & _ & _ & _ & _ & ->).
    apply (ci_name _ _ _ _ _ Hi1).
Qed.

(** ** The handlers *)

Definition vote_ok (log : list Signable) (v : HVote.t) : Prop :=
  HVote.verify v c = Ok tt -> signed_by log (HVote.author v) v.

Definition call_ok (log : list Signable) (cl : rcall) : Prop :=
  match cl with
  | R_process_opt_block b => good_block log b
  | R_handle_opt_vote v => vote_ok log v
  | _ => False
  end.

Definition done_ {A} : A -> Core -> Prop := fun _ _ => True.

Section Handlers.
Context (rec : rcall -> M unit).
Hypothesis rec_ok : forall cl s, inv s -> call_ok (signed s) cl -> does (rec cl) s done_.

Lemma does_opt_propose s : inv s -> does (opt_propose rec) s done_.
Proof.
  intros Hi. unfold opt_propose. do 3 apply does_gets.
  eapply does_bind; [by apply (does_lift _ s done_)|]. intros idx s1 _ [Hi1 _] _.
  eapply does_bind; [by apply (does_lift _ s1 done_)|]. intros i s2 _ [Hi2 _] _.
  apply does_gets. eapply does_bind; [by apply does_generate|].
  intros b s3 _ [Hi3 Hg3] [Hq Hin].
  assert (good_block (signed s3) b) as Hb.
  { split; [by right|]. rewrite Hq. simpl. eapply good_qc_grow; [exact Hg3|].
    apply (ci_high _ _ _ _ _ Hi2). }
  eapply does_bind; [apply still_does; [apply still_transmit_opt | done]|].
  intros _ s4 _ [Hi4 Hg4] _.
  eapply does_bind; [apply rec_ok; [done | by eapply good_block_grow]|].
  intros _ s5 _ [Hi5 _] _. apply does_gets.
  eapply does_weaken; [apply still_does; [by apply still_when, still_sleep | done]|]. done.
Qed.

Lemma does_handle_opt_vote v s :
  inv s -> vote_ok (signed s) v -> does (handle_opt_vote rec v) s done_.
Proof.
  intros Hi Hv. unfold handle_opt_vote. do 2 apply does_gets.
  destruct (_ || _); [by apply does_ret|]. do 2 apply does_gets.
  eapply does_bind; [by apply (does_lift _ s (fun _ s' => s' = s))|]. intros idx s1 _ _ ->.
  eapply does_bind; [by apply (does_lift _ s (fun _ s' => s' = s))|]. intros _ s1 _ _ ->.
  apply does_gets.
  eapply does_bind; [apply (does_lift _ s (fun _ s' => s' = s /\ HVote.verify v c = Ok tt))|].
  { done. }
  { intros []. by rewrite (proj1 (ci_committee _ _ _ _ _ Hi)). }
  intros _ s1 _ _ [-> Hver].
  eapply does_bind; [apply does_add_vote; [done | | by apply Hv]|].
  { by apply (hvote_verify_inv c v _ Hver eq_refl). }
  intros [q|] s1 _ [Hi1 _] Hq; [|by apply does_ret].
  eapply does_bind; [by apply does_process_qc|]. intros _ s2 _ [Hi2 _] _.
  eapply does_bind; [by apply (does_lift _ s2 done_)|]. intros i s3 _ [Hi3 _] _.
  destruct (i =? 0); [by apply does_opt_propose|]. apply does_gets.
  eapply does_weaken; [apply still_does; [apply still_timer | done]|]. done.
Qed.

(** A block that is sent: it is known, and no signature of its certificate is forged. *)
Definition block_ok (b : Block.t) : Prop :=
  known b /\
  (QC.verify (Block.qc b) c = Ok tt ->
   forall x, x ∈ QC.votes (Block.qc b) -> genuine x.1 (qc_vote (Block.qc b) x)).

Lemma block_ok_good b log :
  block_ok b -> Block.verify b c = Ok tt -> good_block log b.
Proof.
  intros [Hk Hg] Hv. split; [by left|]. apply verified_good; [|exact Hg].
  unfold Block.verify in Hv. destruct (QC.eqb (Block.qc b) QC.genesis); [by left | right].
  unfold ensure, check_signature in Hv. destruct (0 <? stake c (Block.author b)); simpl in Hv; [|done].
  by destruct (Signature_verify _ _ _); simpl in Hv.
Qed.

Lemma does_handle_opt_proposal b s :
  inv s -> block_ok b -> does (handle_opt_proposal rec b) s done_.
Proof.
  intros Hi Hb. unfold handle_opt_proposal. apply does_gets.
  destruct (_ <? _); [by apply does_ret|]. destruct (_ <? _).
  { eapply does_bind; [apply still_does; [by intros ? | done]|]. intros _ s1 _ [Hi1 _] _.
    by apply (does_lift (Err _)). }
  apply does_gets.
  eapply does_bind; [by apply (does_lift _ s (fun _ s' => s' = s))|]. intros idx s1 _ _ ->.
  eapply does_bind; [by apply (does_lift _ s (fun _ s' => s' = s))|]. intros _ s1 _ _ ->.
  apply does_gets.
  eapply does_bind; [apply (does_lift _ s (fun _ s' => s' = s /\ Block.verify b c = Ok tt))|].
  { done. }
  { intros []. by rewrite (proj1 (ci_committee _ _ _ _ _ Hi)). }
  intros _ s1 _ _ [-> Hver]. apply does_gets.
  eapply does_bind; [apply still_does; [apply still_when, still_terminate | done]|].
  intros _ s1 _ [Hi1 _] _.
  assert (forall log, good_block log b) as Hgood by (intros; by apply block_ok_good).
  eapply does_bind; [apply does_process_qc; [done | apply Hgood]|]. intros _ s2 _ [Hi2 _] _.
  eapply does_bind; [by apply does_verify|]. intros available s3 _ [Hi3 _] _.
  destruct (negb available); [by apply does_ret|]. apply rec_ok; [done | apply Hgood].
Qed.

(** The guard of the two-chain rule, with the ancestors found, is the evidence of
    [two_chain]. *)
Lemma ancestors_two_chain log b b0 b1 last :
  good_block log b -> ancestors_of log b b0 b1 -> 0 <= last < Block.height b0 ->
  (Block.height b0 +64 1 =? Block.height b1) && (Block.height b1 +64 1 =? Block.height b)
    || QC.eqb (Block.qc b) QC.genesis = true ->
  two_chain log b0 /\ good_block log b0.
Proof.
  intros [Hb Hq] [->|(Hp1 & Hne & Hp0 & Hne0)] Hlast; [simpl in Hlast; lia|].
  destruct Hp1 as [[He _]|(_ & Hd1 & Hb1 & Hq1)]; [congruence|].
  destruct Hp0 as [[He _]|(_ & Hd0 & Hb0 & Hq0)]; [congruence|].
  rewrite Hne, orb_false_r. intros [Hh0 _]%andb_true_iff. apply Z.eqb_eq in Hh0.
  split; [|by split]. split; [done|]. split; [lia|]. exists b1, (Block.qc b).
  destruct Hq as [Hq|Hq]; [congruence|]. destruct Hq1 as [Hq1|Hq1]; [congruence|].
  rewrite Hd0, Hd1. split; [split; [done | by right]|]. by split_and!.
Qed.

Lemma does_process_opt_block b s :
  inv s -> good_block (signed s) b -> does (process_opt_block rec b) s done_.
Proof.
  intros Hi Hb. unfold process_opt_block. do 2 apply does_gets.
  eapply does_bind; [by apply (does_lift _ s (fun _ s' => s' = s))|]. intros idx s1 _ _ ->.
  eapply does_bind; [apply still_does; [by apply still_when, still_timer | done]|].
  intros _ s1 _ [Hi1 Hg1] _.
  assert (good_block (signed s1) b) as Hb1 by (by eapply good_block_grow). clear Hb Hg1 Hi.
  eapply does_bind; [by apply does_ancestors|].
  intros [[b0 b1]|] s2 _ [Hi2 Hg2] [Ha Hw2]; [|by apply does_ret].
  destruct Hw2 as [Hs2 _]. rewrite <- Hs2 in Ha, Hb1. clear Hi1 Hg2 Hs2.
  eapply does_bind; [by apply does_store_block|]. intros u s3 Hst [Hi3 _] _.
  assert (signed s3 = signed s2) as Hs3.
  { revert Hst. cbn. by intros [= _ <-]. }
  rewrite <- Hs3 in Ha, Hb1. clear Hst Hs3 Hi2.
  apply does_gets. rewrite (proj2 (ci_paths _ _ _ _ _ Hi3)). simpl.
  do 3 (eapply does_bind; [by apply (does_ret tt s3 (fun _ s' => s' = s3))|]; intros _ ? _ _ ->).
  eapply does_bind; [apply (does_lift _ s3 (fun _ s' => s' = s3 /\
    (Block.height b0 +64 1 =? Block.height b1) && (Block.height b1 +64 1 =? Block.height b)
      || QC.eqb (Block.qc b) QC.genesis = true))|].
  { done. }
  { unfold ensure. by destruct (_ || _). }
  intros _ s4 _ _ [-> Hcons]. apply does_gets.
  eapply does_bind.
  { apply (does_weaken _ _ done_ done_); [|done]. unfold when.
    destruct (Z.ltb_spec (last_committed_height s3) (Block.height b0)) as [Hlt|_];
      [|by apply does_ret].
    destruct (ancestors_two_chain _ b b0 b1 (last_committed_height s3) Hb1 Ha) as [Htc Hg0];
      [split; [apply (ci_last _ _ _ _ _ Hi3) | done] | done |].
    eapply does_weaken; [by apply does_commit | done]. }
  intros _ s4 _ [Hi4 Hg4] _.
  assert (good_block (signed s4) b) as Hb4 by (by eapply good_block_grow).
  clear Ha Hb1 Hg4 Hi3 Hcons.
  apply does_gets. destruct (negb _); [by apply does_ret|].
  eapply does_bind; [by apply does_make_opt_vote|]. intros [v|] s5 _ [Hi5 _] Hv;
    [|by apply does_ret]. destruct Hv as [Hin Hauth].
  apply does_gets.
  eapply does_bind; [by apply (does_lift _ s5 (fun _ s' => s' = s5))|]. intros leaders s6 _ _ ->.
  eapply does_bind; [apply still_does; [apply still_send_vote | done]|].
  intros _ s6 _ [Hi6 Hg6] _.
  eapply does_bind; [by apply (does_lift _ s6 (fun _ s' => s' = s6))|]. intros next s7 _ _ ->.
  destruct (bool_decide (is_Some next)); simpl; [|by apply does_ret].
  apply rec_ok; [done|]. intros _. rewrite Hauth. right. split; [done|].
  destruct Hg6 as [l ->]. apply elem_of_app. by left.
Qed.
End Handlers.

(** ** Runs *)

Lemma does_exec fuel cl s :
  inv s -> call_ok (signed s) cl -> does (exec fuel cl) s done_.
Proof.
  revert cl s. induction fuel as [|fuel IH]; intros cl s Hi Hc; [by apply does_lift|].
  change (exec (S fuel) cl) with (run_call (exec fuel) cl). destruct cl; try done; simpl.
  - by apply does_process_opt_block.
  - by apply does_handle_opt_vote.
Qed.

(** What a node of this deployment receives: blocks and votes without forged
    signatures; from its own synchronizers, blocks it has handed to them; nothing of
    the agreement. *)
Definition input_safe (i : Input) (s : Core) : Prop :=
  match i with
  | OnCoreChannel (HsPropose b) | OnCoreChannel (SyncReply b) => block_ok b
  | OnCoreChannel (HSVote v) =>
      HVote.verify v c = Ok tt -> genuine (HVote.author v) v
  | OnCoreChannel (HsLoopBack b) => b ∈ synchronizer s ++ verifying (mempool_driver s)
  | OnSmvbaChannel _ => False
  | _ => True
  end.

Lemma does_dispatch fuel i s :
  inv s -> input_safe i s -> does (dispatch fuel i) s done_.
Proof.
  intros Hi Hs. pose proof (fun cl s => does_exec fuel cl s) as Hrec.
  destruct i as [m|m|]; [|done|by apply does_opt_propose].
  destruct m; simpl in *; try (by apply does_ret).
  - by apply does_handle_opt_proposal.
  - apply does_handle_opt_vote; [done..|]. intros Hv. left. by apply Hs.
  - apply does_process_opt_block; [done..|].
    pose proof (ci_waiting _ _ _ _ _ Hi) as Hw. rewrite Forall_forall in Hw. by apply Hw.
  - eapply does_weaken; [apply still_does; [apply still_sync_request | done] | done].
  - by apply does_handle_opt_proposal.
Qed.

Lemma does_run_boot fuel s : inv s -> does (run_boot fuel) s done_.
Proof.
  intros Hi. unfold run_boot. do 2 apply does_gets.
  destruct (ci_paths _ _ _ _ _ Hi) as [-> ->].
  eapply does_bind.
  { do 3 apply does_gets.
    eapply does_bind; [by apply (does_lift _ s (fun _ s' => s' = s))|]. intros idx s1 _ _ ->.
    destruct idx as [i|]; [|by apply (does_ret tt s done_)]. destruct (i =? 0).
    - apply (does_ignore _ _ done_). apply does_opt_propose; [|done]. intros. by apply does_exec.
    - apply does_gets. eapply does_weaken; [apply still_does; [apply still_timer | done] | done]. }
  intros _ s1 _ [Hi1 _] _. apply does_gets. simpl. by apply does_ret.
Qed.

Lemma does_drain l s : inv s -> does (drain l) s done_.
Proof.
  revert s. induction l as [|[e m] l IH]; intros s Hi; simpl; [by apply does_ret|].
  eapply does_bind; [apply still_does; [by intros ? | done]|]. intros _ s1 _ [Hi1 _] _.
  apply does_gets. destruct (e =? epoch s1); [|by apply IH].
  destruct m; try (by apply does_ret);
    (eapply does_bind; [apply still_does; [by intros ? | done]|]; intros _ s2 _ [Hi2 _] _; by apply IH).
Qed.

Lemma ext_epoch_init e s : inv s -> ext s (epoch_init e s).
Proof.
  intros [Hn [Hc1 Hc2] Hp Hl Hh Hm Hg Hs Hw Hcm]. split; [|done]. constructor; simpl; try done.
  by left.
Qed.

Lemma does_next_epoch fuel s : inv s -> does (next_epoch fuel) s done_.
Proof.
  intros Hi. unfold next_epoch. apply does_gets.
  eapply does_bind; [by apply does_modify, ext_epoch_init|]. intros _ s1 _ [Hi1 _] _.
  apply does_gets. eapply does_bind; [by apply does_drain|]. intros _ s2 _ [Hi2 _] _.
  by apply does_run_boot.
Qed.

(** Other tasks write their own values to the store, none of which is a block. *)
Definition event_safe (ev : Event) (s : Core) : Prop :=
  match ev with
  | Deliver i => input_safe i s
  | Tick _ => True
  | ForeignWrite _ v => deserialize_block v = None
  end.

Lemma ext_node_event fuel ev s : inv s -> event_safe ev s -> ext s (node_event fuel ev s).2.
Proof.
  intros Hi He. destruct ev as [i|d|k v]; simpl.
  - destruct (does_dispatch fuel i s Hi He) as [Hd _].
    destruct (dispatch fuel i s) as [r s1]. simpl in Hd.
    destruct (after r); simpl; try exact Hd. destruct Hd as [Hi1 Hg1].
    destruct (does_next_epoch fuel s1 Hi1) as [Hd _]. destruct (next_epoch fuel s1) as [r2 s2].
    simpl in *. eapply ext_trans; [by split | done].
  - by apply view_inv.
  - destruct Hi as [Hn Hc Hp Hl Hh Hm Hg Hs Hw Hcm]. split; [|done]. constructor; simpl; try done.
    intros k' bytes b Hk Hb. destruct (decide (k' = k)) as [->|Hne].
    + rewrite lookup_insert_eq in Hk. injection Hk as <-. simpl in He. congruence.
    + rewrite lookup_insert_ne in Hk by done. by apply (Hs k' bytes).
Qed.

(** The runs of a node in this deployment. *)
Inductive hs_reach (core : Core) : Core -> Prop :=
| hs_start fuel : hs_reach core (start fuel core).2
| hs_event fuel ev s : hs_reach core s -> event_ok ev s -> event_safe ev s ->
    ty_event ev ->
    hs_reach core (node_event fuel ev s).2.

Lemma hs_reach_proper core s : hs_reach core s -> proper_run core s.
Proof. induction 1; [apply proper_start | by apply proper_event]. Qed.

(** A new node with the two flags of the deployment and a store without blocks. *)
Definition fresh_node (core : Core) : Prop :=
  exists ps svc pks st el now,
    core = Core_new n c ps svc pks st el true false now /\
    forall k v, kv st !! k = Some v -> deserialize_block v = None.

Lemma fresh_inv core : fresh_node core -> inv core.
Proof.
  intros (ps & svc & pks & st & el & now & -> & Hst). constructor; simpl; try done.
  - by left.
  - intros k bytes b Hk Hb. specialize (Hst k bytes Hk). congruence.
Qed.

Lemma hs_reach_inv core s : fresh_node core -> hs_reach core s -> inv s.
Proof.
  intros Hf Hr. apply fresh_inv in Hf.
  induction Hr as [fuel|fuel ev s _ IH _ Hs _].
  - unfold start. destruct (does_run_boot fuel core Hf) as [[Hd _] _].
    by destruct (run_boot fuel core).
  - by apply ext_node_event.
Qed.
End Steps.
