(* ===== verification/ChainAgreement.v ===== *)
(** * Agreement of what the nodes commit

    The system: a committee of total stake [3 f + 1] of which at most [f] stake does
    not follow the protocol; every other member is a node of the optimistic
    deployment ([ChainInv.hs_reach]).  No signature of an honest member is forged in
    the messages delivered, and no two different blocks that were sent or signed
    share a digest. *)

From S2P Require Import Prelude Machine Crypto Config Messages Leader Aggregator Timer Store.
From S2P Require Import Sync Core Handlers Fixture MessageFacts Spec Refine Cluster Safety.
From S2P Require Import Types TypeFacts TypeSteps Agreement AggregatorFacts Chain ChainInv.

Section System.
Context `{CryptoLib} `{NodeEnv} `{!BincodeLaws} `{!HashLaws} `{!DalekSign} `{!MempoolTypes}.
Context (c : Committee) (f : Z) (honest : gmap PublicKey Core) (known : Block.t -> Prop).

(** What an honest member's verified signature on a vote tells: the member has signed
    these bytes.  ([wf_vote] only bounds the fields, as every received vote does.) *)
Definition no_forgery (k : PublicKey) (v : HVote.t) : Prop :=
  forall s, honest !! k = Some s ->
    wf_vote v /\ exists m, m ∈ signed s /\ signable_preimage m = HVote.preimage v.

(** The blocks that were sent to an honest node or made by one. *)
Definition played (b : Block.t) : Prop :=
  known b \/ exists k s, honest !! k = Some s /\ SignedBlock b ∈ signed s.

Definition honest_node (k : PublicKey) (s : Core) : Prop :=
  exists core, fresh_node c k core /\ ty_core core /\ hs_reach c no_forgery known core s.

Record system : Prop := {
  sys_committee : wf_committee c /\ sum_of_stakes c = 3 * f + 1;
  sys_byzantine : weight c (members c ∖ dom honest) <= f;
  sys_honest : map_Forall honest_node honest;
  sys_known : forall b, known b -> ty_block b;
  sys_digests : forall b b', played b -> played b' ->
    Block.digest b = Block.digest b' -> Block.preimage b = Block.preimage b';
}.

Hypothesis Hsys : system.

Lemma honest_inv k s :
  honest !! k = Some s -> chain_inv c k no_forgery known s.
Proof.
  intros Hk. destruct (sys_honest Hsys k s Hk) as (core & Hf & _ & Hr).
  eapply hs_reach_inv; [apply (sys_committee Hsys) | exact Hf | exact Hr].
Qed.

Lemma honest_votes k s : honest !! k = Some s -> vote_inv (abstract s).
Proof.
  intros Hk. destruct (sys_honest Hsys k s Hk) as (core & Hf & _ & Hr).
  apply hs_reach_proper, proper_run_reachable in Hr. destruct Hf as (ps & svc & pks & st & el & now & -> & _).
  by apply reachable_vote_inv in Hr.
Qed.

Lemma honest_typed_log k s : honest !! k = Some s -> Forall ty_signable (signed s).
Proof.
  intros Hk. destruct (sys_honest Hsys k s Hk) as (core & _ & Hc & Hr).
  apply hs_reach_proper, proper_run_typed, typed_run_core in Hr; [|done]. apply (tc_signed s Hr).
Qed.

Lemma played_typed b : played b -> ty_block b.
Proof.
  intros [Hb|(k & s & Hk & Hb)]; [by apply (sys_known Hsys)|].
  pose proof (honest_typed_log k s Hk) as Hl. rewrite Forall_forall in Hl. exact (Hl _ Hb).
Qed.

Lemma in_play_played k s b : honest !! k = Some s -> in_play known (signed s) b -> played b.
Proof. intros Hk [Hb|Hb]; [by left | right; eauto]. Qed.

(** A block's digest determines its height and epoch. *)
Lemma digest_fields b b' :
  played b -> played b' -> Block.digest b = Block.digest b' ->
  Block.height b = Block.height b' /\ Block.epoch b = Block.epoch b'.
Proof.
  intros Hb Hb' Hd. pose proof (sys_digests Hsys b b' Hb Hb' Hd) as He.
  destruct (played_typed b Hb), (played_typed b' Hb').
  unfold Block.preimage in He. split_bytes. eauto with digest.
Qed.

(** And its parent. *)
Lemma digest_parent b b' :
  played b -> played b' -> Block.digest b = Block.digest b' -> Block.parent b = Block.parent b'.
Proof.
  intros Hb Hb' Hd. pose proof (sys_digests Hsys b b' Hb Hb' Hd) as He.
  destruct (played_typed b Hb) as [[Hq _ _ _ _ _ _ _]], (played_typed b' Hb') as [[Hq' _ _ _ _ _ _ _]].
  unfold Block.preimage in He. split_bytes. apply app_inj_2 in He as [_ He].
  - split_bytes. unfold Block.parent. eauto with digest.
  - unfold wf_digest in *. autorewrite with digest. lia.
Qed.

(** ** Certified blocks *)

Definition certified (h : Z) (d : Digest) : Prop :=
  exists k s, honest !! k = Some s /\ backed c k no_forgery (signed s) h d.

(** The honest vote behind an entry of a certificate. *)
Lemma genuine_vote k s v :
  honest !! k = Some s -> no_forgery k v ->
  exists w, SignedHVote w ∈ signed s /\ HVote.hash w = HVote.hash v /\
    HVote.height w = HVote.height v.
Proof.
  intros Hk Hg. destruct (Hg s Hk) as (Hwf & m & Hm & He).
  set (q := QC.mk (HVote.hash v) (HVote.height v) (HVote.epoch v) (HVote.round v)
    (HVote.tag v) (HVote.proposer v) (HVote.proposer v) []).
  pose proof (honest_typed_log k s Hk) as Ht. rewrite Forall_forall in Ht.
  destruct (signed_matches q m (ty_signable_typed m (Ht m Hm))) as (w & -> & Hw & Hh & _); [done | exact He|].
  by exists w.
Qed.

Definition voters (h : Z) (d : Digest) (S : gset PublicKey) : Prop :=
  set_Forall (fun k => 0 < stake c k) S /\ quorum_threshold c <= weight c S /\
  forall k s, k ∈ S -> honest !! k = Some s ->
    exists w b, SignedHVote w ∈ signed s /\ HVote.tag w = OPT /\
      HVote.hash w = d /\ HVote.height w = h /\ vote_for c k no_forgery known (signed s) w b.

Lemma certified_voters h d : certified h d -> exists S, voters h d S.
Proof.
  intros (k0 & s0 & Hk0 & l & Hst & Hq & Hl). exists (authors l). split; [done|]. split; [done|].
  intros k s Hk Hs. unfold authors in Hk.
  apply elem_of_list_to_set, list_elem_of_fmap in Hk as (v & -> & Hv).
  rewrite Forall_forall in Hl. destruct (Hl v Hv) as (Hd & Hh & Hsig).
  assert (exists w, SignedHVote w ∈ signed s /\ HVote.hash w = d /\ HVote.height w = h)
    as (w & Hw & Hwd & Hwh).
  { destruct Hsig as [Hg|[Hau Hin]].
    - destruct (genuine_vote _ s v Hs Hg) as (w & ? & ? & ?). exists w. split; [done|]. by subst.
    - rewrite Hau in Hs. assert (s = s0) as -> by congruence. by exists v. }
  pose proof (ci_log _ _ _ _ _ (honest_inv _ _ Hs)) as Hlog. rewrite Forall_forall in Hlog.
  destruct (Hlog _ Hw) as (Ht & _ & b & Hb). by exists w, b.
Qed.

(** Two quorums share an honest member. *)
Lemma shared_voter h1 d1 S1 h2 d2 S2 :
  voters h1 d1 S1 -> voters h2 d2 S2 ->
  exists k s, k ∈ S1 /\ k ∈ S2 /\ honest !! k = Some s.
Proof.
  intros (Hst & Hq1 & _) (_ & Hq2 & _). destruct (sys_committee Hsys) as [Hwf Htot].
  destruct (honest_in_overlap c f Hwf Htot S1 S2 (dom honest) Hst (sys_byzantine Hsys) Hq1 Hq2)
    as (k & Hk1 & Hk2 & Hk). apply elem_of_dom in Hk as [s Hk]. eauto.
Qed.

(** A certified digest is that of a block an honest member voted for. *)
Lemma certified_vote h d :
  certified h d ->
  exists k s w b, honest !! k = Some s /\ vote_for c k no_forgery known (signed s) w b /\
    played b /\ Block.digest b = d /\ Block.height b = h.
Proof.
  intros Hc. destruct (certified_voters h d Hc) as [S HS].
  destruct (shared_voter h d S h d S HS HS) as (k & s & Hk & _ & Hs).
  destruct HS as (_ & _ & HS). destruct (HS k s Hk Hs) as (w & b & _ & _ & <- & <- & Hb).
  exists k, s, w, b. split; [done|]. split; [done|].
  destruct Hb as ((Hp & _) & _ & Hd & Hh & _). split; [by eapply in_play_played | done].
Qed.

(** It extends a certified block of the height below, or starts the chain. *)
Lemma certified_parent h d :
  certified h d ->
  exists b, played b /\ Block.digest b = d /\ Block.height b = h /\
    (0 < h -> (h = 1 /\ QC.eqb (Block.qc b) QC.genesis = true) \/
              certified (h - 1) (Block.parent b)).
Proof.
  intros Hc. destruct (certified_vote h d Hc) as (k & s & w & b & Hs & Hv & Hpl & Hd & Hh).
  exists b. do 3 (split; [done|]). intros Hlt.
  destruct Hv as ((_ & Hq) & Hqh & _). pose proof (tb_height b (played_typed b Hpl)) as Hbh.
  unfold in_u64 in Hbh. destruct Hq as [Hq|Hq].
  - left. split; [|done]. unfold QC.eqb in Hq. rewrite !andb_true_iff, !Z.eqb_eq in Hq.
    destruct Hq as (((_ & Hq) & _) & _). rewrite Hq in Hqh. simpl in Hqh.
    rewrite wrap64_small in Hqh; lia.
  - right. assert (certified (QC.height (Block.qc b)) (Block.parent b)) as Hcp by (by exists k, s).
    destruct (certified_vote _ _ Hcp) as (_ & _ & _ & p & _ & _ & Hpp & _ & Hph).
    pose proof (tb_height p (played_typed p Hpp)) as Hpu. rewrite Hph in Hpu. unfold in_u64 in Hpu.
    replace (h - 1) with (QC.height (Block.qc b)); [done|].
    destruct (decide (QC.height (Block.qc b) = 2 ^ 64 - 1)) as [Hmax|Hmax].
    + rewrite Hmax in Hqh. change (wrap64 (2 ^ 64 - 1 + 1)) with 0 in Hqh. lia.
    + rewrite wrap64_small in Hqh; lia.
Qed.

(** A digest is certified for the height of the blocks that have it. *)
Lemma certified_height h d b :
  certified h d -> played b -> Block.digest b = d -> Block.height b = h.
Proof.
  intros Hc Hb Hd. destruct (certified_vote h d Hc) as (_ & _ & _ & p & _ & _ & Hp & Hpd & <-).
  by destruct (digest_fields b p) as [He _]; [done..|congruence|].
Qed.

(** One certified block per epoch and height. *)
Lemma certified_unique h d1 d2 b1 b2 :
  certified h d1 -> certified h d2 ->
  played b1 -> played b2 -> Block.digest b1 = d1 -> Block.digest b2 = d2 ->
  Block.epoch b1 = Block.epoch b2 -> d1 = d2.
Proof.
  intros Hc1 Hc2 Hp1 Hp2 Hd1 Hd2 He.
  destruct (certified_voters h d1 Hc1) as [S1 HS1].
  destruct (certified_voters h d2 Hc2) as [S2 HS2].
  destruct (shared_voter _ _ _ _ _ _ HS1 HS2) as (k & s & Hk1 & Hk2 & Hs).
  destruct HS1 as (_ & _ & HS1). destruct HS2 as (_ & _ & HS2).
  destruct (HS1 k s Hk1 Hs) as (w1 & x1 & Hw1 & Ht1 & Hwd1 & Hwh1 & Hv1).
  destruct (HS2 k s Hk2 Hs) as (w2 & x2 & Hw2 & Ht2 & Hwd2 & Hwh2 & Hv2).
  destruct Hv1 as ((Hx1 & _) & _ & Hxd1 & _ & Hxe1).
  destruct Hv2 as ((Hx2 & _) & _ & Hxd2 & _ & Hxe2).
  apply (in_play_played k s) in Hx1, Hx2; [|done..].
  destruct (digest_fields b1 x1) as [_ He1]; [done..|congruence|].
  destruct (digest_fields b2 x2) as [_ He2]; [done..|congruence|].
  destruct (honest_votes k s Hs) as [_ _ Honce].
  assert (w1 = w2) as <-; [|congruence].
  apply Honce; [by apply opt_votes_elem..|congruence|congruence].
Qed.

(** A committed block is certified at its height. *)
Lemma committed_certified k s b :
  honest !! k = Some s -> b ∈ commit_channel s ->
  played b /\ 0 < Block.height b /\ certified (Block.height b) (Block.digest b).
Proof.
  intros Hs Hb. pose proof (ci_commits _ _ _ _ _ (honest_inv k s Hs)) as Hcm.
  rewrite Forall_forall in Hcm. destruct (Hcm b Hb) as (Hp & Hpos & b1 & q & _ & _ & Hbk & _).
  pose proof (in_play_played k s b Hs Hp) as Hpl. split; [done|]. split; [done|].
  assert (certified (QC.height (Block.qc b1)) (Block.digest b)) as Hc by (by exists k, s).
  by rewrite (certified_height _ _ b Hc Hpl eq_refl).
Qed.

(** The ancestor [n] steps up from a digest, along the blocks of the system. *)
Inductive ancestor : nat -> Digest -> Digest -> Prop :=
| ancestor_self d : ancestor 0 d d
| ancestor_parent n b d : played b -> ancestor n (Block.parent b) d ->
    ancestor (S n) (Block.digest b) d.

Lemma certified_ancestor e n h d d' b' :
  (forall b, played b -> Block.epoch b = e) ->
  0 < h -> certified h d -> played b' -> Block.digest b' = d' ->
  certified (h + Z.of_nat n) d' -> ancestor n d' d.
Proof.
  intros He Hh Hc. revert d' b'. induction n as [|n IH]; intros d' b' Hp Hd Hc'.
  - rewrite Z.add_0_r in Hc'. destruct (certified_vote h d Hc) as (_ & _ & _ & x & _ & _ & Hx & Hxd & _).
    rewrite (certified_unique h d' d b' x); [constructor | done..|].
    rewrite (He b' Hp), (He x Hx). done.
  - destruct (certified_parent _ _ Hc') as (x & Hx & Hxd & Hxh & Hpar).
    destruct (Hpar ltac:(lia)) as [[? _]|Hpar']; [lia|]. clear Hpar. rename Hpar' into Hpar.
    replace (h + Z.of_nat (S n) - 1) with (h + Z.of_nat n) in Hpar by lia.
    destruct (certified_vote _ _ Hpar) as (_ & _ & _ & p & _ & _ & Hpp & Hpd & _).
    rewrite <- Hxd. constructor; [done|]. by apply (IH _ p).
Qed.
End System.

(** ** The properties *)

Section Properties.
Context `{CryptoLib} `{NodeEnv} `{!BincodeLaws} `{!HashLaws} `{!DalekSign} `{!MempoolTypes}.

(** C1: Agreement of the optimistic deployment.  In a well-formed committee of total
    stake [3 f + 1] with at most [f] stake that does not follow the protocol, two
    blocks of the same epoch and height that honest nodes commit have the same digest.
    The conditions of [system] on what an honest node receives ([hs_reach]): nothing
    comes over the agreement's channel, which the deployment leaves open; a looped-back
    block is one that the node gave to its own synchronizer or mempool, and of its
    current epoch, which is below [2^64 - 1]; other tasks write no value to the store
    that decodes as a block; verified votes of honest members are on bytes that they
    signed; all values are of their Rust types.  And no two blocks sent or signed
    share a digest.  The code enforces none of the first two:
    [Injections.loop_backs_break_safety] shows agreement fail without them. *)
Theorem committed_blocks_agree (c : Committee) (f : Z) (honest : gmap PublicKey Core)
    (known : Block.t -> Prop) (k1 k2 : PublicKey) (s1 s2 : Core) (b1 b2 : Block.t) :
  system c f honest known ->
  honest !! k1 = Some s1 -> honest !! k2 = Some s2 ->
  b1 ∈ commit_channel s1 -> b2 ∈ commit_channel s2 ->
  Block.epoch b1 = Block.epoch b2 -> Block.height b1 = Block.height b2 ->
  Block.digest b1 = Block.digest b2.
Proof.
  intros Hsys Hs1 Hs2 Hb1 Hb2 He Hh.
  destruct (committed_certified c f honest known Hsys k1 s1 b1 Hs1 Hb1) as (Hp1 & _ & Hc1).
  destruct (committed_certified c f honest known Hsys k2 s2 b2 Hs2 Hb2) as (Hp2 & _ & Hc2).
  rewrite <- Hh in Hc2. by apply (certified_unique c f honest known Hsys _ _ _ b1 b2 Hc1 Hc2).
Qed.

(** C2: One chain.  When moreover all blocks are of one epoch, the blocks that
    honest nodes commit lie on one chain: of two committed blocks, the lower one is
    the ancestor of the higher one at the distance of their heights.  Under the same
    conditions of [system] as [committed_blocks_agree]: a silent agreement channel,
    loop-backs of the node's own blocks of its current epoch only, no foreign blocks
    written to the store, no forged signatures, no digest collisions. *)
Theorem committed_blocks_chain (c : Committee) (f e : Z) (honest : gmap PublicKey Core)
    (known : Block.t -> Prop) (k1 k2 : PublicKey) (s1 s2 : Core) (b1 b2 : Block.t) :
  system c f honest known ->
  (forall b, played honest known b -> Block.epoch b = e) ->
  honest !! k1 = Some s1 -> honest !! k2 = Some s2 ->
  b1 ∈ commit_channel s1 -> b2 ∈ commit_channel s2 ->
  Block.height b1 <= Block.height b2 ->
  ancestor honest known (Z.to_nat (Block.height b2 - Block.height b1))
    (Block.digest b2) (Block.digest b1).
Proof.
  intros Hsys He Hs1 Hs2 Hb1 Hb2 Hh.
  destruct (committed_certified c f honest known Hsys k1 s1 b1 Hs1 Hb1) as (_ & Hpos & Hc1).
  destruct (committed_certified c f honest known Hsys k2 s2 b2 Hs2 Hb2) as (Hp2 & _ & Hc2).
  eapply (certified_ancestor c f honest known Hsys e _ (Block.height b1)); try done.
  by rewrite Z2Nat.id, Zplus_minus by lia.
Qed.
End Properties.
