(* ===== verification/PlainFacts.v ===== *)
(** * Code that ends

    The methods of the optimistic path that do not recurse never run out of fuel
    ([fueled]), and those that moreover leave the height and the makers of
    certificates alone ([plain]). *)

From S2P Require Import Prelude Machine Crypto Config Messages Leader Aggregator Timer Store.
From S2P Require Import Sync Core Handlers.

(** ** Code without recursion never runs out of fuel *)

Notation fueled m := (m <> NoFuel).

Lemma fueled_bind {E A B} (m : outcome E A) (f : A -> outcome E B) :
  fueled m -> (forall a, m = Ok a -> fueled (f a)) -> fueled (m ≫= f).
Proof. intros Hm Hf. destruct m; simpl; [by apply Hf | done..]. Qed.

Lemma fueled_ensure {E} b (e : E) : fueled (ensure b e).
Proof. by destruct b. Qed.

Lemma fueled_expect {E A} w (o : option A) : fueled (@expect E A w o).
Proof. by destruct o. Qed.

Lemma fueled_crypto {A} (m : outcome CryptoError A) : fueled m -> fueled (from_crypto m).
Proof. by destruct m. Qed.

Create HintDb fueled.
#[export] Hint Resolve fueled_ensure fueled_expect fueled_crypto : fueled.

Ltac fueled :=
  repeat match goal with
  | |- Ok _ <> NoFuel => done
  | |- Err _ <> NoFuel => done
  | |- Panic _ <> NoFuel => done
  | |- (_ ≫= _) <> NoFuel => apply fueled_bind; [|intros ? _]
  | |- context [let '(_, _) := ?x in _] => destruct x
  | |- (if ?b then _ else _) <> NoFuel => destruct b
  | |- (match ?x with _ => _ end) <> NoFuel => destruct x
  end; eauto with fueled.

Section Fueled.
Context `{CryptoLib}.

Lemma fueled_parse s : fueled (parse_signature s).
Proof. unfold parse_signature. fueled. Qed.
Lemma fueled_parse_key k : fueled (parse_public_key k).
Proof. unfold parse_public_key. fueled. Qed.
#[local] Hint Resolve fueled_parse fueled_parse_key : fueled.

Lemma fueled_signature s d k : fueled (Signature_verify s d k).
Proof. unfold Signature_verify. fueled. Qed.

Lemma fueled_batch d votes : fueled (Signature_verify_batch d votes).
Proof.
  assert (fueled (batch_inputs d votes)) as Hb.
  { induction votes as [|[k s] votes IH]; simpl; fueled. }
  unfold Signature_verify_batch. fueled.
Qed.

Lemma fueled_sign svc d : fueled (sign_with svc d).
Proof. apply fueled_crypto. unfold request_signature. fueled. Qed.
#[local] Hint Resolve fueled_signature fueled_batch fueled_sign : fueled.

Lemma fueled_check_votes c votes used w : fueled (QC.check_votes c votes used w).
Proof. revert used w. induction votes as [|[k s] votes IH]; intros used w; simpl; fueled. Qed.
#[local] Hint Resolve fueled_check_votes : fueled.

Lemma fueled_qc_verify q c : fueled (QC.verify q c).
Proof. unfold QC.verify. fueled. Qed.
#[local] Hint Resolve fueled_qc_verify : fueled.

Lemma fueled_block_verify b c : fueled (Block.verify b c).
Proof. unfold Block.verify, check_signature. fueled. Qed.

Lemma fueled_hvote_verify v c : fueled (HVote.verify v c).
Proof. unfold HVote.verify, check_signature. fueled. Qed.

Lemma fueled_block_new q k h e r p svc tag : fueled (Block.new q k h e r p svc tag).
Proof. unfold Block.new. fueled. Qed.

Lemma fueled_hvote_new b k tag svc : fueled (HVote.new b k tag svc).
Proof. unfold HVote.new. fueled. Qed.

Lemma fueled_leader_idx e h : fueled (get_leader_idx e h).
Proof. unfold get_leader_idx. fueled. Qed.
#[local] Hint Resolve fueled_leader_idx : fueled.

Lemma fueled_index e k h : fueled (index_as_leader e k h).
Proof. unfold index_as_leader. fueled. Qed.

Lemma fueled_leaders e h : fueled (get_leaders e h).
Proof.
  assert (forall l, fueled (collect (leader_at e) l)) as Hc.
  { induction l as [|x l IH]; simpl; unfold leader_at; fueled. }
  unfold get_leaders. fueled.
Qed.

Lemma fueled_addresses from to c tag : fueled (transmit_addresses from to c tag).
Proof. unfold transmit_addresses, address, smvba_address. fueled. Qed.

Lemma fueled_decode `{NodeEnv} v : fueled (decode_block v).
Proof. unfold decode_block. fueled. Qed.
End Fueled.

#[export] Hint Resolve fueled_signature fueled_batch fueled_sign fueled_qc_verify
  fueled_block_verify fueled_hvote_verify fueled_block_new fueled_hvote_new fueled_index
  fueled_leaders fueled_addresses fueled_decode : fueled.

(** ** Methods that end and leave the makers alone *)

Section Plain.
Context `{CryptoLib} `{NodeEnv}.
Notation M := (act Core ConsensusError).

Notation makers_of s := (hs_votes_aggregators (aggregator s)).

Definition level (s : Core) := (height s, makers_of s).

Definition steady {A} (m : M A) : Prop := forall s, level (m s).2 = level s.
Definition plain {A} (m : M A) : Prop := steady m /\ forall s, fueled (m s).1.

Lemma steady_bind {A B} (m : M A) (f : A -> M B) :
  steady m -> (forall a, steady (f a)) -> steady (m ≫= f).
Proof.
  intros Hm Hf s. unfold mbind, act_bind. specialize (Hm s).
  destruct (m s) as [[a|x|w|] s1]; simpl in *; [|done..]. by rewrite Hf.
Qed.

Lemma plain_bind {A B} (m : M A) (f : A -> M B) :
  plain m -> (forall a, plain (f a)) -> plain (m ≫= f).
Proof.
  intros [Hm Hm'] Hf. split; [by apply steady_bind; [|intros a; apply Hf]|].
  intros s. unfold mbind, act_bind. specialize (Hm' s).
  destruct (m s) as [[a|x|w|] s1]; simpl in *; [|done..]. by apply Hf.
Qed.

Lemma plain_ret {A} (a : A) : plain (mret a). Proof. done. Qed.
Lemma plain_throw {A} x : plain (throw x : M A). Proof. done. Qed.
Lemma plain_gets {A} (g : Core -> A) : plain (gets g). Proof. done. Qed.
Lemma plain_ensure b x : plain (ensure_act b x). Proof. split; [done|]. by destruct b. Qed.
Lemma plain_lift {A} (m : ConsensusResult A) : fueled m -> plain (lift m). Proof. done. Qed.
Lemma plain_modify f : (forall s, level (f s) = level s) -> plain (modify f).
Proof. by intros Hf; split. Qed.
Lemma plain_when b (m : M unit) : plain m -> plain (when b m). Proof. by destruct b. Qed.

Lemma plain_zoom {T A} (get : Core -> T) put (m : act T ConsensusError A) :
  (forall t s, level (put t s) = level s) -> (forall t, fueled (m t).1) -> plain (zoom get put m).
Proof.
  intros Hput Hm. split; intros s; unfold zoom; specialize (Hm (get s));
    destruct (m (get s)); [apply Hput | exact Hm].
Qed.

Ltac plain_step :=
  match goal with
  | |- plain (_ ≫= _) => apply plain_bind; [|intros ?]
  | |- plain (when _ _) => apply plain_when
  | |- plain (gets _) => apply plain_gets
  | |- plain (mret _) => apply plain_ret
  | |- plain (modify _) => by apply plain_modify
  | |- plain (lift _) => apply plain_lift; fueled
  | |- plain (if ?b then _ else _) => destruct b
  | |- plain (match ?o with _ => _ end) => destruct o
  end.

Lemma plain_transmit_opt m to : plain (transmit_opt m to).
Proof.
  unfold transmit_opt. do 2 (plain_step; [plain_step|]). apply plain_zoom; [done|].
  intros t. unfold transmit. run_act. unfold lift.
  pose proof (fueled_addresses a to a0 OPT). by destruct (transmit_addresses _ _ _ _).
Qed.

Lemma plain_sleep d : plain (sleep_ms d). Proof. by apply plain_modify. Qed.
Lemma plain_timer d : plain (timer_reset d). Proof. by apply plain_modify. Qed.

Lemma plain_signing {A} (rec : A -> Signable) build :
  (forall svc, fueled (build svc)) -> plain (signing rec build).
Proof. intros Hb. by unfold signing; repeat plain_step. Qed.

Lemma plain_generate h r qc tag : plain (generate_proposal h r qc tag).
Proof.
  unfold generate_proposal. plain_step; [plain_step|]. plain_step; [by apply plain_zoom|].
  do 2 (plain_step; [plain_step|]). apply plain_signing. intros svc. fueled.
Qed.

Lemma plain_verify b tag : plain (on_mempool (driver_verify b tag)).
Proof.
  apply plain_zoom; [done|]. intros t. unfold driver_verify. run_act. simpl.
  by destruct (mempool_verify _ _ _).
Qed.

Lemma plain_cleanup b : plain (on_mempool (driver_cleanup_par b)).
Proof. by apply plain_zoom. Qed.

Lemma plain_store_block b : plain (store_block b).
Proof. by apply plain_zoom. Qed.

Lemma fueled_store_read k st : fueled (store_read k st).1.
Proof. unfold store_read. run_act. simpl. by destruct (db_get_fault _). Qed.

Lemma fueled_parent b st : fueled (get_parent_block b st).1.
Proof.
  unfold get_parent_block. destruct (QC.eqb _ _); [done|]. run_act. unfold on_store, zoom.
  pose proof (fueled_store_read (Digest_to_vec (Block.parent b)) st.1) as Hr.
  destruct (store_read _ _) as [[[bytes|]|x|w|] st1]; simpl in *; try done.
  pose proof (fueled_decode bytes). unfold lift. by destruct (decode_block bytes).
Qed.

Lemma fueled_ancestors b st : fueled (get_ancestors b st).1.
Proof.
  unfold get_ancestors. run_act. pose proof (fueled_parent b st) as Hp.
  destruct (get_parent_block b st) as [[[b1|]|x|w|] st1]; simpl in *; try done.
  pose proof (fueled_parent b1 st1) as Hp1.
  destruct (get_parent_block b1 st1) as [[[b0|]|x|w|] st2]; simpl in *; done.
Qed.

Lemma plain_parent b : plain (on_synchronizer (get_parent_block b)).
Proof. apply plain_zoom; [done | apply fueled_parent]. Qed.
Lemma plain_ancestors b : plain (on_synchronizer (get_ancestors b)).
Proof. apply plain_zoom; [done | apply fueled_ancestors]. Qed.

Lemma plain_opt_vote b : plain (make_opt_vote b).
Proof.
  unfold make_opt_vote. plain_step; [plain_step|]. simpl. plain_step; [plain_step|].
  plain_step; [by apply plain_modify|]. plain_step; [plain_step|].
  plain_step; [apply plain_signing; intros svc; fueled | plain_step].
Qed.

Lemma plain_send_vote m l : plain (send_vote m l).
Proof.
  induction l as [|k l IH]; simpl; [plain_step|]. plain_step; [plain_step|].
  plain_step; [plain_step; apply plain_transmit_opt | done].
Qed.

Lemma plain_sync_request d k : plain (handle_sync_request d k).
Proof.
  unfold handle_sync_request. plain_step; [apply plain_zoom; [done | apply fueled_store_read]|].
  destruct a as [v|]; [|plain_step]. plain_step; [plain_step | apply plain_transmit_opt].
Qed.

Lemma steady_commit_loop fuel b : steady (commit_loop fuel b).
Proof.
  revert b. induction fuel as [|fuel IH]; intros b; simpl; [done|].
  apply steady_bind; [done | intros last]. destruct (_ <? _); [|done].
  apply steady_bind; [apply plain_when, plain_cleanup | intros _].
  apply steady_bind; [apply plain_parent|]. by intros [p|].
Qed.

Lemma plain_record_commit b : plain (record_commit b).
Proof. by apply plain_modify. Qed.
End Plain.

#[export] Hint Resolve plain_ret plain_throw plain_gets plain_ensure plain_when
  plain_transmit_opt plain_sleep plain_timer plain_generate plain_verify plain_cleanup
  plain_store_block plain_parent plain_ancestors plain_opt_vote plain_send_vote
  plain_sync_request plain_record_commit : fueled.
