(* ===== verification/ChainEnds.v ===== *)
(** * Every event of the optimistic deployment is handled to the end

    The boxed calls of the core recurse: a node that proposes processes its own
    block, votes for it and handles its own vote, which may complete a certificate
    and make it propose again.  Each turn of this cycle uses up a maker that other
    members' votes have opened, as long as the node's own stake is not a quorum; and
    a commit walks down certified blocks, whose heights decrease.  [runs m s Q] says
    that a method does what [does] says and, for logs that are part of the [final]
    one, does not run out of fuel. *)

From S2P Require Import Prelude Machine Crypto Config Messages Leader Aggregator Timer Store.
From S2P Require Import Sync Core Handlers Fixture MessageFacts PlainFacts Spec Refine AggregatorFacts Chain ChainInv.

Section Runs.
Context `{CryptoLib} `{NodeEnv} `{!BincodeLaws}.
Context (c : Committee) (n : PublicKey).
Context (genuine : PublicKey -> HVote.t -> Prop) (known : Block.t -> Prop).
Hypothesis Hwf : wf_committee c.

Notation M := (act Core ConsensusError).
Notation inv := (chain_inv c n genuine known).
Notation does := (does c n genuine known).
Notation ext := (ext c n genuine known).
Notation good_qc := (good_qc c n genuine).
Notation good_block := (good_block c n genuine known).
Notation two_chain := (two_chain c n genuine known).
Notation call_ok := (call_ok c n genuine known).
Notation makers s := (size (hs_votes_aggregators (aggregator s))).

(** The log at the end, and the certified blocks it is evidence for: a block that is
    certified for a height has this height, and extends a block certified for the
    height below or the start of the chain. *)
Context (final : list Signable) (cert : Z -> Digest -> Prop).
Hypothesis cert_backed : forall h d, backed c n genuine final h d -> cert h d.
Hypothesis cert_height : forall h h' d, cert h d -> cert h' d -> h = h'.
Hypothesis cert_block : forall h b, in_play known final b -> cert h (Block.digest b) ->
  Block.height b = h /\
  (0 < h -> QC.eqb (Block.qc b) QC.genesis = true \/ cert (h - 1) (Block.parent b) \/
            Block.parent b = Digest_default).
Hypothesis no_default : forall b, in_play known final b -> Block.digest b <> Digest_default.
Hypothesis Hown : stake c n < quorum_threshold c.

Definition runs {A} (m : M A) (s : Core) (Q : A -> Core -> Prop) : Prop :=
  does m s Q /\ (signed (m s).2 `prefix_of` final -> fueled (m s).1).

Lemma runs_bind {A B} (m : M A) (f : A -> M B) s Q R :
  runs m s Q ->
  (forall a s', m s = (Ok a, s') -> ext s s' -> Q a s' -> runs (f a) s' R) ->
  runs (m ≫= f) s R.
Proof.
  intros [Hm He] Hf. split.
  { eapply does_bind; [exact Hm|]. intros a s' Hr Hx Hq. by apply (Hf a s'). }
  unfold mbind, act_bind. destruct Hm as [Hx HQ].
  destruct (m s) as [[a|x|w|] s'] eqn:Hr; simpl in *; [|done|done|intros Hp; by destruct (He Hp)].
  destruct (Hf a s' eq_refl Hx (HQ a s' eq_refl)) as [_ Hend]. exact Hend.
Qed.

Lemma runs_plain {A} (m : M A) s Q : plain m -> does m s Q -> runs m s Q.
Proof. intros [_ Hm] Hd. split; [done|]. intros _. apply Hm. Qed.

(** A step that ends leaves the height and the makers to the rest. *)
Lemma runs_step {A B} (m : M A) (f : A -> M B) s Q R :
  plain m -> does m s Q ->
  (forall a s', m s = (Ok a, s') -> ext s s' -> Q a s' -> level s' = level s -> runs (f a) s' R) ->
  runs (m ≫= f) s R.
Proof.
  intros Hp Hd Hf. eapply runs_bind; [by apply runs_plain|]. intros a s' Hr Hx Hq.
  apply Hf; [done..|]. pose proof (proj1 Hp s) as Hl. by rewrite Hr in Hl.
Qed.

Lemma runs_gets {A B} (g : Core -> A) (f : A -> M B) s R :
  runs (f (g s)) s R -> runs (gets g ≫= f) s R.
Proof. done. Qed.

Lemma runs_ret {A} (a : A) s (Q : A -> Core -> Prop) : inv s -> Q a s -> runs (mret a) s Q.
Proof. intros Hi Hq. apply runs_plain; [done|]. by apply does_ret. Qed.

Lemma runs_weaken {A} (m : M A) s (Q R : A -> Core -> Prop) :
  runs m s Q -> (forall a s', Q a s' -> R a s') -> runs m s R.
Proof. intros [Hm He] HR. split; [by eapply does_weaken | done]. Qed.

(** ** The walk of a commit *)

(** The keys of the store that the walk has passed belong to higher blocks. *)
Definition passed (s : Core) (h : Z) (V : gset Key) : Prop :=
  V ⊆ dom (kv (store s)) /\
  forall k, k ∈ V -> exists h', h <= h' /\ cert h' (mkDigest k).

Lemma parent_in_store b s p s' :
  on_synchronizer (get_parent_block b) s = (Ok (Some p), s') ->
  kv (store s') = kv (store s) /\
  (QC.eqb (Block.qc b) QC.genesis = false -> Digest_to_vec (Block.parent b) ∈ dom (kv (store s))).
Proof.
  unfold on_synchronizer, zoom. pose proof (get_parent_kv b (store s, synchronizer s)) as Hkv.
  destruct (get_parent_block b (store s, synchronizer s)) as [r [st ch]] eqn:Hr.
  intros [= -> <-]. simpl in *. split; [done|]. intros Hq. revert Hr.
  unfold get_parent_block. rewrite Hq. run_act. unfold on_store, zoom, store_read. run_act. simpl.
  destruct (db_get_fault _); simpl; [done|].
  destruct (kv (store s) !! _) as [bytes|] eqn:Hk; simpl; [|done].
  intros _. by apply elem_of_dom.
Qed.

Lemma walk_step b p log :
  log `prefix_of` final -> good_block log b -> 0 < Block.height b ->
  cert (Block.height b) (Block.digest b) ->
  parent_of c n genuine known log b p -> QC.eqb (Block.qc b) QC.genesis = false ->
  good_block log p /\ Block.height p = Block.height b - 1 /\
  cert (Block.height p) (Block.digest p) /\ Block.digest p = Block.parent b.
Proof.
  intros Hlog [Hb _] Hpos Hc [[Hq _]|(_ & Hd & Hp)] Hgen; [congruence|].
  apply (in_play_grow known _ final) in Hb; [|done].
  pose proof (in_play_grow known _ final Hlog p (proj1 Hp)) as Hpp.
  destruct (cert_block _ b Hb Hc) as [_ [?|[Hpar|Hdef]]]; [done | congruence | |].
  - unfold Block.parent in Hpar. rewrite <- Hd in Hpar. destruct (cert_block _ p Hpp Hpar) as [Hh _]. rewrite Hh. done.
  - destruct (no_default p Hpp). unfold Block.parent in Hdef. congruence.
Qed.

Lemma passed_step b p s s' V :
  kv (store s') = kv (store s) ->
  passed s (Block.height b) V -> Block.height p = Block.height b - 1 ->
  cert (Block.height p) (Block.digest p) -> Digest_to_vec (Block.digest p) ∈ dom (kv (store s)) ->
  passed s' (Block.height p) ({[Digest_to_vec (Block.digest p)]} ∪ V) /\
  size ({[Digest_to_vec (Block.digest p)]} ∪ V) = S (size V).
Proof.
  intros Hkv [Hsub HV] Hh Hc Hin. assert (mkDigest (Digest_to_vec (Block.digest p)) = Block.digest p)
    as Hvec by by destruct (Block.digest p).
  split; [split|].
  - rewrite Hkv. set_solver.
  - intros k [->%elem_of_singleton|Hk]%elem_of_union.
    + exists (Block.height p). by rewrite Hvec.
    + destruct (HV k Hk) as (h' & Hle & Hc'). exists h'. split; [lia | done].
  - rewrite size_union, size_singleton; [done|]. intros k ->%elem_of_singleton Hk.
    destruct (HV _ Hk) as (h' & Hle & Hc'). rewrite Hvec in Hc'.
    pose proof (cert_height _ _ _ Hc Hc'). lia.
Qed.

Lemma commit_loop_ends fuel b s V :
  inv s -> signed s `prefix_of` final ->
  good_block (signed s) b /\ cert (Block.height b) (Block.digest b) /\
    passed s (Block.height b) V \/ Block.height b <= 0 ->
  (0 < fuel)%nat -> (size (kv (store s)) + 2 <= fuel + size V)%nat \/ Block.height b <= 0 ->
  fueled (commit_loop fuel b s).1.
Proof.
  revert b s V. induction fuel as [|fuel IH]; intros b s V Hi Hlog Hb Hpos Hfuel; [lia|].
  cbn [commit_loop]. run_act. destruct (Z.ltb_spec (last_committed_height s) (Block.height b)) as [Hlt|_];
    [|done]. pose proof (ci_last _ _ _ _ _ Hi) as Hlast.
  destruct Hb as [(Hgb & Hc & Hpass)|Hb]; [|lia]. destruct Hfuel as [Hfuel|Hb]; [|lia].
  destruct (does_cleanup c n genuine known b (negb (bool_decide (Block.payload b = []))) s Hi)
    as [[Hi1 _] HQ1].
  destruct (when _ (on_mempool (driver_cleanup_par b)) s) as [r1 s1] eqn:Hr1.
  assert (r1 = Ok tt /\ store s1 = store s) as [-> Hst1].
  { revert Hr1. by destruct (negb _); intros [= <- <-]. }
  destruct (HQ1 _ _ eq_refl) as (Hsg1 & _). simpl in Hi1.
  assert (good_block (signed s1) b) as Hgb1 by by rewrite Hsg1.
  destruct (does_parent c n genuine known b s1 Hi1 Hgb1) as [[Hi2 _] HQ2].
  destruct (on_synchronizer (get_parent_block b) s1) as [r2 s2] eqn:Hr2.
  pose proof (proj2 (plain_parent b) s1) as Hf2. rewrite Hr2 in Hf2.
  destruct r2 as [[p|]|x|w|]; simpl in *; try done.
  destruct (HQ2 _ _ eq_refl) as [Hp (Hsg2 & _)]. destruct (parent_in_store b s1 p s2 Hr2) as [Hkv Hin].
  destruct Hpass as [Hsub HV]. pose proof (subseteq_size _ _ Hsub) as Hsize.
  rewrite size_dom in Hsize.
  destruct (QC.eqb (Block.qc b) QC.genesis) eqn:Hgen.
  { destruct Hp as [[_ ->]|(Hp & _)]; [|congruence].
    apply (IH _ _ ∅ Hi2); [by rewrite Hsg2, Hsg1 | by right | lia | by right]. }
  destruct (walk_step b p (signed s1)) as (Hgp & Hh & Hcp & Hd); [by rewrite Hsg1 | done | lia | done..|].
  destruct (passed_step b p s s2 V) as [HV' Hsz];
    [by rewrite Hkv, Hst1 | by split | done | done | rewrite Hd; by rewrite <- Hst1; apply Hin |].
  apply (IH p s2 ({[Digest_to_vec (Block.digest p)]} ∪ V) Hi2);
    [by rewrite Hsg2, Hsg1 | left; by rewrite Hsg2 | lia | left; rewrite Hkv, Hst1; lia].
Qed.

Lemma two_chain_cert log b :
  log `prefix_of` final -> two_chain log b -> cert (Block.height b) (Block.digest b).
Proof.
  intros Hlog (Hb & _ & b1 & q & _ & _ & Hbk & _).
  apply (backed_grow c n genuine _ final) in Hbk; [|done].
  apply (in_play_grow known _ final) in Hb; [|done]. apply cert_backed in Hbk.
  by destruct (cert_block _ b Hb Hbk) as [-> _].
Qed.

Lemma runs_commit b s :
  inv s -> two_chain (signed s) b -> good_block (signed s) b ->
  runs (commit b ;; record_commit b) s (fun _ s' => pes_path s' = false).
Proof.
  intros Hi Htc Hb. split; [by apply does_commit|]. intros Hlog.
  destruct (does_commit c n genuine known b s Hi Htc Hb) as [[_ Hgrow] _].
  assert (signed s `prefix_of` final) as Hp by by etrans.
  assert (fueled (commit_loop (S (S (size (kv (store s))))) b s).1) as He.
  { apply (commit_loop_ends _ _ _ ∅ Hi Hp); [|lia|left; lia]. left.
    split; [done|]. split; [by apply (two_chain_cert (signed s))|]. split; set_solver. }
  revert He. unfold commit. run_act. by destruct (commit_loop _ b s) as [[]].
Qed.

Lemma level_commit b s : level ((commit b ;; record_commit b) s).2 = level s.
Proof.
  apply steady_bind; [|intros; apply plain_record_commit].
  apply steady_bind; [done | intros; apply steady_commit_loop].
Qed.

(** ** Makers and certificates *)

Lemma add_vote_makers v s made s1 :
  inv s -> on_aggregator (add_hs_vote v) s = (Ok made, s1) ->
  height s1 = height s /\ (makers s1 <= S (makers s))%nat /\
  forall q, made = Some q -> QC.height q = HVote.height v /\
    (HVote.author v = n ->
     makers s1 = makers s /\
     is_Some (hs_votes_aggregators (aggregator s1) !! (HVote.height v, HVote.hash v))).
Proof.
  intros Hi. unfold on_aggregator, zoom, add_hs_vote. run_act. unfold zoom.
  rewrite (proj2 (ci_committee _ _ _ _ _ Hi)).
  set (key := (HVote.height v, HVote.hash v)).
  rewrite QCMaker_append_eq. set (m := default QCMaker_new _).
  destruct (decide _) as [Hin|Hout]; [done|]. cbv zeta.
  destruct (Z.leb_spec (quorum_threshold c) (qm_weight m +32 stake c (HVote.author v)));
    intros [= <- <-]; simpl; rewrite lookup_insert_eq;
    (split; [done|]); (split; [by rewrite map_size_insert; destruct (_ !! _); simpl; lia|]);
    [|done]. intros q [= <-]. split; [done|]. intros Hn.
  destruct (hs_votes_aggregators (aggregator s) !! key) as [mk|] eqn:Hk.
  - split; [|by eexists]. by rewrite map_size_insert_Some.
  - exfalso. unfold m in *. simpl in *. rewrite Hn in *.
    pose proof (stake_nonneg c n Hwf). pose proof (wf_total c Hwf).
    rewrite (quorum_threshold_exact c Hwf) in *.
    rewrite Z.add_0_l, wrap32_small in * by dlia. lia.
Qed.

Lemma process_qc_makers q s :
  fueled (process_qc q s).1 /\ (makers (process_qc q s).2 <= makers s)%nat /\
  (QC.height q = height s -> forall d, is_Some (hs_votes_aggregators (aggregator s) !! (height s, d)) ->
   (makers (process_qc q s).2 < makers s)%nat).
Proof.
  assert (forall s0, makers (update_high_qc q s0).2 = makers s0) as Hq.
  { intros s0. unfold update_high_qc, modify. simpl. by destruct (_ <? _). }
  unfold process_qc, advance_height. run_act.
  destruct (Z.ltb_spec (QC.height q) (height s)) as [Hlt|Hle]; rewrite Hq; (split; [done|]).
  - split; [done|]. intros. lia.
  - simpl.
    assert (filter (fun x => height s < x.1.1) (hs_votes_aggregators (aggregator s))
      ⊆ hs_votes_aggregators (aggregator s)) as Hsub by apply map_filter_subseteq.
    split; [by apply map_subseteq_size|].
    intros _ d [mk Hmk]. apply map_subset_size, map_subset_alt. split; [done|].
    exists (height s, d). rewrite Hmk. split; [|done].
    apply map_lookup_filter_None. right. intros x _. simpl. lia.
Qed.

Lemma runs_process_qc q s :
  inv s -> good_qc (signed s) q ->
  runs (process_qc q) s (fun _ s' => (makers s' <= makers s)%nat /\
    (QC.height q = height s -> forall d,
     is_Some (hs_votes_aggregators (aggregator s) !! (height s, d)) -> (makers s' < makers s)%nat)).
Proof.
  intros Hi Hq. destruct (process_qc_makers q s) as (Hf & Hle & Hlt).
  destruct (does_process_qc c n genuine known q s Hi Hq) as [He _]. split; [split; [done|]|done].
  intros a s' Hr. by rewrite Hr in Hle, Hlt.
Qed.

(** ** The handlers *)

(** What is left for the boxed calls when [k] levels of them are allowed. *)
Definition fits (k : nat) (cl : rcall) (s : Core) : Prop :=
  match cl with
  | R_process_opt_block _ => (2 * makers s + 2 <= k)%nat
  | R_handle_opt_vote v =>
      HVote.author v = n /\ HVote.height v = height s /\ (2 * makers s + 1 <= k)%nat
  | _ => False
  end.

Section Handlers.
Context (rec : rcall -> M unit) (k : nat).
Hypothesis rec_runs : forall cl s,
  inv s -> call_ok (signed s) cl -> fits k cl s -> runs (rec cl) s done_.

Lemma runs_opt_propose s : inv s -> (2 * makers s + 2 <= k)%nat -> runs (opt_propose rec) s done_.
Proof.
  intros Hi Hk. unfold opt_propose. do 3 apply runs_gets.
  eapply runs_step; [apply plain_lift; fueled | by apply (does_lift _ _ _ _ _ s done_)|].
  intros idx s1 _ [Hi1 _] _ Hl1.
  eapply runs_step; [apply plain_lift; fueled | by apply (does_lift _ _ _ _ _ s1 done_)|].
  intros i s2 _ [Hi2 _] _ Hl2. apply runs_gets.
  eapply runs_step; [apply plain_generate | by apply does_generate|].
  intros b s3 _ [Hi3 Hg3] [Hq Hin] Hl3.
  assert (good_block (signed s3) b) as Hb.
  { split; [by right|]. rewrite Hq. simpl. eapply good_qc_grow; [exact Hg3|].
    apply (ci_high _ _ _ _ _ Hi2). }
  eapply runs_step; [apply plain_transmit_opt | apply still_does; [apply still_transmit_opt | done]|].
  intros _ s4 _ [Hi4 Hg4] _ Hl4.
  eapply runs_bind.
  { apply rec_runs; [done | by eapply good_block_grow|]. simpl.
    assert (level s4 = level s) as [= _ ->] by congruence. done. }
  intros _ s5 _ [Hi5 _] _. apply runs_gets. apply runs_plain; [fueled|].
  eapply does_weaken; [apply still_does; [by apply still_when, still_sleep | done]|]. done.
Qed.

(** What follows a vote: if it makes a certificate, the node moves on and may
    propose. *)
Lemma runs_handle_opt_vote v s :
  inv s -> vote_ok c n genuine (signed s) v ->
  (HVote.author v = n /\ HVote.height v = height s /\ (2 * makers s <= k)%nat) \/
  (2 * makers s + 4 <= k)%nat ->
  runs (handle_opt_vote rec v) s done_.
Proof.
  intros Hi Hv Hk. unfold handle_opt_vote. do 2 apply runs_gets.
  destruct (_ || _); [by apply runs_ret|]. do 2 apply runs_gets.
  eapply runs_step; [apply plain_lift; fueled | by apply (does_lift _ _ _ _ _ s (fun _ s' => s' = s))|].
  intros idx s1 _ _ -> _.
  eapply runs_step; [apply plain_ensure | by apply (does_lift _ _ _ _ _ s (fun _ s' => s' = s))|].
  intros _ s1 _ _ -> _. apply runs_gets.
  eapply runs_step; [apply plain_lift; fueled | |].
  { apply (does_lift _ _ _ _ _ s (fun _ s' => s' = s /\ HVote.verify v c = Ok tt)); [done|].
    intros []. by rewrite (proj1 (ci_committee _ _ _ _ _ Hi)). }
  intros _ s1 _ _ [-> Hver] _.
  eapply runs_bind.
  { split; [apply does_add_vote; [done | done | | by apply Hv]|].
    - by apply (hvote_verify_inv c v _ Hver eq_refl).
    - intros _. unfold on_aggregator, zoom, add_hs_vote. run_act. unfold zoom.
      rewrite (proj2 (ci_committee _ _ _ _ _ Hi)), QCMaker_append_eq.
      destruct (decide _); [done|]. cbv zeta. by destruct (_ <=? _). }
  intros [q|] s1 Hadd [Hi1 _] Hq; [|by apply runs_ret].
  destruct (add_vote_makers v s _ s1 Hi Hadd) as (Hh1 & Hm1 & Hq1).
  destruct (Hq1 q eq_refl) as [Hqh Hown1].
  eapply runs_bind; [by apply runs_process_qc|]. intros _ s2 _ [Hi2 _] [Hle Hlt].
  assert (2 * makers s2 + 2 <= k)%nat as Hk2.
  { destruct Hk as [(Hn & Hvh & Hk)|Hk]; [|lia]. destruct (Hown1 Hn) as [Hm Hsome].
    assert (makers s2 < makers s1)%nat; [|lia].
    apply (Hlt ltac:(congruence) (HVote.hash v)). by rewrite Hh1, <- Hvh. }
  eapply runs_step; [apply plain_lift; fueled | by apply (does_lift _ _ _ _ _ s2 done_)|].
  intros i s3 _ [Hi3 _] _ Hl3.
  destruct (i =? 0); [apply runs_opt_propose; [done|]; by injection Hl3 as _ ->|].
  apply runs_gets. apply runs_plain; [fueled|].
  eapply does_weaken; [apply still_does; [apply still_timer | done]|]. done.
Qed.

Lemma runs_handle_opt_proposal b s :
  inv s -> block_ok c genuine known b -> (2 * makers s + 2 <= k)%nat ->
  runs (handle_opt_proposal rec b) s done_.
Proof.
  intros Hi Hb Hk. unfold handle_opt_proposal. apply runs_gets.
  destruct (_ <? _); [by apply runs_ret|]. destruct (_ <? _).
  { apply runs_plain.
    { apply plain_bind; [by apply plain_modify | fueled]. }
    eapply does_bind; [apply still_does; [by intros ? | done]|]. intros _ s1 _ [Hi1 _] _.
    by apply (does_lift _ _ _ _ (Err _)). }
  apply runs_gets.
  eapply runs_step; [apply plain_lift; fueled | by apply (does_lift _ _ _ _ _ s (fun _ s' => s' = s))|].
  intros idx s1 _ _ -> _.
  eapply runs_step; [apply plain_ensure | by apply (does_lift _ _ _ _ _ s (fun _ s' => s' = s))|].
  intros _ s1 _ _ -> _. apply runs_gets.
  eapply runs_step; [apply plain_lift; fueled | |].
  { apply (does_lift _ _ _ _ _ s (fun _ s' => s' = s /\ Block.verify b c = Ok tt)); [done|].
    intros []. by rewrite (proj1 (ci_committee _ _ _ _ _ Hi)). }
  intros _ s1 _ _ [-> Hver] _. apply runs_gets. rewrite (proj2 (ci_paths _ _ _ _ _ Hi)). simpl.
  eapply runs_step; [apply plain_ret | by apply (does_ret _ _ _ _ tt s (fun _ s' => s' = s))|].
  intros _ s1 _ _ -> _.
  assert (forall log, good_block log b) as Hgood by (intros; by apply (block_ok_good c)).
  eapply runs_bind; [apply runs_process_qc; [done | apply Hgood]|]. intros _ s2 _ [Hi2 _] [Hle _].
  eapply runs_step; [apply plain_verify | by apply does_verify|]. intros available s3 _ [Hi3 _] _ Hl3.
  destruct (negb available); [by apply runs_ret|]. apply rec_runs; [done | apply Hgood|].
  simpl. injection Hl3 as _ ->. lia.
Qed.

(** The vote for a block, sent and then handled by the node itself. *)
Lemma runs_vote_tail b (elector : LeaderElector) (me : PublicKey) s :
  inv s -> good_block (signed s) b -> Block.height b = height s -> (2 * makers s + 1 <= k)%nat ->
  runs (made ← make_opt_vote b;
        match made with
        | Some vote =>
            h ← gets height;
            leaders ← lift (get_leaders elector (h +64 1));
            send_vote (HSVote vote) leaders ;;
            next ← lift (index_as_leader elector me (h +64 1));
            when (bool_decide (is_Some next)) (rec (R_handle_opt_vote vote))
        | None => mret tt
        end) s done_.
Proof.
  intros Hi Hb Hh Hk.
  eapply runs_step; [apply plain_opt_vote | by apply does_make_opt_vote|].
  intros [v|] s1 Hr [Hi1 _] Hv Hl1; [|by apply runs_ret]. destruct Hv as [Hin Hauth].
  assert (HVote.height v = Block.height b) as Hvh.
  { revert Hr. unfold make_opt_vote. run_act. destruct (negb _); simpl; [done|].
    unfold signing. run_act. unfold lift. destruct (HVote.new _ _ _ _) as [w| | |] eqn:Hw; [|done..].
    intros [= -> _]. by apply hvote_new_fields in Hw as (_ & -> & _). }
  apply runs_gets.
  eapply runs_step; [apply plain_lift; fueled | by apply (does_lift _ _ _ _ _ s1 (fun _ s' => s' = s1))|].
  intros leaders s2 _ _ -> _.
  eapply runs_step; [apply plain_send_vote | apply still_does; [apply still_send_vote | done]|].
  intros _ s2 _ [Hi2 Hg2] _ Hl2.
  eapply runs_step; [apply plain_lift; fueled | by apply (does_lift _ _ _ _ _ s2 (fun _ s' => s' = s2))|].
  intros next s3 _ _ -> _. assert (level s2 = level s) as [= Hh2 Hm2] by congruence.
  destruct (bool_decide (is_Some next)); simpl; [|by apply runs_ret].
  apply rec_runs; [done | |simpl; rewrite Hm2, Hh2; split_and!; congruence || done].
  intros _. rewrite Hauth. right. split; [done|].
  destruct Hg2 as [l ->]. apply elem_of_app. by left.
Qed.

Lemma runs_process_opt_block b s :
  inv s -> good_block (signed s) b -> (2 * makers s + 1 <= k)%nat ->
  runs (process_opt_block rec b) s done_.
Proof.
  intros Hi Hb Hk. unfold process_opt_block. do 2 apply runs_gets.
  eapply runs_step; [apply plain_lift; fueled | by apply (does_lift _ _ _ _ _ s (fun _ s' => s' = s))|].
  intros idx s1 _ _ -> _.
  eapply runs_step; [fueled | apply still_does; [by apply still_when, still_timer | done]|].
  intros _ s1 _ [Hi1 Hg1] _ Hl1.
  assert (good_block (signed s1) b) as Hb1 by (by eapply good_block_grow). clear Hb Hg1.
  eapply runs_step; [apply plain_ancestors | by apply does_ancestors|].
  intros [[b0 b1]|] s2 _ [Hi2 Hg2] [Ha Hw2] Hl2; [|by apply runs_ret].
  destruct Hw2 as [Hs2 _]. rewrite <- Hs2 in Ha, Hb1. clear Hi1 Hg2 Hs2.
  eapply runs_step; [apply plain_store_block | by apply does_store_block|].
  intros u s3 Hst [Hi3 _] _ Hl3.
  assert (signed s3 = signed s2) as Hs3 by (revert Hst; cbn; by intros [= _ <-]).
  rewrite <- Hs3 in Ha, Hb1. clear Hst Hs3 Hi2.
  apply runs_gets. rewrite (proj2 (ci_paths _ _ _ _ _ Hi3)). simpl.
  do 3 (eapply runs_step;
    [apply plain_ret | by apply (does_ret _ _ _ _ tt s3 (fun _ s' => s' = s3))|]; intros _ ? _ _ -> _).
  eapply runs_step; [apply plain_ensure | apply (does_lift _ _ _ _ _ s3 (fun _ s' => s' = s3 /\
    (Block.height b0 +64 1 =? Block.height b1) && (Block.height b1 +64 1 =? Block.height b)
      || QC.eqb (Block.qc b) QC.genesis = true))|].
  { done. }
  { unfold ensure. by destruct (_ || _). }
  intros _ s4 _ _ [-> Hcons] _. apply runs_gets.
  set (cm := when _ (commit b0 ;; record_commit b0)).
  assert (level (cm s3).2 = level s3) as Hcm.
  { unfold cm, when. destruct (_ <? _); [apply level_commit | done]. }
  eapply runs_bind.
  { apply (runs_weaken _ _ done_ done_); [|done]. unfold cm, when.
    destruct (Z.ltb_spec (last_committed_height s3) (Block.height b0)) as [Hlt|_];
      [|by apply runs_ret].
    destruct (ancestors_two_chain c n genuine known _ b b0 b1 (last_committed_height s3) Hb1 Ha)
      as [Htc Hg0]; [split; [apply (ci_last _ _ _ _ _ Hi3) | done] | done |].
    eapply runs_weaken; [by apply runs_commit | done]. }
  intros u4 s4 Hr4 [Hi4 Hg4] _. rewrite Hr4 in Hcm. simpl in Hcm.
  assert (level s4 = level s) as [= Hh4 Hm4] by congruence.
  assert (good_block (signed s4) b) as Hb4 by (by eapply good_block_grow).
  apply runs_gets. destruct (Z.eqb_spec (Block.height b) (height s4)); simpl; [|by apply runs_ret].
  apply runs_vote_tail; [done..|]. by rewrite Hm4.
Qed.
End Handlers.

(** ** Runs *)

Lemma runs_exec fuel cl s :
  inv s -> call_ok (signed s) cl -> fits fuel cl s -> runs (exec fuel cl) s done_.
Proof.
  revert cl s. induction fuel as [|fuel IH]; intros cl s Hi Hc Hf.
  { exfalso. destruct cl; simpl in Hf; intuition lia. }
  change (exec (S fuel) cl) with (run_call (exec fuel) cl). destruct cl; try done; simpl in *.
  - apply (runs_process_opt_block _ fuel); [done..|lia].
  - apply (runs_handle_opt_vote _ fuel); [done..|]. left. intuition lia.
Qed.

Lemma runs_dispatch fuel i s :
  inv s -> input_safe c genuine known i s -> (2 * makers s + 4 <= fuel)%nat ->
  runs (dispatch fuel i) s done_.
Proof.
  intros Hi Hs Hf. pose proof (runs_exec fuel) as Hrec.
  destruct i as [m|m|]; [|done|apply (runs_opt_propose _ fuel); [done..|lia]].
  destruct m; simpl in *; try (by apply runs_ret).
  - apply (runs_handle_opt_proposal _ fuel); [done..|lia].
  - apply (runs_handle_opt_vote _ fuel); [done..| |by right]. intros Hv. left. by apply Hs.
  - apply (runs_process_opt_block _ fuel); [done..| |lia].
    pose proof (ci_waiting _ _ _ _ _ Hi) as Hw. rewrite Forall_forall in Hw. by apply Hw.
  - apply runs_plain; [apply plain_sync_request|].
    eapply does_weaken; [apply still_does; [apply still_sync_request | done] | done].
  - apply (runs_handle_opt_proposal _ fuel); [done..|lia].
Qed.

Lemma runs_boot fuel s : inv s -> (2 * makers s + 4 <= fuel)%nat -> runs (run_boot fuel) s done_.
Proof.
  intros Hi Hf. unfold run_boot. do 2 apply runs_gets.
  destruct (ci_paths _ _ _ _ _ Hi) as [-> ->].
  eapply runs_bind.
  { do 3 apply runs_gets.
    eapply runs_step; [apply plain_lift; fueled | by apply (does_lift _ _ _ _ _ s (fun _ s' => s' = s))|].
    intros idx s1 _ _ -> _.
    destruct idx as [i|]; [|by apply (runs_ret tt s done_)]. destruct (i =? 0).
    - destruct (runs_opt_propose _ fuel (runs_exec fuel) s Hi ltac:(lia)) as [Hd He].
      split; [by apply (does_ignore _ _ _ _ _ _ done_)|].
      unfold ignore_err. by destruct (opt_propose (exec fuel) s) as [[]].
    - apply runs_gets. apply runs_plain; [fueled|].
      eapply does_weaken; [apply still_does; [apply still_timer | done] | done]. }
  intros _ s1 _ [Hi1 _] _. apply runs_gets. simpl. by apply runs_ret.
Qed.

Lemma plain_drain l : plain (drain l).
Proof.
  induction l as [|[e m] l IH]; simpl; [fueled|].
  apply plain_bind; [by apply plain_modify | intros _]. apply plain_bind; [fueled | intros cur].
  destruct (e =? cur); [|exact IH].
  destruct m; try fueled; (apply plain_bind; [by apply plain_modify | intros _; exact IH]).
Qed.

Lemma runs_next_epoch fuel s : inv s -> (4 <= fuel)%nat -> runs (next_epoch fuel) s done_.
Proof.
  intros Hi Hf. unfold next_epoch. apply runs_gets.
  eapply runs_bind.
  { split; [by apply does_modify, ext_epoch_init | done]. }
  intros _ s1 _ [Hi1 _] ->. apply runs_gets.
  eapply runs_step; [apply plain_drain | by apply does_drain|]. intros _ s2 _ [Hi2 _] _ Hl2.
  apply runs_boot; [done|]. injection Hl2 as _ ->. simpl. by rewrite map_size_empty.
Qed.

Lemma node_event_ends fuel ev s :
  inv s -> event_safe c genuine known ev s -> (2 * makers s + 4 <= fuel)%nat ->
  signed (node_event fuel ev s).2 `prefix_of` final -> (node_event fuel ev s).1 <> Cut.
Proof.
  intros Hi He Hf. destruct ev as [i|d|x v]; simpl; [|done..].
  destruct (runs_dispatch fuel i s Hi He Hf) as [[[Hi1 _] _] Hend].
  destruct (dispatch fuel i s) as [r s1]. simpl in Hi1, Hend.
  destruct (after r) eqn:Hr; simpl; intros Hlog; try done.
  - destruct (runs_next_epoch fuel s1 Hi1 ltac:(lia)) as [_ Hend2].
    destruct (next_epoch fuel s1) as [r2 s2]. simpl in *. specialize (Hend2 Hlog).
    destruct r2 as [a|[]|w|]; done.
  - specialize (Hend Hlog). by destruct r as [a|[]|w|].
Qed.
End Runs.
