(* ===== verification/ChainLive.v ===== *)
(** * The nodes of the optimistic deployment handle every event

    In the system of [ChainAgreement], the certified blocks are a chain of decreasing
    heights, so a commit's walk ends, and the boxed calls recurse at most once per
    maker ([ChainEnds]): an event is never cut short, with a fuel that the number of
    makers gives. *)

From S2P Require Import Prelude Machine Crypto Config Messages Leader Aggregator Timer Store.
From S2P Require Import Sync Core Handlers Fixture MessageFacts Types Spec Refine Chain ChainInv.
From S2P Require Import ChainAgreement ChainEnds.

Section Live.
Context `{CryptoLib} `{NodeEnv} `{!BincodeLaws} `{!HashLaws} `{!DalekSign} `{!MempoolTypes}.

(** Nested calls deep enough for a node with so many makers. *)
Definition fuel_for (s : Core) : nat :=
  2 * size (hs_votes_aggregators (aggregator s)) + 4.

(** C13: The handling of an event ends.  In the optimistic deployment under the
    conditions of [system] (nothing on the agreement's channel, loop-backs only of the
    node's own blocks of its current epoch, no foreign blocks in the store, no forgery,
    no digest collisions), for a node whose own stake is below the quorum, and when no
    block sent or signed has the digest of genesis: with the fuel above, which grows
    with the number of open certificates only, no nested call and no walk of a commit
    is cut, for every event that meets these conditions ([event_safe]). *)
Theorem optimistic_events_return (c : Committee) (f : Z) (honest : gmap PublicKey Core)
    (known : Block.t -> Prop) (k : PublicKey) (core s : Core) (fuel : nat) (ev : Event) :
  system c f honest known ->
  (forall b, played honest known b -> Block.digest b <> Digest_default) ->
  fresh_node c k core -> hs_reach c (no_forgery honest) known core s ->
  event_safe c (no_forgery honest) known ev s ->
  honest !! k = Some (node_event fuel ev s).2 ->
  stake c k < quorum_threshold c -> (fuel_for s <= fuel)%nat ->
  (node_event fuel ev s).1 <> Cut.
Proof.
  intros Hsys Hzero Hf Hr He Hk Hown Hfuel. pose proof (proj1 (sys_committee _ _ _ _ Hsys)) as Hwf.
  set (s' := (node_event fuel ev s).2) in *.
  assert (forall b, in_play known (signed s') b -> played honest known b) as Hplay
    by (intros b; by eapply in_play_played).
  apply (node_event_ends c k (no_forgery honest) known Hwf (signed s') (certified c honest));
    [| | | by eauto | done | by eapply hs_reach_inv | done | exact Hfuel | done].
  - intros h d Hb. by exists k, s'.
  - intros h h' d Hc Hc'.
    destruct (certified_vote _ _ _ _ Hsys h d Hc) as (_ & _ & _ & x & _ & _ & Hx & Hd & <-).
    by apply (certified_height _ _ _ _ Hsys h' d x).
  - intros h b Hb Hc. apply Hplay in Hb.
    split; [by apply (certified_height _ _ _ _ Hsys h (Block.digest b) b)|]. intros Hh.
    destruct (certified_parent _ _ _ _ Hsys h _ Hc) as (x & Hx & Hd & _ & Hp).
    rewrite <- (digest_parent _ _ _ _ Hsys x b Hx Hb Hd).
    destruct (Hp Hh) as [[_ Hg]|Hg]; [|by right; left]. right. right.
    unfold QC.eqb in Hg. rewrite !andb_true_iff, bool_decide_eq_true in Hg.
    exact (proj1 (proj1 (proj1 Hg))).
Qed.
End Live.
