(* ===== verification/HappyPath.v ===== *)
(** * The optimistic path when nothing goes wrong

    What the handlers of the optimistic path do, step for step, in a node without the
    fallback path whose database answers and whose mempool accepts: a proposal is
    stored, voted for and commits its grandparent; the vote that completes a quorum
    makes the first leader of the next height propose.  [leads m t a t'] says that
    [m], started in a state like [t], returns [a] in a state like [t'], where [same]
    says which fields count. *)

From S2P Require Import Prelude Machine Crypto Config Messages Leader Aggregator Timer Store.
From S2P Require Import Sync Core Handlers Fixture MessageFacts CommitFacts LeaderFacts AggregatorFacts.

(** The database answers every read, and the mempool has every payload. *)
Class Obliging `{NodeEnv} : Prop := {
  reads_work : forall n, db_get_fault n = false;
  payloads_ready : forall l b tag, mempool_verify l b tag = Accept;
}.

#[export] Instance toy_obliging : Obliging.
Proof. by constructor. Qed.

Section HappyPath.
Context `{CryptoLib} `{NodeEnv} `{!Obliging}.

Notation M := (act Core ConsensusError).

(** ** States that are alike *)

(** The fields that the optimistic path reads, but for the mempool's requests, the
    timer, the clock and the number of reads. *)
Record same (s t : Core) : Prop := {
  same_name : name s = name t;
  same_committee : committee s = committee t;
  same_parameters : parameters s = parameters t;
  same_service : signature_service s = signature_service t;
  same_elector : leader_elector s = leader_elector t;
  same_opt : opt_path s = opt_path t;
  same_pes : pes_path s = pes_path t;
  same_epoch : epoch s = epoch t;
  same_kv : kv (store s) = kv (store t);
  same_out : network_filter s = network_filter t;
  same_commits : commit_channel s = commit_channel t;
  same_height : height s = height t;
  same_voted : last_voted_height s = last_voted_height t;
  same_committed : last_committed_height s = last_committed_height t;
  same_high : high_qc s = high_qc t;
  same_signed : signed s = signed t;
  same_counts : agg_committee (aggregator s) = agg_committee (aggregator t);
  same_makers : hs_votes_aggregators (aggregator s) = hs_votes_aggregators (aggregator t);
}.

Infix "≃" := same (at level 70).

#[export] Instance same_equivalence : Equivalence same.
Proof.
  split.
  - by intros s.
  - by intros s t [].
  - intros s t u [] []. constructor; by etrans.
Qed.

Definition leads {A} (m : M A) (t : Core) (a : A) (t' : Core) : Prop :=
  forall s, s ≃ t -> exists s', m s = (Ok a, s') /\ s' ≃ t'.

Lemma leads_bind {A B} (m : M A) (f : A -> M B) t a t1 b t2 :
  leads m t a t1 -> leads (f a) t1 b t2 -> leads (m ≫= f) t b t2.
Proof.
  intros Hm Hf s Hs. destruct (Hm s Hs) as (s1 & Hr & Hs1).
  destruct (Hf s1 Hs1) as (s2 & Hr' & H2). exists s2. split; [|done].
  unfold mbind, act_bind. by rewrite Hr.
Qed.

Lemma leads_ret {A} (a : A) t : leads (mret a) t a t.
Proof. intros s Hs. by exists s. Qed.

Lemma leads_lift {A} (m : ConsensusResult A) a t : m = Ok a -> leads (lift m) t a t.
Proof. intros -> s Hs. by exists s. Qed.

Lemma leads_ensure b (e : ConsensusError) t : b = true -> leads (ensure_act b e) t tt t.
Proof. intros ->. by apply leads_lift. Qed.

Lemma leads_gets {A} (g : Core -> A) t :
  (forall s, s ≃ t -> g s = g t) -> leads (gets g) t (g t) t.
Proof. intros Hg s Hs. exists s. unfold gets. by rewrite (Hg s Hs). Qed.

Lemma leads_modify (f : Core -> Core) t t' :
  (forall s, s ≃ t -> f s ≃ t') -> leads (modify f) t tt t'.
Proof. intros Hf s Hs. exists (f s). by split; [|apply Hf]. Qed.

Lemma leads_when (b : bool) (m : M unit) t t' :
  (if b then leads m t tt t' else t' = t) -> leads (when b m) t tt t'.
Proof. destruct b; [done|]. intros ->. apply leads_ret. Qed.

Lemma leads_skip b (m : M unit) t : b = false -> leads (when b m) t tt t.
Proof. intros ->. apply leads_ret. Qed.

(** A state like [t]; the result is one like [t']. *)
Lemma leads_same {A} (m : M A) t a t1 t' : leads m t a t1 -> t1 ≃ t' -> leads m t a t'.
Proof.
  intros Hm Ht s Hs. destruct (Hm s Hs) as (s' & Hr & Hs'). exists s'. split; [done|]. by etrans.
Qed.

(** ** The steps *)

(** The fields of an update of alike states. *)
Ltac alike :=
  match goal with Hs : same _ _ |- _ => destruct Hs end;
  constructor; csimpl; try done;
  repeat match goal with E : @eq _ _ _ |- _ => rewrite E; clear E end; done.

Lemma leads_timer_reset d t : leads (timer_reset d) t tt t.
Proof. apply leads_modify. intros s Hs. alike. Qed.

Lemma leads_sleep d t : leads (sleep_ms d) t tt t.
Proof. apply leads_modify. intros s Hs. alike. Qed.

Definition stored (b : Block.t) (t : Core) : Core :=
  t <| store := mkStoreClient
         (<[Digest_to_vec (Block.digest b) := serialize_block b]> (kv (store t)))
         (reads (store t)) |>.

Lemma leads_store_block b t : leads (store_block b) t tt (stored b t).
Proof.
  intros s Hs. eexists. split; [reflexivity|]. alike.
Qed.

Lemma leads_verify_payload b tag t : leads (on_mempool (driver_verify b tag)) t true t.
Proof.
  intros s Hs. unfold on_mempool, zoom, driver_verify, send_mempool. run_act.
  rewrite payloads_ready. eexists. split; [reflexivity|]. alike.
Qed.

Lemma leads_ancestors b b1 b0 t :
  parent_in (kv (store t)) b = Found b1 -> parent_in (kv (store t)) b1 = Found b0 ->
  leads (on_synchronizer (get_ancestors b)) t (Some (b0, b1)) t.
Proof.
  intros Hp1 Hp0 s Hs. unfold on_synchronizer, zoom, get_ancestors. run_act.
  rewrite <- (same_kv _ _ Hs) in Hp1, Hp0.
  destruct (get_parent_block_eq reads_work b (store s) (synchronizer s)) as (st1 & Hkv1 & ->).
  rewrite Hp1.
  destruct (get_parent_block_eq reads_work b1 st1 (synchronizer s)) as (st2 & Hkv2 & ->).
  unfold CommitFacts.same_kv in *. rewrite Hkv1, Hp0. csimpl. eexists. split; [reflexivity|].
  alike.
Qed.

Definition committed (b : Block.t) (t : Core) : Core :=
  t <| last_committed_height := Block.height b |> <| commit_channel := commit_channel t ++ [b] |>.

Lemma leads_commit b l t :
  0 <= last_committed_height t -> walk (kv (store t)) (last_committed_height t) b l ->
  leads (commit b ;; record_commit b) t tt (committed b t).
Proof.
  intros Hpos Hw. apply (leads_bind _ _ _ tt t).
  - intros s Hs. rewrite <- (same_kv _ _ Hs), <- (same_committed _ _ Hs) in *.
    pose proof (walk_length reads_work _ _ _ _ Hpos Hw) as Hlen. unfold commit. run_act.
    destruct (commit_loop_walk reads_work (S (S (size (kv (store s))))) b l s Hw) as (st & Hkv & ->);
      [lia|].
    eexists. split; [reflexivity|]. unfold CommitFacts.same_kv in Hkv. alike.
  - apply leads_modify. intros s Hs. alike.
Qed.

Definition logged (m : Signable) (t : Core) : Core := t <| signed := signed t ++ [m] |>.

Lemma leads_signing {A} (record : A -> Signable) build m t :
  build (signature_service t) = Ok m -> leads (signing record build) t m (logged (record m) t).
Proof.
  intros Hb. eapply leads_bind; [by apply leads_gets; intros s []|]. cbv beta.
  eapply leads_bind; [by apply leads_lift|].
  eapply leads_bind; [|apply leads_ret]. apply leads_modify.
  intros s Hs. alike.
Qed.

Definition sent (m : ConsensusMessage) (addresses : list SocketAddr) (t : Core) : Core :=
  t <| network_filter := network_filter t ++ [(m, addresses)] |>.

Lemma leads_transmit m to l t :
  transmit_addresses (name t) to (committee t) OPT = Ok l ->
  leads (transmit_opt m to) t tt (sent m l t).
Proof.
  intros Ha s Hs. unfold transmit_opt, transmit. run_act. unfold zoom, lift.
  rewrite (same_name _ _ Hs), (same_committee _ _ Hs), Ha. eexists. split; [reflexivity|].
  alike.
Qed.

(** *** The height and the highest certificate *)

Definition entered (h : Z) (t : Core) : Core :=
  if h <? height t then t
  else t <| height := h +64 1 |>
         <| aggregator := cleanup_hs_vote (height t) (aggregator t) |>.

Definition heard (q : QC.t) (t : Core) : Core :=
  if QC.height (high_qc t) <? QC.height q then t <| high_qc := q |> else t.

Lemma leads_process_qc q t : leads (process_qc q) t tt (heard q (entered (QC.height q) t)).
Proof.
  apply (leads_bind _ _ _ tt (entered (QC.height q) t)).
  - intros s Hs. unfold advance_height, entered. run_act. rewrite (same_height _ _ Hs).
    destruct (_ <? _); [by exists s|]. eexists. split; [reflexivity|].
    alike.
  - apply leads_modify. intros s Hs. unfold heard. rewrite (same_high _ _ Hs).
    destruct (_ <? _); [|done]. alike.
Qed.

(** *** Votes *)

Definition counted (k : Z * Digest) (m : QCMaker) (t : Core) : Core :=
  t <| aggregator := aggregator t
         <| hs_votes_aggregators := <[k := m]> (hs_votes_aggregators (aggregator t)) |> |>.

Definition maker_of (k : Z * Digest) (t : Core) : QCMaker :=
  default QCMaker_new (hs_votes_aggregators (aggregator t) !! k).

Lemma leads_add_hs_vote v r m t :
  QCMaker_append v (agg_committee (aggregator t)) (maker_of (HVote.height v, HVote.hash v) t)
    = (Ok r, m) ->
  leads (on_aggregator (add_hs_vote v)) t r (counted (HVote.height v, HVote.hash v) m t).
Proof.
  unfold maker_of. intros Ha s Hs. unfold on_aggregator, add_hs_vote, zoom. run_act.
  rewrite (same_counts _ _ Hs), (same_makers _ _ Hs), Ha. eexists. split; [reflexivity|].
  alike.
Qed.

(** What [send_vote] puts into the channel. *)
Definition mail (c : Committee) (me : PublicKey) (m : ConsensusMessage) (ks : list PublicKey)
    : list FilterInput :=
  omap (fun k => match address c k with Ok a => Some (m, [a]) | _ => None end)
    (filter (fun k => me <> k) ks).

Definition mailed (m : ConsensusMessage) (ks : list PublicKey) (t : Core) : Core :=
  t <| network_filter := network_filter t ++ mail (committee t) (name t) m ks |>.

Lemma leads_send_vote m ks t :
  Forall (fun k => k ∈ members (committee t)) ks -> leads (send_vote m ks) t tt (mailed m ks t).
Proof.
  intros Hk. revert t Hk. induction ks as [|k ks IH]; intros t Hk; simpl.
  - eapply leads_same; [apply leads_ret|]. unfold mailed, mail.
    constructor; csimpl; try done. by rewrite app_nil_r.
  - apply Forall_cons in Hk as [Hk Hks]. eapply leads_bind; [by apply leads_gets; intros s []|].
    unfold members in Hk. apply elem_of_dom in Hk as [x Hx].
    destruct (decide (name t = k)) as [Heq|Hne].
    + rewrite bool_decide_true by done.
      eapply leads_bind; [by apply leads_skip|]. eapply leads_same; [by apply IH|].
      unfold mailed, mail. by rewrite filter_cons_False by auto.
    + rewrite bool_decide_false by done.
      eapply leads_bind.
      { eapply (leads_when true), leads_transmit. unfold transmit_addresses. simpl.
        unfold address. by rewrite Hx. }
      eapply leads_same; [by apply IH|]. unfold mailed, mail, sent.
      rewrite filter_cons_True by done. csimpl. unfold address at 2. rewrite Hx.
      constructor; csimpl; try done. by rewrite <- app_assoc.
Qed.

(** ** A block is processed *)

(** The grandparent is committed when it is above the last committed height. *)
Definition commits_of (b0 : Block.t) (t : Core) : Core :=
  if last_committed_height t <? Block.height b0 then committed b0 t else t.

Definition voted (v : HVote.t) (t : Core) : Core :=
  logged (SignedHVote v)
    (t <| last_voted_height := Z.max (last_voted_height t) (HVote.height v) |>).

(** A node in state [t] can process block [b] to the end: it has the two blocks
    below, with consecutive heights or below the first certificate, it is at the
    height of the block and has not voted there, what it can commit is in its store
    once the block is, and it can sign.  [leaders] is the window of the next height,
    and [next] the node's place in it. *)
Record processable (t : Core) (b b1 b0 : Block.t) (v : HVote.t) (leaders : list PublicKey)
    (next : option Z) : Prop := {
  pr_pes : pes_path t = false;
  pr_place : exists o, index_as_leader (leader_elector t) (name t) (Block.height b) = Ok o;
  pr_parent : parent_in (kv (store t)) b = Found b1;
  pr_grandparent : parent_in (kv (store t)) b1 = Found b0;
  pr_consecutive :
    (Block.height b0 +64 1 = Block.height b1 /\ Block.height b1 +64 1 = Block.height b) \/
    QC.eqb (Block.qc b) QC.genesis = true;
  pr_commit : last_committed_height t < Block.height b0 ->
    0 <= last_committed_height t /\
    exists l, walk (kv (store (stored b t))) (last_committed_height t) b0 l;
  pr_height : Block.height b = height t;
  pr_unvoted : last_voted_height t < Block.height b;
  pr_extends : QC.height (Block.qc b) +64 1 = Block.height b;
  pr_vote : HVote.new b (name t) OPT (signature_service t) = Ok v;
  pr_leaders : get_leaders (leader_elector t) (Block.height b +64 1) = Ok leaders;
  pr_members : Forall (fun k => k ∈ members (committee t)) leaders;
  pr_next : index_as_leader (leader_elector t) (name t) (Block.height b +64 1) = Ok next;
}.

(** The state in which a node has voted for the block and sent its vote. *)
Definition processed (b b0 : Block.t) (v : HVote.t) (leaders : list PublicKey) (t : Core) : Core :=
  mailed (HSVote v) leaders (voted v (commits_of b0 (stored b t))).

Lemma new_vote_height b k tag svc v : HVote.new b k tag svc = Ok v -> HVote.height v = Block.height b.
Proof. unfold HVote.new. destruct (sign_with _ _); simpl; by intros [= <-]. Qed.

Lemma leads_make_vote b v t :
  last_voted_height t < Block.height b -> QC.height (Block.qc b) +64 1 = Block.height b ->
  HVote.new b (name t) OPT (signature_service t) = Ok v ->
  leads (make_opt_vote b) t (Some v) (voted v t).
Proof.
  intros Hlast Hext Hv. unfold make_opt_vote.
  eapply leads_bind; [by apply leads_gets; intros s []|]. cbv beta zeta.
  rewrite (proj2 (Z.ltb_lt _ _) Hlast), (proj2 (Z.eqb_eq _ _) Hext). cbn [andb negb].
  eapply leads_bind.
  { apply (leads_modify _ _ (t <| last_voted_height :=
      Z.max (last_voted_height t) (Block.height b) |>)). intros s Hs. alike. }
  eapply leads_bind; [by apply leads_gets; intros s []|].
  eapply leads_bind; [by apply leads_signing|].
  unfold voted. rewrite (new_vote_height _ _ _ _ _ Hv). apply leads_ret.
Qed.

Lemma leads_process_opt_block rec t b b1 b0 v leaders next t' :
  processable t b b1 b0 v leaders next ->
  (if bool_decide (is_Some next) then
     leads (rec (R_handle_opt_vote v)) (processed b b0 v leaders t) tt t'
   else t' = processed b b0 v leaders t) ->
  leads (process_opt_block rec b) t tt t'.
Proof.
  intros Hp Hnext. destruct (pr_place _ _ _ _ _ _ _ Hp) as [o Ho]. unfold process_opt_block.
  eapply leads_bind; [by apply leads_gets; intros s []|].
  eapply leads_bind; [by apply leads_gets; intros s []|]. cbv beta.
  eapply leads_bind; [by apply leads_lift|].
  eapply leads_bind; [apply (leads_when _ _ _ t); destruct (bool_decide (is_Some o));
    [apply leads_timer_reset | done]|].
  eapply leads_bind; [by eapply leads_ancestors; apply Hp|]. cbv beta iota.
  eapply leads_bind; [apply leads_store_block|].
  eapply leads_bind; [apply leads_gets; by intros s []|].
  assert (pes_path (stored b t) = false) as -> by apply Hp. cbn [andb].
  eapply leads_bind; [by apply leads_skip|].
  eapply leads_bind; [by apply leads_skip|].
  eapply leads_bind; [by apply leads_skip|]. cbv zeta.
  eapply leads_bind.
  { apply leads_ensure. apply orb_true_iff. rewrite andb_true_iff, !Z.eqb_eq. apply Hp. }
  eapply leads_bind; [apply leads_gets; by intros s []|].
  eapply leads_bind.
  { apply (leads_when _ _ _ (commits_of b0 (stored b t))). unfold commits_of.
    destruct (Z.ltb_spec (last_committed_height (stored b t)) (Block.height b0)) as [Hlt|]; [|done].
    destruct (pr_commit _ _ _ _ _ _ _ Hp Hlt) as [Hpos [l Hw]]. by eapply leads_commit. }
  assert (forall A (g : Core -> A), g (commits_of b0 (stored b t)) =
    if last_committed_height t <? Block.height b0 then g (committed b0 (stored b t))
    else g (stored b t)) as Hc by (intros A g; unfold commits_of;
      by destruct (_ <? _)).
  assert (height (commits_of b0 (stored b t)) = Block.height b) as Hh.
  { rewrite Hc. rewrite (pr_height _ _ _ _ _ _ _ Hp). by destruct (last_committed_height t <? Block.height b0). }
  eapply leads_bind; [apply leads_gets; by intros s []|]. cbv beta. rewrite Hh, Z.eqb_refl. cbn [negb].
  eapply leads_bind.
  { apply (leads_make_vote b v).
    - rewrite Hc. pose proof (pr_unvoted _ _ _ _ _ _ _ Hp). by destruct (last_committed_height t <? Block.height b0).
    - apply Hp.
    - rewrite !Hc. pose proof (pr_vote _ _ _ _ _ _ _ Hp). by destruct (last_committed_height t <? Block.height b0). }
  cbv beta iota.
  eapply leads_bind; [apply leads_gets; by intros s []|]. cbv beta.
  change (height (voted v ?s)) with (height s). rewrite Hh.
  eapply leads_bind; [apply leads_lift, Hp|].
  eapply leads_bind.
  { apply leads_send_vote. change (committee (voted v ?s)) with (committee s). rewrite Hc.
    pose proof (pr_members _ _ _ _ _ _ _ Hp). by destruct (last_committed_height t <? Block.height b0). }
  eapply leads_bind; [apply leads_lift, Hp|].
  apply leads_when. exact Hnext.
Qed.

(** A proposal of the epoch by a member of the window, with a block that verifies,
    is processed after its certificate has been heard of. *)
Lemma leads_handle_proposal rec t b i t' :
  Block.epoch b = epoch t -> pes_path t = false ->
  index_as_leader (leader_elector t) (Block.author b) (Block.height b) = Ok (Some i) ->
  Block.verify b (committee t) = Ok tt ->
  leads (rec (R_process_opt_block b)) (heard (Block.qc b) (entered (QC.height (Block.qc b)) t)) tt t' ->
  leads (handle_opt_proposal rec b) t tt t'.
Proof.
  intros He Hpes Hi Hv Hrec. unfold handle_opt_proposal.
  eapply leads_bind; [by apply leads_gets; intros s []|]. cbv beta. rewrite He, Z.ltb_irrefl.
  cbv zeta. eapply leads_bind; [by apply leads_gets; intros s []|].
  eapply leads_bind; [by apply leads_lift|].
  eapply leads_bind; [apply leads_ensure; by rewrite bool_decide_true by eauto|].
  eapply leads_bind; [by apply leads_gets; intros s []|].
  eapply leads_bind; [by apply leads_lift|].
  eapply leads_bind; [by apply leads_gets; intros s []|]. cbv beta. rewrite Hpes.
  eapply leads_bind; [by apply leads_skip|].
  eapply leads_bind; [apply leads_process_qc|].
  eapply leads_bind; [apply leads_verify_payload|]. exact Hrec.
Qed.

(** C24: What a good proposal makes a node do.  A node without the fallback path gets a
    proposal of its epoch, by a member of the window, that verifies, when the block
    can be processed once its certificate has been heard of ([processable]), and the
    node does not lead the next height.  It stores the block, votes for it, once, and
    sends the vote to each leader of the next height; it is then at the height of the
    block; and it commits the block's grandparent if this is above the last committed
    height, and nothing else. *)
Theorem proposal_voted (n : nat) (s : Core) (b b1 b0 : Block.t) (i : Z) (v : HVote.t)
    (leaders : list PublicKey) :
  Block.epoch b = epoch s ->
  index_as_leader (leader_elector s) (Block.author b) (Block.height b) = Ok (Some i) ->
  Block.verify b (committee s) = Ok tt ->
  processable (heard (Block.qc b) (entered (QC.height (Block.qc b)) s)) b b1 b0 v leaders None ->
  exists s', handle_opt_proposal (exec (S n)) b s = (Ok tt, s') /\
    kv (store s') = <[Digest_to_vec (Block.digest b) := serialize_block b]> (kv (store s)) /\
    signed s' = signed s ++ [SignedHVote v] /\
    last_voted_height s' = Block.height b /\ height s' = Block.height b /\
    network_filter s' = network_filter s ++ mail (committee s) (name s) (HSVote v) leaders /\
    (if last_committed_height s <? Block.height b0
     then commit_channel s' = commit_channel s ++ [b0] /\ last_committed_height s' = Block.height b0
     else commit_channel s' = commit_channel s /\ last_committed_height s' = last_committed_height s).
Proof.
  intros He Hi Hv Hp. set (t := heard _ _) in *.
  assert (forall A (g : Core -> A), (forall x h a, g (x <| height := h |> <| aggregator := a |>) = g x) ->
    (forall x q, g (x <| high_qc := q |>) = g x) -> g t = g s) as Ht.
  { intros A g Hg Hg'. unfold t, heard, entered. destruct (_ <? _), (_ <? _); by rewrite ?Hg', ?Hg. }
  pose proof (pr_unvoted _ _ _ _ _ _ _ Hp). pose proof (pr_height _ _ _ _ _ _ _ Hp).
  pose proof (new_vote_height _ _ _ _ _ (pr_vote _ _ _ _ _ _ _ Hp)) as Hvh.
  pose proof (Ht _ pes_path ltac:(done) ltac:(done)) as Hpes. rewrite (pr_pes _ _ _ _ _ _ _ Hp) in Hpes.
  destruct (leads_handle_proposal (exec (S n)) s b i (processed b b0 v leaders t) He (eq_sym Hpes) Hi Hv
    ltac:(by eapply leads_process_opt_block) s ltac:(done)) as (s' & Hr & []).
  exists s'. split; [done|].
  rewrite <- (Ht _ (fun s => kv (store s))), <- (Ht _ signed), <- (Ht _ network_filter),
    <- (Ht _ committee), <- (Ht _ name), <- (Ht _ commit_channel), <- (Ht _ last_committed_height)
    by done.
  rewrite same_kv0, same_signed0, same_out0, same_commits0, same_height0, same_voted0, same_committed0.
  unfold processed, commits_of. change (last_committed_height (stored b t)) with (last_committed_height t).
  destruct (_ <? _); csimpl; split_and!; try done; lia.
Qed.

(** ** A vote is counted *)

(** [m] started in a state like [t] goes on as [m'] in a state like [t']. *)
Definition continues {A} (m : M A) (t : Core) (m' : M A) (t' : Core) : Prop :=
  forall s, s ≃ t -> exists s', m s = m' s' /\ s' ≃ t'.

Lemma continues_refl {A} (m : M A) t : continues m t m t.
Proof. intros s Hs. by exists s. Qed.

Lemma continues_bind {A B} (m : M A) (f : A -> M B) t a t1 m' t' :
  leads m t a t1 -> continues (f a) t1 m' t' -> continues (m ≫= f) t m' t'.
Proof.
  intros Hm Hf s Hs. destruct (Hm s Hs) as (s1 & Hr & Hs1).
  destruct (Hf s1 Hs1) as (s2 & Hr' & Hs2). exists s2. split; [|done].
  unfold mbind, act_bind. by rewrite Hr.
Qed.

Lemma leads_continues {A} (m m' : M A) t t1 a t' :
  continues m t m' t1 -> leads m' t1 a t' -> leads m t a t'.
Proof.
  intros Hc Hl s Hs. destruct (Hc s Hs) as (s1 & -> & Hs1). by apply Hl.
Qed.

(** What [handle_opt_vote] does after the vote was counted, for a node with place
    [i] in the window of the next height. *)
Definition vote_counted (rec : rcall -> M unit) (i : Z) (made : option QC.t) : M unit :=
  match made with
  | Some qc =>
      process_qc qc ;;
      if i =? 0 then opt_propose rec
      else p ← gets parameters; timer_reset (Some (i *64 timeout_delay p))
  | None => mret tt
  end.

Lemma vote_is_counted rec v t i r m :
  height t <= HVote.height v -> epoch t <= HVote.epoch v ->
  index_as_leader (leader_elector t) (name t) (HVote.height v +64 1) = Ok (Some i) ->
  HVote.verify v (committee t) = Ok tt ->
  QCMaker_append v (agg_committee (aggregator t)) (maker_of (HVote.height v, HVote.hash v) t)
    = (Ok r, m) ->
  continues (handle_opt_vote rec v) t
    (vote_counted rec i r) (counted (HVote.height v, HVote.hash v) m t).
Proof.
  intros Hh He Hi Hv Ha. unfold handle_opt_vote.
  eapply continues_bind; [by apply leads_gets; intros s []|].
  eapply continues_bind; [by apply leads_gets; intros s []|]. cbv beta.
  rewrite (proj2 (Z.ltb_ge _ _) Hh), (proj2 (Z.ltb_ge _ _) He). cbn [orb].
  eapply continues_bind; [by apply leads_gets; intros s []|].
  eapply continues_bind; [by apply leads_gets; intros s []|].
  eapply continues_bind; [by apply leads_lift|].
  eapply continues_bind; [apply leads_ensure; by rewrite bool_decide_true by eauto|].
  eapply continues_bind; [by apply leads_gets; intros s []|].
  eapply continues_bind; [by apply leads_lift|].
  eapply continues_bind; [by apply leads_add_hs_vote|].
  destruct r; apply continues_refl.
Qed.

(** ** A block is proposed *)

(** The end of [opt_propose]. *)
Definition process_own (rec : rcall -> M unit) (b : Block.t) : M unit :=
  rec (R_process_opt_block b) ;;
  p ← gets parameters;
  when (negb (ddos p)) (sleep_ms (min_block_delay p)).

Definition proposed (b : Block.t) (t : Core) : Core :=
  sent (HsPropose b) (broadcast_addresses (committee t) (name t)) (logged (SignedBlock b) t).

Lemma leads_process_own rec b t t' :
  leads (rec (R_process_opt_block b)) t tt t' -> leads (process_own rec b) t tt t'.
Proof.
  intros Hr. unfold process_own. eapply leads_bind; [exact Hr|].
  eapply leads_bind; [by apply leads_gets; intros s []|].
  apply leads_when. case_match; [apply leads_sleep | done].
Qed.

(** A leader signs and broadcasts a block on its highest certificate, with the
    payload the mempool gives it, and processes it. *)
Lemma block_is_proposed rec t s i :
  s ≃ t -> index_as_leader (leader_elector t) (name t) (height t) = Ok (Some i) ->
  (forall p, is_ok (Block.new (high_qc t) (name t) (height t) (epoch t) 0 p (signature_service t) OPT)) ->
  exists p b s', Block.new (high_qc t) (name t) (height t) (epoch t) 0 p (signature_service t) OPT = Ok b /\
    opt_propose rec s = process_own rec b s' /\ s' ≃ proposed b t.
Proof.
  intros Hs Hi Hok. set (p := mempool_get (mempool_driver s) (max_payload_size (parameters s)) OPT).
  destruct (Block.new (high_qc t) (name t) (height t) (epoch t) 0 p (signature_service t) OPT)
    as [b| | |] eqn:Hb; try by specialize (Hok p); rewrite Hb in Hok.
  exists p, b. unfold opt_propose, generate_proposal, transmit_opt, signing, on_mempool, driver_get,
    send_mempool, transmit, transmit_addresses, zoom, lift, process_own. run_act.
  rewrite (same_elector _ _ Hs), (same_name _ _ Hs), (same_height _ _ Hs), Hi. cbn [expect].
  cbn -[Block.new]. rewrite ?(same_height _ _ Hs), ?(same_high _ _ Hs), ?(same_name _ _ Hs),
    ?(same_epoch _ _ Hs), ?(same_service _ _ Hs). fold p. cbn [default]. rewrite Hb. cbn.
  eexists. split; [done|]. split; [reflexivity|]. alike.
Qed.
End HappyPath.
