(* ===== verification/Growth.v ===== *)
(** * The chain grows

    The optimistic deployment without faults: every member follows the protocol,
    the databases answer and the mempools accept.  From the boot, messages can be
    delivered, each once, such that all members commit the same blocks of the
    heights 1, 2, 3, ..., as far as one likes; or two blocks of different heights
    that members have signed have the same digest. *)

From S2P Require Import Prelude Machine Crypto Config Messages Leader Aggregator Timer Store.
From S2P Require Import Sync Core Handlers Fixture MessageFacts CommitFacts LeaderFacts AggregatorFacts.
From S2P Require Import Types Spec Refine HappyPath.

Section Growth.
Context `{CryptoLib} `{NodeEnv} `{!Obliging} `{!BincodeLaws} `{!DalekSign} `{!DalekBatch}.

Notation M := (act Core ConsensusError).

(** ** The deployment *)

Record deployment (c : Committee) (w : Z) (cores : gmap PublicKey Core) : Prop := {
  dep_committee : wf_committee c;
  dep_window : 0 < w <= committee_size c;
  dep_stakes : forall k, k ∈ members c -> 0 < stake c k < quorum_threshold c;
  dep_members : dom cores = members c;
  dep_nodes : map_Forall (fun k s => exists ps svc pks st now,
    s = Core_new k c ps svc pks st (LeaderElector_new c (leader_window ps)) true false now /\
    leader_window ps = w /\ signs_for k svc) cores;
}.

(** A message that a node has sent to the address of [k]. *)
Definition in_flight (c : Committee) (nodes : gmap PublicKey Core) (m : ConsensusMessage)
    (k : PublicKey) : Prop :=
  exists j s a addresses, nodes !! j = Some s /\ address c k = Ok a /\
    (m, addresses) ∈ network_filter s /\ a ∈ addresses.

Notation Deliveries := (list (PublicKey * ConsensusMessage)).

(** The nodes boot; then messages in flight are delivered, in any order, each at most
    once to each node. *)
Inductive execution (fuel : nat) (c : Committee) (cores : gmap PublicKey Core)
    : gmap PublicKey Core -> Deliveries -> Prop :=
| ex_boot : execution fuel c cores ((fun s => (start fuel s).2) <$> cores) []
| ex_deliver nodes log k s m : execution fuel c cores nodes log ->
    nodes !! k = Some s -> in_flight c nodes m k -> (k, m) ∉ log ->
    execution fuel c cores (<[k := (node_event fuel (Deliver (OnCoreChannel m)) s).2]> nodes)
      (log ++ [(k, m)]).

(** Two signed blocks of different heights with one digest. *)
Definition signed_in (nodes : gmap PublicKey Core) (b : Block.t) : Prop :=
  exists k s, nodes !! k = Some s /\ SignedBlock b ∈ signed s.

Definition collision (nodes : gmap PublicKey Core) : Prop :=
  exists x y, signed_in nodes x /\ signed_in nodes y /\
    Block.digest x = Block.digest y /\ Block.height x <> Block.height y.

(** ** The chain, the newest block first *)

Section Chain.
Context (c : Committee) (w : Z).
Hypothesis Hwf : wf_committee c.
Hypothesis Hwindow : 0 < w <= committee_size c.
Hypothesis Hstakes : forall k, k ∈ members c -> 0 < stake c k < quorum_threshold c.

Notation elector := (LeaderElector_new c w).
Notation len bs := (Z.of_nat (length bs)).

Definition extends (b : Block.t) (bs : list Block.t) : Prop :=
  Block.height b = len bs + 1 /\ Block.epoch b = 0 /\
  index_as_leader elector (Block.author b) (Block.height b) = Ok (Some 0) /\
  Block.verify b c = Ok tt /\
  match bs with
  | [] => Block.qc b = QC.genesis
  | p :: _ => QC.hash (Block.qc b) = Block.digest p /\ QC.height (Block.qc b) = Block.height p
  end.

Fixpoint chained (bs : list Block.t) : Prop :=
  match bs with
  | [] => True
  | b :: bs => extends b bs /\ chained bs
  end.

(** No digest twice. *)
Definition new_digest (b : Block.t) (bs : list Block.t) : Prop :=
  Forall (fun x => Block.digest x <> Block.digest b) bs.

Definition holds (bs : list Block.t) (s : Core) : Prop :=
  Forall (fun b => kv (store s) !! Digest_to_vec (Block.digest b) = Some (serialize_block b)) bs.

Definition tip (bs : list Block.t) : Block.t := hd Block.genesis bs.

Lemma tip_height bs : chained bs -> Block.height (tip bs) = len bs.
Proof. destruct bs as [|b bs]; [done|]. intros [(Hh & _) _]. simpl in *. lia. Qed.

Lemma extends_parent b bs s :
  extends b bs -> chained bs -> holds bs s -> parent_in (kv (store s)) b = Found (tip bs).
Proof.
  intros (Hh & _ & _ & _ & Hq) Hc Hs. unfold parent_in. destruct bs as [|p bs].
  { rewrite Hq. by rewrite (eq_refl : QC.eqb QC.genesis QC.genesis = true). }
  destruct Hq as [Hd Hqh]. pose proof (tip_height _ Hc) as Hp. simpl in Hp.
  assert (QC.eqb (Block.qc b) QC.genesis = false) as ->.
  { unfold QC.eqb. rewrite Hqh, Hp. rewrite (proj2 (Z.eqb_neq _ _)) by (simpl; lia).
    by rewrite andb_false_r. }
  apply Forall_cons in Hs as [Hp' _]. unfold Block.parent. rewrite Hd, Hp'.
  by rewrite bincode_roundtrip.
Qed.

Lemma tip_parent bs s :
  chained bs -> holds bs s -> parent_in (kv (store s)) (tip bs) = Found (tip (tail bs)).
Proof.
  destruct bs as [|b bs]; simpl; [done|]. intros [He Hc] [_ Hs]%Forall_cons.
  by apply extends_parent.
Qed.

Lemma genesis_only b bs :
  extends b bs -> QC.eqb (Block.qc b) QC.genesis = true \/ exists p bs', bs = p :: bs'.
Proof. destruct bs; [|eauto]. intros (_ & _ & _ & _ & ->). by left. Qed.

Lemma qc_height b bs : extends b bs -> chained bs -> QC.height (Block.qc b) = len bs.
Proof.
  intros (_ & _ & _ & _ & Hq) Hc. destruct bs as [|p bs]; [by rewrite Hq|].
  destruct Hq as [_ ->]. exact (tip_height _ Hc).
Qed.

(** ** The nodes *)

(** What never changes in the node of member [k]. *)
Record stands (k : PublicKey) (s : Core) : Prop := {
  st_member : k ∈ members c;
  st_name : name s = k;
  st_committee : committee s = c;
  st_elector : leader_elector s = elector;
  st_pes : pes_path s = false;
  st_epoch : epoch s = 0;
  st_counts : agg_committee (aggregator s) = c;
  st_service : signs_for k (signature_service s);
}.

(** The node has processed the blocks of the chain [bs]. *)
Record synced (k : PublicKey) (bs : list Block.t) (s : Core) : Prop := {
  sy_stands : stands k s;
  sy_holds : holds bs s;
  sy_voted : last_voted_height s = len bs;
  sy_height : height s <= len bs + 1;
  sy_committed : last_committed_height s = len (drop 2 bs);
  sy_commits : commit_channel s = rev (drop 2 bs);
  sy_high : QC.height (high_qc s) <= len bs;
  sy_makers : forall h d, len bs < h -> hs_votes_aggregators (aggregator s) !! (h, d) = None;
}.

Lemma stands_same k s t : same s t -> stands k t -> stands k s.
Proof. intros [] []. constructor; congruence. Qed.

Lemma synced_same k bs s t : same s t -> synced k bs t -> synced k bs s.
Proof.
  intros Hs [Hst ? ? ? ? ? ? Hm]. pose proof (stands_same k s t Hs Hst). destruct Hs.
  constructor; try congruence.
  - unfold holds. by replace (kv (store s)) with (kv (store t)).
  - intros h d Hh. by rewrite same_makers, Hm.
Qed.

(** A vote of [k] for [b]. *)
Definition vote_on (k : PublicKey) (b : Block.t) (v : HVote.t) : Prop :=
  exists svc, service_key svc = k /\ HVote.new b k OPT svc = Ok v.

Lemma vote_on_fields k b v :
  vote_on k b v ->
  HVote.author v = k /\ HVote.hash v = Block.digest b /\ HVote.height v = Block.height b /\
  HVote.epoch v = Block.epoch b /\
  HVote.digest v = HVote.digest (HVote.unsigned b (Block.author b) OPT).
Proof.
  intros (svc & _ & Hv). unfold HVote.new in Hv. destruct (sign_with _ _); simpl in Hv; [|done..].
  by injection Hv as <-.
Qed.

Lemma vote_on_verifies k b v : k ∈ members c -> vote_on k b v -> HVote.verify v c = Ok tt.
Proof.
  intros Hk (svc & <- & Hv). eapply new_vote_verifies; [|exact Hv]. by apply Hstakes.
Qed.

(** A maker that has counted these votes. *)
Definition gathered (vs : list HVote.t) : QCMaker :=
  mkQCMaker (weight c (authors vs)) (ballots vs) (authors vs).

Lemma gathered_append vs v :
  HVote.author v ∉ authors vs ->
  QCMaker_append v c (gathered vs) =
    if quorum_threshold c <=? weight c (authors (vs ++ [v])) then
      (Ok (Some (qc_of_vote v (ballots (vs ++ [v])))),
       mkQCMaker 0 (ballots (vs ++ [v])) (authors (vs ++ [v])))
    else (Ok None, gathered (vs ++ [v])).
Proof.
  intros Hv. rewrite QCMaker_append_eq. simpl. rewrite decide_False by done.
  pose proof (weight_nonneg c (authors vs) Hwf).
  destruct (counted_weight c (weight c (authors vs)) _ (authors vs) Hwf ltac:(lia) Hv) as [-> _].
  unfold gathered. rewrite authors_snoc, weight_insert, Z.add_comm by done.
  unfold ballots. rewrite fmap_app. by destruct (_ <=? _).
Qed.

(** The node has also processed the block [b], is at its height, and has voted for
    it: the first leader of the next height has been sent the vote, or has counted
    its own. *)
Record reached (k : PublicKey) (b : Block.t) (bs : list Block.t) (s : Core) : Prop := {
  re_synced : synced k (b :: bs) s;
  re_height : height s = Block.height b;
  re_high : QC.height (high_qc s) < Block.height b;
  re_vote : exists v, vote_on k b v /\
    (forall l a, index_as_leader elector l (Block.height b + 1) = Ok (Some 0) -> l <> k ->
       address c l = Ok a -> (HSVote v, [a]) ∈ network_filter s) /\
    (index_as_leader elector k (Block.height b + 1) = Ok (Some 0) ->
       maker_of (Block.height b, Block.digest b) s = gathered [v]);
}.

Lemma reached_same k b bs s t : same s t -> reached k b bs t -> reached k b bs s.
Proof.
  intros Hs [Hsy Hh Hq (v & Hv & Hout & Hm)]. pose proof (synced_same _ _ _ _ Hs Hsy).
  destruct Hs. constructor; [done | congruence | congruence|]. exists v. split; [done|]. split.
  - intros l a Hl Hlk Ha. rewrite same_out. by apply (Hout l).
  - intros Hk. unfold maker_of. rewrite same_makers. by apply Hm.
Qed.

(** Hearing of a certificate of the highest block moves the node to the next height. *)
Lemma heard_synced k bs s q :
  synced k bs s -> QC.height q = len bs -> len bs + 1 < 2 ^ 64 ->
  let t := heard q (entered (len bs) s) in
  synced k bs t /\ height t = len bs + 1 /\
  signed t = signed s /\ network_filter t = network_filter s /\
  (QC.height (high_qc s) < len bs -> high_qc t = q).
Proof.
  intros [Hst Hk Hv Hh Hc Hcc Hq Hm] Hqh Hb. cbv zeta.
  assert (exists t, t = entered (len bs) s /\ synced k bs t /\ height t = len bs + 1 /\
    signed t = signed s /\ network_filter t = network_filter s /\ high_qc t = high_qc s)
    as (t & <- & Hsy & Hht & Hsg & Hnf & Hhq).
  { eexists. split; [reflexivity|]. unfold entered. destruct (Z.ltb_spec (len bs) (height s)).
    - split_and!; try done. lia.
    - split_and!; try done; [|simpl; apply wrap64_small; lia].
      constructor; try done; [by destruct Hst | simpl; rewrite wrap64_small; lia|].
      intros h d Hlt. simpl. rewrite map_lookup_filter, Hm by done. done. }
  unfold heard. rewrite Hhq, Hqh. destruct (Z.ltb_spec (QC.height (high_qc s)) (len bs)).
  - split_and!; try done. destruct Hsy as [Hst' ? ? ? ? ? ? ?].
    constructor; try done; [by destruct Hst' | simpl; lia].
  - split_and!; try done. lia.
Qed.

Lemma signs_ok k svc b tag :
  signs_for k svc -> exists v, HVote.new b k tag svc = Ok v.
Proof.
  intros [_ Hok]. unfold HVote.new. specialize (Hok (HVote.digest (HVote.unsigned b k tag))).
  destruct (sign_with _ _); simpl in *; try done. eauto.
Qed.

Lemma size_bound : 0 < committee_size c /\ 0 <= w <= committee_size c /\ 3 * committee_size c < 2 ^ 64.
Proof.
  split_and!; [lia.. |]. pose proof (wf_total c Hwf). rewrite <- weight_members in *.
  assert (Z.of_nat (length (elements (members c))) <= weight c (members c)) as Hle.
  { unfold weight. assert (forall x, x ∈ elements (members c) -> 1 <= stake c x) as Hl.
    { intros x Hx%elem_of_elements. specialize (Hstakes x Hx). lia. }
    induction (elements (members c)) as [|x l IH]; csimpl; [lia|].
    specialize (IH ltac:(intros; apply Hl; set_solver)). specialize (Hl x ltac:(set_solver)). lia. }
  unfold committee_size, members in *.
  change (length (elements (dom (authorities c)))) with (size (dom (authorities c))) in Hle.
  rewrite size_dom in Hle. lia.
Qed.

Lemma drop_tail {A} (bs : list A) : drop 2 bs = tail (tail bs).
Proof. by destruct bs as [|? [|? ?]]. Qed.

(** The grandparent of the next block ends a walk of at most one block. *)
Lemma grandparent_walk k b bs s :
  synced k bs s -> chained bs -> extends b bs -> new_digest b bs ->
  last_committed_height s < Block.height (tip (tail bs)) ->
  0 <= last_committed_height s /\
  exists l, walk (kv (store (stored b s))) (last_committed_height s) (tip (tail bs)) l.
Proof.
  intros Hsy Hch He Hnew Hlt. pose proof (sy_committed _ _ _ Hsy) as Hc.
  rewrite drop_tail in Hc. split; [lia|]. rewrite Hc in *.
  destruct bs as [|b1 [|b0 bs]]; simpl in *; [lia..|]. destruct Hch as (_ & He0 & Hch).
  assert (holds bs (stored b s)) as Hs.
  { apply Forall_cons in Hnew as [_ Hnew]. apply Forall_cons in Hnew as [_ Hnew].
    pose proof (sy_holds _ _ _ Hsy) as Hh. apply Forall_cons in Hh as [_ Hh].
    apply Forall_cons in Hh as [_ Hh]. unfold holds. rewrite Forall_forall in *.
    intros x Hx. simpl. rewrite lookup_insert_ne; [by apply Hh|].
    specialize (Hnew x Hx). intros Hd. by apply Hnew, digest_bytes_inj. }
  exists [b0]. eapply walk_up; [done | exact (extends_parent b0 bs (stored b s) He0 Hch Hs) |].
  apply walk_end. rewrite tip_height by done. lia.
Qed.

(** *** A node processes the next block *)

Lemma synced_processed k b bs v leaders t :
  synced k bs t -> height t = Block.height b -> extends b bs -> chained bs ->
  new_digest b bs -> HVote.height v = Block.height b ->
  synced k (b :: bs) (processed b (tip (tail bs)) v leaders t).
Proof.
  intros [[] Hk Hvo Hle Hc Hcc Hq Hm] Hh He Hch Hnew Hv. pose proof (proj1 He) as Hb.
  assert (holds (b :: bs) (stored b t)) as Hs.
  { apply Forall_cons. split; [apply lookup_insert_eq|]. unfold holds, new_digest in *.
    rewrite Forall_forall in *. intros x Hx. simpl. rewrite lookup_insert_ne; [by apply Hk|].
    intros Hd. by apply (Hnew x Hx), digest_bytes_inj. }
  assert (drop 2 (b :: bs) = tail bs) as Hd by (by destruct bs).
  assert (Block.height (tip (tail bs)) = len (tail bs)) as Ht.
  { apply tip_height. destruct bs; [done | apply Hch]. }
  rewrite drop_tail in Hc, Hcc. unfold processed, commits_of.
  destruct (Z.ltb_spec (last_committed_height (stored b t)) (Block.height (tip (tail bs))))
    as [Hlt|Hge]; (constructor; [by constructor | exact Hs | csimpl; lia | csimpl; lia | | | csimpl; lia |
      csimpl; intros; apply Hm; lia]); rewrite Hd; csimpl in *; [lia | | | ].
  - rewrite Hcc. destruct bs as [|b1 [|b0 bs]]; simpl in *; [lia..|done].
  - destruct bs as [|b1 [|b0 bs]]; simpl in *; lia.
  - rewrite Hcc. destruct bs as [|b1 [|b0 bs]]; simpl in *; [done.. | lia].
Qed.

(** The node's own vote does not complete a certificate. *)
Lemma own_vote_counted n k b i v t :
  stands k t -> Block.epoch b = 0 -> height t = Block.height b -> Block.height b + 1 < 2 ^ 64 ->
  0 <= Block.height b ->
  index_as_leader elector k (Block.height b + 1) = Ok (Some i) ->
  vote_on k b v -> hs_votes_aggregators (aggregator t) !! (Block.height b, Block.digest b) = None ->
  leads (handle_opt_vote (exec n) v) t tt
    (counted (Block.height b, Block.digest b) (gathered [v]) t).
Proof.
  intros Hst Hep Hh Hb Hpos Hi Hv Hm. destruct (vote_on_fields k b v Hv) as (Ha & Hd & Hvh & Hve & _).
  pose proof (vote_on_verifies k b v (st_member _ _ Hst) Hv) as Hver.
  destruct Hst. rewrite <- Hd, <- Hvh in *.
  eapply leads_continues; [|apply leads_ret]. eapply (vote_is_counted _ _ _ i None).
  - lia.
  - lia.
  - by rewrite st_elector0, st_name0, wrap64_small by lia.
  - by rewrite st_committee0.
  - rewrite st_counts0. unfold maker_of. rewrite Hm. simpl.
    assert (QCMaker_new = gathered []) as ->.
    { unfold gathered, authors. simpl. by rewrite weight_empty. }
    rewrite gathered_append by set_solver. simpl.
    assert (weight c (authors [v]) = stake c k) as ->.
    { unfold authors. simpl. rewrite union_empty_r_L, Ha. apply weight_singleton. }
    destruct (Z.leb_spec (quorum_threshold c) (stake c k)); [|done].
    pose proof (Hstakes k st_member0). lia.
Qed.

Lemma synced_counted k b bs m t :
  Block.height b <= len bs -> synced k bs t ->
  synced k bs (counted (Block.height b, Block.digest b) m t).
Proof.
  intros Hb [[] ? ? ? ? ? ? Hm]. constructor; try done. intros h d Hh. simpl.
  rewrite lookup_insert_ne by (intros [=]; lia). by apply Hm.
Qed.

Lemma mail_sent me m ks k a : k ∈ ks -> me <> k -> address c k = Ok a -> (m, [a]) ∈ mail c me m ks.
Proof.
  intros Hk Hne Ha. unfold mail. apply list_elem_of_omap. exists k.
  split; [by apply list_elem_of_filter | by rewrite Ha].
Qed.

Lemma leads_reach n k b bs t :
  synced k bs t -> height t = Block.height b -> QC.height (high_qc t) < Block.height b ->
  extends b bs -> chained bs -> new_digest b bs -> len bs + 3 < 2 ^ 64 ->
  exists t', leads (process_opt_block (exec (S n)) b) t tt t' /\ reached k b bs t' /\
    signed t `prefix_of` signed t' /\ network_filter t `prefix_of` network_filter t'.
Proof.
  intros Hsy Hh Hq He Hch Hnew Hlen.
  pose proof (sy_stands _ _ _ Hsy) as Hst. pose proof (proj1 He) as Hb.
  destruct size_bound as (Hn0 & Hw' & Hn3).
  destruct (signs_ok k (signature_service t) b OPT (st_service _ _ Hst)) as [v Hv].
  assert (vote_on k b v) as Hvo by (eexists; split; [apply Hst | exact Hv]).
  pose proof (new_vote_height _ _ _ _ _ Hv) as Hvh.
  destruct (get_leaders_members c w Hn0 Hw' Hn3 (Block.height b + 1)) as (ls & Hls & Hmem & Hin).
  destruct (member_place c w Hn0 k (Block.height b) (st_member _ _ Hst)) as [o Ho].
  destruct (member_place c w Hn0 k (Block.height b + 1) (st_member _ _ Hst)) as [next Hnext].
  set (b0 := tip (tail bs)). set (t1 := processed b b0 v ls t).
  assert (synced k (b :: bs) t1) as Hsy1 by by apply synced_processed.
  assert (processable t b (tip bs) b0 v ls next) as Hp.
  { destruct Hst. assert (Block.height b +64 1 = Block.height b + 1) as Hw1 by (apply wrap64_small; lia).
    constructor; try rewrite ?st_elector0, ?st_name0, ?st_committee0, ?Hw1; try done.
    - by eexists.
    - apply extends_parent; [done..|]. apply Hsy.
    - apply tip_parent; [done|]. apply Hsy.
    - unfold b0. destruct bs as [|b1 bs]; [right; by rewrite (proj2 (proj2 (proj2 (proj2 He))))|].
      left. simpl. destruct Hch as [[Hb1 _] Hch]. rewrite tip_height by done. simpl in *.
      rewrite !wrap64_small by lia. lia.
    - intros Hlt. by eapply grandparent_walk.
    - pose proof (sy_voted _ _ _ Hsy). lia.
    - rewrite (qc_height b bs) by done. rewrite wrap64_small; lia. }
  assert (height t1 = Block.height b /\ QC.height (high_qc t1) < Block.height b /\
    hs_votes_aggregators (aggregator t1) = hs_votes_aggregators (aggregator t) /\
    signed t1 = signed t ++ [SignedHVote v] /\
    network_filter t1 = network_filter t ++ mail c k (HSVote v) ls) as (Hh1 & Hq1 & Hm1 & Hs1 & Hn1).
  { unfold t1, processed, commits_of. destruct Hst.
    destruct (_ <? _); csimpl; rewrite ?st_name0, ?st_committee0; done. }
  set (t2 := if bool_decide (is_Some next)
             then counted (Block.height b, Block.digest b) (gathered [v]) t1 else t1).
  assert (synced k (b :: bs) t2 /\ height t2 = height t1 /\ high_qc t2 = high_qc t1 /\
    signed t2 = signed t1 /\ network_filter t2 = network_filter t1) as (Hsy2 & Hh2 & Hq2 & Hs2 & Hn2).
  { unfold t2. destruct (bool_decide _); [|done]. split; [|done].
    apply synced_counted; [simpl; lia | done]. }
  exists t2. split_and!; [| | rewrite Hs2, Hs1; by eexists | rewrite Hn2, Hn1; by eexists].
  - eapply leads_process_opt_block; [exact Hp|]. fold t1. unfold t2.
    destruct next as [i|]; [|done]. rewrite bool_decide_true by eauto.
    apply (own_vote_counted n k b i v t1); try done; [apply Hsy1 | apply He | lia | lia|].
    rewrite Hm1. apply (sy_makers _ _ _ Hsy). lia.
  - constructor; [done | congruence | congruence|]. exists v. split; [done|]. split.
    + intros l a Hl Hlk Ha. rewrite Hn2, Hn1. apply elem_of_app. right.
      apply (mail_sent k _ _ l); [by eapply Hin | done | done].
    + intros Hk. assert (next = Some 0) as -> by congruence. unfold t2, maker_of. simpl.
      by rewrite lookup_insert_eq.
Qed.

(** *** Events *)

Notation Run m n s := (node_event n (Deliver (OnCoreChannel m)) s).

(** A handler that returns [Ok] leaves the node running. *)
Lemma event_leads n m t t' s :
  leads (handle_core_channel n m) t tt t' -> same s t ->
  exists s', Run m n s = (Running, s') /\ same s' t'.
Proof.
  intros Hl Hs. destruct (Hl s Hs) as (s' & Hr & Hs'). exists s'. split; [|done].
  cbn [node_event dispatch]. by rewrite Hr.
Qed.

Lemma arun_log a b : arun a b -> a_signed a `prefix_of` a_signed b.
Proof.
  induction 1 as [a|a b d _ IH Hst|a b _ IH _|a b k v _ IH]; try done.
  etrans; [exact IH|]. destruct Hst; simpl; try done; by eexists.
Qed.

(** The log keeps what a part of the handler has signed. *)
Lemma event_keeps_log n i s m s1 :
  dispatch n i s = m s1 -> safe (epoch s1) m -> epoch s1 < u64_max ->
  signed s1 `prefix_of` signed (node_event n (Deliver i) s).2.
Proof.
  intros Hd Hm He. cbn [node_event]. rewrite Hd. specialize (Hm s1 eq_refl).
  assert (arun (abstract s1) (abstract (m s1).2)) as Hr by (eapply arun_rtc; [apply arun_refl | done]).
  apply rtc_astep_epoch in Hm as [Hme _]. destruct (m s1) as [r s2]. simpl in *.
  destruct (after r); try exact (arun_log _ _ Hr).
  pose proof (next_epoch_run n s2 ltac:(lia)) as Hn. destruct (next_epoch n s2).
  exact (arun_log _ _ (arun_trans _ _ _ Hr Hn)).
Qed.

(** A node that has the chain below a proposal processes it. *)
Lemma proposal_step n k b bs s :
  synced k bs s -> extends b bs -> chained bs -> new_digest b bs -> len bs + 3 < 2 ^ 64 ->
  let s' := (Run (HsPropose b) (S (S n)) s).2 in
  reached k b bs s' /\ signed s `prefix_of` signed s'.
Proof.
  intros Hsy He Hch Hnew Hlen. pose proof (qc_height b bs He Hch) as Hq.
  pose proof (proj1 He) as Hb.
  destruct (heard_synced k bs s (Block.qc b) Hsy Hq ltac:(lia)) as (Hsy' & Hh & Hsg & _ & Hhq).
  rewrite <- Hq in Hsy', Hh, Hsg, Hhq. set (t := heard _ _) in *.
  destruct (leads_reach n k b bs t) as (t' & Hl & Hre & Hp & _); try done.
  { lia. }
  { pose proof (sy_high _ _ _ Hsy'). lia. }
  destruct (event_leads (S (S n)) (HsPropose b) s t' s) as (s' & Hr & Hs').
  { destruct (sy_stands _ _ _ Hsy), He as (_ & Hep & Hi & Hv & _).
    eapply (leads_handle_proposal _ _ _ 0); [congruence | done | congruence | congruence | exact Hl]. }
  { done. }
  rewrite Hr. simpl. split; [by eapply reached_same|].
  rewrite (same_signed _ _ Hs'), <- Hsg. exact Hp.
Qed.

(** *** The first leader of the next height counts the votes *)

Record collecting (l : PublicKey) (b : Block.t) (bs : list Block.t) (vs : list HVote.t)
    (s : Core) : Prop := {
  co_synced : synced l (b :: bs) s;
  co_height : height s = Block.height b;
  co_high : QC.height (high_qc s) < Block.height b;
  co_leader : index_as_leader elector l (Block.height b + 1) = Ok (Some 0);
  co_maker : maker_of (Block.height b, Block.digest b) s = gathered vs;
  co_votes : Forall (fun v => HVote.author v ∈ members c /\ vote_on (HVote.author v) b v) vs;
  co_distinct : NoDup (HVote.author <$> vs);
  co_below : weight c (authors vs) < quorum_threshold c;
}.

(** The certificate of the votes verifies. *)
Lemma gathered_verifies b vs v q m :
  Forall (fun v => HVote.author v ∈ members c /\ vote_on (HVote.author v) b v) vs ->
  NoDup (HVote.author <$> vs) ->
  HVote.author v ∈ members c -> vote_on (HVote.author v) b v ->
  QCMaker_append v c (gathered vs) = (Ok (Some q), m) -> QC.verify q c = Ok tt.
Proof.
  intros Hvs Hnd Hk Hv Ha. set (d := HVote.digest (HVote.unsigned b (Block.author b) OPT)).
  assert (qm_inv c (gathered vs)) as Hinv.
  { constructor; simpl.
    - unfold ballots. by rewrite <- list_fmap_compose.
    - unfold signers, ballots, authors. by rewrite <- list_fmap_compose.
    - pose proof (weight_nonneg c (authors vs) Hwf). lia. }
  assert (votes_verify c d (gathered vs)) as Hver.
  { unfold votes_verify. simpl. unfold ballots. apply Forall_fmap.
    eapply Forall_impl; [exact Hvs|]. intros x [Hx Hxv].
    apply hvote_verify_inv; [by eapply vote_on_verifies|].
    by destruct (vote_on_fields _ _ _ Hxv) as (_ & _ & _ & _ & ->). }
  destruct (vote_on_fields _ _ _ Hv) as (_ & _ & _ & _ & Hd).
  destruct (QCMaker_append_verifies c Hwf d v (gathered vs) (vote_on_verifies _ _ _ Hk Hv) Hd Hinv Hver)
    as [_ Hq].
  rewrite Ha in Hq. by apply Hq.
Qed.

Lemma collect_vote n l b bs vs s v r m :
  collecting l b bs vs s -> chained (b :: bs) -> len bs + 4 < 2 ^ 64 ->
  HVote.author v ∈ members c -> vote_on (HVote.author v) b v ->
  QCMaker_append v c (gathered vs) = (Ok r, m) ->
  continues (handle_opt_vote (exec n) v) s (vote_counted (exec n) 0 r)
    (counted (Block.height b, Block.digest b) m s).
Proof.
  intros [Hsy Hh Hq Hi Hm _ _ _] [He Hch] Hlen Hk Hv Ha. pose proof (proj1 He) as Hb.
  destruct (vote_on_fields _ b v Hv) as (_ & Hd & Hvh & Hve & _).
  pose proof (vote_on_verifies _ b v Hk Hv) as Hver.
  destruct (sy_stands _ _ _ Hsy), He as (_ & Hep & _). rewrite <- Hd, <- Hvh in *.
  apply vote_is_counted; [lia | lia | | congruence | congruence].
  rewrite wrap64_small by lia. congruence.
Qed.

Lemma vote_below n l b bs vs s v :
  collecting l b bs vs s -> chained (b :: bs) -> len bs + 4 < 2 ^ 64 ->
  HVote.author v ∈ members c -> vote_on (HVote.author v) b v ->
  HVote.author v ∉ authors vs -> weight c (authors (vs ++ [v])) < quorum_threshold c ->
  let s' := (Run (HSVote v) n s).2 in
  collecting l b bs (vs ++ [v]) s' /\ signed s' = signed s.
Proof.
  intros Hco Hch Hlen Hk Hv Hnew Hlt. pose proof (gathered_append vs v Hnew) as Ha.
  rewrite (proj2 (Z.leb_gt _ _) Hlt) in Ha.
  destruct (event_leads n (HSVote v) s
    (counted (Block.height b, Block.digest b) (gathered (vs ++ [v])) s) s) as (s' & Hr & Hs').
  { eapply leads_continues; [by eapply collect_vote | apply leads_ret]. }
  { done. }
  cbv zeta. rewrite Hr. simpl. destruct Hco as [Hsy Hh Hq Hi Hm Hvs Hnd _].
  split; [|by rewrite (same_signed _ _ Hs')]. destruct Hch as [He Hch]. constructor.
  - eapply synced_same; [exact Hs'|]. apply synced_counted; [|done].
    rewrite (proj1 He). simpl. lia.
  - by rewrite (same_height _ _ Hs').
  - by rewrite (same_high _ _ Hs').
  - done.
  - unfold maker_of. rewrite (same_makers _ _ Hs'). simpl. by rewrite lookup_insert_eq.
  - apply Forall_app. split; [done|]. by constructor.
  - rewrite fmap_app. apply NoDup_app. split; [done|]. split; [|apply NoDup_singleton].
    intros k Hin ->%list_elem_of_singleton. apply Hnew. unfold authors.
    by rewrite elem_of_list_to_set.
  - done.
Qed.

(** A block that the first leader of its height builds on its highest certificate
    extends the chain. *)
Lemma new_block_extends l bs q p svc b :
  signs_for l svc -> l ∈ members c -> chained bs ->
  index_as_leader elector l (len bs + 1) = Ok (Some 0) ->
  match bs with
  | [] => q = QC.genesis
  | x :: _ => QC.hash q = Block.digest x /\ QC.height q = Block.height x /\ QC.verify q c = Ok tt
  end ->
  Block.new q l (len bs + 1) 0 0 p svc OPT = Ok b -> extends b bs /\ Block.author b = l.
Proof.
  intros [<- _] Hl Hch Hi Hq Hb.
  assert (Block.verify b c = Ok tt) as Hv.
  { eapply new_block_verifies; [by apply Hstakes | exact Hb|].
    destruct bs; [left; by subst | by right; apply Hq]. }
  unfold Block.new in Hb. destruct (sign_with _ _); simpl in Hb; [|done..]. injection Hb as <-.
  split; [|done]. split_and!; try done. destruct bs; [done|]. split; apply Hq.
Qed.

Lemma signs_block l svc q h p : signs_for l svc -> is_ok (Block.new q l h 0 0 p svc OPT).
Proof.
  intros [_ Hok]. unfold Block.new.
  specialize (Hok (Block.digest (Block.mk q l h 0 p Signature_default OPT 0))).
  by destruct (sign_with _ _).
Qed.

Lemma synced_proposed k bs b t : synced k bs t -> synced k bs (proposed b t).
Proof. intros [[] ? ? ? ? ? ? ?]. by constructor. Qed.

(** The member that is the first leader of the next height proposes; it processes its
    block, if this has a new digest. *)
Lemma propose_step n l bs t s :
  synced l bs t -> chained bs -> height t = len bs + 1 -> QC.height (high_qc t) = len bs ->
  index_as_leader elector l (len bs + 1) = Ok (Some 0) -> len bs + 3 < 2 ^ 64 ->
  match bs with
  | [] => high_qc t = QC.genesis
  | x :: _ => QC.hash (high_qc t) = Block.digest x /\ QC.verify (high_qc t) c = Ok tt
  end ->
  same s t ->
  exists b s1, opt_propose (exec (S (S n))) s = process_own (exec (S (S n))) b s1 /\
    same s1 (proposed b t) /\ extends b bs /\ Block.author b = l /\
    (new_digest b bs -> exists s', opt_propose (exec (S (S n))) s = (Ok tt, s') /\
       reached l b bs s' /\ signed s1 `prefix_of` signed s' /\
       (HsPropose b, broadcast_addresses c l) ∈ network_filter s').
Proof.
  intros Hsy Hch Hh Hqh Hi Hlen Hq Hs. destruct (sy_stands _ _ _ Hsy).
  destruct (block_is_proposed (exec (S (S n))) t s 0) as (p & b & s1 & Hb & Hr & Hs1); try done.
  { by rewrite st_elector0, st_name0, Hh. }
  { intros p. rewrite st_name0, st_epoch0. by apply signs_block. }
  rewrite st_name0, st_epoch0, Hh in Hb.
  destruct (new_block_extends l bs (high_qc t) p (signature_service t) b) as [He Ha]; try done.
  { pose proof (tip_height bs Hch). destruct bs as [|x bs]; [done|]. simpl in *.
    split_and!; [apply Hq | lia | apply Hq]. }
  exists b, s1. split_and!; try done. intros Hnew. pose proof (proj1 He) as Hbh.
  destruct (leads_reach n l b bs (proposed b t)) as (t' & Hl & Hre & Hps & Hpn); try done.
  { by apply synced_proposed. }
  { simpl. lia. }
  { simpl. lia. }
  destruct (leads_process_own (exec (S (S n))) b (proposed b t) t' Hl s1 Hs1) as (s' & Hr' & Hs').
  exists s'. rewrite Hr, Hr'. split; [done|]. split; [by eapply reached_same|].
  rewrite (same_signed _ _ Hs'), (same_signed _ _ Hs1). split; [done|].
  rewrite (same_out _ _ Hs'). destruct Hpn as [x ->]. apply elem_of_app. left.
  simpl. rewrite st_committee0, st_name0. apply elem_of_app. right. by left.
Qed.

Lemma safe_process_own n e b : Block.epoch b = e -> safe e (process_own (exec n) b).
Proof.
  intros He. apply safe_bind; [by apply safe_exec | intros _].
  apply safe_bind; [apply quiet_safe, quiet_gets | intros p].
  apply quiet_safe, quiet_when. intros _. apply quiet_sleep.
Qed.

(** The vote that completes the quorum. *)
Lemma vote_completes n l b bs vs s v :
  collecting l b bs vs s -> chained (b :: bs) -> len bs + 4 < 2 ^ 64 ->
  HVote.author v ∈ members c -> vote_on (HVote.author v) b v ->
  HVote.author v ∉ authors vs -> quorum_threshold c <= weight c (authors (vs ++ [v])) ->
  let s' := (Run (HSVote v) (S (S n)) s).2 in
  exists b', extends b' (b :: bs) /\ Block.author b' = l /\ signed s `prefix_of` signed s' /\
    SignedBlock b' ∈ signed s' /\
    (new_digest b' (b :: bs) ->
       reached l b' (b :: bs) s' /\ (HsPropose b', broadcast_addresses c l) ∈ network_filter s').
Proof.
  intros Hco Hch Hlen Hk Hv Hnew Hle. pose proof (gathered_append vs v Hnew) as Ha.
  rewrite (proj2 (Z.leb_le _ _) Hle) in Ha.
  set (q := qc_of_vote v (ballots (vs ++ [v]))) in *. set (m := mkQCMaker 0 _ _) in *.
  pose proof (collect_vote (S (S n)) l b bs vs s v _ _ Hco Hch Hlen Hk Hv Ha) as Hc.
  destruct Hco as [Hsy Hh Hhq Hi Hm Hvs Hnd _]. pose proof (proj1 (proj1 Hch)) as Hb.
  assert (QC.verify q c = Ok tt) as Hqv by (by eapply gathered_verifies).
  destruct (vote_on_fields _ b v Hv) as (_ & Hd & Hvh & _).
  assert (QC.height q = len (b :: bs)) as Hqh by (simpl; lia).
  set (t1 := counted (Block.height b, Block.digest b) m s) in *.
  assert (synced l (b :: bs) t1) as Hsy1 by (apply synced_counted; [simpl; lia | done]).
  destruct (heard_synced l (b :: bs) t1 q Hsy1 Hqh ltac:(simpl; lia)) as (Hsy2 & Hh2 & Hsg2 & _ & Hq2).
  specialize (Hq2 ltac:(simpl in *; lia)).
  pose proof (leads_process_qc q t1) as Hl. rewrite Hqh in Hl. set (t2 := heard q _) in *.
  destruct (Hc s ltac:(done)) as (s1 & Hr1 & Hs1).
  destruct (Hl s1 Hs1) as (s2 & Hr2 & Hs2).
  assert (handle_opt_vote (exec (S (S n))) v s = opt_propose (exec (S (S n))) s2) as Hr.
  { rewrite Hr1. unfold vote_counted, mbind, act_bind. by rewrite Hr2. }
  destruct (propose_step n l (b :: bs) t2 s2) as (b' & s3 & Hr3 & Hs3 & He & Hau & Hdone); try done.
  { by rewrite Hq2. }
  { rewrite <- Hi. f_equal. simpl. lia. }
  { simpl. lia. }
  { rewrite Hq2. split; [exact Hd | done]. }
  assert (signed s3 `prefix_of` signed (Run (HSVote v) (S (S n)) s).2) as Hp.
  { apply (event_keeps_log (S (S n)) _ s (process_own (exec (S (S n))) b')).
    - cbn [dispatch handle_core_channel]. by rewrite Hr.
    - apply safe_process_own. rewrite (same_epoch _ _ Hs3).
      transitivity 0; [apply He | symmetry; apply (sy_stands _ _ _ Hsy2)].
    - rewrite (same_epoch _ _ Hs3). simpl. rewrite (st_epoch _ _ (sy_stands _ _ _ Hsy2)). done. }
  assert (signed s3 = signed s ++ [SignedBlock b']) as Hs3'.
  { rewrite (same_signed _ _ Hs3). simpl. by rewrite Hsg2. }
  rewrite Hs3' in Hp. exists b'. split_and!; try done.
  - etrans; [|exact Hp]. by eexists.
  - destruct Hp as [x ->]. set_solver.
  - intros Hnd'. destruct (Hdone Hnd') as (s' & Hr' & Hre & _ & Hout).
    cbn [node_event dispatch handle_core_channel]. rewrite Hr, Hr'. done.
Qed.

(** *** The boot *)

Definition booting (k : PublicKey) (s : Core) : Prop :=
  synced k [] s /\ opt_path s = true /\ height s = 1 /\ high_qc s = QC.genesis.

Lemma core_new_booting k ps svc pks st now :
  k ∈ members c -> signs_for k svc ->
  booting k (Core_new k c ps svc pks st elector true false now).
Proof.
  intros Hk Hs. split; [|done]. constructor; try done. by constructor.
Qed.

Lemma boot_waits n k s :
  booting k s -> index_as_leader elector k 1 <> Ok (Some 0) -> synced k [] (start n s).2.
Proof.
  intros (Hsy & Hopt & Hh & _) Hi. destruct (sy_stands _ _ _ Hsy), size_bound as (Hn0 & _).
  assert (leads (run_boot n) s tt s) as Hl.
  { destruct (member_place c w Hn0 k 1 st_member0) as [o Ho]. unfold run_boot.
    eapply leads_bind; [by apply leads_gets; intros ? []|].
    eapply leads_bind; [by apply leads_gets; intros ? []|]. cbv beta. rewrite Hopt.
    eapply (leads_bind _ _ _ tt s).
    - eapply leads_bind; [by apply leads_gets; intros ? []|].
      eapply leads_bind; [by apply leads_gets; intros ? []|].
      eapply leads_bind; [by apply leads_gets; intros ? []|]. cbv beta.
      rewrite st_elector0, st_name0, Hh.
      eapply leads_bind; [by apply leads_lift|]. destruct o as [i|]; [|apply leads_ret].
      destruct (Z.eqb_spec i 0) as [->|_]; [done|].
      eapply leads_bind; [by apply leads_gets; intros ? []|]. apply leads_timer_reset.
    - intros s1 Hs1. exists s1. unfold gets. run_act. by rewrite st_pes0. }
  destruct (Hl s ltac:(done)) as (s' & Hr & Hs'). unfold start. rewrite Hr. simpl.
  by eapply synced_same.
Qed.

Lemma boot_proposes n k s :
  booting k s -> index_as_leader elector k 1 = Ok (Some 0) ->
  exists b, extends b [] /\ Block.author b = k /\ reached k b [] (start (S (S n)) s).2 /\
    SignedBlock b ∈ signed (start (S (S n)) s).2 /\
    (HsPropose b, broadcast_addresses c k) ∈ network_filter (start (S (S n)) s).2.
Proof.
  intros (Hsy & Hopt & Hh & Hq) Hi.
  destruct (propose_step n k [] s s) as (b & s1 & _ & Hs1 & He & Ha & Hnew); try done.
  { by rewrite Hq. }
  destruct Hnew as (s' & Hr & Hre & [x Hsg] & Hout); [constructor|]. exists b.
  destruct (sy_stands _ _ _ Hsy).
  assert ((start (S (S n)) s).2 = s') as ->.
  { unfold start, run_boot. run_act. rewrite Hopt, st_elector0, st_name0, Hh, Hi. unfold lift.
    cbn [Z.eqb]. unfold ignore_err. rewrite Hr. by rewrite st_pes0. }
  split_and!; try done. rewrite Hsg, (same_signed _ _ Hs1). simpl. set_solver.
Qed.

(** ** The system *)

Section System.
Context (n : nat) (cores : gmap PublicKey Core).

Notation fuel := (S (S n)).
Notation executes := (execution fuel c cores).
Notation deliver m k s nodes := (<[k := (Run m fuel s).2]> nodes).

(** When a message is sent, in a run that delivers what is sent at once. *)
Definition stage (m : ConsensusMessage) : Z :=
  match m with
  | HsPropose b => 2 * Block.height b
  | HSVote v => 2 * HVote.height v + 1
  | _ => 0
  end.

Definition before (z : Z) (log : Deliveries) : Prop := Forall (fun x => stage x.2 < z) log.

Lemma signed_in_step nodes k s s' b :
  nodes !! k = Some s -> signed s `prefix_of` signed s' ->
  signed_in nodes b -> signed_in (<[k := s']> nodes) b.
Proof.
  intros Hk [l Hl] (j & x & Hj & Hb). destruct (decide (j = k)) as [->|Hne].
  - exists k, s'. rewrite lookup_insert_eq, Hl. simplify_eq. set_solver.
  - exists j, x. by rewrite lookup_insert_ne.
Qed.

Lemma member_address k : k ∈ members c -> exists a, address c k = Ok a /\
  forall me, me <> k -> a ∈ broadcast_addresses c me.
Proof.
  unfold members. intros [x Hx]%elem_of_dom. unfold address. rewrite Hx.
  exists (auth_address x). split; [done|]. intros me Hme. unfold broadcast_addresses, authority_list.
  apply list_elem_of_fmap. exists x. split; [done|]. apply list_elem_of_filter.
  rewrite (wf_name c Hwf k x Hx). split; [done|]. apply list_elem_of_fmap.
  exists (k, x). by rewrite elem_of_map_to_list.
Qed.

Lemma chained_heights bs x : chained bs -> x ∈ bs -> Block.height x <= len bs.
Proof.
  induction bs as [|b bs IH]; [set_solver|]. intros [He Hch] [->|Hx]%elem_of_cons; simpl.
  - rewrite (proj1 He). lia.
  - specialize (IH Hch Hx). lia.
Qed.

Lemma extends_collision nodes b bs :
  extends b bs -> chained bs -> Forall (signed_in nodes) (b :: bs) ->
  collision nodes \/ new_digest b bs.
Proof.
  intros He Hch [Hb Hs]%Forall_cons. destruct (decide (new_digest b bs)) as [|Hn]; [by right|].
  left. unfold new_digest in Hn. apply not_Forall_Exists in Hn; [|intros x; apply _].
  apply Exists_exists in Hn as (x & Hx & Hd). apply dec_stable in Hd.
  rewrite Forall_forall in Hs. exists x, b. split_and!; try by auto.
  pose proof (chained_heights bs x Hch Hx). rewrite (proj1 He). lia.
Qed.

(** *** A proposal reaches every member *)

(** The members of [ks] have not yet processed the block [b]. *)
Record spreading (b : Block.t) (bs : list Block.t) (ks : list PublicKey)
    (nodes : gmap PublicKey Core) (log : Deliveries) : Prop := {
  sp_run : executes nodes log;
  sp_members : dom nodes = members c;
  sp_left : NoDup ks /\ Block.author b ∉ ks /\ forall k, k ∈ ks -> k ∈ members c;
  sp_log : forall k m, (k, m) ∈ log ->
    stage m < 2 * Block.height b \/ (m = HsPropose b /\ k ∉ ks);
  sp_nodes : forall k s, nodes !! k = Some s ->
    if decide (k ∈ ks) then synced k bs s else reached k b bs s;
  sp_sent : exists s, nodes !! Block.author b = Some s /\
    (HsPropose b, broadcast_addresses c (Block.author b)) ∈ network_filter s;
  sp_signed : Forall (signed_in nodes) (b :: bs);
}.

Lemma spread_step b bs k ks nodes log :
  chained (b :: bs) -> new_digest b bs -> len bs + 3 < 2 ^ 64 ->
  spreading b bs (k :: ks) nodes log ->
  exists nodes' log', spreading b bs ks nodes' log'.
Proof.
  intros [He Hch] Hnew Hlen [Hrun Hdom (Hnd & Hau & Hks) Hlog Hnodes (sl & Hsl & Hout) Hsg].
  apply NoDup_cons in Hnd as [Hk Hnd].
  assert (k ∈ members c) as Hkm by (apply Hks; set_solver).
  assert (exists s, nodes !! k = Some s) as [s Hs].
  { rewrite <- Hdom in Hkm. by apply elem_of_dom in Hkm. }
  pose proof (Hnodes k s Hs) as Hsy. rewrite decide_True in Hsy by set_solver.
  destruct (proposal_step n k b bs s Hsy He Hch Hnew Hlen) as [Hre Hp].
  exists (deliver (HsPropose b) k s nodes), (log ++ [(k, HsPropose b)]). constructor.
  - apply ex_deliver; [done..| |].
    + destruct (member_address k Hkm) as (a & Ha & Hin).
      exists (Block.author b), sl, a, (broadcast_addresses c (Block.author b)).
      split_and!; try done. apply Hin. set_solver.
    + intros [Hlt|[_ Hnk]]%Hlog; [simpl in Hlt; lia | set_solver].
  - rewrite dom_insert_L, Hdom. set_solver.
  - split_and!; [done | set_solver | set_solver].
  - intros k' m [Hin|Hin%list_elem_of_singleton]%elem_of_app.
    + destruct (Hlog k' m Hin) as [|[-> Hnk]]; [by left | right; set_solver].
    + right. by injection Hin as -> ->.
  - intros k' s' [[<- <-]|[Hne Hs']]%lookup_insert_Some.
    + by rewrite decide_False.
    + specialize (Hnodes k' s' Hs'). destruct (decide (k' ∈ ks)).
      * by rewrite decide_True in Hnodes by set_solver.
      * by rewrite decide_False in Hnodes by set_solver.
  - exists sl. rewrite lookup_insert_ne by set_solver. done.
  - eapply Forall_impl; [exact Hsg|]. intros x. by eapply signed_in_step.
Qed.

Lemma spread b bs ks nodes log :
  chained (b :: bs) -> new_digest b bs -> len bs + 3 < 2 ^ 64 ->
  spreading b bs ks nodes log ->
  exists nodes' log', spreading b bs [] nodes' log'.
Proof.
  intros Hch Hnew Hlen. revert nodes log. induction ks as [|k ks IH]; intros nodes log Hsp; [eauto|].
  destruct (spread_step b bs k ks nodes log Hch Hnew Hlen Hsp) as (nodes' & log' & Hsp').
  by eapply IH.
Qed.

(** *** The first leader of the next height collects the votes *)

(** A block has just been proposed. *)
Record proposing (b : Block.t) (bs : list Block.t) (nodes : gmap PublicKey Core)
    (log : Deliveries) : Prop := {
  pg_chain : chained (b :: bs);
  pg_new : new_digest b bs;
  pg_spreading : forall ks, NoDup ks ->
    (forall k, k ∈ ks <-> k ∈ members c /\ k <> Block.author b) -> spreading b bs ks nodes log;
}.

(** The leader [l] has counted the votes [vs]; those of the members [ks] are missing. *)
Record counting (l : PublicKey) (b : Block.t) (bs : list Block.t) (vs : list HVote.t)
    (ks : list PublicKey) (nodes : gmap PublicKey Core) (log : Deliveries) : Prop := {
  ct_run : executes nodes log;
  ct_members : dom nodes = members c;
  ct_left : NoDup ks /\ l ∉ ks /\ (forall k, k ∈ ks -> k ∉ authors vs) /\
    forall k, k ∈ members c <-> k ∈ authors vs \/ k ∈ ks;
  ct_log : forall k m, (k, m) ∈ log -> stage m < 2 * Block.height b + 1 \/
    exists v, m = HSVote v /\ HVote.height v = Block.height b /\ HVote.author v ∈ authors vs;
  ct_leader : exists s, nodes !! l = Some s /\ collecting l b bs vs s;
  ct_others : forall k s, nodes !! k = Some s -> k <> l -> reached k b bs s;
  ct_signed : Forall (signed_in nodes) (b :: bs);
}.

Lemma quorum_le_total : quorum_threshold c <= weight c (members c).
Proof.
  rewrite quorum_threshold_exact, weight_members by done. pose proof (wf_total c Hwf). dlia.
Qed.

(** A missing vote is in flight to the leader. *)
Lemma next_vote l b bs vs k ks nodes log :
  counting l b bs vs (k :: ks) nodes log ->
  exists s v, nodes !! l = Some s /\ collecting l b bs vs s /\
    HVote.author v = k /\ k ∈ members c /\ vote_on k b v /\ k ∉ authors vs /\
    executes (deliver (HSVote v) l s nodes) (log ++ [(l, HSVote v)]) /\
    dom (deliver (HSVote v) l s nodes) = members c.
Proof.
  intros [Hrun Hdom (_ & Hl & Hout & Hall) Hlog (s & Hs & Hco) Hoth _].
  assert (k ∈ members c) as Hkm by (apply Hall; set_solver).
  assert (exists x, nodes !! k = Some x) as [x Hx].
  { pose proof Hkm as Hk. rewrite <- Hdom in Hk. by apply elem_of_dom in Hk. }
  destruct (Hoth k x Hx ltac:(set_solver)) as [_ _ _ (v & Hv & Hsent & _)].
  destruct (vote_on_fields k b v Hv) as (Ha & _ & Hvh & _).
  assert (l ∈ members c) as Hlm by (rewrite <- Hdom; apply elem_of_dom; eauto).
  exists s, v. split_and!; try done; [set_solver | |].
  - apply ex_deliver; [done..| |].
    + destruct (member_address l Hlm) as (a & Haddr & _). exists k, x, a, [a].
      split_and!; try done; [|set_solver]. apply (Hsent l); [apply Hco | set_solver | done].
    + intros [Hlt|(v' & [= <-] & _ & Hin)]%Hlog; [simpl in Hlt; lia | set_solver].
  - rewrite dom_insert_L, Hdom. set_solver.
Qed.

Lemma counting_goes_on l b bs vs v ks nodes log (s s' : Core) :
  counting l b bs vs (HVote.author v :: ks) nodes log ->
  executes (<[l := s']> nodes) (log ++ [(l, HSVote v)]) -> dom (<[l := s']> nodes) = members c ->
  nodes !! l = Some s -> collecting l b bs (vs ++ [v]) s' -> signed s' = signed s ->
  HVote.height v = Block.height b ->
  counting l b bs (vs ++ [v]) ks (<[l := s']> nodes) (log ++ [(l, HSVote v)]).
Proof.
  intros [_ _ (Hnd & Hl & Hout & Hall) Hlog _ Hoth Hsg] Hrun Hdom Hs Hco Hsg' Hvh.
  apply NoDup_cons in Hnd as [Hk Hnd]. constructor; try done.
  - rewrite authors_snoc. split_and!; [done | set_solver | set_solver|].
    intros k'. rewrite Hall. set_solver.
  - intros k' m [Hin|Hin%list_elem_of_singleton]%elem_of_app; rewrite authors_snoc.
    + destruct (Hlog k' m Hin) as [|(v' & ? & ? & ?)]; [by left | right].
      exists v'. split_and!; [done..|set_solver].
    + right. injection Hin as -> ->. exists v. split_and!; [done..|set_solver].
  - eexists. rewrite lookup_insert_eq. by split.
  - intros k' x Hx Hne. rewrite lookup_insert_ne in Hx by done. by apply Hoth.
  - eapply Forall_impl; [exact Hsg|]. intros y. eapply signed_in_step; [done|]. by rewrite Hsg'.
Qed.

Lemma counting_ends l b bs vs v ks nodes log (s s' : Core) b' :
  counting l b bs vs ks nodes log -> chained (b :: bs) ->
  executes (<[l := s']> nodes) (log ++ [(l, HSVote v)]) -> dom (<[l := s']> nodes) = members c ->
  HVote.height v = Block.height b -> extends b' (b :: bs) -> Block.author b' = l ->
  Forall (signed_in (<[l := s']> nodes)) (b' :: b :: bs) -> new_digest b' (b :: bs) ->
  reached l b' (b :: bs) s' -> (HsPropose b', broadcast_addresses c l) ∈ network_filter s' ->
  proposing b' (b :: bs) (<[l := s']> nodes) (log ++ [(l, HSVote v)]).
Proof.
  intros [_ _ _ Hlog _ Hoth _] Hch Hrun Hdom Hvh He Hau Hsg Hnew Hre Hsent.
  split; [by split | done|]. intros ks' Hnd Hks. pose proof (proj1 (proj1 Hch)) as Hb.
  constructor; try done.
  - split_and!; [done | rewrite Hks; naive_solver | intros k Hk%Hks; apply Hk].
  - intros k m [Hin|Hin%list_elem_of_singleton]%elem_of_app; left;
      rewrite (proj1 He); cbn [length]; rewrite Nat2Z.inj_succ.
    + destruct (Hlog k m Hin) as [|(v' & -> & Hv' & _)]; simpl; lia.
    + injection Hin as -> ->. simpl. lia.
  - intros k x Hx. assert (k ∈ members c) as Hkm by (rewrite <- Hdom; by apply elem_of_dom_2 in Hx).
    apply lookup_insert_Some in Hx as [[<- <-]|[Hne Hx]].
    + rewrite decide_False by (rewrite Hks; naive_solver). done.
    + rewrite decide_True by (rewrite Hks, Hau; naive_solver). by apply (Hoth k x Hx).
  - rewrite Hau. eexists. split; [apply lookup_insert_eq | done].
Qed.

Lemma count_step l b bs vs k ks nodes log :
  chained (b :: bs) -> len bs + 4 < 2 ^ 64 -> counting l b bs vs (k :: ks) nodes log ->
  (exists v nodes' log', counting l b bs (vs ++ [v]) ks nodes' log') \/
  exists nodes' log', executes nodes' log' /\
    (collision nodes' \/ exists b', proposing b' (b :: bs) nodes' log').
Proof.
  intros Hch Hlen Hct.
  destruct (next_vote _ _ _ _ _ _ _ _ Hct) as (s & v & Hs & Hco & <- & Hkm & Hv & Hnew & Hrun & Hdom).
  destruct (vote_on_fields _ b v Hv) as (_ & _ & Hvh & _).
  destruct (Z.lt_ge_cases (weight c (authors (vs ++ [v]))) (quorum_threshold c)) as [Hlt|Hge].
  - left. destruct (vote_below fuel l b bs vs s v Hco Hch Hlen Hkm Hv Hnew Hlt) as [Hco' Hsg'].
    do 3 eexists. by eapply counting_goes_on.
  - right. do 2 eexists. split; [exact Hrun|].
    destruct (vote_completes n l b bs vs s v Hco Hch Hlen Hkm Hv Hnew Hge)
      as (b' & He & Hau & Hp & Hb' & Hdone).
    assert (Forall (signed_in (deliver (HSVote v) l s nodes)) (b' :: b :: bs)) as Hsg'.
    { apply Forall_cons. split; [by exists l; eexists; split; [apply lookup_insert_eq|]|].
      eapply Forall_impl; [apply Hct|]. intros y. by eapply signed_in_step. }
    destruct (extends_collision _ b' (b :: bs) He Hch Hsg') as [|Hnd']; [by left | right].
    destruct (Hdone Hnd') as [Hre Hsent]. exists b'. by eapply counting_ends.
Qed.

Lemma count_votes l b bs vs ks nodes log :
  chained (b :: bs) -> len bs + 4 < 2 ^ 64 -> counting l b bs vs ks nodes log ->
  exists nodes' log', executes nodes' log' /\
    (collision nodes' \/ exists b', proposing b' (b :: bs) nodes' log').
Proof.
  intros Hch Hlen. revert vs nodes log. induction ks as [|k ks IH]; intros vs nodes log Hct.
  - destruct (ct_left _ _ _ _ _ _ _ Hct) as (_ & _ & _ & Hall).
    destruct (ct_leader _ _ _ _ _ _ _ Hct) as (s & _ & Hco).
    pose proof (co_below _ _ _ _ _ Hco). pose proof quorum_le_total.
    assert (weight c (members c) <= weight c (authors vs)); [|lia].
    apply weight_mono; [done|]. intros k Hk%Hall. set_solver.
  - destruct (count_step l b bs vs k ks nodes log Hch Hlen Hct) as [(v & nodes' & log' & Hct')|]; [|done].
    by eapply IH.
Qed.

Lemma spreading_all b bs nodes log :
  proposing b bs nodes log -> len bs + 3 < 2 ^ 64 ->
  exists nodes' log', spreading b bs [] nodes' log'.
Proof.
  intros [Hch Hnew Hsp] Hlen.
  apply (spread b bs (elements (members c ∖ {[Block.author b]})) nodes log Hch Hnew Hlen).
  apply Hsp; [apply NoDup_elements|]. set_solver.
Qed.

(** All have voted: the leader of the next height starts with its own vote. *)
Lemma counting_starts b bs nodes log :
  extends b bs -> spreading b bs [] nodes log ->
  exists l v ks, counting l b bs [v] ks nodes log.
Proof.
  intros He [Hrun Hdom _ Hlog Hnodes _ Hsg]. destruct size_bound as (Hn0 & Hw' & Hn3).
  assert (0 < w) as Hw0 by lia.
  destruct (first_leader c w Hn0 Hw' Hn3 (Block.height b + 1) Hw0) as (l & Hlm & Hi).
  assert (exists s, nodes !! l = Some s) as [s Hs].
  { pose proof Hlm as Hl. rewrite <- Hdom in Hl. by apply elem_of_dom in Hl. }
  pose proof (Hnodes l s Hs) as Hre. rewrite decide_False in Hre by set_solver.
  destruct Hre as [Hsy Hh Hq (v & Hv & _ & Hm)].
  destruct (vote_on_fields l b v Hv) as (Ha & _).
  assert (authors [v] = {[l]}) as Hav.
  { unfold authors. simpl. by rewrite union_empty_r_L, Ha. }
  exists l, v, (elements (members c ∖ {[l]})). constructor; try done.
  - rewrite Hav. split_and!; [apply NoDup_elements | set_solver | set_solver|].
    intros k. destruct (decide (k = l)); set_solver.
  - intros k m Hin. left. destruct (Hlog k m Hin) as [|[-> _]]; simpl; lia.
  - exists s. split; [done|]. constructor; try done.
    + by apply Hm.
    + constructor; [by rewrite Ha | constructor].
    + apply NoDup_singleton.
    + rewrite Hav, weight_singleton. by apply Hstakes.
  - intros k x Hx _. specialize (Hnodes k x Hx). by rewrite decide_False in Hnodes by set_solver.
Qed.

Lemma next_block b bs nodes log :
  proposing b bs nodes log -> len bs + 4 < 2 ^ 64 ->
  exists nodes' log', executes nodes' log' /\
    (collision nodes' \/ exists b', proposing b' (b :: bs) nodes' log').
Proof.
  intros Hpr Hlen. destruct (spreading_all b bs nodes log Hpr ltac:(lia)) as (nodes1 & log1 & Hsp).
  destruct (pg_chain _ _ _ _ Hpr) as [He Hch].
  destruct (counting_starts b bs nodes1 log1 He Hsp) as (l & v & ks & Hct).
  by eapply count_votes.
Qed.

(** The boot, after which the first block is proposed. *)
Lemma first_block :
  map_Forall booting cores -> dom cores = members c ->
  exists b nodes log, proposing b [] nodes log.
Proof.
  intros Hboot Hdom. destruct size_bound as (Hn0 & Hw' & Hn3). assert (0 < w) as Hw0 by lia.
  destruct (first_leader c w Hn0 Hw' Hn3 1 Hw0) as (l & Hlm & Hi).
  assert (exists s, cores !! l = Some s) as [s Hs].
  { pose proof Hlm as Hl. rewrite <- Hdom in Hl. by apply elem_of_dom in Hl. }
  destruct (boot_proposes n l s (Hboot l s Hs) Hi) as (b & He & Ha & Hre & Hb & Hout).
  set (nodes := (fun s => (start fuel s).2) <$> cores).
  assert (nodes !! l = Some (start fuel s).2) as Hl by (unfold nodes; by rewrite lookup_fmap, Hs).
  exists b, nodes, []. split; [by split | constructor|]. intros ks Hnd Hks. constructor.
  - apply ex_boot.
  - unfold nodes. by rewrite dom_fmap_L.
  - split_and!; [done | rewrite Hks; naive_solver | intros k Hk%Hks; apply Hk].
  - set_solver.
  - intros k x Hx. unfold nodes in Hx. rewrite lookup_fmap in Hx.
    destruct (cores !! k) as [core|] eqn:Hk; [|done]. injection Hx as <-.
    assert (k ∈ members c) as Hkm by (rewrite <- Hdom; by eapply elem_of_dom_2).
    destruct (decide (k = l)) as [->|Hne].
    + rewrite decide_False by (rewrite Hks; naive_solver). by simplify_eq.
    + rewrite decide_True by (rewrite Hks, Ha; naive_solver). apply boot_waits; [by apply Hboot|].
      intros Hi'. apply Hne. by eapply (first_leader_unique c w Hn0 Hw' Hn3 1).
  - rewrite Ha. by eexists.
  - constructor; [by exists l, (start fuel s).2 | constructor].
Qed.

Lemma chain_of_length (top : nat) :
  map_Forall booting cores -> dom cores = members c -> Z.of_nat top + 4 < 2 ^ 64 ->
  exists nodes log, executes nodes log /\
    (collision nodes \/ exists b bs, length bs = top /\ proposing b bs nodes log).
Proof.
  intros Hboot Hdom. induction top as [|top IH]; intros Hlen.
  - destruct (first_block Hboot Hdom) as (b & nodes & log & Hpr). exists nodes, log.
    split; [|right; by exists b, []].
    destruct (spreading_all b [] nodes log Hpr) as (? & ? & _); [done|].
    apply (sp_run b [] (elements (members c ∖ {[Block.author b]}))).
    apply (pg_spreading _ _ _ _ Hpr); [apply NoDup_elements | set_solver].
  - destruct IH as (nodes & log & Hrun & [Hc|(b & bs & Hl & Hpr)]); [lia | by exists nodes, log; auto|].
    destruct (next_block b bs nodes log Hpr ltac:(lia)) as (nodes' & log' & Hrun' & [Hc|[b' Hpr']]).
    + exists nodes', log'. auto.
    + exists nodes', log'. split; [done|]. right. exists b', (b :: bs). split; [simpl; lia | done].
Qed.

Lemma chain_heights bs : chained bs -> Block.height <$> rev bs = seqZ 1 (len bs).
Proof.
  induction bs as [|b bs IH]; [done|]. intros [He Hch]. simpl. rewrite fmap_app, IH by done.
  rewrite Nat2Z.inj_succ, <- Z.add_1_r, seqZ_app by lia. f_equal. simpl.
  rewrite (proj1 He), seqZ_cons by lia. simpl. f_equal. lia.
Qed.
End System.
End Chain.

(** ** The theorem *)

(** C3: The chain grows.  In the optimistic deployment without faults ([deployment]: a
    well-formed committee in which every stake is positive and below the quorum, so not
    a committee of one; a leader window between 1 and the size of the committee; every
    member a new node whose service signs; mempools and databases that answer), the
    nodes boot and, for any height below [2^64 - 8], messages that are in flight can be
    delivered, each at most once to a member, such that in the end all members have
    committed the same blocks of the heights from 1 to that height, in this order; or
    two blocks of different heights that members have signed share a digest.  Fuel for
    two nested calls is enough. *)
Theorem chain_grows (c : Committee) (w : Z) (cores : gmap PublicKey Core) (fuel top : nat) :
  deployment c w cores -> (2 <= fuel)%nat -> Z.of_nat top + 8 < 2 ^ 64 ->
  exists nodes log, execution fuel c cores nodes log /\
    (collision nodes \/
     exists chain, Block.height <$> chain = seqZ 1 (Z.of_nat top) /\ dom nodes = members c /\
       map_Forall (fun _ s => commit_channel s = chain) nodes).
Proof.
  intros [Hwf Hw Hst Hdom Hnodes] Hfuel Htop. destruct fuel as [|[|n]]; [lia..|].
  assert (map_Forall (booting c w) cores) as Hboot.
  { intros k s Hs. destruct (Hnodes k s Hs) as (ps & svc & pks & st & now & -> & <- & Hsvc).
    apply core_new_booting; [|done]. rewrite <- Hdom. by eapply elem_of_dom_2. }
  destruct (chain_of_length c w Hwf Hw Hst n cores (S top) Hboot Hdom ltac:(lia))
    as (nodes & log & Hrun & [Hc|(b & bs & Hl & Hpr)]); [by exists nodes, log; auto|].
  destruct (spreading_all c w Hwf Hw Hst n cores b bs nodes log Hpr ltac:(lia))
    as (nodes' & log' & [Hrun' Hdom' _ _ Hre _ _]).
  exists nodes', log'. split; [done|]. right. destruct (pg_chain _ _ _ _ _ _ _ _ Hpr) as [_ Hch].
  assert (length (tail bs) = top) as Hlt by (destruct bs; simpl in *; lia).
  exists (rev (tail bs)). rewrite <- Hlt. split.
  { apply (chain_heights c w). destruct bs; [done | apply Hch]. }
  split; [done|]. intros k s Hs. specialize (Hre k s Hs). rewrite decide_False in Hre by set_solver.
  rewrite (sy_commits _ _ _ _ _ (re_synced _ _ _ _ _ _ Hre)). by destruct bs.
Qed.
End Growth.

(** ** Witness: the committee of four commits three blocks *)

Definition toy_cores : gmap PublicKey Core :=
  list_to_map ((fun i => (key i, toy_node i true false)) <$> [1; 2; 3; 4]).

Lemma toy_cores_lookup k s :
  toy_cores !! k = Some s -> exists i, i ∈ [1; 2; 3; 4] /\ k = key i /\ s = toy_node i true false.
Proof.
  intros Hk. apply elem_of_list_to_map_2, list_elem_of_fmap in Hk.
  destruct Hk as (i & [= -> ->] & Hi). eauto.
Qed.

Lemma toy_signs i : signs_for (key i) (toy_service i).
Proof. by split. Qed.

Lemma toy_deployment : deployment toy_committee 2 toy_cores.
Proof.
  constructor.
  - exact toy_committee_wf.
  - by vm_compute.
  - assert (set_Forall (fun k => 0 < stake toy_committee k < quorum_threshold toy_committee)
      (members toy_committee)) as Hall; [|exact Hall].
    apply (bool_decide_unpack _). by vm_compute.
  - unfold toy_cores. rewrite dom_list_to_map_L. apply (bool_decide_unpack _). by vm_compute.
  - intros k s (i & Hi & -> & ->)%toy_cores_lookup.
    exists Parameters_default, (toy_service i), tt, (mkStoreClient ∅ 0), 0.
    split; [done|]. split; [done | apply toy_signs].
Qed.

Lemma chain_grows_witness :
  deployment toy_committee 2 toy_cores /\
  exists nodes log, execution 2 toy_committee toy_cores nodes log /\
    (collision nodes \/
     exists chain, Block.height <$> chain = seqZ 1 3 /\ dom nodes = members toy_committee /\
       map_Forall (fun _ s => commit_channel s = chain) nodes).
Proof.
  split; [exact toy_deployment|].
  exact (chain_grows toy_committee 2 toy_cores 2 3 toy_deployment (le_n 2) eq_refl).
Defined.
