(* ===== verification/NodeFacts.v ===== *)
(** * Facts about the node

    Files written and read back, how a node boots, the committees and ports of the
    testbed, the thresholds of the key files, the client's transactions. *)

From S2P Require Import Prelude Machine Crypto Config Messages Leader Aggregator Timer Store.
From S2P Require Import Sync Mempool SyncLoop BlockSync Network Core Handlers Node Fixture.
From S2P Require Import MempoolFacts NetworkFacts Chain ChainInv.

(** ** Files *)

Section Files.
Context {A : Type} `{JsonLaws A}.

(** Writing and reading back a configuration.  [write] does not truncate: what
    the old file has beyond the new text stays.  Reading gives the value back exactly
    when that rest is whitespace, in particular when the old file was no longer; in
    the other case the file cannot be read any more. *)
Theorem written_file_is_read (x : A) (path : string) (d : Disk) :
  refuse d path = None ->
  let rest := drop (S (length (to_json x))) (default [] (files d !! path)) in
  exists d', export_write x path d = (Ok tt, d') /\
    (forall other, other <> path -> files d' !! other = files d !! other) /\
    (forallb whitespace rest = true -> export_read path d' = Ok x) /\
    (forallb whitespace rest = false ->
       exists e, export_read (A := A) path d' = Err (ReadError path e)).
Proof.
  intros Hr rest. unfold export_write. run_act. rewrite Hr. eexists. split; [reflexivity|].
  split; [intros other Hne; simpl; by rewrite lookup_insert_ne|].
  unfold export_read. simpl. rewrite Hr, lookup_insert_eq.
  assert (overwrite (default [] (files d !! path)) (to_json x ++ [10]) =
    to_json x ++ 10 :: rest) as ->.
  { unfold overwrite. rewrite <- app_assoc, length_app. simpl.
    replace (length (to_json x) + 1)%nat with (S (length (to_json x))) by lia. done. }
  split; intros Hw.
  - by rewrite json_roundtrip.
  - destruct (json_trailing x (10 :: rest)) as [e He]; [done|]. rewrite He. by exists e.
Qed.
End Files.

(** Insertions with distinct keys add the map of the list. *)
Lemma fold_insert_union {K A B} `{Countable K} (k : A -> K) (v : A -> B) (l : list A) (m : gmap K B) :
  NoDup (k <$> l) ->
  fold_left (fun m x => <[k x := v x]> m) l m =
    (list_to_map ((fun x => (k x, v x)) <$> l) : gmap K B) ∪ m.
Proof.
  revert m. induction l as [|x l IH]; intros m Hn; [simpl; by rewrite (left_id_L ∅ (∪))|].
  csimpl in Hn. apply NoDup_cons in Hn as [Hx Hn]. simpl. rewrite IH by done.
  rewrite <- insert_union_r, insert_union_l; [done|].
  apply not_elem_of_list_to_map_1. by rewrite <- list_fmap_compose.
Qed.

(** From the empty map. *)
Lemma fold_insert_map {K A B} `{Countable K} (k : A -> K) (v : A -> B) (l : list A) :
  NoDup (k <$> l) ->
  fold_left (fun m x => <[k x := v x]> m) l ∅ = (list_to_map ((fun x => (k x, v x)) <$> l) : gmap K B).
Proof. intros Hn. rewrite fold_insert_union by done. by rewrite (right_id_L ∅ (∪)). Qed.

(** ** Booting *)

Section Boot.
Context `{MessageCodec} `{MempoolEnv} `{NodeEnv}.
Context `{Json NodeCommittee} `{Json Secret} `{Json SecretShare} `{Json NodeParameters}.

Definition parameters_of (d : Disk) (file : option string) : NodeResult NodeParameters :=
  match file with
  | Some filename => export_read filename d
  | None => Ok NodeParameters_default
  end.

(** The views that the two cores of a node have of the store are the same. *)
Definition shared (nd : Node) : Prop :=
  forall core, ct_core (node_consensus nd) = Some core ->
    kv (store core) = kv (mp_store (mt_core (node_mempool nd))).

(** C36: Booting a node whose files can be read and whose store opens.  The node boots
    exactly when its key is in both committees, and then the consensus core, if the
    protocol number names one, is a new core with the paths of that protocol over the
    store of the mempool; whatever the protocol, the node also listens for messages of
    the agreement.  With protocol 0, and when no value of the store is a block (the
    first start of the node, not a restart on its database), the core starts in the
    state [fresh_node] from which the theorems on the optimistic deployment count. *)
Theorem node_boots (open_store : string -> StoreClient + string) (d : Disk)
    (committee_file key_file tss_file store_path : string) (file : option string) (now : Z)
    (nc : NodeCommittee) (sk : Secret) (share : SecretShare) (ps : NodeParameters)
    (st : StoreClient) :
  export_read committee_file d = Ok nc -> export_read key_file d = Ok sk ->
  export_read tss_file d = Ok share -> parameters_of d file = Ok ps ->
  open_store store_path = inl st ->
  let booted := Node_new open_store d committee_file key_file tss_file store_path file now in
  let name := secret_name sk in
  (m_authorities (nc_mempool nc) !! name = None ->
     booted = Err (NodeMempoolError (MNotInCommittee name))) /\
  (is_Some (m_authorities (nc_mempool nc) !! name) ->
   authorities (nc_consensus nc) !! name = None ->
     booted = Err (NodeConsensusError (NotInCommittee name))) /\
  (is_Some (m_authorities (nc_mempool nc) !! name) ->
   is_Some (authorities (nc_consensus nc) !! name) ->
   exists node, booted = Ok node /\ shared node /\
     (exists a, authorities (nc_consensus nc) !! name = Some a /\
        ct_receiver (node_consensus node) = any_ip (auth_address a) /\
        ct_smvba_receiver (node_consensus node) = any_ip (auth_smvba_address a)) /\
     (is_Some (ct_core (node_consensus node)) <-> 0 <= np_protocol ps <= 2) /\
     (forall core, ct_core (node_consensus node) = Some core ->
        opt_path core = (np_protocol ps <? 2) /\ pes_path core = (0 <? np_protocol ps) /\
        (np_protocol ps = 0 ->
         (forall k v, kv st !! k = Some v -> deserialize_block v = None) ->
         fresh_node (nc_consensus nc) name core))).
Proof.
  intros Hnc Hsk Hsh Hps Hst booted name.
  assert (booted =
    mempool ← map_err NodeMempoolError (Mempool_run name (nc_mempool nc) (np_mempool ps) st
      (SignatureService_new (secret_key sk) (Some (share_secret share))));
    consensus ← map_err NodeConsensusError (Consensus_run name (nc_consensus nc)
      (np_consensus ps) st (SignatureService_new (secret_key sk) (Some (share_secret share)))
      (share_pkset share) (protocol_of (np_protocol ps)) now);
    Ok (mkNode mempool consensus)) as Hb.
  { unfold booted, Node_new. unfold parameters_of in Hps.
    rewrite Hnc. cbn [mbind outcome_bind]. rewrite Hsk. cbn [mbind outcome_bind].
    rewrite Hsh. cbn [mbind outcome_bind]. rewrite Hps. cbn [mbind outcome_bind]. by rewrite Hst. }
  rewrite Hb. clear Hb booted. unfold Mempool_run, front_address, mempool_address.
  split; [|split].
  - intros Hm. by rewrite Hm.
  - intros [ma Hm] Hc. rewrite Hm. unfold Consensus_run, address. by rewrite Hc.
  - intros [ma Hm] [a Hc]. rewrite Hm. unfold Consensus_run, address, smvba_address. rewrite Hc.
    eexists. split; [reflexivity|]. simpl. unfold protocol_of. split; [|split; [by exists a|split]].
    + intros core. simpl. destruct (_ =? 0); [by intros [= <-]|].
      destruct (_ =? 1); [by intros [= <-]|]. destruct (_ =? 2); [by intros [= <-] | done].
    + destruct (Z.eqb_spec (np_protocol ps) 0) as [->|];
        [simpl; split; [lia | by eexists]|].
      destruct (Z.eqb_spec (np_protocol ps) 1) as [->|];
        [simpl; split; [lia | by eexists]|].
      destruct (Z.eqb_spec (np_protocol ps) 2) as [->|];
        [simpl; split; [lia | by eexists]|].
      simpl. split; [by intros [] | lia].
    + intros core Hcore.
      destruct (Z.eqb_spec (np_protocol ps) 0) as [Hp|Hp]; [rewrite Hp|].
      { injection Hcore as <-. do 2 (split; [reflexivity|]). intros _ Hkv.
        repeat eexists. exact Hkv. }
      destruct (Z.eqb_spec (np_protocol ps) 1) as [Hp1|Hp1]; [rewrite Hp1|].
      { injection Hcore as <-. by do 2 (split; [reflexivity|]). }
      destruct (Z.eqb_spec (np_protocol ps) 2) as [Hp2|Hp2]; [rewrite Hp2 | done].
      injection Hcore as <-. by do 2 (split; [reflexivity|]).
Qed.

(** *** The shared store *)

Definition writes (l : list (Key * Value)) : list Event := (fun x => ForeignWrite x.1 x.2) <$> l.

Definition add_all (l : list (Key * Value)) (m : gmap Key Value) : gmap Key Value :=
  fold_left (fun m x => <[x.1 := x.2]> m) l m.

Lemma writes_run fuel l core :
  node_run fuel (writes l) core =
  (Running, set store (with_map (add_all l (kv (store core)))) core).
Proof.
  revert core. induction l as [|[k v] l IH]; intros core; simpl.
  - f_equal. destruct core as [? ? ? s]. unfold set, with_map. by destruct s.
  - by rewrite IH.
Qed.

Lemma handled_keys `{!MempoolLaws} i m k :
  is_Some (kv (mp_store m) !! k) -> is_Some (kv (mp_store (m_handle i m).2) !! k).
Proof.
  intros Hk. pose proof (m_handle_keeps i m) as (_ & Hh & _). exact (Hh (mkDigest k) Hk).
Qed.

(** The two cores work on one store: what one writes the other reads from then on,
    and for the consensus core a message that the mempool handles is a number of
    writes by another task. *)
Theorem store_is_shared `{!MempoolLaws} (fuel : nat) (i : Input) (j : MInput) (nd : Node) :
  shared nd ->
  shared (consensus_input fuel i nd).2 /\ shared (mempool_input j nd).2 /\
  forall core, ct_core (node_consensus nd) = Some core ->
    exists l, node_run fuel (writes l) core =
      (Running, default core (ct_core (node_consensus (mempool_input j nd).2))).
Proof.
  intros Hs. unfold consensus_input, mempool_input. split_and!.
  - destruct (ct_core (node_consensus nd)) as [core|] eqn:Hc; [|exact Hs].
    destruct (node_event _ _ _) as [st core']. simpl. by intros core'' [= <-].
  - destruct (m_handle j _) as [r m]. simpl.
    destruct (ct_core (node_consensus nd)); simpl; intros core; [by intros [= <-] | done].
  - intros core Hc. pose proof (handled_keys j (mt_core (node_mempool nd))) as Hk.
    rewrite <- (Hs core Hc) in Hk. destruct (m_handle j _) as [r m]. simpl in *. rewrite Hc. simpl.
    exists (map_to_list (kv (mp_store m))). rewrite writes_run.
    assert (add_all (map_to_list (kv (mp_store m))) (kv (store core)) = kv (mp_store m)) as ->;
      [|done].
    unfold add_all. rewrite (fold_insert_union fst snd) by apply NoDup_fst_map_to_list.
    replace ((fun x : Key * Value => (x.1, x.2)) <$> map_to_list (kv (mp_store m)))
      with (map_to_list (kv (mp_store m))).
    2:{ rewrite <- (list_fmap_id (map_to_list _)) at 1. apply list_fmap_ext. by intros ? []. }
    rewrite list_to_map_to_list. apply map_eq. intros k. rewrite lookup_union.
    destruct (kv (mp_store m) !! k) as [v|] eqn:Hm; [by rewrite union_Some_l|].
    rewrite (left_id None _). destruct (kv (store core) !! k) eqn:Hx; [|done].
    destruct (Hk k) as [v Hv]; [by rewrite Hx | congruence].
Qed.
End Boot.

(** ** The testbed *)

Lemma try_map_ok {E A B} (f : A -> outcome E B) (g : A -> B) l :
  (forall x, x ∈ l -> f x = Ok (g x)) -> try_map f l = Ok (g <$> l).
Proof.
  induction l as [|x l IH]; intros Hl; [done|]. cbn [try_map].
  rewrite (Hl x) by (by left). cbn. rewrite IH; [done|]. intros y Hy. apply Hl. by right.
Qed.

Definition at_port (p : Z) : SocketAddr := mkSocketAddr [127; 0; 0; 1] p.

Definition consensus_entry (x : Z * PublicKey) : PublicKey * Z * Z * SocketAddr * SocketAddr :=
  (x.2, 0, 1, at_port (7200 + x.1), at_port (7300 + x.1)).
Definition mempool_entry (x : Z * PublicKey) : PublicKey * SocketAddr * SocketAddr :=
  (x.2, at_port (7000 + x.1), at_port (7100 + x.1)).

Lemma enumerated_elem i k keys :
  (i, k) ∈ enumerated keys <-> exists j, i = Z.of_nat j /\ keys !! j = Some k.
Proof.
  unfold enumerated. rewrite list_elem_of_lookup. setoid_rewrite list_lookup_imap. split.
  - intros [j Hj]. destruct (keys !! j) as [k'|] eqn:Hk; [|done]. injection Hj as <- <-. eauto.
  - intros (j & -> & Hj). exists j. by rewrite Hj.
Qed.

Lemma enumerated_keys keys : snd <$> enumerated keys = keys.
Proof.
  unfold enumerated. rewrite fmap_imap. apply list_eq. intros i. rewrite list_lookup_imap.
  by destruct (keys !! i).
Qed.

Lemma deploy_committee_eq keys :
  Z.of_nat (length keys) <= 58236 ->
  deploy_committee keys = Ok (mkNodeCommittee
    (Committee_new (consensus_entry <$> enumerated keys) 1)
    (MCommittee_new (mempool_entry <$> enumerated keys) 1)).
Proof.
  intros Hn. assert (forall i k p, (i, k) ∈ enumerated keys -> p <= 7300 ->
    local_address (p + i) = Ok (at_port (p + i))) as Hport.
  { intros i k p (j & -> & Hj)%enumerated_elem Hp. apply lookup_lt_Some in Hj.
    unfold local_address. by rewrite (proj2 (Z.ltb_lt _ _)) by lia. }
  unfold deploy_committee. rewrite (try_map_ok _ mempool_entry); cbn [mbind outcome_bind].
  - rewrite (try_map_ok _ consensus_entry); [done|]. intros [i k] Hx.
    by rewrite !(Hport i k) by (done || lia).
  - intros [i k] Hx. by rewrite !(Hport i k) by (done || lia).
Qed.

Definition consensus_authority (x : Z * PublicKey) : Authority :=
  mkAuthority x.2 0 1 (at_port (7200 + x.1)) (at_port (7300 + x.1)).
Definition mempool_authority (x : Z * PublicKey) : MAuthority :=
  mkMAuthority x.2 (at_port (7000 + x.1)) (at_port (7100 + x.1)).

Lemma fold_left_fmap {A B C} (g : A -> B) (f : C -> B -> C) l c :
  fold_left f (g <$> l) c = fold_left (fun c x => f c (g x)) l c.
Proof. revert c. induction l as [|x l IH]; intros c; [done|]. simpl. apply IH. Qed.

Lemma deployed_consensus keys :
  NoDup keys ->
  authorities (Committee_new (consensus_entry <$> enumerated keys) 1) =
    list_to_map ((fun x => (x.2, consensus_authority x)) <$> enumerated keys).
Proof.
  intros Hn. unfold Committee_new. simpl. rewrite fold_left_fmap.
  apply (fold_insert_map snd consensus_authority). by rewrite enumerated_keys.
Qed.

Lemma deployed_mempool keys :
  NoDup keys ->
  m_authorities (MCommittee_new (mempool_entry <$> enumerated keys) 1) =
    list_to_map ((fun x => (x.2, mempool_authority x)) <$> enumerated keys).
Proof.
  intros Hn. unfold MCommittee_new. simpl. rewrite fold_left_fmap.
  apply (fold_insert_map snd mempool_authority). by rewrite enumerated_keys.
Qed.

Lemma entries_nodup {B} (v : Z * PublicKey -> B) keys :
  NoDup keys -> NoDup ((fun x => (x.2, v x)) <$> enumerated keys).*1.
Proof.
  intros Hn. rewrite <- list_fmap_compose.
  change (fst ∘ (fun x : Z * PublicKey => (x.2, v x))) with (snd : Z * PublicKey -> PublicKey).
  by rewrite enumerated_keys.
Qed.

Lemma ones_sum {A} (f : A -> Z) l : (forall x, f x = 1) -> zsum (f <$> l) = Z.of_nat (length l).
Proof. intros Hf. induction l as [|x l IH]; [done|]. csimpl. rewrite Hf, IH. lia. Qed.

Lemma deployed_wf keys :
  NoDup keys -> 1 <= Z.of_nat (length keys) <= 58236 ->
  wf_committee (Committee_new (consensus_entry <$> enumerated keys) 1) /\
  sum_of_stakes (Committee_new (consensus_entry <$> enumerated keys) 1) = Z.of_nat (length keys).
Proof.
  intros Hn Hlen. set (c := Committee_new _ _).
  assert (sum_of_stakes c = Z.of_nat (length keys)) as Hsum.
  { unfold sum_of_stakes, authority_list, c. rewrite (deployed_consensus keys Hn).
    rewrite (map_to_list_to_map _ (entries_nodup _ keys Hn)), <- !list_fmap_compose.
    rewrite ones_sum by done. unfold enumerated. by rewrite length_imap. }
  assert (forall k a, authorities c !! k = Some a -> auth_stake a = 1 /\ auth_name a = k) as Ha.
  { intros k a Hk. unfold c in Hk. rewrite (deployed_consensus keys Hn) in Hk.
    apply elem_of_list_to_map_2, list_elem_of_fmap in Hk as (x & [= -> ->] & _). done. }
  split; [|done]. constructor.
  - intros k a Hk. destruct (Ha k a Hk). lia.
  - intros k a Hk. by destruct (Ha k a Hk).
  - rewrite Hsum. lia.
Qed.

(** The testbed's committee and its threshold keys fit together.  For up to 58236
    different keys, all of stake 1, the testbed starts with a well-formed committee
    whose members are those keys; the coin needs exactly as many shares as a
    signature of the threshold key set drawn for that many files does, and the quorum
    is twice the threshold plus one. *)
Theorem deployed_thresholds (keys : list PublicKey) :
  NoDup keys -> 1 <= Z.of_nat (length keys) <= 58236 ->
  exists nc, deploy_committee keys = Ok nc /\
    wf_committee (nc_consensus nc) /\
    members (nc_consensus nc) = list_to_set keys /\
    random_coin_threshold (nc_consensus nc) = tss_threshold (Z.of_nat (length keys)) + 1 /\
    quorum_threshold (nc_consensus nc) = 2 * tss_threshold (Z.of_nat (length keys)) + 1.
Proof.
  intros Hn Hlen. destruct (deployed_wf keys Hn Hlen) as [Hwf Hsum]. eexists.
  split; [apply deploy_committee_eq; lia|]. simpl. split; [done|]. split.
  { unfold members. rewrite deployed_consensus, dom_list_to_map_L by done. f_equal.
    rewrite <- list_fmap_compose. apply enumerated_keys. }
  rewrite random_coin_threshold_exact, quorum_threshold_exact, Hsum by done.
  unfold tss_threshold. rewrite wrap64_small by lia. done.
Qed.

(** The addresses that the node of a key listens on. *)
Definition listens (nc : NodeCommittee) (k : PublicKey) : list SocketAddr :=
  match m_authorities (nc_mempool nc) !! k, authorities (nc_consensus nc) !! k with
  | Some m, Some a =>
      [ma_front_address m; ma_mempool_address m; auth_address a; auth_smvba_address a]
  | _, _ => []
  end.

Definition ports_of (i : Z) : list SocketAddr :=
  [at_port (7000 + i); at_port (7100 + i); at_port (7200 + i); at_port (7300 + i)].

Lemma deployed_listens keys :
  NoDup keys ->
  keys ≫= listens (mkNodeCommittee (Committee_new (consensus_entry <$> enumerated keys) 1)
                     (MCommittee_new (mempool_entry <$> enumerated keys) 1)) =
  enumerated keys ≫= fun x => ports_of x.1.
Proof.
  intros Hn. assert (forall l, (forall x, x ∈ l -> x ∈ enumerated keys) ->
    (snd <$> l) ≫= listens (mkNodeCommittee
      (Committee_new (consensus_entry <$> enumerated keys) 1)
      (MCommittee_new (mempool_entry <$> enumerated keys) 1)) = l ≫= fun x => ports_of x.1) as Hgen.
  2:{ rewrite <- Hgen by done. by rewrite enumerated_keys. }
  induction l as [|[i k] l IH]; intros Hl; [done|].
  rewrite fmap_cons, !bind_cons.
  apply (f_equal2 app); [|apply IH; intros x Hx; apply Hl; by right]. unfold listens. cbn [nc_mempool nc_consensus].
  rewrite (deployed_consensus keys Hn), (deployed_mempool keys Hn).
  assert ((i, k) ∈ enumerated keys) as Hik by (apply Hl; by left).
  rewrite (elem_of_list_to_map_1 _ k (mempool_authority (i, k))).
  2: by apply entries_nodup. 2: by apply list_elem_of_fmap; exists (i, k).
  rewrite (elem_of_list_to_map_1 _ k (consensus_authority (i, k))).
  2: by apply entries_nodup. 2: by apply list_elem_of_fmap; exists (i, k).
  done.
Qed.

(** The testbed's ports.  All the nodes listen on different addresses exactly when
    there are at most a hundred of them. *)
Theorem deployed_ports (keys : list PublicKey) (nc : NodeCommittee) :
  NoDup keys -> Z.of_nat (length keys) <= 58236 -> deploy_committee keys = Ok nc ->
  NoDup (keys ≫= listens nc) <-> (length keys <= 100)%nat.
Proof.
  intros Hn Hlen Hd. rewrite deploy_committee_eq in Hd by done. injection Hd as <-.
  rewrite deployed_listens by done. split.
  - intros Hnd. destruct (decide (length keys <= 100)%nat) as [|Hgt]; [done|]. exfalso.
    destruct keys as [|k0 keys]; simpl in Hgt; [lia|].
    destruct (lookup_lt_is_Some_2 keys 99) as [k Hk]; [lia|].
    assert (enumerated (k0 :: keys) = (0, k0) :: imap (fun i k => (Z.of_nat (S i), k)) keys) as He
      by reflexivity.
    rewrite He in Hnd. rewrite bind_cons in Hnd. apply NoDup_app in Hnd as (_ & Hnd & _).
    apply (Hnd (at_port 7100)); [by right; left|].
    apply list_elem_of_bind. exists (100, k). split; [by left|].
    apply (list_elem_of_lookup_2 _ 99). by rewrite list_lookup_imap, Hk.
  - intros Hle. apply NoDup_bind.
    + intros [i k] [j k'] y (n & -> & Hi)%enumerated_elem (n' & -> & Hj)%enumerated_elem Hy Hy'.
      apply lookup_lt_Some in Hi as Hi', Hj as Hj'.
      assert (Z.of_nat n = Z.of_nat n') as Heq.
      { simpl in Hy, Hy'. unfold ports_of in *. rewrite !elem_of_cons, elem_of_nil in Hy, Hy'.
        destruct Hy as [-> |[-> |[-> |[-> |[]]]]];
          destruct Hy' as [Hp|[Hp|[Hp|[Hp|[]]]]]; injection Hp as Hp; lia. }
      apply Nat2Z.inj in Heq as ->. congruence.
    + intros [i k] _. unfold ports_of. simpl. rewrite !NoDup_cons, !elem_of_cons, !elem_of_nil.
      unfold at_port. split_and!; try constructor; intros Hp; naive_solver lia.
    + unfold enumerated. apply NoDup_alt. intros i j x Hi Hj. rewrite list_lookup_imap in Hi, Hj.
      destruct (keys !! i), (keys !! j); try done. simplify_eq/=. lia.
Qed.

(** ** Witnesses *)

(** One byte in braces as a JSON object. *)
#[local] Instance braces_json : Json Z := {|
  to_json := fun x => [123; x; 125];
  from_json := fun l =>
    match l with
    | 123 :: x :: 125 :: rest =>
        if forallb whitespace rest then inl x else inr "trailing characters"%string
    | _ => inr "expected value"%string
    end;
|}.

#[local] Instance braces_laws : JsonLaws Z.
Proof. constructor; intros x rest Hw; simpl; rewrite Hw; [done | by eexists]. Qed.

(** A longer old file: the new text is followed by the end of the old one. *)
Definition old_disk : Disk := mkDisk {["keys.json"%string := [123; 1; 2; 3; 4; 125]]} (fun _ => None).

Lemma written_file_is_read_witness :
  exists d' e, export_write 7 "keys.json" old_disk = (Ok tt, d') /\
    files d' !! "other.json"%string = None /\
    export_read (A := Z) "keys.json" d' = Err (ReadError "keys.json" e).
Proof.
  destruct (written_file_is_read 7 "keys.json" old_disk eq_refl) as (d' & Hd & Ho & _ & Hr).
  destruct (Hr eq_refl) as [e He]. exists d', e. split; [exact Hd|]. split; [|exact He].
  rewrite Ho by done. by apply lookup_singleton_ne.
Defined.

Definition toy_keys : list PublicKey := key <$> [1; 2; 3; 4].

Lemma toy_keys_nodup : NoDup toy_keys.
Proof. apply (bool_decide_unpack _). by vm_compute. Qed.

Lemma deployed_thresholds_witness :
  exists nc, deploy_committee toy_keys = Ok nc /\
    random_coin_threshold (nc_consensus nc) = 2 /\ quorum_threshold (nc_consensus nc) = 3.
Proof.
  destruct (deployed_thresholds toy_keys toy_keys_nodup) as (nc & Hd & _ & _ & Hc & Hq);
    [simpl; lia|].
  exists nc. split; [exact Hd|]. rewrite Hc, Hq. by vm_compute.
Defined.

Lemma deployed_ports_witness :
  exists nc, deploy_committee toy_keys = Ok nc /\ NoDup (toy_keys ≫= listens nc).
Proof.
  eexists. split; [apply deploy_committee_eq; simpl; lia|].
  apply (deployed_ports toy_keys _ toy_keys_nodup); [simpl; lia | | simpl; lia].
  apply deploy_committee_eq. simpl. lia.
Defined.

(** A node of the toy committee, protocol 0, whose four files exist. *)
Definition toy_nc : NodeCommittee :=
  mkNodeCommittee toy_committee
    (MCommittee_new [(key 1, mkSocketAddr [127; 0; 0; 1] 7001, mkSocketAddr [127; 0; 0; 1] 7101)] 1).

Definition toy_share : SecretShare := mkSecretShare 1 1 1 tt.

#[local] Instance nc_json : Json NodeCommittee := {|
  to_json := fun _ => [1]; from_json := fun _ => inl toy_nc |}.
#[local] Instance secret_json : Json Secret := {|
  to_json := fun _ => [2]; from_json := fun _ => inl (mkSecret (key 1) (mkSecretKey (replicate 64 1))) |}.
#[local] Instance share_json : Json SecretShare := {|
  to_json := fun _ => [3]; from_json := fun _ => inl toy_share |}.
#[local] Instance parameters_json : Json NodeParameters := {|
  to_json := fun _ => [4]; from_json := fun _ => inl NodeParameters_default |}.

Definition toy_disk : Disk :=
  mkDisk {["committee.json"%string := [1]; "node.json"%string := [2]; "tss.json"%string := [3]]}
    (fun _ => None).

Definition toy_secret : Secret := mkSecret (key 1) (mkSecretKey (replicate 64 1)).

Lemma toy_files :
  export_read "committee.json" toy_disk = Ok toy_nc /\
  export_read "node.json" toy_disk = Ok toy_secret /\
  export_read "tss.json" toy_disk = Ok toy_share /\
  parameters_of toy_disk None = Ok NodeParameters_default.
Proof. split_and!; reflexivity. Qed.

Lemma node_boots_witness :
  exists node core,
    Node_new (fun _ => inl (mkStoreClient ∅ 0)) toy_disk "committee.json" "node.json" "tss.json"
      "db" None 0 = Ok node /\
    ct_core (node_consensus node) = Some core /\ fresh_node toy_committee (key 1) core.
Proof.
  destruct toy_files as (Hc & Hk & Ht & Hp).
  destruct (node_boots (fun _ => inl (mkStoreClient ∅ 0)) toy_disk "committee.json" "node.json"
    "tss.json" "db" None 0 toy_nc toy_secret toy_share NodeParameters_default (mkStoreClient ∅ 0)
    Hc Hk Ht Hp eq_refl) as (_ & _ & Hb). clear Hc Hk Ht Hp.
  destruct Hb as (node & Hn & _ & _ & Hs & Hc).
  - by eexists.
  - by eexists.
  - destruct (proj2 Hs) as [core Hcore]; [by split|].
    destruct (Hc core Hcore) as (_ & _ & Hf). exists node, core. split; [exact Hn|].
    split; [exact Hcore|]. apply Hf; [done|]. intros k v Hk. simpl in Hk.
    by rewrite lookup_empty in Hk.
Defined.
