(* ===== verification/ClientFacts.v ===== *)
(** * Facts about the benchmark client

    The transactions of a run are all different, of the size asked for, with one
    sample per tick. *)

From S2P Require Import Prelude Machine Crypto Config Messages Leader Aggregator Timer Store.
From S2P Require Import Sync Mempool Node.

(** ** Transactions by what they carry: a tick's counter, or a random number plus the
    number of increments, without wrap-around *)

Inductive Label : Type := Sample (c : Z) | Standard (z : Z).

Definition is_sample (l : Label) : Prop := match l with Sample _ => True | _ => False end.

#[export] Instance is_sample_dec l : Decision (is_sample l).
Proof. destruct l; [left | right]; simpl; tauto. Defined.

Definition tx_of (size : nat) (l : Label) : list Z :=
  match l with
  | Sample c => sample_tx size c
  | Standard z => standard_tx size (wrap64 z)
  end.

Fixpoint burst_labels (n : nat) (x burst c z : Z) : list Label * Z :=
  match n with
  | O => ([], z)
  | S n =>
      if x =? c mod burst then
        let '(l, z) := burst_labels n (x + 1) burst c z in (Sample c :: l, z)
      else let '(l, z') := burst_labels n (x + 1) burst c (z + 1) in (Standard (z + 1) :: l, z')
  end.

Fixpoint tick_labels (n : nat) (burst c z : Z) : list Label :=
  match n with
  | O => []
  | S n =>
      let '(l, z) := burst_labels (Z.to_nat burst) 0 burst c z in
      l ++ tick_labels n burst (c + 1) z
  end.

Lemma wrap64_succ z : wrap64 z +64 1 = wrap64 (z + 1).
Proof. unfold wrap64. by rewrite Z.add_mod_idemp_l by lia. Qed.

Lemma burst_labels_tx size n x burst c z :
  client_burst size n x burst c (wrap64 z) =
    (tx_of size <$> (burst_labels n x burst c z).1, wrap64 (burst_labels n x burst c z).2).
Proof.
  revert x z. induction n as [|n IH]; intros x z; [done|]. cbn [client_burst burst_labels].
  destruct (x =? c mod burst).
  - rewrite IH. by destruct (burst_labels n (x + 1) burst c z).
  - rewrite wrap64_succ, IH. by destruct (burst_labels n (x + 1) burst c (z + 1)).
Qed.

Lemma tick_labels_tx size n burst c z :
  0 <= c -> c + Z.of_nat n <= 2 ^ 64 ->
  client_ticks size n burst c (wrap64 z) = tx_of size <$> tick_labels n burst c z.
Proof.
  revert c z. induction n as [|n IH]; intros c z Hc Hn; [done|]. cbn [client_ticks tick_labels].
  rewrite burst_labels_tx. destruct (burst_labels (Z.to_nat burst) 0 burst c z) as [l z'].
  cbn [fst snd]. rewrite fmap_app. f_equal. destruct n as [|n]; [done|].
  rewrite wrap64_small by lia. apply IH; lia.
Qed.

(** The two kinds of labels of a burst: at most one sample, and the next numbers. *)
Lemma burst_labels_kinds n x burst c z :
  exists m, (burst_labels n x burst c z).2 = z + Z.of_nat m /\
    filter (fun l => ~ is_sample l) (burst_labels n x burst c z).1 =
      Standard <$> seqZ (z + 1) (Z.of_nat m) /\
    filter is_sample (burst_labels n x burst c z).1 =
      (if decide (x <= c mod burst < x + Z.of_nat n) then [Sample c] else []) /\
    length (burst_labels n x burst c z).1 = n.
Proof.
  revert x z. induction n as [|n IH]; intros x z.
  - exists 0%nat. simpl. rewrite decide_False by lia. split_and!; [lia | done..].
  - cbn [burst_labels]. destruct (Z.eqb_spec x (c mod burst)) as [Hx|Hx].
    + destruct (IH (x + 1) z) as (m & Hz & Hr & Hs & Hl).
      destruct (burst_labels n (x + 1) burst c z) as [l z']. simpl in Hz, Hr, Hs, Hl. exists m. simpl.
      rewrite filter_cons_False by (intros Hn; by apply Hn). rewrite filter_cons_True by exact I.
      rewrite Hs, (decide_False _ _) by lia. rewrite decide_True by lia. by rewrite Hl.
    + destruct (IH (x + 1) (z + 1)) as (m & Hz & Hr & Hs & Hl).
      destruct (burst_labels n (x + 1) burst c (z + 1)) as [l z']. simpl in Hz, Hr, Hs, Hl.
      exists (S m). cbn [fst snd length]. rewrite filter_cons_True by (by intros []).
      rewrite filter_cons_False by (by intros []). rewrite Hr, Hs, Hl, Hz.
      rewrite (seqZ_cons (z + 1) (Z.of_nat (S m))) by lia. csimpl. split_and!.
      * lia.
      * do 3 f_equal; lia.
      * by repeat case_decide; try lia.
      * done.
Qed.

Lemma tick_labels_kinds n burst c z :
  0 < burst ->
  exists m, filter (fun l => ~ is_sample l) (tick_labels n burst c z) =
      Standard <$> seqZ (z + 1) (Z.of_nat m) /\
    filter is_sample (tick_labels n burst c z) = Sample <$> seqZ c (Z.of_nat n) /\
    length (tick_labels n burst c z) = (n * Z.to_nat burst)%nat.
Proof.
  intros Hb. revert c z. induction n as [|n IH]; intros c z; [by exists 0%nat|].
  cbn [tick_labels].
  destruct (burst_labels_kinds (Z.to_nat burst) 0 burst c z) as (m1 & Hz & Hr & Hs & Hl).
  destruct (burst_labels (Z.to_nat burst) 0 burst c z) as [l z']. simpl in Hz, Hr, Hs, Hl. subst z'.
  destruct (IH (c + 1) (z + Z.of_nat m1)) as (m2 & Hr2 & Hs2 & Hl2).
  exists (m1 + m2)%nat. rewrite !filter_app, Hr, Hs, Hr2, Hs2, length_app, Hl, Hl2.
  pose proof (Z.mod_pos_bound c burst Hb). rewrite decide_True by lia.
  split_and!.
  - rewrite Nat2Z.inj_add, seqZ_app, fmap_app by lia. by do 3 f_equal; lia.
  - rewrite (seqZ_cons c (Z.of_nat (S n))) by lia. csimpl. by do 3 f_equal; lia.
  - lia.
Qed.

Lemma labels_nodup (l : list Label) c n z m :
  filter (fun l => ~ is_sample l) l = Standard <$> seqZ z m ->
  filter is_sample l = Sample <$> seqZ c n -> NoDup l.
Proof.
  intros Hr Hs. rewrite <- (filter_app_complement is_sample l), Hr, Hs. apply NoDup_app. split_and!.
  - apply NoDup_fmap_2_strong; [by intros ? ? _ _ [= ->] | apply NoDup_seqZ].
  - intros x (a & -> & _)%list_elem_of_fmap (b & Hb & _)%list_elem_of_fmap. done.
  - apply NoDup_fmap_2_strong; [by intros ? ? _ _ [= ->] | apply NoDup_seqZ].
Qed.

(** ** The bytes *)

Lemma resize_long size tx :
  (length tx <= size)%nat -> resize size tx = tx ++ replicate (size - length tx) 0.
Proof.
  intros Hl. unfold resize. rewrite take_app, take_ge by done. f_equal.
  rewrite take_replicate. f_equal. lia.
Qed.

Lemma length_tagged t a : length (t :: u64_be a) = 9%nat.
Proof. cbn [length]. by rewrite length_u64_be. Qed.

(** A transaction is a tag, eight bytes and zeros. *)
Lemma resize_tagged size t a :
  (9 <= size)%nat -> resize size (t :: u64_be a) = (t :: u64_be a) ++ replicate (size - 9) 0.
Proof. intros Hs. by rewrite resize_long, length_tagged by (rewrite length_tagged; lia). Qed.

Lemma length_tx size l : (9 <= size)%nat -> length (tx_of size l) = size.
Proof.
  intros Hs. destruct l; unfold tx_of, sample_tx, standard_tx;
    rewrite resize_tagged, length_app, length_tagged, length_replicate; lia.
Qed.

Lemma u64_be_inj a b : in_u64 a -> in_u64 b -> u64_be a = u64_be b -> a = b.
Proof.
  intros Ha Hb He. apply u64_le_inj; [done..|]. unfold u64_be, be_bytes in He.
  by rewrite <- (rev_involutive (u64_le a)), <- (rev_involutive (u64_le b)); f_equal.
Qed.

Lemma tx_start size t a b b' :
  (9 <= size)%nat -> in_u64 a -> in_u64 b ->
  resize size (t :: u64_be a) = resize size (b' :: u64_be b) -> t = b' /\ a = b.
Proof.
  intros Hs Ha Hb. rewrite !resize_tagged by done.
  intros He. apply app_inj_1 in He as [He _]; [|by rewrite !length_tagged].
  split; [exact (f_equal (hd 0) He) | exact (u64_be_inj a b Ha Hb (f_equal (@tl Z) He))].
Qed.

Definition in_window (z0 : Z) (l : Label) : Prop :=
  match l with Sample c => in_u64 c | Standard z => z0 < z <= z0 + 2 ^ 64 end.

Lemma tx_of_inj size z0 l l' :
  (9 <= size)%nat -> in_window z0 l -> in_window z0 l' -> tx_of size l = tx_of size l' -> l = l'.
Proof.
  intros Hs Hl Hl' He.
  destruct l as [c|z], l' as [c'|z']; simpl in He; unfold sample_tx, standard_tx in He;
    apply tx_start in He as [Ht He]; try done; try apply wrap64_range; try exact Hl; try exact Hl'.
  - by f_equal.
  - f_equal. unfold wrap64, in_window in *. dlia.
Qed.

Lemma labels_in_window l z m c n :
  filter (fun l => ~ is_sample l) l = Standard <$> seqZ (z + 1) m ->
  filter is_sample l = Sample <$> seqZ c n ->
  m <= 2 ^ 64 -> 0 <= c -> c + n <= 2 ^ 64 -> Forall (in_window z) l.
Proof.
  intros Hr Hs Hm Hc Hn. apply Forall_forall. intros x Hx. destruct (decide (is_sample x)) as [Hi|Hi].
  - assert (x ∈ filter is_sample l) as Hin by (by apply list_elem_of_filter).
    rewrite Hs in Hin. apply list_elem_of_fmap in Hin as (y & -> & Hy%elem_of_seqZ).
    simpl. unfold in_u64. lia.
  - assert (x ∈ filter (fun l => ~ is_sample l) l) as Hin by (by apply list_elem_of_filter).
    rewrite Hr in Hin. apply list_elem_of_fmap in Hin as (y & -> & Hy%elem_of_seqZ). simpl. lia.
Qed.

Lemma filter_fmap_iff {A B} (g : A -> B) (P : B -> Prop) (Q : A -> Prop)
    `{!forall x, Decision (P x), !forall x, Decision (Q x)} (l : list A) :
  (forall x, P (g x) <-> Q x) -> filter P (g <$> l) = g <$> filter Q l.
Proof.
  intros Hpq. induction l as [|x l IH]; [done|]. csimpl. rewrite !filter_cons, IH.
  destruct (decide (P (g x))) as [Hp|Hp], (decide (Q x)) as [Hq|Hq]; try done; exfalso;
    rewrite Hpq in Hp; tauto.
Qed.

(** ** The property *)

(** The client.  With transactions of at least 9 bytes and a rate of at least 20,
    all transactions sent in a run are different from each other, each has the size
    asked for, each tick sends a twentieth of the rate, and the samples, which start
    with 0, carry the numbers of the ticks in order; smaller transactions are refused. *)
Theorem client_transactions (size n : nat) (rate r : Z) :
  20 <= rate -> in_u64 r -> Z.of_nat n * (rate / 20) <= 2 ^ 64 ->
  ((size < 9)%nat ->
     client_send size n rate r = Err "Transaction size must be at least 9 bytes"%string) /\
  ((9 <= size)%nat -> exists txs, client_send size n rate r = Ok txs /\
     NoDup txs /\ Forall (fun tx => length tx = size) txs /\
     length txs = (n * Z.to_nat (rate / 20))%nat /\
     filter (fun tx => head tx = Some 0) txs = sample_tx size <$> seqZ 0 (Z.of_nat n)).
Proof.
  intros Hrate Hr Hn. unfold client_send. split; intros Hsize.
  { by rewrite (proj2 (Z.ltb_lt _ _)) by lia. }
  rewrite (proj2 (Z.ltb_ge _ _)) by lia.
  assert (1 <= rate / 20) as Hb by (apply Z.div_le_lower_bound; lia).
  assert (Z.of_nat n <= 2 ^ 64) as Hn64 by nia.
  destruct (tick_labels_kinds n (rate / 20) 0 r) as (m & Hst & Hsa & Hl); [lia|].
  assert (Z.of_nat m <= 2 ^ 64) as Hm.
  { assert (m <= length (tick_labels n (rate / 20) 0 r))%nat as Hle.
    { transitivity (length (filter (fun l => ~ is_sample l) (tick_labels n (rate / 20) 0 r))).
      - rewrite Hst, length_fmap, length_seqZ. lia.
      - apply length_filter. }
    rewrite Hl in Hle. nia. }
  rewrite <- (wrap64_small r Hr), (tick_labels_tx size n (rate / 20) 0 r) by lia.
  eexists. split; [reflexivity|]. split_and!.
  - apply NoDup_fmap_2_strong; [|by eapply labels_nodup].
    pose proof (labels_in_window _ _ _ _ _ Hst Hsa Hm ltac:(lia) ltac:(lia)) as Hw.
    rewrite Forall_forall in Hw. intros x y Hx Hy. apply (tx_of_inj size r); auto.
  - apply Forall_fmap, Forall_true. intros l. by apply length_tx.
  - by rewrite length_fmap.
  - rewrite (filter_fmap_iff (tx_of size) _ is_sample).
    + rewrite Hsa, <- list_fmap_compose. done.
    + intros [c|z]; simpl.
      * unfold sample_tx. by rewrite resize_tagged.
      * unfold standard_tx. by rewrite resize_tagged.
Qed.

Lemma client_transactions_witness :
  exists txs, client_send 9 3 40 (2 ^ 64 - 2) = Ok txs /\ NoDup txs /\ length txs = 6%nat.
Proof.
  destruct (client_transactions 9 3 40 (2 ^ 64 - 2)) as [_ Hc]; [lia | unfold in_u64; lia | apply Z.leb_le; reflexivity |].
  destruct Hc as (txs & Hs & Hn & _ & Hl & _); [lia|]. by exists txs.
Defined.
