(* ===== verification/Deviations.v ===== *)
(** * Where the code departs from its comments and intentions

    Each theorem exhibits a behaviour of the definitions that a comment, a name or
    the protocol says should not happen. *)

From S2P Require Import Prelude Machine Crypto Config Messages Leader Aggregator Timer Store.
From S2P Require Import Sync Core Handlers Fixture MessageFacts Spec Refine Cluster AggregatorFacts.

(** ** Certificates *)

(** A certificate that has the digest, height and proposer of genesis counts as
    genesis, whatever its epoch, round, tag and votes ([PartialEq] compares the epoch
    with itself), so a block that carries it is accepted without any vote. *)
Theorem forged_genesis_accepted `{CryptoLib} (b : Block.t) (c : Committee)
    (e round tag : Z) (acceptor : PublicKey) (votes : list (PublicKey * Signature)) :
  Block.qc b = QC.mk Digest_default 0 e round tag PublicKey_default acceptor votes ->
  0 < stake c (Block.author b) ->
  check_signature (Block.signature b) (Block.digest b) (Block.author b) = Ok tt ->
  Block.verify b c = Ok tt.
Proof.
  intros Hqc Hs Hsig. unfold Block.verify. rewrite ensure_stake, Hsig, Hqc by done.
  unfold QC.eqb. cbn [QC.epoch QC.hash QC.height QC.proposer QC.genesis]. by rewrite !Z.eqb_refl, !bool_decide_true by done.
Qed.

(** The vote of member [i] for a block whose only varying field is its round. *)
Definition vote_for_round (round i : Z) : HVote.t :=
  match HVote.new (Block.mk QC.genesis (key 2) 1 0 [] Signature_default OPT round) (key i) OPT
          (toy_service i) with
  | Ok v => v
  | _ => HVote.unsigned Block.genesis (key 0) OPT
  end.

(** The reset of the weight does not ensure that a certificate is made only once:
    in a committee of six equal members (quorum three) six votes make two. *)
Theorem two_certificates_from_one_maker :
  exists l : list HVote.t,
    Forall (fun v => HVote.verify v (committee_of 6) = Ok tt) l /\
    length (emitted (feed (fun v => QCMaker_append v (committee_of 6)) l QCMaker_new).1) = 2%nat.
Proof.
  exists (vote_for_round 0 <$> [1; 2; 3; 4; 5; 6]). split; [|by vm_compute].
  repeat constructor.
Qed.

(** Votes are aggregated by height and digest, but sign the round too, which the
    block's digest does not cover: three votes that each verify, for one digest and
    height, make a certificate that does not verify. *)
Theorem mixed_votes_make_invalid_certificate :
  exists (l : list HVote.t) (q : QC.t),
    Forall (fun v => HVote.verify v toy_committee = Ok tt) l /\
    emitted (feed add_hs_vote l (Aggregator_new toy_committee)).1 = [q] /\
    QC.verify q toy_committee = Err (InvalidSignature SignatureError).
Proof.
  eexists [vote_for_round 0 1; vote_for_round 0 2; vote_for_round 7 3], _.
  split; [repeat constructor|]. split; [by vm_compute | by vm_compute].
Qed.

(** ** Prepares and proofs of the broadcast *)

(** A prepare's signature covers nothing but its value and no stake is asked for:
    a prepare that verifies also verifies for any other epoch and height, under any
    committee that accepts its certificate. *)
Theorem prepare_can_be_replayed `{CryptoLib} (p : PrePare.t) (c c' : Committee) (len e h : Z) :
  PrePare.verify p c len = Ok tt ->
  QC.eqb (PrePare.qc p) QC.genesis = true \/ QC.verify (PrePare.qc p) c' = Ok tt ->
  PrePare.verify (PrePare.mk (PrePare.author p) e h (PrePare.val p) (PrePare.qc p)
                    (PrePare.signature p)) c' len = Ok tt.
Proof.
  unfold PrePare.verify. simpl.
  change (PrePare.digest (PrePare.mk _ _ _ _ _ _)) with (PrePare.digest p).
  destruct (ensure (_ || _) _) as [[]| | |]; simpl; try done.
  destruct (check_signature _ _ _) as [[]| | |]; simpl; try done.
  destruct (QC.eqb (PrePare.qc p) QC.genesis); simpl; [done|].
  destruct (QC.verify (PrePare.qc p) c) as [[]| | |]; simpl; try done.
  by intros He [?| ->].
Qed.

(** [SPBProof::verify] sums the stake of the shares without asking for distinct
    authors: with a committee of equal stakes one member's verified vote, repeated,
    is a proof. *)
Theorem repeated_share_is_a_proof `{CryptoLib} (c : Committee) (s : SPBVote.t) (p : SPBProof.t)
    (n : nat) :
  SPBVote.verify s c = Ok tt -> Forall (eq s) (SPBProof.shares p) ->
  n = length (SPBProof.shares p) -> 0 < stake c (SPBVote.author s) ->
  quorum_threshold c <= Z.of_nat n * stake c (SPBVote.author s) < 2 ^ 32 ->
  SPBProof.verify p c = Ok tt.
Proof.
  intros Hv Hall -> Hst Hq. unfold SPBProof.verify.
  destruct (_ <=? INIT_PHASE); [done|]. destruct (LOCK_PHASE <=? _); [|done].
  assert (forall l w, Forall (eq s) l -> 0 <= w ->
    w + Z.of_nat (length l) * stake c (SPBVote.author s) < 2 ^ 32 ->
    SPBProof.shares_weight c l w = Ok (w + Z.of_nat (length l) * stake c (SPBVote.author s)))
    as Hsum.
  { induction l as [|x l IH]; intros w Hl Hw Hlt; csimpl; [f_equal; lia|].
    apply Forall_cons in Hl as [<- Hl]. rewrite (proj2 (Z.ltb_lt _ _) Hst). csimpl.
    cbn [length] in Hlt. rewrite Nat2Z.inj_succ in *.
    rewrite wrap32_small by lia. rewrite IH by (done || lia). f_equal. lia. }
  rewrite Hsum by (done || lia). simpl. rewrite (proj2 (Z.leb_le _ _)) by lia. simpl.
  apply verify_shares_all. by eapply Forall_impl; [exact Hall | intros x <- ].
Qed.

(** ** Messages that reach the core *)

(** A proposal of the current epoch that names an author outside the committee
    kills the core: the author's position is looked up before anything is verified. *)
Theorem unknown_author_crashes `{CryptoLib} `{NodeEnv} (n : nat) (block : Block.t) (s : Core) :
  Block.epoch block = epoch s ->
  name_to_idx (leader_elector s) !! Block.author block = None ->
  (node_event n (Deliver (OnCoreChannel (HsPropose block))) s).1 = Crashed.
Proof.
  intros He Hname. simpl. unfold handle_opt_proposal, mbind at 1, act_bind at 1, gets.
  rewrite He, Z.ltb_irrefl. unfold mbind at 1, act_bind at 1.
  unfold mbind at 1, act_bind at 1, lift, index_as_leader, get_leader_idx.
  destruct (_ =? 0); simpl; [done|]. by rewrite Hname.
Qed.

Definition booted_node : Core := (start 20 (toy_node 3 true true)).2.

Definition unsigned_block : Block.t :=
  Block.mk QC.genesis (key 9) 5 0 [] Signature_default FALLBACK 0.

(** The loop-back messages of the node to itself are accepted from the network:
    a [ParLoopBack] commits a block that was not verified, here by an author outside
    the committee and without a signature. *)
Theorem loopback_commits_unverified :
  exists s, reachable (toy_node 3 true true) s /\
    is_ok (Block.verify unsigned_block toy_committee) = false /\
    (node_event 20 (Deliver (OnSmvbaChannel (ParLoopBack unsigned_block))) s).1 = Running /\
    commit_channel (node_event 20 (Deliver (OnSmvbaChannel (ParLoopBack unsigned_block))) s).2
      = [unsigned_block].
Proof.
  exists booted_node. split; [apply reach_start|].
  split; [by vm_compute|]. split; by vm_compute.
Qed.

(** A proposal for height 4 of its first leader, on a forged genesis certificate. *)
Definition early_block : Block.t :=
  match Block.new (QC.mk Digest_default 0 9 7 PES PublicKey_default (key 3) []) (key 1) 4 0 0 []
          (toy_service 1) OPT with
  | Ok b => b
  | _ => Block.genesis
  end.

(** [self.height - 2] wraps at the first height: a proposal from a leader of a
    later height that builds on a forged genesis makes the node drop the agreement
    state of every height, its own included. *)
Theorem early_height_wipes_agreement :
  exists s, reachable (toy_node 3 true true) s /\ height s = 1 /\
    size (smvba_current_round s) = 1%nat /\
    let s' := (node_event 20 (Deliver (OnCoreChannel (HsPropose early_block))) s).2 in
    height s' = 1 /\ size (smvba_current_round s') = 0%nat.
Proof.
  exists booted_node. split; [apply reach_start|].
  split; [by vm_compute|]. split; [by vm_compute|]. split; by vm_compute.
Qed.

(** A node whose own stake is a quorum does not get out of its first call: its own
    vote makes the certificate on which it proposes next, inside the same call.  The
    boot of a committee of one member uses up forty nested calls, one proposal for
    every two of them. *)
Definition lone_node : Core :=
  Core_new (key 1) (committee_of 1) Parameters_default (toy_service 1) tt (mkStoreClient ∅ 0)
    (LeaderElector_new (committee_of 1) 2) true false 0.

Theorem lone_member_never_returns :
  quorum_threshold (committee_of 1) = stake (committee_of 1) (key 1) /\
  (start 40 lone_node).1 = Cut /\ height (start 40 lone_node).2 = 21.
Proof. split; [by vm_compute|]. split; by vm_compute. Qed.

(** ** Witnesses *)

Lemma forged_genesis_accepted_witness :
  QC.votes (Block.qc early_block) = [] /\ Block.verify early_block toy_committee = Ok tt.
Proof.
  split; [by vm_compute|].
  apply (forged_genesis_accepted early_block toy_committee 9 7 PES (key 3) []); by vm_compute.
Defined.

Definition toy_prepare : PrePare.t :=
  match PrePare.new (key 3) 0 1 QC.genesis OPT (toy_service 3) with
  | Ok p => p
  | _ => PrePare.mk (key 0) 0 0 0 QC.genesis Signature_default
  end.

Lemma prepare_can_be_replayed_witness :
  PrePare.height toy_prepare = 1 /\
  PrePare.verify (PrePare.mk (key 3) 5 77 OPT QC.genesis (PrePare.signature toy_prepare))
    toy_committee 3 = Ok tt.
Proof.
  split; [by vm_compute|].
  apply (prepare_can_be_replayed toy_prepare toy_committee toy_committee 3 5 77);
    [by vm_compute | left; by vm_compute].
Defined.

Definition toy_share : SPBVote.t :=
  match SPBVote.new (SPBValue.new early_block 1 INIT_PHASE OPT []) (key 3) (toy_service 3) with
  | Ok v => v
  | _ => SPBVote.unsigned (SPBValue.new early_block 1 INIT_PHASE OPT []) (key 0)
  end.

Lemma repeated_share_is_a_proof_witness :
  SPBVote.verify toy_share toy_committee = Ok tt /\
  SPBProof.verify (SPBProof.mk LOCK_PHASE 1 1 (replicate 3 toy_share)) toy_committee = Ok tt.
Proof.
  split; [by vm_compute|].
  apply (repeated_share_is_a_proof toy_committee toy_share _ 3);
    [by vm_compute | by repeat constructor | done | by vm_compute | by vm_compute].
Defined.

Lemma unknown_author_crashes_witness :
  stake toy_committee (Block.author unsigned_block) = 0 /\
  (node_event 20 (Deliver (OnCoreChannel (HsPropose unsigned_block))) booted_node).1 = Crashed.
Proof.
  split; [by vm_compute|].
  apply (unknown_author_crashes 20 unsigned_block booted_node); by vm_compute.
Defined.
