(* ===== verification/Injections.v ===== *)
(** * Inputs that the conditions of the theorems keep out

    The theorems about the optimistic deployment suppose that peers send no loop-backs,
    which a node is meant to send to itself, and nothing on the agreement's channel,
    which the deployment opens but does not use; and that a signature under a member's
    key is on a message of the consensus core.  The code checks none of this: runs and
    signatures that show what happens otherwise. *)

From S2P Require Import Prelude Machine Crypto Config Messages Leader Aggregator Timer Store.
From S2P Require Import Sync Mempool Core Handlers Fixture MempoolFacts MessageFacts Types Spec Refine Cluster Safety.

(** ** Loop-backs and agreement messages from peers *)

(** Node [i] of the optimistic deployment after its boot. *)
Definition booted (i : Z) : Core := (start sim_fuel (toy_node i true false)).2.

(** A block of the committee's second member that it has signed. *)
Definition signed_block (e h tag : Z) (payload : list Digest) : Block.t :=
  match Block.new QC.genesis (key 2) h e 0 payload (toy_service 2) tag with
  | Ok b => b
  | _ => Block.genesis
  end.

(** Two blocks of one epoch and height. *)
Definition one_block (e tag : Z) : Block.t := signed_block e 1 tag [].













(** A vote of the broadcast for a value of the first height. *)
Definition broadcast_vote (i : Z) : SPBVote.t :=
  let value := SPBValue.new (one_block 0 FALLBACK) 1 INIT_PHASE OPT [] in
  match SPBVote.new value (key i) (toy_service i) with
  | Ok v => v
  | _ => SPBVote.unsigned value (key i)
  end.

(** Verified votes of a broadcast that the node has not started kill the core, in the
    optimistic deployment, too: a quorum of them makes a proof, whose value is looked up
    and unwrapped. *)
Theorem broadcast_votes_crash :
  Forall (fun i => SPBVote.verify (broadcast_vote i) toy_committee = Ok tt) [2; 3; 4] /\
  proper_run (toy_node 1 true false) (booted 1) /\
  (node_run sim_fuel ((fun i => Deliver (OnSmvbaChannel (SPBVoteMsg (broadcast_vote i)))) <$> [2; 3; 4])
     (booted 1)).1 = Crashed.
Proof.
  split; [repeat constructor; by vm_compute|]. split; [apply proper_start | by vm_compute].
Qed.

(** ** Payloads and blocks are signed with the same key *)

Section Forgery.
Context `{CryptoLib} `{!DalekSign}.

(** What of a block's bytes follows its author. *)
Definition block_tx (b : Block.t) : Transaction :=
  u64_le (Block.height b) ++ u64_le (Block.epoch b)
  ++ concat (digest_bytes <$> Block.payload b) ++ digest_bytes (QC.hash (Block.qc b))
  ++ u8_le (Block.tag b).

Lemma block_tx_digest b sg :
  Payload.digest (Payload.mk [block_tx b] (Block.author b) sg) = Block.digest b.
Proof. unfold Payload.digest, Payload.preimage, Block.digest. simpl. by rewrite app_nil_r. Qed.

Lemma block_tx_size b sg :
  0 < Payload.size (Payload.mk [block_tx b] (Block.author b) sg).
Proof.
  unfold Payload.size, block_tx. cbn [Payload.transactions fmap list_fmap zsum fold_right].
  rewrite length_app, length_u64_le. lia.
Qed.

(** C12: A client can make a member sign any block.  Payloads and blocks are hashed over
    the author's key and what follows it, without a mark of their kind, and signed with
    the same key.  For any block in a member's name, on the genesis or any certificate that
    verifies, whose bytes after the author fit a payload: when a client submits these
    bytes ([block_tx]) as a transaction, the member's payload maker makes a payload of
    it whose signature makes the block verify for every peer.  (The mempool broadcasts
    its payloads with their signatures.) *)
Theorem client_forges_block (c : Committee) (svc : SignatureService) (max : Z) (b : Block.t) :
  service_key svc = Block.author b -> service_signs svc -> 0 < stake c (Block.author b) ->
  Z.of_nat (length (block_tx b)) <= max < 2 ^ 63 ->
  QC.eqb (Block.qc b) QC.genesis = true \/ QC.verify (Block.qc b) c = Ok tt ->
  exists p r,
    maker_run [ClientTx (block_tx b); CoreRequest] (Runner_new (Block.author b) svc max) = (Ok [p], r) /\
    Payload.digest p = Block.digest b /\
    Block.verify (Block.with_signature (Payload.signature p) b) c = Ok tt.
Proof.
  intros Hk Hs Hst Hmax Hqc. set (p0 := Payload.mk [block_tx b] (Block.author b) Signature_default).
  destruct (Hs (Payload.digest p0)) as [sg Hsg].
  exists (Payload.mk [block_tx b] (Block.author b) sg).
  assert (maker_run [ClientTx (block_tx b); CoreRequest] (Runner_new (Block.author b) svc max)
    = (Ok [Payload.mk [block_tx b] (Block.author b) sg],
       (maker_run [ClientTx (block_tx b); CoreRequest] (Runner_new (Block.author b) svc max)).2)) as Hrun.
  { apply run_ok_eq, maker_one_tx; [|lia|exact Hsg]. pose proof (block_tx_size b sg) as Hz.
    unfold Payload.size in Hz. cbn [Payload.transactions fmap list_fmap zsum fold_right] in Hz. lia. }
  eexists. split; [exact Hrun|]. split; [apply block_tx_digest|].
  unfold Block.verify. cbn [Block.author Block.with_signature Block.signature Payload.signature Block.qc].
  rewrite ensure_stake by done.
  change (Block.digest (Block.with_signature sg b)) with (Block.digest b).
  rewrite <- (block_tx_digest b Signature_default). fold p0.
  rewrite <- Hk. unfold check_signature.
  rewrite (request_signature_verifies svc _ sg Hsg). simpl.
  destruct Hqc as [->| ->]; [done|]. by destruct (negb _).
Qed.
End Forgery.

Lemma client_forges_block_witness :
  exists p r,
    maker_run [ClientTx (block_tx (one_block 0 OPT)); CoreRequest]
      (Runner_new (key 2) (toy_service 2) 1000) = (Ok [p], r) /\
    Block.verify (Block.with_signature (Payload.signature p) (one_block 0 OPT)) toy_committee = Ok tt.
Proof.
  destruct (client_forges_block toy_committee (toy_service 2) 1000 (one_block 0 OPT)) as (p & r & Hr & _ & Hv).
  - by vm_compute.
  - intros d. eexists. reflexivity.
  - by vm_compute.
  - apply (bool_decide_unpack _). by vm_compute.
  - left. by vm_compute.
  - exists p, r. split; [exact Hr | exact Hv].
Defined.
