(* ===== verification/Crashes.v ===== *)
(** * When a node of the optimistic deployment crashes

    A panic kills the core's task.  In the optimistic deployment, for a member whose
    signature service works, there are two ways to one: a proposal by an author that
    is not in the committee, and a timer that fires when the node is not in the window
    of its height.  [calm] says that a method does not panic and keeps the node
    [sound]; no stored block lacks its parent, so that the walk to a block's
    ancestors cannot panic. *)

From S2P Require Import Prelude Machine Crypto Config Messages Leader Aggregator Timer Store.
From S2P Require Import Sync Core Handlers Fixture MessageFacts LeaderFacts AggregatorFacts Types Spec Refine Deviations.

(** ** Results that are not a panic *)

Notation whole m := (is_panic m = false).

Lemma whole_bind {E A B} (m : outcome E A) (f : A -> outcome E B) :
  whole m -> (forall a, m = Ok a -> whole (f a)) -> whole (m ≫= f).
Proof. intros Hm Hf. destruct m; simpl; [by apply Hf | done..]. Qed.

Lemma whole_ensure {E} b (e : E) : whole (ensure b e).
Proof. by destruct b. Qed.

Lemma whole_crypto {A} (m : outcome CryptoError A) : whole m -> whole (from_crypto m).
Proof. by destruct m. Qed.

Create HintDb whole.
#[export] Hint Resolve whole_ensure whole_crypto : whole.

Ltac whole :=
  repeat match goal with
  | |- is_panic (Ok _) = false => done
  | |- is_panic (Err _) = false => done
  | |- is_panic (_ ≫= _) = false => apply whole_bind; [|intros ? _]
  | |- context [let '(_, _) := ?x in _] => destruct x
  | |- is_panic (if ?b then _ else _) = false => destruct b
  | |- is_panic (match ?x with _ => _ end) = false => destruct x
  end; eauto with whole.

Section Whole.
Context `{CryptoLib}.

Lemma whole_parse s : whole (parse_signature s).
Proof. unfold parse_signature. whole. Qed.
Lemma whole_parse_key k : whole (parse_public_key k).
Proof. unfold parse_public_key. whole. Qed.
#[local] Hint Resolve whole_parse whole_parse_key : whole.

Lemma whole_signature s d k : whole (Signature_verify s d k).
Proof. unfold Signature_verify. whole. Qed.

Lemma whole_batch d votes : whole (Signature_verify_batch d votes).
Proof.
  assert (whole (batch_inputs d votes)) as Hb.
  { induction votes as [|[k s] votes IH]; simpl; whole. }
  unfold Signature_verify_batch. whole.
Qed.
#[local] Hint Resolve whole_signature whole_batch : whole.

Lemma whole_check_votes c votes used w : whole (QC.check_votes c votes used w).
Proof. revert used w. induction votes as [|[k s] votes IH]; intros used w; simpl; whole. Qed.
#[local] Hint Resolve whole_check_votes : whole.

Lemma whole_qc_verify q c : whole (QC.verify q c).
Proof. unfold QC.verify. whole. Qed.
#[local] Hint Resolve whole_qc_verify : whole.

Lemma whole_block_verify b c : whole (Block.verify b c).
Proof. unfold Block.verify, check_signature. whole. Qed.

Lemma whole_hvote_verify v c : whole (HVote.verify v c).
Proof. unfold HVote.verify, check_signature. whole. Qed.

Lemma whole_addresses from to c tag : whole (transmit_addresses from to c tag).
Proof. unfold transmit_addresses, address, smvba_address. whole. Qed.

Lemma whole_decode `{NodeEnv} v : whole (decode_block v).
Proof. unfold decode_block. whole. Qed.

(** Signing does not fail when the service works. *)
Lemma whole_hvote_new k svc b me tag : signs_for k svc -> whole (HVote.new b me tag svc).
Proof.
  intros [_ Hok]. unfold HVote.new. specialize (Hok (HVote.digest (HVote.unsigned b me tag))).
  by destruct (sign_with _ _).
Qed.

Lemma whole_block_new k svc q me h e r p tag :
  signs_for k svc -> whole (Block.new q me h e r p svc tag).
Proof.
  intros [_ Hok]. unfold Block.new.
  specialize (Hok (Block.digest (Block.mk q me h e p Signature_default tag r))).
  by destruct (sign_with _ _).
Qed.
End Whole.

#[export] Hint Resolve whole_block_verify whole_hvote_verify whole_addresses whole_decode
  whole_hvote_new whole_block_new : whole.

(** ** Sound nodes *)

Section Calm.
Context `{CryptoLib} `{NodeEnv} `{!BincodeLaws}.
Notation M := (act Core ConsensusError).

Context (c : Committee) (w : Z) (k : PublicKey).
Hypothesis Hsize : 0 < committee_size c.
Hypothesis Hwindow : 0 <= w <= committee_size c.
Hypothesis Hbound : 3 * committee_size c < 2 ^ 64.
Hypothesis Hmember : k ∈ members c.

Notation elector := (LeaderElector_new c w).

(** Every block in the store builds on genesis or on an entry of the store. *)
Definition closed (db : gmap Key Value) : Prop :=
  forall key bytes b, db !! key = Some bytes -> deserialize_block bytes = Some b ->
    QC.eqb (Block.qc b) QC.genesis = true \/ is_Some (db !! Digest_to_vec (Block.parent b)).

Record sound (s : Core) : Prop := {
  so_name : name s = k;
  so_committee : committee s = c;
  so_elector : leader_elector s = elector;
  so_window : leader_window (parameters s) = w;
  so_opt : opt_path s = true;
  so_pes : pes_path s = false;
  so_service : signs_for k (signature_service s);
  so_closed : closed (kv (store s));
}.

Definition stat (s : Core) :=
  (name s, committee s, leader_elector s, parameters s, opt_path s, pes_path s,
   signature_service s, kv (store s)).

Lemma sound_stat s s' : stat s' = stat s -> sound s -> sound s'.
Proof.
  unfold stat. intros [= En Ec Ee Ep Eo Es Ev Ek] []. constructor; try congruence. by rewrite Ek.
Qed.

(** [m] does not panic in a sound state, and leaves one; what it returns has [Q]. *)
Definition calm {A} (m : M A) (s : Core) (Q : A -> Core -> Prop) : Prop :=
  whole (m s).1 /\ sound (m s).2 /\ forall a, (m s).1 = Ok a -> Q a (m s).2.

Definition done_ {A} : A -> Core -> Prop := fun _ _ => True.

Lemma calm_bind {A B} (m : M A) (f : A -> M B) s Q R :
  calm m s Q -> (forall a s', sound s' -> Q a s' -> calm (f a) s' R) -> calm (m ≫= f) s R.
Proof.
  intros (Hw & Hs & HQ) Hf. unfold calm, mbind, act_bind.
  destruct (m s) as [[a|x|y|] s']; simpl in *; try done. by apply Hf; [|apply HQ].
Qed.

Lemma calm_ret {A} (a : A) s (Q : A -> Core -> Prop) : sound s -> Q a s -> calm (mret a) s Q.
Proof. intros Hs Hq. split_and!; [done..|]. by intros ? [= <-]. Qed.

Lemma calm_gets {A B} (g : Core -> A) (f : A -> M B) s R :
  calm (f (g s)) s R -> calm (gets g ≫= f) s R.
Proof. done. Qed.

Lemma calm_lift {A} (m : ConsensusResult A) s (Q : A -> Core -> Prop) :
  sound s -> whole m -> (forall a, m = Ok a -> Q a s) -> calm (lift m) s Q.
Proof. done. Qed.

Lemma calm_weaken {A} (m : M A) s (Q R : A -> Core -> Prop) :
  calm m s Q -> (forall a s', Q a s' -> R a s') -> calm m s R.
Proof. intros (? & ? & Hq) HR. split_and!; [done..|]. intros a Ha. by apply HR, Hq. Qed.

(** Methods that leave what soundness is about. *)
Definition mild {A} (m : M A) : Prop :=
  forall s, stat (m s).2 = stat s /\ (sound s -> whole (m s).1).

Lemma mild_bind {A B} (m : M A) (f : A -> M B) : mild m -> (forall a, mild (f a)) -> mild (m ≫= f).
Proof.
  intros Hm Hf s. unfold mbind, act_bind. destruct (Hm s) as [Hs Hw].
  destruct (m s) as [[a|x|y|] s']; simpl in *; try done. destruct (Hf a s') as [Hs' Hw'].
  split; [congruence|]. intros Hso. by apply Hw', (sound_stat s s').
Qed.

Lemma mild_ret {A} (a : A) : mild (mret a). Proof. done. Qed.
Lemma mild_gets {A} (g : Core -> A) : mild (gets g). Proof. done. Qed.
Lemma mild_throw {A} x : mild (throw x : M A). Proof. done. Qed.
Lemma mild_ensure b x : mild (ensure_act b x). Proof. intros s. by destruct b. Qed.
Lemma mild_lift {A} (m : ConsensusResult A) : whole m -> mild (lift m). Proof. done. Qed.
Lemma mild_modify f : (forall s, stat (f s) = stat s) -> mild (modify f).
Proof. intros Hf s. split; [apply Hf | done]. Qed.
Lemma mild_when b (m : M unit) : mild m -> mild (when b m). Proof. by destruct b. Qed.
Lemma mild_zoom {T A} (get : Core -> T) put (m : act T ConsensusError A) :
  (forall t s, stat (put t s) = stat s) -> (forall t, whole (m t).1) -> mild (zoom get put m).
Proof.
  intros Hput Hm s. unfold zoom. specialize (Hm (get s)). destruct (m (get s)). simpl in *.
  split; [apply Hput | done].
Qed.

Lemma calm_mild {A} (m : M A) s : mild m -> sound s -> calm m s done_.
Proof.
  intros Hm Hs. destruct (Hm s) as [Hst Hw]. split_and!; [auto | by eapply sound_stat | done].
Qed.

(** ** Mild methods *)

Ltac mild_step :=
  match goal with
  | |- mild (_ ≫= _) => apply mild_bind; [|intros ?]
  | |- mild (when _ _) => apply mild_when
  | |- mild (gets _) => apply mild_gets
  | |- mild (mret _) => apply mild_ret
  | |- mild (throw _) => apply mild_throw
  | |- mild (ensure_act _ _) => apply mild_ensure
  | |- mild (modify _) => by apply mild_modify
  | |- mild (lift _) => apply mild_lift; whole
  | |- mild (if ?b then _ else _) => destruct b
  | |- mild (match ?o with _ => _ end) => destruct o
  end.

Lemma mild_transmit_opt m to : mild (transmit_opt m to).
Proof.
  unfold transmit_opt. do 2 (mild_step; [mild_step|]). apply mild_zoom; [done|].
  intros t. unfold transmit. run_act. unfold lift.
  pose proof (whole_addresses a to a0 OPT). by destruct (transmit_addresses _ _ _ _).
Qed.

Lemma mild_sleep d : mild (sleep_ms d). Proof. by apply mild_modify. Qed.
Lemma mild_timer d : mild (timer_reset d). Proof. by apply mild_modify. Qed.

Lemma mild_signing {A} (rec : A -> Signable) build :
  (forall svc, signs_for k svc -> whole (build svc)) -> mild (signing rec build).
Proof.
  intros Hb s. unfold signing. run_act. unfold lift.
  destruct (build (signature_service s)) eqn:He; simpl; (split; [done|]); intros Hs; try done.
  pose proof (Hb _ (so_service _ Hs)) as Hw. by rewrite He in Hw.
Qed.

Lemma mild_generate h r qc tag : mild (generate_proposal h r qc tag).
Proof.
  unfold generate_proposal. mild_step; [mild_step|]. mild_step; [by apply mild_zoom|].
  do 2 (mild_step; [mild_step|]). apply mild_signing. eauto with whole.
Qed.

Lemma mild_verify b tag : mild (on_mempool (driver_verify b tag)).
Proof.
  apply mild_zoom; [done|]. intros t. unfold driver_verify. run_act. simpl.
  by destruct (mempool_verify _ _ _).
Qed.

Lemma mild_cleanup b : mild (on_mempool (driver_cleanup_par b)).
Proof. by apply mild_zoom. Qed.

Lemma mild_add_vote v : mild (on_aggregator (add_hs_vote v)).
Proof.
  apply mild_zoom; [done|]. intros t. unfold add_hs_vote, zoom. run_act.
  rewrite QCMaker_append_eq. destruct (decide _); [done|]. cbv zeta. by destruct (_ <=? _).
Qed.

Lemma mild_advance h : mild (advance_height h).
Proof. unfold advance_height. mild_step; [mild_step|]. mild_step; [done|]. repeat mild_step. Qed.

Lemma mild_process_qc q : mild (process_qc q).
Proof.
  unfold process_qc. mild_step; [apply mild_advance|]. apply mild_modify. intros s.
  by destruct (_ <? _).
Qed.

Lemma mild_opt_vote b : mild (make_opt_vote b).
Proof.
  unfold make_opt_vote. mild_step; [mild_step|]. cbv zeta. mild_step; [mild_step|].
  mild_step; [by apply mild_modify|]. mild_step; [mild_step|].
  mild_step; [apply mild_signing; eauto with whole | mild_step].
Qed.

Lemma mild_send_vote m l : mild (send_vote m l).
Proof.
  induction l as [|x l IH]; simpl; [mild_step|]. mild_step; [mild_step|].
  mild_step; [mild_step; apply mild_transmit_opt | done].
Qed.

Lemma parent_mild b st ch :
  whole (get_parent_block b (st, ch)).1 /\ kv (get_parent_block b (st, ch)).2.1 = kv st.
Proof.
  unfold get_parent_block. destruct (QC.eqb _ _); [done|]. run_act. unfold on_store, zoom.
  unfold store_read. run_act. simpl. destruct (db_get_fault _); [done|]. simpl.
  destruct (kv st !! _) as [bytes|]; [|done]. unfold lift, decode_block.
  by destruct (deserialize_block bytes).
Qed.

Lemma mild_synchronizer {A} (m : act (StoreClient * list Block.t) ConsensusError A) :
  (forall st ch, whole (m (st, ch)).1 /\ kv (m (st, ch)).2.1 = kv st) -> mild (on_synchronizer m).
Proof.
  intros Hm s. unfold on_synchronizer, zoom. specialize (Hm (store s) (synchronizer s)).
  destruct (m _) as [r [st ch]]. destruct Hm as [Hw Hk]. simpl in *. split; [|done].
  unfold stat. simpl. by rewrite Hk.
Qed.

Lemma mild_commit b : mild (commit b).
Proof.
  unfold commit. mild_step; [mild_step|]. generalize (S (S a)) as fuel. intros fuel. revert b.
  induction fuel as [|fuel IH]; intros b; simpl; [by intros s|].
  mild_step; [mild_step|]. mild_step; [|mild_step].
  mild_step; [mild_step; apply mild_cleanup|].
  mild_step; [apply mild_synchronizer, parent_mild|]. mild_step; [apply IH | mild_step].
Qed.

Lemma mild_read_store key : mild (read_store key).
Proof.
  intros s. unfold read_store, zoom, store_read. run_act. simpl.
  destruct (db_get_fault _); by split.
Qed.

Lemma mild_sync_request d x : mild (handle_sync_request d x).
Proof.
  unfold handle_sync_request. mild_step; [apply mild_read_store|].
  mild_step; [|mild_step]. mild_step; [mild_step | apply mild_transmit_opt].
Qed.

(** ** The handlers *)

(** What is known of a block whose ancestors have been found. *)
Definition has_parent (b : Block.t) (s : Core) : Prop :=
  QC.eqb (Block.qc b) QC.genesis = true \/
  is_Some (kv (store s) !! Digest_to_vec (Block.parent b)).

(** The parent that [get_parent_block] finds is genesis or a block of the store. *)
Lemma found_parent b st ch p st' ch' :
  get_parent_block b (st, ch) = (Ok (Some p), (st', ch')) ->
  (QC.eqb (Block.qc b) QC.genesis = true /\ p = Block.genesis) \/
  exists bytes, kv st !! Digest_to_vec (Block.parent b) = Some bytes /\
    deserialize_block bytes = Some p.
Proof.
  unfold get_parent_block. destruct (QC.eqb _ _); [intros [=]; by left|].
  run_act. unfold on_store, zoom, store_read. run_act. simpl.
  destruct (db_get_fault _); [done|]. simpl.
  destruct (kv st !! _) as [bytes|]; [|done]. unfold lift, decode_block.
  destruct (deserialize_block bytes) as [x|] eqn:Hd; [|done]. intros [=]. subst. right. eauto.
Qed.

Lemma missing_parent b st ch st' :
  get_parent_block b (st, ch) = (Ok None, st') ->
  QC.eqb (Block.qc b) QC.genesis = false /\ kv st !! Digest_to_vec (Block.parent b) = None.
Proof.
  unfold get_parent_block. destruct (QC.eqb _ _); [done|].
  run_act. unfold on_store, zoom, store_read. run_act. simpl.
  destruct (db_get_fault _); [done|]. simpl.
  destruct (kv st !! _) as [bytes|]; [|done]. unfold lift. by destruct (decode_block bytes).
Qed.

Lemma calm_ancestors b s :
  sound s -> calm (on_synchronizer (get_ancestors b)) s
    (fun o s' => is_Some o -> has_parent b s').
Proof.
  intros Hs. unfold calm, on_synchronizer, zoom, get_ancestors. run_act.
  destruct (parent_mild b (store s) (synchronizer s)) as [Hw Hk].
  destruct (get_parent_block b (store s, synchronizer s)) as [[[b1|]|x|y|] [st1 ch1]] eqn:Hr1;
    simpl in *; try done;
    try (split_and!; [done | apply (sound_stat s); [unfold stat; simpl; by rewrite Hk | done] |
      intros a [= <-]; by intros []]).
  destruct (parent_mild b1 st1 ch1) as [Hw2 Hk2].
  destruct (get_parent_block b1 (st1, ch1)) as [[[b0|]|x|y|] [st2 ch2]] eqn:Hr2; simpl in *; try done;
    (split_and!; [try done | apply (sound_stat s); [unfold stat; simpl; by rewrite Hk2, Hk | done] |]);
    try (by intros ? [=]).
  - intros a [= <-] _. unfold has_parent. simpl. rewrite Hk2, Hk.
    destruct (found_parent _ _ _ _ _ _ Hr1) as [[? _]|(bytes & -> & _)]; [by left | right; eauto].
  - exfalso. apply missing_parent in Hr2 as [Hq Hn]. rewrite Hk in Hn.
    destruct (found_parent _ _ _ _ _ _ Hr1) as [[_ ->]|(bytes & Hb & Hd)]; [done|].
    destruct (so_closed s Hs _ _ _ Hb Hd) as [?|[]]; congruence.
Qed.

Lemma calm_store_block b s : sound s -> has_parent b s -> calm (store_block b) s done_.
Proof.
  intros Hs Hp. split_and!; [done | | done]. destruct Hs. constructor; try done. simpl.
  intros key bytes x Hx Hd.
  apply lookup_insert_Some in Hx as [[_ <-]|[_ Hx]].
  - rewrite bincode_roundtrip in Hd. injection Hd as <-.
    destruct Hp as [?|Hp]; [by left | right]. by apply lookup_insert_is_Some'; right.
  - destruct (so_closed0 key bytes x Hx Hd) as [?|Hp']; [by left | right].
    by apply lookup_insert_is_Some'; right.
Qed.

Lemma calm_ok {A B} (a : A) (f : A -> M B) s R : calm (f a) s R -> calm (lift (Ok a) ≫= f) s R.
Proof. done. Qed.

Lemma calm_place {A} h (f : option Z -> M A) s R :
  (forall o, index_as_leader elector k h = Ok o -> calm (f o) s R) ->
  calm (x ← lift (index_as_leader elector k h); f x) s R.
Proof.
  intros Hf. destruct (member_place c w Hsize k h Hmember) as [o Ho].
  rewrite Ho. by apply Hf.
Qed.

Lemma calm_step {A B} (m : M A) (f : A -> M B) s R :
  mild m -> sound s -> (forall a s', sound s' -> calm (f a) s' R) -> calm (m ≫= f) s R.
Proof. intros Hm Hs Hf. eapply calm_bind; [by apply calm_mild|]. intros a s' Hs' _. by apply Hf. Qed.

Section Rec.
Variable rec : rcall -> M unit.
Hypothesis calm_vote : forall v s, sound s -> calm (rec (R_handle_opt_vote v)) s done_.
Hypothesis calm_block : forall b s, sound s -> calm (rec (R_process_opt_block b)) s done_.

Lemma calm_process_opt_block b s : sound s -> calm (process_opt_block rec b) s done_.
Proof.
  intros Hs. unfold process_opt_block. do 2 apply calm_gets.
  rewrite (so_elector s Hs), (so_name s Hs). apply calm_place. intros o _.
  apply calm_step; [by apply mild_when, mild_timer | done | intros _ s1 Hs1].
  eapply calm_bind; [by apply calm_ancestors|]. intros [[b0 b1]|] s2 Hs2 Hp; [|by apply calm_ret].
  eapply calm_bind; [apply calm_store_block; eauto|]. intros _ s3 Hs3 _. apply calm_gets.
  rewrite (so_pes s3 Hs3). cbn [andb]. cbv zeta.
  do 3 (apply calm_step; [done | done |]; clear dependent s3; intros _ s3 Hs3).
  apply calm_step; [apply mild_ensure | done | intros _ s4 Hs4]. apply calm_gets.
  apply calm_step; [| done | intros _ s5 Hs5].
  { apply mild_when, mild_bind; [apply mild_commit | intros _; by apply mild_modify]. }
  apply calm_gets. destruct (negb _); [by apply calm_ret|].
  apply calm_step; [apply mild_opt_vote | done | intros [v|] s6 Hs6]; [|by apply calm_ret].
  apply calm_gets. destruct (get_leaders_members c w Hsize Hwindow Hbound (height s6 +64 1)) as (l & Hl & _).
  rewrite Hl. apply calm_ok.
  apply calm_step; [apply mild_send_vote | done | intros _ s8 Hs8].
  apply calm_place. intros o' _. unfold when. destruct (bool_decide _); [by apply calm_vote | by apply calm_ret].
Qed.

Lemma calm_opt_propose s i :
  sound s -> index_as_leader elector k (height s) = Ok (Some i) -> calm (opt_propose rec) s done_.
Proof.
  intros Hs Hi. unfold opt_propose. do 3 apply calm_gets.
  rewrite (so_elector s Hs), (so_name s Hs), Hi.
  do 2 apply calm_ok. apply calm_gets.
  apply calm_step; [apply mild_generate | done | intros b s1 Hs1].
  apply calm_step; [apply mild_transmit_opt | done | intros _ s2 Hs2].
  eapply calm_bind; [by apply calm_block|]. intros _ s3 Hs3 _. apply calm_gets.
  apply calm_mild; [apply mild_when, mild_sleep | done].
Qed.

(** The place a node has checked is the one at the height it enters. *)
Lemma entered_place v q s s1 :
  height s <= HVote.height v -> QC.height q = HVote.height v ->
  process_qc q s = (Ok tt, s1) -> height s1 = HVote.height v +64 1.
Proof.
  intros Hh Hq. unfold process_qc, advance_height, update_high_qc. run_act. rewrite Hq.
  rewrite (proj2 (Z.ltb_ge _ _) Hh). intros [= <-]. by destruct (_ <? _).
Qed.

Lemma calm_handle_opt_vote v s : sound s -> calm (handle_opt_vote rec v) s done_.
Proof.
  intros Hs. unfold handle_opt_vote. do 2 apply calm_gets.
  destruct (Z.ltb_spec (HVote.height v) (height s)) as [|Hh]; [by apply calm_ret|].
  destruct (HVote.epoch v <? epoch s); [by apply calm_ret|]. cbn [orb]. do 2 apply calm_gets.
  rewrite (so_elector s Hs), (so_name s Hs). apply calm_place. intros [i|] Hi; [|by split_and!].
  rewrite bool_decide_true by eauto. apply (calm_ok tt). apply calm_gets.
  eapply (calm_bind _ _ _ (fun _ s' => s' = s)).
  { apply calm_lift; [done | eauto with whole | done]. }
  intros _ s' _ ->.
  eapply (calm_bind _ _ _ (fun r s' => height s' = height s /\
    forall q, r = Some q -> QC.height q = HVote.height v)).
  { destruct (mild_add_vote v s) as [Hst Hw]. split_and!; [by apply Hw | by eapply sound_stat|].
    unfold on_aggregator, add_hs_vote, zoom. run_act. rewrite QCMaker_append_eq.
    destruct (decide _); [done|]. cbv zeta. destruct (_ <=? _); simpl; intros r [= <-];
      (split; [done|]); by intros q [= <-]. }
  intros [q|] s1 Hs1 [Hh1 Hq]; [|by apply calm_ret].
  eapply (calm_bind _ _ _ (fun _ s' => height s' = HVote.height v +64 1)).
  { destruct (mild_process_qc q s1) as [Hst Hw]. split_and!; [by apply Hw | by eapply sound_stat|].
    intros [] Hr. apply (entered_place v q s1); [lia | by apply Hq|].
    by rewrite (surjective_pairing (process_qc q s1)), Hr. }
  intros _ s2 Hs2 Hh2. apply calm_ok. destruct (i =? 0).
  - apply (calm_opt_propose s2 i Hs2). by rewrite Hh2.
  - apply calm_gets. apply calm_mild; [apply mild_timer | done].
Qed.

(** A proposal of a member. *)
Lemma calm_handle_proposal b s :
  sound s -> (Block.epoch b = epoch s -> Block.author b ∈ members c) ->
  calm (handle_opt_proposal rec b) s done_.
Proof.
  intros Hs Ha. unfold handle_opt_proposal. apply calm_gets.
  destruct (Z.ltb_spec (Block.epoch b) (epoch s)) as [|Hle]; [by apply calm_ret|].
  destruct (Z.ltb_spec (epoch s) (Block.epoch b)) as [|Hge].
  { apply calm_mild; [|done]. mild_step; [mild_step | mild_step]. }
  specialize (Ha ltac:(lia)). cbv zeta. apply calm_gets. rewrite (so_elector s Hs).
  destruct (member_place c w Hsize (Block.author b) (Block.height b) Ha) as [o Ho]. rewrite Ho.
  apply calm_ok. apply calm_step; [apply mild_ensure | done | intros _ s1 Hs1]. apply calm_gets.
  apply calm_step; [apply mild_lift; eauto with whole | done | intros _ s2 Hs2]. apply calm_gets.
  rewrite (so_pes s2 Hs2). apply calm_step; [done | done | intros _ s3 Hs3].
  apply calm_step; [apply mild_process_qc | done | intros _ s4 Hs4].
  apply calm_step; [apply mild_verify | done | intros [|] s5 Hs5]; [|by apply calm_ret].
  by apply calm_block.
Qed.
End Rec.

(** ** Boxed calls, boot and epochs *)

Lemma calm_exec n :
  (forall v s, sound s -> calm (exec n (R_handle_opt_vote v)) s done_) /\
  (forall b s, sound s -> calm (exec n (R_process_opt_block b)) s done_).
Proof.
  induction n as [|n [IHv IHb]]; (split; intros x s Hs; [| ]); try by (split_and!).
  - by apply calm_handle_opt_vote.
  - by apply calm_process_opt_block.
Qed.

Lemma calm_run_boot n s : sound s -> calm (run_boot n) s done_.
Proof.
  intros Hs. destruct (calm_exec n) as [Hv Hb]. unfold run_boot. do 2 apply calm_gets.
  rewrite (so_opt s Hs), (so_pes s Hs). cbn [negb orb andb].
  eapply calm_bind.
  - do 3 apply calm_gets. rewrite (so_elector s Hs), (so_name s Hs). apply calm_place.
    intros [i|] Hi; [|by apply (calm_ret tt s done_)]. destruct (i =? 0).
    + destruct (calm_opt_propose (exec n) Hb s i Hs Hi) as (Hw & Hs' & _).
      unfold calm, ignore_err. destruct (opt_propose (exec n) s) as [[[]|x|y|] s']; simpl in *; try done.
    + apply calm_gets. apply calm_mild; [apply mild_timer | done].
  - intros _ s' Hs' _. apply calm_gets. by apply calm_ret.
Qed.

Lemma mild_drain l : mild (drain l).
Proof.
  induction l as [|[e m] l IH]; simpl; [apply mild_ret|].
  mild_step; [mild_step|]. mild_step; [mild_step|]. mild_step; [|exact IH].
  destruct m; try apply mild_ret; (mild_step; [mild_step | exact IH]).
Qed.

Lemma calm_next_epoch n s : sound s -> calm (next_epoch n) s done_.
Proof.
  intros Hs. unfold next_epoch. apply calm_gets.
  eapply (calm_bind _ _ _ done_).
  { split_and!; [done | | done]. destruct Hs. constructor; simpl; try done. congruence. }
  intros _ s1 Hs1 _. apply calm_gets.
  apply calm_step; [apply mild_drain | done | intros _ s2 Hs2]. by apply calm_run_boot.
Qed.

(** ** Events *)

(** The deployment does not use the agreement's channel, and other tasks write
    values that are not blocks. *)
Definition opt_event (ev : Event) : Prop :=
  match ev with
  | Deliver (OnSmvbaChannel _) => False
  | ForeignWrite _ v => deserialize_block v = None
  | _ => True
  end.

Definition by_stranger (ev : Event) (s : Core) : Prop :=
  exists b, (ev = Deliver (OnCoreChannel (HsPropose b)) \/ ev = Deliver (OnCoreChannel (SyncReply b)))
    /\ Block.epoch b = epoch s /\ Block.author b ∉ members c.

Definition out_of_turn (ev : Event) (s : Core) : Prop :=
  ev = Deliver OnTimer /\ index_as_leader elector k (height s) = Ok None.

Lemma calm_dispatch n i s :
  sound s -> opt_event (Deliver i) -> ~ by_stranger (Deliver i) s -> ~ out_of_turn (Deliver i) s ->
  calm (dispatch n i) s done_.
Proof.
  intros Hs Hi Hst Hot. destruct (calm_exec n) as [Hv Hb].
  destruct i as [m|m|]; simpl in Hi; [|done|].
  - destruct m; simpl; try by apply (calm_ret tt s done_).
    + apply calm_handle_proposal; [done..|]. intros He. apply dec_stable. intros Ha.
      apply Hst. eexists. by split; [left|].
    + by apply calm_handle_opt_vote.
    + by apply calm_process_opt_block.
    + apply calm_mild; [apply mild_sync_request | done].
    + apply calm_handle_proposal; [done..|]. intros He. apply dec_stable. intros Ha.
      apply Hst. eexists. by split; [right|].
  - simpl. destruct (member_place c w Hsize k (height s) Hmember) as [[i|] Ho].
    + by eapply calm_opt_propose.
    + destruct Hot. by split.
Qed.

Lemma calm_event n ev s :
  sound s -> opt_event ev -> ~ by_stranger ev s -> ~ out_of_turn ev s ->
  (node_event n ev s).1 <> Crashed /\ sound (node_event n ev s).2.
Proof.
  intros Hs He Hst Hot. destruct ev as [i|d|key v].
  - destruct (calm_dispatch n i s Hs He Hst Hot) as (Hw & Hs1 & _). simpl.
    destruct (dispatch n i s) as [r s1]. simpl in *.
    destruct (after r) eqn:Hr; simpl; try done; [|by destruct r as [|[]| |]].
    destruct (calm_next_epoch n s1 Hs1) as (Hw2 & Hs2 & _). destruct (next_epoch n s1) as [r2 s2].
    simpl in *. split; [|done]. by destruct r2 as [|[]| |].
  - split; [done|]. by apply (sound_stat s).
  - split; [done|]. destruct Hs. constructor; try done. simpl in *. intros key' bytes x Hx Hd.
    apply lookup_insert_Some in Hx as [[_ <-]|[_ Hx]]; [congruence|].
    destruct (so_closed0 key' bytes x Hx Hd) as [?|Hp]; [by left | right].
    by apply lookup_insert_is_Some'; right.
Qed.

Lemma stranger_crashes n ev s :
  sound s -> by_stranger ev s -> (node_event n ev s).1 = Crashed.
Proof.
  intros Hs (b & Hev & He & Ha).
  assert (name_to_idx (leader_elector s) !! Block.author b = None) as Hn.
  { rewrite (so_elector s Hs). apply eq_None_not_Some. intros [p Hp].
    apply Ha, (names_members c w). apply name_index in Hp as [_ Hp]. by eapply list_elem_of_lookup_2. }
  pose proof (unknown_author_crashes n b s He Hn) as Hc.
  destruct Hev as [-> | ->]; [exact Hc|]. cbn [node_event dispatch handle_core_channel] in *. exact Hc.
Qed.

Lemma timer_crashes n ev s :
  sound s -> out_of_turn ev s -> (node_event n ev s).1 = Crashed.
Proof.
  intros Hs [-> Hi]. cbn [node_event dispatch]. unfold opt_propose. run_act.
  rewrite (so_elector s Hs), (so_name s Hs), Hi. done.
Qed.

(** The runs of a node that has not crashed. *)
Inductive opt_run (core : Core) : Core -> Prop :=
| opt_boot fuel : opt_run core (start fuel core).2
| opt_next fuel ev s : opt_run core s -> opt_event ev ->
    (node_event fuel ev s).1 <> Crashed -> opt_run core (node_event fuel ev s).2.

Lemma sound_start fuel core :
  sound core -> (start fuel core).1 <> Crashed /\ sound (start fuel core).2.
Proof.
  intros Hs. destruct (calm_run_boot fuel core Hs) as (Hw & Hs' & _). unfold start.
  destruct (run_boot fuel core) as [r s']. simpl in *. split; [|done]. by destruct r as [|[]| |].
Qed.

Lemma by_stranger_dec ev s : by_stranger ev s \/ ~ by_stranger ev s.
Proof.
  destruct ev as [[m|m|]|d|key v]; try (right; intros (b & [?|?] & _); congruence).
  assert (forall b, (m = HsPropose b \/ m = SyncReply b) ->
    by_stranger (Deliver (OnCoreChannel m)) s \/ ~ by_stranger (Deliver (OnCoreChannel m)) s) as Hb.
  { intros b Hm. destruct (decide (Block.epoch b = epoch s /\ Block.author b ∉ members c)) as [Hy|Hn].
    - left. exists b. split; [destruct Hm as [-> | ->]; auto | done].
    - right. intros (b' & Hb' & Hy). apply Hn.
      assert (b' = b) as -> by (destruct Hm as [-> | ->], Hb' as [?|?]; congruence). done. }
  destruct m; try (apply (Hb b); by auto); right; intros (b' & [?|?] & _); congruence.
Qed.

Lemma out_of_turn_dec ev s : out_of_turn ev s \/ ~ out_of_turn ev s.
Proof.
  destruct (member_place c w Hsize k (height s) Hmember) as [[i|] Ho];
    [right; intros [_ Hn]; congruence|].
  destruct ev as [[m|m|]|d|key v]; try (right; intros [Hn _]; congruence). by left.
Qed.

Lemma sound_run core s : sound core -> opt_run core s -> sound s.
Proof.
  intros Hc. induction 1 as [fuel|fuel ev s _ Hs Hev Hok]; [by apply sound_start|].
  destruct (by_stranger_dec ev s) as [Hb|Hb]; [by destruct Hok; apply stranger_crashes|].
  apply calm_event; [done..|]. intros Ht. by destruct Hok; apply timer_crashes.
Qed.
End Calm.

(** ** The theorem *)

Section Crashes.
Context `{CryptoLib} `{NodeEnv} `{!BincodeLaws}.

(** C14: Which proposals, votes, loop-backs, requests and timers crash a node of the
    optimistic deployment.  For a member whose service signs and whose store has a
    parent for every block, with a window no larger than the committee, the boot does
    not panic; and of the events of the optimistic path (any message on the core's
    channel, from anyone; the timer; the clock; writes to the store by other tasks
    that are not blocks: [opt_event]) one kills the core exactly when it is a proposal
    of the current epoch, or the reply to a request, by an author outside the
    committee, or the timer while the node is not in the window of its height.
    Messages on the agreement's channel, which the deployment leaves open, are not
    covered: they crash the core, too ([Injections.broadcast_votes_crash]). *)
Theorem crashes_exactly (k : PublicKey) (c : Committee) (ps : Parameters)
    (svc : SignatureService) (pks : PublicKeySet) (st : StoreClient) (now : Z) :
  k ∈ members c -> 0 <= leader_window ps <= committee_size c -> 3 * committee_size c < 2 ^ 64 ->
  signs_for k svc -> closed (kv st) ->
  let core := Core_new k c ps svc pks st (LeaderElector_new c (leader_window ps)) true false now in
  (forall fuel, (start fuel core).1 <> Crashed) /\
  forall s fuel ev, opt_run core s -> opt_event ev ->
    ((node_event fuel ev s).1 = Crashed <->
     by_stranger c ev s \/ out_of_turn c (leader_window ps) k ev s).
Proof.
  intros Hk Hw Hb Hsvc Hst core.
  assert (0 < committee_size c) as Hsize.
  { unfold committee_size, members in *. destruct (decide (authorities c = ∅)) as [He|Hne].
    - rewrite He in Hk. set_solver.
    - assert (size (authorities c) <> O) by (by intros ?%map_size_empty_inv). lia. }
  assert (sound c (leader_window ps) k core) as Hcore by by constructor.
  split; [intros fuel; by eapply sound_start|]. intros s fuel ev Hs Hev.
  assert (sound c (leader_window ps) k s) as Hsound by (by eapply sound_run).
  split.
  - intros Hcr. destruct (by_stranger_dec c ev s) as [|Hn]; [by left | right].
    destruct (out_of_turn_dec c (leader_window ps) k Hsize Hk ev s) as [|Hn']; [done | exfalso].
    by apply (calm_event c (leader_window ps) k Hsize Hw Hb Hk fuel ev s Hsound Hev Hn Hn').
  - intros [Hbs|Ht]; [by eapply stranger_crashes | by eapply timer_crashes].
Qed.
End Crashes.
