(* ===== verification/TwoPaths.v ===== *)
(** * The two paths together do not agree

    With both paths on ([Protocol::HotStuffAndSMVBA]) the optimistic chain accepts
    certificates of the fallback chain, because neither [QC::verify] nor the
    handlers look at the tag; and members vote for fallback blocks without the rule
    that allows one vote for each height.  A run in which one member of four
    deviates makes two others commit different blocks at the same height: the
    agreement that [ChainAgreement] proves for the optimistic path alone does not
    hold here. *)

From S2P Require Import Prelude Machine Crypto Config Messages Leader Aggregator Timer Store.
From S2P Require Import Sync Core Handlers Fixture MessageFacts Types Spec Refine Cluster Chain.

(** ** The member that deviates builds its own messages *)

Definition made_block (r : ConsensusResult Block.t) : Block.t :=
  match r with Ok b => b | _ => Block.genesis end.

Definition block4 (qc : QC.t) (h round tag : Z) : Block.t :=
  made_block (Block.new qc (key 4) h 0 round [] (toy_service 4) tag).

(** A certificate from the votes that reached it. *)
Definition certificate_of (votes : list HVote.t) : QC.t :=
  match votes with
  | v :: _ => qc_of_vote v ((fun v => (HVote.author v, HVote.signature v)) <$> votes)
  | [] => QC.genesis
  end.

(** The votes a node has signed for a block. *)
Definition votes_for (d : Digest) (s : Core) : list HVote.t :=
  omap (fun m => match m with
                 | SignedHVote v => if bool_decide (HVote.hash v = d) then Some v else None
                 | _ => None
                 end) (signed s).

Definition certificate_for (b : Block.t) (nodes : list Core) : QC.t :=
  certificate_of (nodes ≫= votes_for (Block.digest b)).

(** What member [k], in state [s], has signed of a block: the block, if it is its
    author, and its votes in the certificate. *)
Definition genuine_block (k : PublicKey) (s : Core) (b : Block.t) : Prop :=
  (Block.author b = k -> SignedBlock b ∈ signed s) /\
  forall x, x ∈ QC.votes (Block.qc b) -> x.1 = k -> SignedHVote (qc_vote (Block.qc b) x) ∈ signed s.

#[export] Instance HVote_eq_dec : EqDecision HVote.t.
Proof. solve_decision. Defined.

Definition signed_block_in (l : list Signable) (b : Block.t) : bool :=
  existsb (fun m => match m with SignedBlock b' => bool_decide (b' = b) | _ => false end) l.
Definition signed_vote_in (l : list Signable) (v : HVote.t) : bool :=
  existsb (fun m => match m with SignedHVote v' => bool_decide (v' = v) | _ => false end) l.

Definition genuine_blockb (k : PublicKey) (s : Core) (b : Block.t) : bool :=
  (negb (bool_decide (Block.author b = k)) || signed_block_in (signed s) b) &&
  forallb (fun x => negb (bool_decide (x.1 = k)) ||
                    signed_vote_in (signed s) (qc_vote (Block.qc b) x)) (QC.votes (Block.qc b)).

Lemma genuine_blockb_spec k s b : genuine_blockb k s b = true -> genuine_block k s b.
Proof.
  unfold genuine_blockb. rewrite andb_true_iff, forallb_forall. intros [Hb Hv]. split.
  - intros Ha. rewrite bool_decide_true in Hb by done. apply existsb_exists in Hb as (m & Hm & He).
    destruct m; try done. apply bool_decide_eq_true in He as ->. by apply list_elem_of_In.
  - intros x Hx Hk. apply list_elem_of_In in Hx. specialize (Hv x Hx).
    rewrite bool_decide_true in Hv by done. apply existsb_exists in Hv as (m & Hm & He).
    destruct m; try done. apply bool_decide_eq_true in He as ->. by apply list_elem_of_In.
Qed.

(** ** The run *)

Definition both_paths (i : Z) : Core := (start sim_fuel (toy_node i true true)).2.
Definition deliver_all (l : list Input) (s : Core) : Core := fold_left (fun s i => receive i s) l s.

Notation opt_proposal b := (OnCoreChannel (HsPropose b)).
Notation fallback_proposal b := (OnSmvbaChannel (FBPropose b)).

(** Member 2 leads the first height and proposes; member 4 proposes a fallback block
    for this height. *)
Definition b1 : Block.t :=
  match network_filter (both_paths 2) with
  | (HsPropose b, _) :: _ => b
  | _ => Block.genesis
  end.
Definition f1 : Block.t := block4 QC.genesis 1 3 PES.
Definition run1 : list Core :=
  deliver_all [opt_proposal b1; fallback_proposal f1] <$> (both_paths <$> [1; 2; 3]).

(** At the second height member 4 extends its certified fallback block on the
    optimistic path, and the certified optimistic block on the fallback path. *)
Definition d2 : Block.t := block4 (certificate_for f1 run1) 2 0 OPT.
Definition f2 : Block.t := block4 (certificate_for b1 run1) 2 3 PES.
Definition run2 : list Core :=
  deliver_all [opt_proposal d2; fallback_proposal f2] <$> run1.

(** At the third height it proposes one block on each of the two, to one member
    each. *)
Definition p3 : Block.t := block4 (certificate_for d2 run2) 3 0 OPT.
Definition p3' : Block.t := block4 (certificate_for f2 run2) 3 0 OPT.

Definition sent : list Block.t := [b1; f1; d2; f2; p3; p3'].

Definition inputs_of_member (i : Z) : list Input :=
  [opt_proposal b1; fallback_proposal f1; opt_proposal d2; fallback_proposal f2;
   opt_proposal (if i =? 1 then p3 else p3')].

Definition honest_member (i : Z) : Core := deliver_all (inputs_of_member i) (both_paths i).

Definition conflict (b b' : Block.t) : bool :=
  (Block.epoch b =? Block.epoch b') && (Block.height b =? Block.height b')
  && negb (bool_decide (Block.digest b = Block.digest b')).

Definition conflicting_commits (l l' : list Block.t) : bool :=
  match l, l' with [b], [b'] => conflict b b' | _, _ => false end.

(** The only evaluation of the run. *)
Lemma two_path_checked :
  forallb (fun i => forallb (genuine_blockb (key i) (honest_member i)) sent) [1; 2; 3]
  && conflicting_commits (commit_channel (honest_member 1)) (commit_channel (honest_member 2))
  = true.
Proof. vm_cast_no_check (eq_refl true). Qed.

Lemma deliver_all_proper core l s : proper_run core s -> proper_run core (deliver_all l s).
Proof.
  revert s. induction l as [|i l IH]; intros s Hs; [done|]. by apply IH, receive_proper.
Qed.

Lemma conflicting_commits_spec l l' :
  conflicting_commits l l' = true ->
  exists b b', l = [b] /\ l' = [b'] /\ Block.epoch b = Block.epoch b' /\
    Block.height b = Block.height b' /\ Block.digest b <> Block.digest b'.
Proof.
  unfold conflicting_commits, conflict. intros Hc.
  destruct l as [|b [|]]; try done. destruct l' as [|b' [|]]; try done.
  rewrite !andb_true_iff, !Z.eqb_eq in Hc. destruct Hc as [[He Hh] Hd].
  apply negb_true_iff, bool_decide_eq_false in Hd. by exists b, b'.
Qed.

(** C9: The two paths together do not agree.  With both paths on, three members of
    four follow the protocol, receive only blocks of which each of them has signed
    what bears its signature, and two of them commit different blocks of the same
    epoch and height: certificates of the fallback chain count on the optimistic
    path, and fallback votes are not limited to one for each height. *)
Theorem two_path_agreement_fails :
  (forall i, i ∈ [1; 2; 3] ->
     proper_run (toy_node i true true) (honest_member i) /\
     forall b, b ∈ sent -> genuine_block (key i) (honest_member i) b) /\
  exists b b', commit_channel (honest_member 1) = [b] /\ commit_channel (honest_member 2) = [b'] /\
    Block.epoch b = Block.epoch b' /\ Block.height b = Block.height b' /\
    Block.digest b <> Block.digest b'.
Proof.
  destruct (proj1 (andb_true_iff _ _) two_path_checked) as [Hg Hc].
  split; [|exact (conflicting_commits_spec _ _ Hc)]. intros i Hi. split.
  - apply deliver_all_proper, proper_start.
  - intros b Hb. apply genuine_blockb_spec.
    pose proof (proj1 (forallb_forall _ _) Hg i (proj1 (list_elem_of_In _ _) Hi)) as Hall.
    exact (proj1 (forallb_forall _ _) Hall b (proj1 (list_elem_of_In _ _) Hb)).
Qed.
