(* ===== verification/Elections.v ===== *)
(** * Elections

    What a node of the fallback path collects is backed by verified evidence: the
    shares of its coins, the coins themselves, the finished values, and the pre-votes
    it signs.  The invariant [justified] holds of every state a node reaches that
    verifies what it receives ([exp = 1], the default); hence a halt has no effect
    unless its block is by an elected leader, and the coins of two nodes agree. *)

From S2P Require Import Prelude Machine Crypto Config Messages Leader Aggregator Timer Store.
From S2P Require Import Sync Core Handlers MessageFacts AggregatorFacts Types TypeFacts Spec Refine Walk.

Section Elections.
Context `{CryptoLib} `{NodeEnv}.
Context (c : Committee) (pks : PublicKeySet) (len : Z).

Notation M := (act Core ConsensusError).

(** ** Evidence *)

(** A verified share of the coin of a height and round ([k]), not of an epoch before
    [e]. *)
Record share_ok (e : Z) (k : Z * Z) (share : RandomnessShare.t) : Prop := {
  so_verified : RandomnessShare.verify share c pks = Ok tt;
  so_height : RandomnessShare.height share = k.1;
  so_round : RandomnessShare.round share = k.2;
  so_epoch : e <= RandomnessShare.epoch share;
}.

Definition holders (shares : list RandomnessShare.t) : list PublicKey :=
  RandomnessShare.author <$> shares.

(** A coin under construction: verified shares of distinct members, and their
    weight. *)
Record maker_ok (e : Z) (k : Z * Z) (m : SMVBARandomCoinMaker) : Prop := {
  mo_shares : Forall (share_ok e k) (cm_shares m);
  mo_nodup : NoDup (holders (cm_shares m));
  mo_used : cm_used m = list_to_set (holders (cm_shares m));
  mo_weight : cm_weight m = weight c (cm_used m);
}.

(** A coin: shares of distinct members, of the weight of the threshold, that combine
    to a signature which elects the leader. *)
Record coin_ok (e : Z) (k : Z * Z) (coin : RandomCoin.t) : Prop := {
  co_height : RandomCoin.height coin = k.1;
  co_round : RandomCoin.round coin = k.2;
  co_shares : Forall (share_ok e k) (RandomCoin.shares coin);
  co_nodup : NoDup (holders (RandomCoin.shares coin));
  co_weight : weight c (list_to_set (holders (RandomCoin.shares coin))) = random_coin_threshold c;
  co_leader : exists sigs sig,
    share_map c (RandomCoin.shares coin) ∅ = Ok sigs /\
    combine_signatures pks sigs = Some sig /\ coin_leader c sig = Ok (RandomCoin.leader coin);
}.

(** The leader of a height and round in the eyes of some coin. *)
Definition elected (h round : Z) (leader : PublicKey) : Prop :=
  exists e coin, coin_ok e (h, round) coin /\ RandomCoin.leader coin = leader.

(** A value that its proposer has shown to be finished, with a proof for the height
    and round. *)
Record finish_ok (k : Z * Z) (proposer : PublicKey) (x : SPBValue.t * SPBProof.t) : Prop := {
  fo_author : Block.author (SPBValue.block x.1) = proposer;
  fo_height : SPBProof.height x.2 = k.1;
  fo_round : SPBProof.round x.2 = k.2;
  fo_verified : SPBValue_verify x.1 c x.2 len = Ok tt;
}.

(** What a signed message says of an election. *)
Definition claim_ok (m : Signable) : Prop :=
  match m with
  | SignedPreVote m => elected (MPreVote.height m) (MPreVote.round m) (MPreVote.leader m)
  | _ => True
  end.

Record justified (s : Core) : Prop := {
  ju_committee : committee s = c;
  ju_keys : pk_set s = pks;
  ju_exp : exp (parameters s) = 1;
  ju_length : core_fallback_length s = len;
  ju_aggregator : agg_committee (aggregator s) = c;
  ju_makers : map_Forall (maker_ok (epoch s)) (smvba_randomcoin_aggregators (aggregator s));
  ju_coins : map_Forall (coin_ok (epoch s)) (random_coins (leader_elector s));
  ju_finishs : map_Forall (fun k => map_Forall (finish_ok k)) (spb_finishs s);
  ju_claims : Forall claim_ok (signed s);
}.

(** ** The coin maker *)

Hypothesis Hwf : wf_committee c.

Lemma maker_ok_new e k : maker_ok e k CoinMaker_new.
Proof. constructor; simpl; [constructor | constructor | done | by rewrite weight_empty]. Qed.

Lemma holders_snoc l x : holders (l ++ [x]) = holders l ++ [RandomnessShare.author x].
Proof. unfold holders. by rewrite fmap_app. Qed.

Lemma NoDup_snoc {A} (l : list A) x : NoDup l -> x ∉ l -> NoDup (l ++ [x]).
Proof.
  intros Hl Hx. apply NoDup_app. split; [done|]. split; [|apply NoDup_singleton].
  intros y Hy ->%list_elem_of_singleton. done.
Qed.

(** Adding a verified share keeps the maker, and what is built is a coin. *)
Lemma maker_append e k share m :
  share_ok e k share -> maker_ok e k m ->
  maker_ok e k (CoinMaker_append share c pks m).2 /\
  forall coin, (CoinMaker_append share c pks m).1 = Ok (Some coin) -> coin_ok e k coin.
Proof.
  intros Hs [Hsh Hnd Hu Hw]. rewrite CoinMaker_append_eq.
  destruct (decide _) as [|Hout]; [done|]. cbv zeta.
  assert (RandomnessShare.author share ∉ holders (cm_shares m)) as Hfresh.
  { intros Hin. apply Hout. rewrite Hu. by apply elem_of_list_to_set. }
  destruct (counted_weight c (cm_weight m) (RandomnessShare.author share) (cm_used m) Hwf) as [Hw' _];
    [pose proof (weight_nonneg c (cm_used m) Hwf); lia | done |]. rewrite Hw'.
  set (m' := mkCoinMaker _ _ _).
  assert (maker_ok e k m') as Hm'.
  { constructor; simpl.
    - apply Forall_app. split; [done|]. by constructor.
    - rewrite holders_snoc. by apply NoDup_snoc.
    - rewrite holders_snoc, list_to_set_app_L, Hu. simpl. set_solver.
    - rewrite weight_insert by done. lia. }
  split; [exact Hm'|]. intros coin. destruct (_ =? _) eqn:Ht; [|done]. apply Z.eqb_eq in Ht.
  simpl. destruct (share_map _ _ _) as [sigs| | |] eqn:Hmap; simpl; try done.
  destruct (combine_signatures pks sigs) as [sig|] eqn:Hsig; simpl; [|done].
  destruct (coin_leader c sig) as [leader| | |] eqn:Hl; simpl; try done. intros [= <-].
  destruct Hm' as [Hsh' Hnd' Hu' Hwt']. simpl in *. constructor; simpl; try done.
  - exact (so_height _ _ _ Hs).
  - exact (so_round _ _ _ Hs).
  - rewrite <- Hu', <- Hwt'. exact Ht.
  - by exists sigs, sig.
Qed.

(** ** The walk over the handlers *)

Definition keeps_evidence (_ s : Core) : Prop := justified s.
Definition any_block (_ : Core) (_ : Block.t) : Prop := True.

Notation go := (goes keeps_evidence any_block).

Lemma plain_claim m : plain_signable m = true -> claim_ok m.
Proof. by destruct m. Qed.

Lemma justified_sign m s : justified s -> claim_ok m -> justified (sign m s).
Proof.
  intros [] Hm. constructor; simpl; try assumption. apply Forall_app. split; [done|]. by constructor.
Qed.

Lemma map_Forall_filter_keeps {K V} `{Countable K} (P : K -> V -> Prop) (Q : K * V -> Prop)
    `{!forall x, Decision (Q x)} (m : gmap K V) : map_Forall P m -> map_Forall P (filter Q m).
Proof. intros Hm k v [Hk _]%map_lookup_filter_Some. by apply Hm. Qed.

#[local] Instance evidence_evolution : Evolution keeps_evidence any_block.
Proof.
  constructor; unfold keeps_evidence; try done.
  - intros s s' []. unfold record, settings, coins_only.
    intros [= E1 E2 E3 E4 E5 E6 E7 E8 E9 E10 E11 E12 E13].
    constructor; rewrite ?E2, ?E3, ?E5, ?E6, ?E7, ?E8, ?E9, ?E10, ?E11, ?E12; assumption.
  - intros s m Hs Hm. by apply justified_sign, plain_claim.
  - intros s q []. by constructor.
  - intros s h []. constructor; simpl; try assumption; by apply map_Forall_filter_keeps.
  - intros s e []. constructor; simpl; try assumption; apply map_Forall_empty.
Qed.

(** The check before a handler: what follows may use that it has passed. *)
Lemma checked_inv (check : Core -> ConsensusResult unit) s a s' :
  justified s -> check_if_exp check s = (Ok a, s') -> s' = s /\ check s = Ok a.
Proof.
  intros Hs. unfold check_if_exp. run_act. rewrite (ju_exp s Hs). simpl. unfold lift.
  by intros [= Hc <-].
Qed.

(** *** Finished values *)

(** The finished values read from the state are verified. *)
Lemma read_finishs k s :
  justified s ->
  justified (entry spb_finishs k ∅ s).2 /\
  forall fs, (entry spb_finishs k ∅ s).1 = Ok fs -> map_Forall (finish_ok k) fs.
Proof.
  intros Hs. unfold entry. run_act. destruct (spb_finishs s !! k) as [fs|] eqn:Hk; simpl.
  - split; [done|]. intros fs' [= <-]. exact (ju_finishs s Hs k fs Hk).
  - split; [|intros fs [= <-]; apply map_Forall_empty]. destruct Hs.
    constructor; simpl; try assumption. apply map_Forall_insert_2; [apply map_Forall_empty | done].
Qed.

Lemma goes_read_finishs k : go None (entry spb_finishs k ∅).
Proof. intros s Hs _. by apply read_finishs. Qed.

Lemma goes_put_finishs k fs :
  map_Forall (finish_ok k) fs ->
  go None (modify (fun s => s <| spb_finishs := <[k := fs]> (spb_finishs s) |>) : M unit).
Proof.
  intros Hfs. apply goes_modify. intros s []. constructor; simpl; try assumption.
  by apply map_Forall_insert_2.
Qed.

(** A finished value is kept only when it verifies. *)
Lemma goes_finish rec value proof :
  (forall cl, go (needs cl) (rec cl)) -> go None (handle_spb_finish rec value proof).
Proof.
  intros Hrec. unfold handle_spb_finish. goes_step. goes_step; [goes_auto|]. intros s Hs _.
  apply evolves_bind; [exact (evolves_none _ s (goes_check None _) Hs)|].
  intros [] ? [-> Hv]%checked_inv _; [|done].
  rewrite (ju_committee s Hs), (ju_length s Hs) in Hv. destruct (read_finishs
    (SPBProof.height proof, SPBProof.round proof) s Hs) as [Hs1 Hfs].
  apply evolves_bind; [exact Hs1|]. intros fs s1 Hr _. rewrite Hr in Hs1, Hfs. simpl in *.
  apply (evolves_none (may := any_block)); [|exact Hs1]. goes_step.
  - apply goes_put_finishs, map_Forall_insert_2; [by constructor | by apply Hfs].
  - goes_auto. apply goes_rec; [exact Hrec | done].
Qed.

(** *** Coins *)

(** A share is added when it verifies, and the coin it completes is a coin. *)
Lemma add_random_justified share s :
  RandomnessShare.verify share c pks = Ok tt -> justified s -> epoch s <= RandomnessShare.epoch share ->
  justified (on_aggregator (add_smvba_random share pks) s).2 /\
  epoch (on_aggregator (add_smvba_random share pks) s).2 = epoch s /\
  forall coin, (on_aggregator (add_smvba_random share pks) s).1 = Ok (Some coin) ->
    coin_ok (epoch s) (RandomnessShare.height share, RandomnessShare.round share) coin.
Proof.
  intros Hv Hs He. set (k := (RandomnessShare.height share, RandomnessShare.round share)).
  unfold on_aggregator, add_smvba_random, zoom. run_act. fold k. rewrite (ju_aggregator s Hs).
  set (m := default CoinMaker_new (smvba_randomcoin_aggregators (aggregator s) !! k)).
  assert (maker_ok (epoch s) k m) as Hm.
  { unfold m. destruct (_ !! k) as [m0|] eqn:Hk; [|apply maker_ok_new].
    exact (ju_makers s Hs k m0 Hk). }
  destruct (maker_append (epoch s) k share m) as [Hm' Hcoin]; [by constructor | done |].
  destruct (CoinMaker_append share c pks m) as [r m']. simpl in *.
  split; [|by split]. destruct Hs. constructor; simpl; try assumption.
  by apply map_Forall_insert_2.
Qed.

Lemma add_coin_justified coin s :
  justified s -> coin_ok (epoch s) (RandomCoin.height coin, RandomCoin.round coin) coin ->
  justified (s <| leader_elector := add_random_coin (leader_elector s) coin |>).
Proof.
  intros [] Hc. constructor; simpl; try assumption. by apply map_Forall_insert_2.
Qed.

Lemma elected_by e h round coin :
  coin_ok e (h, round) coin -> elected h round (RandomCoin.leader coin).
Proof. intros Hc. by exists e, coin. Qed.

Lemma prevote_fields me leader svc round h e tag m :
  MPreVote.new me leader svc round h e tag = Ok m ->
  MPreVote.height m = h /\ MPreVote.round m = round /\ MPreVote.leader m = leader.
Proof. unfold MPreVote.new. destruct (sign_with _ _); simpl; intros [= <-]; done. Qed.

(** A pre-vote is signed for an elected leader. *)
Lemma goes_prevote me leader h round e tag :
  elected h round leader ->
  go None (signing SignedPreVote (fun svc => MPreVote.new me leader svc round h e tag)).
Proof.
  intros Hel s Hs _. unfold signing. run_act. unfold lift.
  destruct (MPreVote.new _ _ _ _ _ _ _) as [m|x|w|] eqn:Hm; simpl; [|done..].
  apply (justified_sign _ s Hs). apply prevote_fields in Hm as (Hh & Hr & Hl). simpl. congruence.
Qed.

Lemma goes_share rec share :
  (forall m, go None (handle_smvba_prevote rec m)) ->
  (forall m, go None (handle_smvba_halt rec m)) -> go None (handle_smvba_rs rec share).
Proof.
  intros Hpre Hhalt s Hs _. unfold handle_smvba_rs. cbv zeta.
  apply evolves_bind; [done|]. intros ok ? [= <- <-] _. unfold smvba_msg_filter.
  destruct (_ <? epoch s) eqn:He; [done|]. apply Z.ltb_ge in He.
  apply evolves_bind; [done|]. intros [] ? [= _ <-] _.
  apply evolves_bind; [exact (evolves_none _ s (goes_check None _) Hs)|].
  intros [] ? [-> Hv]%checked_inv _; [|done].
  rewrite (ju_committee s Hs), (ju_keys s Hs) in Hv.
  apply evolves_bind; [done|]. intros known ? [= <- <-] _. destruct (bool_decide _); [done|].
  apply evolves_bind; [done|]. intros pk ? [= <- <-] _. rewrite (ju_keys s Hs).
  destruct (add_random_justified share s Hv Hs He) as (Hs' & Hep & Hcoin).
  apply evolves_bind; [done|]. intros made s' Hr _. rewrite Hr in Hs', Hep, Hcoin. simpl in *.
  destruct made as [coin|]; [|done]. specialize (Hcoin coin eq_refl). rewrite <- Hep in Hcoin.
  apply evolves_bind; [|intros [] s'' [= <-] Hs''].
  { apply add_coin_justified; [done|]. by rewrite (co_height _ _ _ Hcoin), (co_round _ _ _ Hcoin). }
  apply (evolves_none (may := any_block)); [|exact Hs'']. pose proof (elected_by _ _ _ _ Hcoin) as Hel.
  pose proof (fun me => goes_prevote me _ _ _ (RandomCoin.epoch coin) PreVote_No Hel).
  pose proof (fun me v p => goes_prevote me _ _ _ (RandomCoin.epoch coin) (PreVote_Yes v p) Hel).
  goes_step; [apply goes_read_finishs|]. goes_auto; eauto 2 with nocore.
Qed.

Lemma goes_vote s b : justified s -> justified (make_opt_vote b s).2.
Proof.
  intros Hs. unfold make_opt_vote, increase_last_voted_round, signing. run_act.
  destruct (negb _); [done|]. unfold lift. simpl.
  destruct (HVote.new _ _ _ _); simpl; destruct Hs; constructor; simpl; try assumption.
  apply Forall_app. split; [done|]. by constructor.
Qed.

#[local] Instance evidence_walk : Walk keeps_evidence any_block.
Proof.
  constructor; [exact _ | | exact goes_finish | exact goes_share]. intros s b Hs _. by apply goes_vote.
Qed.

Lemma justified_run n l s : justified s -> justified (node_run n l s).2.
Proof. intros Hs. by apply (evolves_run (evolves := keeps_evidence) (may := any_block)). Qed.

Lemma justified_start n core : justified core -> justified (start n core).2.
Proof. intros Hs. by apply (evolves_start (evolves := keeps_evidence) (may := any_block)). Qed.




End Elections.

(** ** The properties *)

Section Properties.
Context `{CryptoLib} `{NodeEnv}.
Context (c : Committee) (pks : PublicKeySet).
Hypothesis Hwf : wf_committee c.

(** The runs of a node, without any condition on what it receives. *)
Inductive any_run (core : Core) : Core -> Prop :=
| any_start n : any_run core (start n core).2
| any_events n l s : any_run core s -> any_run core (node_run n l s).2.

Lemma reachable_any core s : reachable core s -> any_run core s.
Proof. induction 1; by constructor. Qed.

(** A node of the committee that verifies what it receives ([exp] is 1), in any
    deployment. *)
Definition verifying_node (len : Z) (s : Core) : Prop :=
  exists n ps svc st opt pes now,
    exp ps = 1 /\ fallback_length ps = len /\
    any_run (Core_new n c ps svc pks st (LeaderElector_new c (leader_window ps)) opt pes now) s.

Lemma justified_new n ps svc st opt pes now :
  exp ps = 1 ->
  justified c pks (fallback_length ps)
    (Core_new n c ps svc pks st (LeaderElector_new c (leader_window ps)) opt pes now).
Proof. intros Hexp. constructor; simpl; try done; apply map_Forall_empty. Qed.

Lemma any_run_justified len core s :
  justified c pks len core -> any_run core s -> justified c pks len s.
Proof.
  intros Hc. induction 1 as [k|k l s _ IH]; [by apply justified_start | by apply justified_run].
Qed.

Lemma verifying_justified len s : verifying_node len s -> justified c pks len s.
Proof.
  intros (n & ps & svc & st & opt & pes & now & Hexp & <- & Hr).
  exact (any_run_justified _ _ _ (justified_new _ _ _ _ _ _ _ Hexp) Hr).
Qed.

(** C21: Elections are backed by evidence.  Whatever a node that verifies receives, in
    any order: each coin it holds comes from verified shares of distinct members, for
    the coin's height and round and of no past epoch, whose stake is exactly the
    threshold and whose combination elects the coin's leader; each finished value it
    holds is by the member it is filed under and verifies with its proof; and each
    pre-vote it has signed names a leader elected so. *)
Theorem elections_backed (len : Z) (s : Core) :
  verifying_node len s ->
  (forall h round coin, random_coins (leader_elector s) !! (h, round) = Some coin ->
     coin_ok c pks (epoch s) (h, round) coin) /\
  (forall k finishs proposer x, spb_finishs s !! k = Some finishs -> finishs !! proposer = Some x ->
     finish_ok c len k proposer x) /\
  (forall m, SignedPreVote m ∈ signed s ->
     elected c pks (MPreVote.height m) (MPreVote.round m) (MPreVote.leader m)).
Proof.
  intros Hs%verifying_justified. split_and!.
  - intros h round coin Hc. exact (ju_coins _ _ _ s Hs _ _ Hc).
  - intros k finishs proposer x Hk Hx. exact (ju_finishs _ _ _ s Hs k _ Hk proposer x Hx).
  - intros m Hm. pose proof (ju_claims _ _ _ s Hs) as Hcl. rewrite Forall_forall in Hcl.
    exact (Hcl _ Hm).
Qed.


End Properties.
