(* ===== verification/ForgedHalt.v ===== *)
(** * The agreement of the fallback path does not agree

    [SPBProof::verify] adds up the stake of the shares of a proof without asking for
    distinct authors, and nothing ties the shares to the value they come with.  So
    the member that the coin elects can show a value of its own as finished, with its
    own vote three times as the proof, and nobody else's help; it can show another
    value to each peer.  A run of the fallback path alone ([Protocol::SMVBA]) in which
    one member of four does this makes two others commit different blocks of the same
    height. *)

From S2P Require Import Prelude Machine Crypto Config Messages Leader Aggregator Timer Store.
From S2P Require Import Sync Core Handlers Fixture MessageFacts Types Spec Refine Cluster Chain TwoPaths AggregatorFacts Elections.

(** ** The run of the members that follow the protocol

    Members 2, 3 and 4 run the fallback path among themselves up to the coin, which
    elects member 1. *)

Definition fallback_only (i : Z) : Core := (start sim_fuel (toy_node i false true)).2.

Definition without_1 : list Seat := (fun i => (fallback_only i, (O, O))) <$> [2; 3; 4].

Definition coin_rounds : nat := 13.

(** Member [i] when the coin is known. *)
Definition after_coin (i : Z) : Core :=
  match simulate receive coin_rounds without_1 !! Z.to_nat (i - 2) with
  | Some (s, _) => s
  | None => fallback_only i
  end.

(** ** The forged messages *)

(** The certificate of the last block of member 2's fallback chain. *)
Definition chain_end : QC.t :=
  match omap (fun m => match m.1 with
                       | SPBPropose value _ => Some (Block.qc (SPBValue.block value))
                       | _ => None
                       end) (network_filter_smvba (after_coin 2)) with
  | qc :: _ => qc
  | [] => QC.genesis
  end.

Definition forged_block (payload : list Digest) : Block.t :=
  made_block (Block.new chain_end (key 1) 1 0 4 payload (toy_service 1) PES).

Definition forged_value (b : Block.t) : SPBValue.t := SPBValue.new b 1 FIN_PHASE PES [].

(** Three times the own vote. *)
Definition forged_proof (value : SPBValue.t) : SPBProof.t :=
  SPBProof.mk FIN_PHASE 1 1
    (match SPBVote.new value (key 1) (toy_service 1) with
     | Ok vote => [vote; vote; vote]
     | _ => []
     end).

Definition halt_of (b : Block.t) : list ConsensusMessage :=
  let value := forged_value b in
  match MHalt.new (key 1) (key 1) value (forged_proof value) (toy_service 1) with
  | Ok halt => [SMVBAHalt halt]
  | _ => []
  end.

(** Another block for each of two members. *)
Definition block_for (i : Z) : Block.t := forged_block [mkDigest (replicate 32 i)].
Notation shown := [block_for 2; block_for 3].

Definition deceived (i : Z) : Core :=
  deliver_all (OnSmvbaChannel <$> halt_of (block_for i)) (after_coin i).

(** A halt that bears nobody's signature but that of member [k], apart from the
    certificate of its block. *)
Definition halt_by (k : PublicKey) (m : ConsensusMessage) : bool :=
  match m with
  | SMVBAHalt halt =>
      bool_decide (MHalt.author halt = k) &&
      bool_decide (Block.author (SPBValue.block (MHalt.value halt)) = k) &&
      forallb (fun share => bool_decide (SPBVote.author share = k))
        (SPBProof.shares (MHalt.proof halt)) &&
      bool_decide (SPBValue.signatures (MHalt.value halt) = [])
  | _ => false
  end.

(** The only evaluation of the run. *)
Lemma forged_halt_checked :
  forallb (fun i => forallb (genuine_blockb (key i) (after_coin i)) shown) [2; 3; 4]
  && forallb (halt_by (key 1)) (shown ≫= halt_of)
  && conflicting_commits (commit_channel (deceived 2)) (commit_channel (deceived 3))
  = true.
Proof. vm_cast_no_check (eq_refl true). Qed.

Lemma after_coin_proper i :
  i ∈ [2; 3; 4] -> proper_run (toy_node i false true) (after_coin i).
Proof.
  intros Hi.
  assert (Forall2 (fun core x => proper_run core x.1)
    ((fun i => toy_node i false true) <$> [2; 3; 4]) without_1) as Hc.
  { repeat constructor; apply proper_start. }
  apply (simulate_keeps receive proper_run (fun core i s => receive_proper core i s) coin_rounds) in Hc.
  assert (((fun i => toy_node i false true) <$> [2; 3; 4]) !! Z.to_nat (i - 2)
    = Some (toy_node i false true)) as Hl.
  { repeat (apply elem_of_cons in Hi as [->|Hi]; [reflexivity|]). by apply elem_of_nil in Hi. }
  destruct (Forall2_lookup_l _ _ _ _ _ Hc Hl) as ([s x] & Hx & Hs).
  unfold after_coin. rewrite Hx. exact Hs.
Qed.

Lemma two_of_three (i : Z) : i ∈ [2; 3] -> i ∈ [2; 3; 4].
Proof. set_solver. Qed.

Lemma deceived_proper i :
  i ∈ [2; 3] -> proper_run (toy_node i false true) (deceived i).
Proof.
  intros Hi. unfold deceived.
  exact (deliver_all_proper _ _ _ (after_coin_proper i (two_of_three i Hi))).
Qed.

(** C10: The agreement of the fallback path fails with one deviating member of four.
    Members 2, 3 and 4 follow the protocol on the fallback path alone and receive
    nothing but one another's messages and a halt of member 1, which the coin has
    elected; of the halts, members 2 to 4 have signed only the votes in the
    certificate that the blocks extend; and members 2 and 3 commit different blocks of
    the same epoch and height. *)
Theorem fallback_agreement_fails :
  (forall i, i ∈ [2; 3; 4] ->
     proper_run (toy_node i false true) (after_coin i) /\
     forall b, b ∈ shown -> genuine_block (key i) (after_coin i) b) /\
  (forall i, i ∈ [2; 3] ->
     proper_run (toy_node i false true) (deceived i)) /\
  Forall (fun m => halt_by (key 1) m = true) (shown ≫= halt_of) /\
  exists b b', commit_channel (deceived 2) = [b] /\ commit_channel (deceived 3) = [b'] /\
    Block.epoch b = Block.epoch b' /\ Block.height b = Block.height b' /\
    Block.digest b <> Block.digest b'.
Proof.
  destruct (andb_prop _ _ forged_halt_checked) as [Hgh Hc].
  destruct (andb_prop _ _ Hgh) as [Hg Hh].
  split; [|split; [|split; [|exact (conflicting_commits_spec _ _ Hc)]]].
  - intros i Hi. split; [exact (after_coin_proper i Hi)|].
    intros b Hb. apply genuine_blockb_spec.
    pose proof (proj1 (forallb_forall _ _) Hg i (proj1 (list_elem_of_In _ _) Hi)) as Hall.
    exact (proj1 (forallb_forall _ _) Hall b (proj1 (list_elem_of_In _ _) Hb)).
  - intros i Hi. exact (deceived_proper i Hi).
  - apply Forall_forall. intros m Hm.
    exact (proj1 (forallb_forall _ _) Hh m (proj1 (list_elem_of_In _ _) Hm)).
Qed.

(** ** Witnesses of [Elections]: the members when the coin is known *)

Definition coin_of_epoch (e : Z) (s : Core) : bool :=
  match random_coins (leader_elector s) !! (1, 1) with
  | Some coin => forallb (fun x => RandomnessShare.epoch x =? e) (RandomCoin.shares coin)
  | None => false
  end.

Lemma coins_checked : coin_of_epoch 0 (after_coin 2) && coin_of_epoch 0 (after_coin 3) = true.
Proof. vm_cast_no_check (eq_refl true). Qed.

Lemma coin_of_epoch_spec e s :
  coin_of_epoch e s = true ->
  exists coin, random_coins (leader_elector s) !! (1, 1) = Some coin /\
    Forall (fun x => RandomnessShare.epoch x = e) (RandomCoin.shares coin).
Proof.
  unfold coin_of_epoch. destruct (_ !! (1, 1)) as [coin|]; [|done]. intros Hall.
  exists coin. split; [done|]. apply Forall_forall. intros x Hx.
  apply Z.eqb_eq. by apply (proj1 (forallb_forall _ _) Hall), list_elem_of_In.
Qed.

Notation toy_keys := (tt : @PublicKeySet toy_crypto).

Lemma after_coin_verifying i :
  i ∈ [2; 3; 4] -> verifying_node toy_committee toy_keys 3 (after_coin i).
Proof.
  intros Hi.
  exact (ex_intro _ (key i) (ex_intro _ Parameters_default (ex_intro _ (toy_service i)
    (ex_intro _ (mkStoreClient ∅ 0) (ex_intro _ false (ex_intro _ true (ex_intro _ 0
      (conj eq_refl (conj eq_refl (reachable_any _ _ (proper_run_reachable _ _ (after_coin_proper i Hi)))))))))))).
Qed.

Lemma member_2 : 2 ∈ [2; 3; 4].
Proof. set_solver. Qed.

Lemma elections_backed_witness :
  exists coin, random_coins (leader_elector (after_coin 2)) !! (1, 1) = Some coin /\
    coin_ok toy_committee toy_keys (epoch (after_coin 2)) (1, 1) coin.
Proof.
  destruct (coin_of_epoch_spec _ _ (proj1 (andb_prop _ _ coins_checked))) as (coin & Hc & _).
  exists coin. split; [exact Hc|].
  exact (proj1 (elections_backed toy_committee toy_keys toy_committee_wf 3 (after_coin 2)
    (after_coin_verifying 2 member_2)) 1 1 coin Hc).
Defined.



