(* ===== verification/StaleTimer.v ===== *)
(** * A timer that outlives its height

    A node arms its timer for a height in whose window it is, and disarms it when it
    processes a block of a height in whose window it is.  A proposal whose parent it
    lacks moves it to a later height and leaves the timer armed.  When the timer
    fires, [opt_propose] unwraps the node's place in the window of the new height: a
    run of four members that follow the protocol, in which the third one misses the
    blocks of two heights, kills its core. *)

From S2P Require Import Prelude Machine Crypto Config Messages Leader Aggregator Timer Store.
From S2P Require Import Sync Core Handlers Fixture MessageFacts Types Spec Refine Cluster Deviations Crashes TwoPaths.

(** ** The run of the others *)

Definition starts (i : Z) : Core := (start sim_fuel (toy_node i true false)).2.

(** The last block a node has proposed. *)
Definition last_proposal (s : Core) : Block.t :=
  match last (omap (fun m => match m.1 with HsPropose b => Some b | _ => None end) (network_filter s)) with
  | Some b => b
  | None => Block.genesis
  end.

Definition ballots_of (b : Block.t) (s : Core) : list Input :=
  (fun v => OnCoreChannel (HSVote v)) <$> votes_for (Block.digest b) s.

Definition waits (d : Z) (s : Core) : Core := (node_event sim_fuel (Tick d) s).2.

(** Member 2 proposes at the first height; members 1, 2 and 4 vote. *)
Definition block_1 : Block.t := last_proposal (starts 2).
Definition first_1 : Core := deliver_all [opt_proposal block_1] (starts 1).
Definition first_4 : Core := deliver_all [opt_proposal block_1] (starts 4).

(** Member 3 leads the second height but is slow; the timer of member 4 fires. *)
Definition second_4 : Core :=
  deliver_all [OnTimer]
    (waits 5000 (deliver_all (ballots_of block_1 (starts 2) ++ ballots_of block_1 first_1) first_4)).
Definition block_2 : Block.t := last_proposal second_4.
Definition second_1 : Core := deliver_all [opt_proposal block_2] first_1.
Definition second_2 : Core := deliver_all [opt_proposal block_2] (starts 2).

(** Member 4 leads the third height. *)
Definition third_4 : Core :=
  deliver_all (ballots_of block_2 second_1 ++ ballots_of block_2 second_2) second_4.
Definition block_3 : Block.t := last_proposal third_4.

(** ** Member 3 *)

(** It gets the third block first, and its timer expires. *)
Definition slow : Core := waits 5000 (deliver_all [opt_proposal block_3] (starts 3)).

Definition sent_to_all (b : Block.t) (s : Core) : bool :=
  existsb (fun m => match m.1 with HsPropose b' => bool_decide (b' = b) | _ => false end)
    (network_filter s).

Definition is_ready (p : Poll) : bool := match p with Ready => true | Pending => false end.
Definition is_crashed (r : RunState) : bool := match r with Crashed => true | _ => false end.

Lemma stale_timer_checked :
  (Block.height block_3 =? 3) && sent_to_all block_3 third_4 && (height slow =? 3)
  && is_ready (poll (clock slow) 0 (timer slow)).1
  && is_crashed (node_event sim_fuel (Deliver OnTimer) slow).1 = true.
Proof. vm_cast_no_check (eq_refl true). Qed.

Lemma sent_to_all_spec b s :
  sent_to_all b s = true -> exists addresses, (HsPropose b, addresses) ∈ network_filter s.
Proof.
  intros ([m l] & Hin & Hm)%existsb_exists. destruct m; try done.
  apply bool_decide_eq_true in Hm as ->. exists l. by apply list_elem_of_In.
Qed.

Lemma is_ready_spec p : is_ready p = true -> p = Ready.
Proof. by destruct p. Qed.
Lemma is_crashed_spec r : is_crashed r = true -> r = Crashed.
Proof. by destruct r. Qed.

Lemma waits_proper core d s : proper_run core s -> proper_run core (waits d s).
Proof. intros Hs. by apply proper_event. Qed.

Lemma starts_proper i : proper_run (toy_node i true false) (starts i).
Proof. apply proper_start. Qed.

Lemma third_4_proper : proper_run (toy_node 4 true false) third_4.
Proof.
  unfold third_4, second_4, first_4.
  refine (deliver_all_proper _ _ _ (deliver_all_proper _ _ _ (waits_proper _ _ _
    (deliver_all_proper _ _ _ (deliver_all_proper _ _ _ (starts_proper 4)))))).
Qed.

Lemma slow_proper : proper_run (toy_node 3 true false) slow.
Proof.
  unfold slow. exact (waits_proper _ _ _ (deliver_all_proper _ _ _ (starts_proper 3))).
Qed.

(** C15: A late node is killed by its own timer.  The four members of a committee follow
    the protocol; member 4 has broadcast a block of the third height; member 3, whose
    timer is armed for the first height, gets this block before those below it, is
    moved to the third height, in whose window it is not, and keeps the timer; when
    this is due, it kills the core. *)
Theorem stale_timer_crashes :
  proper_run (toy_node 4 true false) third_4 /\
  (exists addresses, (HsPropose block_3, addresses) ∈ network_filter third_4) /\
  proper_run (toy_node 3 true false) slow /\
  slow = waits 5000 (deliver_all [opt_proposal block_3] (starts 3)) /\ height slow = 3 /\
  (poll (clock slow) 0 (timer slow)).1 = Ready /\
  (node_event sim_fuel (Deliver OnTimer) slow).1 = Crashed.
Proof.
  destruct (andb_prop _ _ stale_timer_checked) as [Hc Hcr].
  destruct (andb_prop _ _ Hc) as [Hc1 Hr]. destruct (andb_prop _ _ Hc1) as [Hc2 Hh].
  destruct (andb_prop _ _ Hc2) as [_ Hsent].
  split; [exact third_4_proper|]. split; [exact (sent_to_all_spec _ _ Hsent)|].
  split; [exact slow_proper|]. split; [exact eq_refl|].
  split; [exact (proj1 (Z.eqb_eq _ _) Hh)|].
  exact (conj (is_ready_spec _ Hr) (is_crashed_spec _ Hcr)).
Qed.

(** ** Witness of [crashes_exactly]: a stranger's proposal and the first member *)

Lemma stranger_at_boot : by_stranger toy_committee (Deliver (OnCoreChannel (HsPropose unsigned_block))) (starts 3).
Proof.
  exists unsigned_block. split; [by left|]. split; [by vm_compute|].
  apply (bool_decide_unpack _). by vm_compute.
Qed.

Lemma key_3_member : key 3 ∈ members toy_committee.
Proof. apply (bool_decide_unpack _). by vm_compute. Qed.

Lemma empty_closed : closed ∅.
Proof. intros key bytes b Hk. by rewrite lookup_empty in Hk. Qed.

Lemma crashes_exactly_witness :
  (start sim_fuel (toy_node 3 true false)).1 <> Crashed /\
  (node_event 20 (Deliver (OnCoreChannel (HsPropose unsigned_block))) (starts 3)).1 = Crashed.
Proof.
  destruct (crashes_exactly (key 3) toy_committee Parameters_default (toy_service 3)
    (tt : @PublicKeySet toy_crypto) (mkStoreClient ∅ 0) 0 key_3_member) as [Hboot Hev].
  - by vm_compute.
  - by vm_compute.
  - by split.
  - exact empty_closed.
  - split; [exact (Hboot sim_fuel)|].
    exact (proj2 (Hev (starts 3) 20%nat (Deliver (OnCoreChannel (HsPropose unsigned_block)))
      (opt_boot _ sim_fuel) I) (or_introl stranger_at_boot)).
Defined.
