(* ===== verification/Witnesses.v ===== *)
(** * Concrete instances

    The theorems with hypotheses, applied to the committee of four and to the states
    its nodes reach: the hypotheses can hold together. *)

From S2P Require Import Prelude Machine Crypto Config Messages Leader Aggregator Timer Store.
From S2P Require Import Sync Core Handlers FuelFacts Fixture MessageFacts Types TypeFacts TypeSteps Spec Refine Cluster Safety LeaderFacts Agreement AggregatorFacts Deviations CommitFacts HappyPath.

(** ** Boolean forms of the hypotheses on logs *)

Definition bytes_eqb (a b : list Z) : bool := bool_decide (a = b).

(** No message of a log collides with a certificate, and one of them is what it is
    over. *)
Definition no_collisionb (q : QC.t) (l : list Signable) : bool :=
  forallb (fun m =>
    negb (bool_decide (signable_digest m = QC.digest q))
    || bytes_eqb (signable_preimage m) (QC.preimage q)) l.

Definition signedb (q : QC.t) (l : list Signable) : bool :=
  existsb (fun m => bool_decide (signable_digest m = QC.digest q)) l.

Lemma no_collisionb_spec q l m :
  no_collisionb q l = true -> m ∈ l -> signable_digest m = QC.digest q ->
  signable_preimage m = QC.preimage q.
Proof.
  unfold no_collisionb. rewrite forallb_forall. intros Hall Hm Hd.
  specialize (Hall m (proj1 (list_elem_of_In l m) Hm)).
  rewrite bool_decide_true in Hall by done. by apply bool_decide_eq_true in Hall.
Qed.

Lemma signedb_spec q l :
  signedb q l = true -> exists m, m ∈ l /\ signable_digest m = QC.digest q.
Proof.
  unfold signedb. rewrite existsb_exists. intros (m & Hin & Hd).
  apply bool_decide_eq_true in Hd. exists m. split; [by apply list_elem_of_In | done].
Qed.

(** ** The four nodes *)

(** The members of the toy committee, each with what [node] gives it. *)
Section Members.
Context {A : Type} (node : Z -> A).

Definition members_with : gmap PublicKey A :=
  list_to_map ((fun i => (key i, node i)) <$> [1; 2; 3; 4]).

Lemma members_lookup k x :
  members_with !! k = Some x -> exists i, i ∈ [1; 2; 3; 4] /\ k = key i /\ x = node i.
Proof.
  intros Hk. apply elem_of_list_to_map_2, list_elem_of_fmap in Hk.
  destruct Hk as (i & [= -> ->] & Hi). eauto.
Qed.

(** A property of the four that a boolean decides. *)
Lemma check_members (P : A -> Prop) (b : A -> bool) :
  (forall x, b x = true -> P x) -> forallb (fun i => b (node i)) [1; 2; 3; 4] = true ->
  forall i, i ∈ [1; 2; 3; 4] -> P (node i).
Proof.
  intros Hb Hall i Hi. rewrite forallb_forall in Hall. by apply Hb, Hall, list_elem_of_In.
Qed.

Lemma members_weight : weight toy_committee (members toy_committee ∖ dom members_with) <= 1.
Proof.
  assert (members toy_committee ∖ dom members_with = ∅) as ->.
  { unfold members_with. rewrite dom_list_to_map_L, <- list_fmap_compose. by vm_compute. }
  by rewrite weight_empty.
Qed.
End Members.

Lemma members_unforged (node : Z -> Core) q :
  forallb (fun i => signedb q (signed (node i))) [1; 2; 3; 4] = true -> unforged (members_with node) q.
Proof.
  intros Hq k s sg _ Hk. apply members_lookup in Hk as (i & Hi & -> & ->).
  revert i Hi. apply (check_members node (fun s => exists m, m ∈ signed s /\ _)
    (fun s => signedb q (signed s))); [|done]. intros x. apply signedb_spec.
Qed.

Lemma members_collision_free (node : Z -> Core) q :
  forallb (fun i => no_collisionb q (signed (node i))) [1; 2; 3; 4] = true ->
  collision_free (members_with node) q.
Proof.
  intros Hq k s m Hk. apply members_lookup in Hk as (i & Hi & -> & ->). revert m.
  revert i Hi. apply (check_members node (fun s => forall m, m ∈ signed s -> _ -> _)
    (fun s => no_collisionb q (signed s))); [|done].
  intros x Hx m. by apply no_collisionb_spec.
Qed.

(** *** After the first round *)

Notation voter := (sim_node true false 1).

Definition honest_nodes : gmap PublicKey Core := members_with voter.

(** Certificates of two different quorums. *)
Definition certificate (l : list Z) : QC.t :=
  qc_of_vote (first_vote (voter 1)) (ballots ((fun i => first_vote (voter i)) <$> l)).

Definition qc123 : QC.t := certificate [1; 2; 3].
Definition qc234 : QC.t := certificate [2; 3; 4].

(** In any environment, and in that of the fixture. *)
Lemma toy_node_typed_in (env : NodeEnv) i opt pes : @ty_core _ env (toy_node i opt pes).
Proof.
  unfold toy_node.
  apply ty_core_new; [reflexivity | exact toy_committee_typed | split; reflexivity || discriminate | |].
  - intros k v Hk. simpl in Hk. by rewrite lookup_empty in Hk.
  - exact (ty_elector_new _ _ toy_committee_typed).
Qed.

Lemma toy_node_typed i opt pes : ty_core (toy_node i opt pes).
Proof. exact (toy_node_typed_in toy_env i opt pes). Qed.

Lemma honest_follow : map_Forall (follows_protocol toy_committee) honest_nodes.
Proof.
  intros k s Hk. apply members_lookup in Hk as (i & Hi & -> & ->).
  exists Parameters_default, (toy_service i), tt, (mkStoreClient ∅ 0),
    (LeaderElector_new toy_committee 2), true, false, 0.
  exact (conj (toy_node_typed i true false) (sim_node_proper true false 1 i Hi)).
Qed.

Lemma qc123_wf : wf_qc qc123.
Proof. apply ty_qc_wf. apply (bool_decide_unpack _). by vm_compute. Qed.

Lemma qc234_wf : wf_qc qc234.
Proof. apply ty_qc_wf. apply (bool_decide_unpack _). by vm_compute. Qed.

Lemma optimistic_certificates_agree_witness :
  (QC.votes qc123).*1 = key <$> [1; 2; 3] /\ (QC.votes qc234).*1 = key <$> [2; 3; 4] /\
  QC.hash qc123 = QC.hash qc234.
Proof.
  split; [by vm_compute|]. split; [by vm_compute|].
  apply (optimistic_certificates_agree toy_committee 1 honest_nodes toy_committee_wf
    eq_refl (members_weight voter) honest_follow qc123 qc234 qc123_wf qc234_wf).
  - by vm_compute.
  - by vm_compute.
  - apply members_unforged. by vm_compute.
  - apply members_unforged. by vm_compute.
  - apply members_collision_free. by vm_compute.
  - apply members_collision_free. by vm_compute.
  - by vm_compute.
  - by vm_compute.
  - by vm_compute.
  - by vm_compute.
Defined.

(** ** Leaders *)

Lemma leader_window_consistent_witness :
  get_leaders (LeaderElector_new toy_committee 2) 7 = Ok [key 4; key 1] /\
  exists l, get_leaders (LeaderElector_new toy_committee 2) 7 = Ok l /\
    Z.of_nat (length l) = 2 /\
    forall (i : nat) (name : PublicKey),
      l !! i = Some name <->
      index_as_leader (LeaderElector_new toy_committee 2) name 7 = Ok (Some (Z.of_nat i)).
Proof.
  split; [by vm_compute|].
  apply (leader_window_consistent toy_committee 2 7); by vm_compute.
Defined.

Lemma leader_rotation_witness :
  index_as_leader (LeaderElector_new toy_committee 2) (key 3) 10 = Ok (Some 0) /\
  exists h, 8 <= h < 8 + committee_size toy_committee /\
    forall h', 8 <= h' < 8 + committee_size toy_committee ->
      index_as_leader (LeaderElector_new toy_committee 2) (key 3) h' = Ok (Some 0) <-> h' = h.
Proof.
  split; [by vm_compute|].
  apply (leader_rotation toy_committee 2 8 (key 3)); [by vm_compute | by vm_compute|].
  apply elem_of_dom. eexists. by vm_compute.
Defined.

(** The same four members, listed in another order and with other addresses. *)
Definition reordered_committee : Committee :=
  Committee_new
    ((fun i => (key i, i, 1, mkSocketAddr [] i, mkSocketAddr [] i)) <$> [4; 2; 1; 3]) 1.

Lemma leaders_agree_witness :
  members reordered_committee = members toy_committee /\
  get_leaders (LeaderElector_new reordered_committee 3) 5 =
    get_leaders (LeaderElector_new toy_committee 3) 5.
Proof.
  assert (members reordered_committee = members toy_committee) as Hm.
  { apply (bool_decide_unpack _). by vm_compute. }
  split; [exact Hm|]. by apply (leaders_agree reordered_committee toy_committee 3 5 (key 1)).
Defined.

(** ** Messages *)

Lemma qc_verify_iff_witness :
  QC.verify qc123 toy_committee = Ok tt /\ NoDup (QC.votes qc123).*1.
Proof.
  assert (QC.verify qc123 toy_committee = Ok tt) as Hv by by vm_compute.
  split; [exact Hv|]. by apply (qc_verify_iff qc123 toy_committee toy_committee_wf).
Defined.

Lemma toy_service_key (i : Z) : service_key (toy_service i) = key i.
Proof. done. Qed.

Lemma signed_messages_verify_witness :
  HVote.verify (vote_for_round 0 3) toy_committee = Ok tt.
Proof.
  apply (signed_messages_verify (toy_service 3) (key 3) toy_committee 3) with
    (block := Block.mk QC.genesis (key 2) 1 0 [] Signature_default OPT 0) (tag := OPT);
    by vm_compute.
Defined.

Definition toy_done : MDoneAndShare.t :=
  MDoneAndShare.mk _ (key 1) Signature_default 0 1 0
    (RandomnessShare.mk _ 1 0 0 (key 1) (1, [])).
Definition toy_halt : MHalt.t :=
  MHalt.mk (key 1) (key 2) (SPBValue.new early_block 0 INIT_PHASE OPT []) (SPBProof.mk 0 0 1 [])
    0 1 0 Signature_default.

(** At round 0 the two byte orders agree, and so do the two messages. *)
Lemma domain_separation_witness :
  signable_preimage (SignedDone toy_done) = signable_preimage (SignedHalt toy_halt) /\
  (kind (SignedDone toy_done) = kind (SignedHalt toy_halt) \/
   confusable (SignedDone toy_done) (SignedHalt toy_halt)).
Proof.
  assert (signable_preimage (SignedDone toy_done) = signable_preimage (SignedHalt toy_halt))
    as He by by vm_compute.
  split; [exact He|]. apply (domain_separation (SignedDone toy_done) (SignedHalt toy_halt));
    [reflexivity | reflexivity | exact He].
Defined.

Lemma toy_vote_wf : wf_vote (first_vote (voter 3)).
Proof. apply ty_hvote_wf. apply (bool_decide_unpack _). by vm_compute. Qed.

Lemma vote_bytes_injective_witness :
  HVote.preimage (first_vote (voter 3)) = QC.preimage qc123 /\
  vote_matches (first_vote (voter 3)) qc123.
Proof.
  assert (HVote.preimage (first_vote (voter 3)) = QC.preimage qc123) as He by by vm_compute.
  split; [exact He|].
  by apply (vote_bytes_injective (first_vote (voter 3)) qc123 toy_vote_wf qc123_wf).
Defined.

(** ** Aggregation *)

Definition round_votes (l : list Z) : list HVote.t := vote_for_round 0 <$> l.

Lemma qc_emitted_verifies_witness :
  length (emitted (feed (fun v => QCMaker_append v toy_committee)
    (round_votes [4; 1; 4; 2]) QCMaker_new).1) = 1%nat /\
  Forall (fun qc => QC.verify qc toy_committee = Ok tt)
    (emitted (feed (fun v => QCMaker_append v toy_committee)
       (round_votes [4; 1; 4; 2]) QCMaker_new).1).
Proof.
  split; [by vm_compute|].
  apply (qc_emitted_verifies toy_committee (HVote.digest (vote_for_round 0 1))
    (round_votes [4; 1; 4; 2]) toy_committee_wf).
  repeat constructor; by vm_compute.
Defined.

Lemma qc_at_quorum_witness :
  weight toy_committee (authors (round_votes [4; 1])) = 2 /\
  let '(rs, m) := feed (fun v => QCMaker_append v toy_committee) (round_votes [4; 1]) QCMaker_new in
  rs = replicate (length (round_votes [4; 1])) (Ok None) /\
  (HVote.author (vote_for_round 0 2) ∈ authors (round_votes [4; 1]) ->
   QCMaker_append (vote_for_round 0 2) toy_committee m =
     (Err (AuthorityReuseinQC (HVote.author (vote_for_round 0 2))), m)) /\
  (HVote.author (vote_for_round 0 2) ∉ authors (round_votes [4; 1]) ->
   (QCMaker_append (vote_for_round 0 2) toy_committee m).1 =
     Ok (if quorum_threshold toy_committee
            <=? weight toy_committee (authors (round_votes [4; 1] ++ [vote_for_round 0 2]))
         then Some (qc_of_vote (vote_for_round 0 2)
                      (ballots (round_votes [4; 1] ++ [vote_for_round 0 2]))) else None)).
Proof.
  split; [by vm_compute|].
  apply (qc_at_quorum toy_committee (round_votes [4; 1]) (vote_for_round 0 2) toy_committee_wf).
  - apply (bool_decide_unpack _). by vm_compute.
  - by vm_compute.
Defined.

Lemma qc_made_once_witness :
  sum_of_stakes toy_committee < 2 * quorum_threshold toy_committee /\
  Z.of_nat (length (emitted (feed (fun v => QCMaker_append v toy_committee)
    (round_votes [1; 2; 3; 4]) QCMaker_new).1)) <= 1.
Proof.
  assert (sum_of_stakes toy_committee < 2 * quorum_threshold toy_committee) as Hlt
    by by vm_compute.
  split; [exact Hlt|].
  by apply (qc_made_once toy_committee (round_votes [1; 2; 3; 4]) toy_committee_wf).
Defined.

Definition spb_vote_of (i : Z) : SPBVote.t :=
  match SPBVote.new (SPBValue.new early_block 1 INIT_PHASE OPT []) (key i) (toy_service i) with
  | Ok v => v
  | _ => toy_share
  end.

Lemma proof_emitted_verifies_witness :
  length (emitted (feed (fun v => ProofMaker_append v toy_committee)
    (spb_vote_of <$> [3; 1; 4]) ProofMaker_new).1) = 1%nat /\
  Forall (fun p => SPBProof.verify p toy_committee = Ok tt)
    (emitted (feed (fun v => ProofMaker_append v toy_committee)
       (spb_vote_of <$> [3; 1; 4]) ProofMaker_new).1).
Proof.
  split; [by vm_compute|].
  apply (proof_emitted_verifies toy_committee (spb_vote_of <$> [3; 1; 4]) toy_committee_wf).
  repeat constructor; by vm_compute.
Defined.

(** Shares of the coin of height 1, round 1. *)
Definition share_of (i : Z) : RandomnessShare.t :=
  match RandomnessShare.new 1 0 1 (key i) (toy_service i) with
  | Ok s => s
  | _ => RandomnessShare.mk _ 0 0 0 (key 0) (0, [])
  end.

Definition coin_bytes : list Z := digest_bytes (RandomnessShare.digest (share_of 1)).

(** The coin a node makes of the shares of two members. *)
Definition coin_of (l : list Z) : RandomCoin.t :=
  match emitted (feed (fun s => CoinMaker_append s toy_committee tt) (share_of <$> l)
          CoinMaker_new).1 with
  | coin :: _ => coin
  | [] => RandomCoin.mk _ 0 0 0 (key 0) []
  end.

Lemma head_emitted (l : list RandomCoin.t) (d : RandomCoin.t) :
  length l = 1%nat -> match l with coin :: _ => coin | [] => d end ∈ l.
Proof. destruct l; [done|]. intros _. by left. Qed.

Lemma coin_agreement_witness :
  RandomCoin.leader (coin_of [1; 2]) = RandomCoin.leader (coin_of [4; 3]) /\
  RandomCoin.leader (coin_of [1; 2]) ∈ members toy_committee.
Proof.
  apply (coin_agreement toy_committee (tt : @PublicKeySet toy_crypto) coin_bytes (share_of <$> [1; 2]) (share_of <$> [4; 3])).
  - repeat constructor; by vm_compute.
  - repeat constructor; by vm_compute.
  - apply head_emitted. by vm_compute.
  - apply head_emitted. by vm_compute.
Defined.

(** ** Fuel *)

Definition has_fuel {A} (r : ConsensusResult A) : bool :=
  match r with NoFuel => false | _ => true end.

Lemma booted_has_fuel :
  has_fuel (dispatch 20 (OnCoreChannel (HsPropose early_block)) booted_node).1 = true.
Proof. by vm_compute. Qed.

Lemma dispatch_fuel_irrelevant_witness :
  dispatch 40 (OnCoreChannel (HsPropose early_block)) booted_node =
  dispatch 20 (OnCoreChannel (HsPropose early_block)) booted_node.
Proof.
  apply (dispatch_fuel_irrelevant 20 40); [lia|].
  intros Hf. pose proof booted_has_fuel as Hok. rewrite Hf in Hok. discriminate Hok.
Defined.

(** ** The first proposal at a member that does not lead the second height *)

Definition first_proposal : Block.t :=
  match network_filter (start sim_fuel (toy_node 2 true false)).2 with
  | (HsPropose b, _) :: _ => b
  | _ => Block.genesis
  end.

Definition booted : Core := (start sim_fuel (toy_node 1 true false)).2.
Definition first_ballot : HVote.t :=
  match HVote.new first_proposal (key 1) OPT (toy_service 1) with
  | Ok v => v
  | _ => HVote.unsigned Block.genesis (key 1) OPT
  end.

Notation heard_first :=
  (heard (Block.qc first_proposal) (entered (QC.height (Block.qc first_proposal)) booted)).

Lemma first_processable :
  processable heard_first first_proposal Block.genesis Block.genesis first_ballot [key 3; key 4] None.
Proof.
  constructor.
  - by vm_compute.
  - exists None. by vm_compute.
  - by vm_compute.
  - by vm_compute.
  - right. by vm_compute.
  - intros Hlt. by vm_compute in Hlt.
  - by vm_compute.
  - by vm_compute.
  - by vm_compute.
  - by vm_compute.
  - by vm_compute.
  - apply (bool_decide_unpack _). by vm_compute.
  - by vm_compute.
Qed.

Lemma proposal_voted_witness :
  exists s', handle_opt_proposal (exec 1) first_proposal booted = (Ok tt, s') /\
    last_voted_height s' = 1 /\ length (signed s') = 1%nat.
Proof.
  destruct (proposal_voted 0 booted first_proposal Block.genesis Block.genesis 0 first_ballot
    [key 3; key 4]) as (s' & Hr & _ & Hs & Hv & _).
  - by vm_compute.
  - by vm_compute.
  - by vm_compute.
  - exact first_processable.
  - exists s'. split; [exact Hr|]. split; [rewrite Hv; by vm_compute|].
    rewrite Hs. by vm_compute.
Defined.
