(* ===== verification/AvailableRun.v ===== *)
(** * Payloads in a concrete run

    Four members whose mempools have received a payload before the first request: the
    leader of the first height proposes it, the others have it and vote, and
    [Availability.certified_payloads_held] applies to the certificate. *)

From S2P Require Import Prelude Machine Crypto Config Messages Leader Aggregator Timer Store.
From S2P Require Import Sync Mempool Core Handlers Fixture MempoolFacts MessageFacts Types TypeFacts Spec Refine Walk Cluster Safety AggregatorFacts Agreement Availability Witnesses.

(** The payload comes before the first request of the core. *)
Definition deployment (i : Z) : Deployment :=
  mkDeployment _ (key i) toy_mcommittee MParameters_default (mkStoreClient ∅ 0)
    (Runner_new (key i) (toy_service i) 100000)
    (fun n => if (n =? 0)%nat then [PeerMessage (PayloadMsg toy_payload)] else []).

Definition env_of (i : Z) : NodeEnv := with_mempool (deployment i) toy_env.

Definition launched (i : Z) : Core := (start (H0 := env_of i) sim_fuel (toy_node i true false)).2.

(** The block of the leader. *)
Definition proposal : Block.t :=
  default Block.genesis
    (head (omap (fun m => match m with SignedBlock b => Some b | _ => None end) (signed (launched 2)))).

Definition given : Input := OnCoreChannel (HsPropose proposal).

Definition voted (i : Z) : Core :=
  (node_event (H0 := env_of i) sim_fuel (Deliver given) (launched i)).2.

Definition replica_of (i : Z) : Replica := mkReplica toy_env (deployment i) (voted i).

Definition certified : QC.t :=
  qc_of_vote (first_vote (voted 1)) (ballots ((fun i => first_vote (voted i)) <$> [1; 3; 4])).

Lemma proposal_payload : Block.payload proposal = [Payload.digest toy_payload].
Proof. by vm_compute. Qed.

Lemma voted_fed i :
  i ∈ [1; 2; 3; 4] ->
  @fed_run _ (env_of i) (mempool_serves (deployment i) toy_env) (toy_node i true false) (voted i).
Proof.
  intros Hi. assert (may_take given (launched i) = true) as Ht.
  { revert i Hi. apply (check_members launched (fun s => may_take given s = true)
      (fun s => may_take given s)); [done | by vm_compute]. }
  destruct (may_take_spec _ _ Ht) as [Hok Hty].
  exact (fed_event (H0 := env_of i) (toy_node i true false) sim_fuel (Deliver given) (launched i)
    (fed_start (H0 := env_of i) _ sim_fuel) Hok Hty I).
Qed.

Lemma replicas_run : map_Forall (runs_protocol toy_committee) (members_with replica_of).
Proof.
  intros k r Hr. apply members_lookup in Hr as (i & Hi & -> & ->). split; [exact _|].
  exists Parameters_default, (toy_service i), tt, (mkStoreClient ∅ 0),
    (LeaderElector_new toy_committee 2), true, false, 0.
  split; [exact (toy_node_typed_in _ i true false) | exact (voted_fed i Hi)].
Qed.

Lemma replica_cores : rp_core <$> members_with replica_of = members_with voted.
Proof. unfold members_with. by rewrite <- list_to_map_fmap, <- list_fmap_compose. Qed.

Lemma certified_wf : wf_qc certified.
Proof. apply ty_qc_wf. apply (bool_decide_unpack _). by vm_compute. Qed.

Lemma certified_payloads_held_witness :
  Block.payload proposal = [Payload.digest toy_payload] /\
  QC.hash certified = Block.digest proposal /\
  exists holders, holders ⊆ signers (QC.votes certified) /\ 1 < weight toy_committee holders /\
    forall k, k ∈ holders ->
      exists r b, members_with replica_of !! k = Some r /\
        Block.digest b = QC.hash certified /\ Block.height b = QC.height certified /\
        Forall (held (mempool_of r)) (Block.payload b).
Proof.
  split; [exact proposal_payload|]. split; [by vm_compute|].
  apply (certified_payloads_held toy_committee 1 (members_with replica_of) toy_committee_wf
    eq_refl (members_weight replica_of) replicas_run certified certified_wf).
  - by vm_compute.
  - by vm_compute.
  - rewrite replica_cores. apply members_unforged. by vm_compute.
  - rewrite replica_cores. apply members_collision_free. by vm_compute.
Defined.
