(* ===== verification/ChainWitness.v ===== *)
(** * A concrete system that commits

    The hypotheses of [ChainAgreement] hold of the four nodes of the toy committee
    after six rounds of a run in which each of them has committed a block, the first
    one two blocks.  The run delivers only messages that pass a check: they
    occur among the votes and blocks of the run itself. *)

From S2P Require Import Prelude Machine Crypto Config Messages Leader Aggregator Timer Store.
From S2P Require Import Sync Core Handlers Fixture MessageFacts Spec Refine Cluster Safety.
From S2P Require Import Types TypeFacts TypeSteps Agreement AggregatorFacts Chain ChainInv ChainAgreement ChainEnds ChainLive Witnesses.

(** ** The messages of the run *)

Definition vote_bytes (s : Core) : list (list Z) := HVote.preimage <$> opt_votes (signed s).

Definition sent_blocks (s : Core) : list Block.t :=
  omap (fun m => match m.1 with HsPropose b => Some b | _ => None end) (network_filter s).

Definition made_blocks (s : Core) : list Block.t :=
  omap (fun m => match m with SignedBlock b => Some b | _ => None end) (signed s).

Definition run : list Seat := simulate receive 6 (cluster true false).

(** The votes signed in the run, by author, and the blocks sent. *)
Definition run_votes : list (PublicKey * list (list Z)) :=
  (fun i => (key i, vote_bytes (seat true false run i))) <$> [1; 2; 3; 4].

Definition run_blocks : list Block.t := [1; 2; 3; 4] ≫= fun i => sent_blocks (seat true false run i).

(** The vote has been signed by its author in the run. *)
Definition vote_okb (votes : list (PublicKey * list (list Z))) (v : HVote.t) : bool :=
  bool_decide (ty_hvote v) &&
  forallb (fun x => negb (bool_decide (x.1 = HVote.author v))
                    || existsb (bytes_eqb (HVote.preimage v)) x.2) votes.

Definition block_okb (votes : list (PublicKey * list (list Z))) (blocks : list Block.t)
    (b : Block.t) : bool :=
  existsb (fun b' => bool_decide (b' = b)) blocks &&
  forallb (fun x => vote_okb votes (qc_vote (Block.qc b) x)) (QC.votes (Block.qc b)).

Definition input_okb (votes : list (PublicKey * list (list Z))) (blocks : list Block.t)
    (i : Input) : bool :=
  match i with
  | OnCoreChannel (HsPropose b) => block_okb votes blocks b
  | OnCoreChannel (HSVote v) => vote_okb votes v
  | _ => false
  end.

(** ** The checked run *)

Definition receive_checked (i : Input) (s : Core) : Core :=
  if input_okb run_votes run_blocks i then receive i s else s.

(** The run with its equation, so that nothing has to be evaluated to unfold it. *)
Definition checked_run_sig : { l | l = simulate receive_checked 6 (cluster true false) } :=
  exist _ (simulate receive_checked 6 (cluster true false)) eq_refl.

Definition checked_run : list Seat := proj1_sig checked_run_sig.

Definition member (i : Z) : Core := seat true false checked_run i.

Definition chain_nodes : gmap PublicKey Core :=
  list_to_map ((fun i => (key i, member i)) <$> [1; 2; 3; 4]).

Definition run_known (b : Block.t) : Prop := b ∈ run_blocks.

Lemma chain_lookup k s :
  chain_nodes !! k = Some s -> exists i, i ∈ [1; 2; 3; 4] /\ k = key i /\ s = member i.
Proof.
  intros Hk. apply elem_of_list_to_map_2, list_elem_of_fmap in Hk.
  destruct Hk as (i & [= -> ->] & Hi). eauto.
Qed.

(** Everything that a boolean has to decide of a node, in one evaluation. *)
Definition member_checks (votes : list (PublicKey * list (list Z))) (blocks : list Block.t)
    (s : Core) (k : PublicKey) : bool :=
  forallb (fun x => negb (bool_decide (x.1 = k))
                    || forallb (fun p => existsb (bytes_eqb p) (vote_bytes s)) x.2) votes &&
  forallb (fun b => existsb (fun b' => bool_decide (b' = b)) blocks) (made_blocks s).

Lemma member_checks_spec votes blocks s k :
  member_checks votes blocks s k = true ->
  (forall x p, x ∈ votes -> x.1 = k -> p ∈ x.2 ->
     exists m, m ∈ signed s /\ signable_preimage m = p) /\
  (forall b, SignedBlock b ∈ signed s -> b ∈ blocks).
Proof.
  unfold member_checks. rewrite !andb_true_iff, !forallb_forall.
  intros (Hv & Hb). split.
  - intros x p Hx Hk Hp. apply list_elem_of_In in Hx, Hp. specialize (Hv x Hx).
    rewrite bool_decide_true in Hv by done. simpl in Hv. rewrite forallb_forall in Hv.
    specialize (Hv p Hp). apply existsb_exists in Hv as (p' & Hp' & He).
    apply bool_decide_eq_true in He as ->. apply list_elem_of_In, list_elem_of_fmap in Hp' as (w & -> & Hw).
    apply opt_votes_elem in Hw as [Hw _]. by exists (SignedHVote w).
  - intros b Hin. assert (b ∈ made_blocks s) as Hm.
    { apply list_elem_of_omap. by exists (SignedBlock b). }
    apply list_elem_of_In in Hm. specialize (Hb b Hm).
    apply existsb_exists in Hb as (b' & Hb' & He). apply bool_decide_eq_true in He as ->.
    by apply list_elem_of_In.
Qed.

Definition same_fields (b b' : Block.t) : bool :=
  negb (bool_decide (Block.digest b = Block.digest b'))
  || bytes_eqb (Block.preimage b) (Block.preimage b').

Definition block_checks (blocks : list Block.t) (b : Block.t) : bool :=
  bool_decide (ty_block b) && (Block.epoch b =? 0)
  && negb (bool_decide (Block.digest b = Digest_default)) && forallb (same_fields b) blocks.

(** The last message that the first member handles, and its state before. *)
Definition fifth_sig : { l | l = simulate receive_checked 5 (cluster true false) } :=
  exist _ (simulate receive_checked 5 (cluster true false)) eq_refl.

Definition fifth : list Seat := proj1_sig fifth_sig.

Definition last_inbox (l : list Seat) : list ConsensusMessage :=
  inbox (opt_mail l) (address toy_committee (key 1)).

Definition deliver (s : Core) (m : ConsensusMessage) : Core := receive_checked (OnCoreChannel m) s.

Definition before (l : list Seat) : Core :=
  fold_left deliver (removelast (last_inbox l)) (seat true false l 1).

Definition last_message (l : list Seat) : ConsensusMessage :=
  List.last (last_inbox l) (HsLoopBack Block.genesis).

Definition last_checks (votes : list (PublicKey * list (list Z))) (blocks : list Block.t)
    (l : list Seat) : bool :=
  negb (length (last_inbox l) =? 0)%nat
  && (length (inbox (pes_mail l) (smvba_address toy_committee (key 1))) =? 0)%nat
  && may_take (OnCoreChannel (last_message l)) (before l)
  && input_okb votes blocks (OnCoreChannel (last_message l))
  && (fuel_for (before l) <=? sim_fuel)%nat.

Definition committed_heights : list (list Z) :=
  (fun i => Block.height <$> commit_channel (member i)) <$> [1; 2; 3; 4].

(** The only evaluation of the two runs. *)
Lemma run_checked :
  forallb (fun i => member_checks run_votes run_blocks (member i) (key i)) [1; 2; 3; 4]
  && forallb (block_checks run_blocks) run_blocks
  && last_checks run_votes run_blocks fifth
  && bool_decide (committed_heights = [[1; 2]; [1]; [1]; [1]]) = true.
Proof. vm_cast_no_check (eq_refl true). Qed.

(** ** The checks say what they should *)

Lemma run_votes_of i : i ∈ [1; 2; 3; 4] -> (key i, vote_bytes (seat true false run i)) ∈ run_votes.
Proof. intros Hi. apply list_elem_of_fmap. by exists i. Qed.

Lemma checked_run_eq : checked_run = simulate receive_checked 6 (cluster true false).
Proof. exact (proj2_sig checked_run_sig). Qed.

#[local] Opaque run checked_run fifth run_votes run_blocks member.

Lemma run_parts :
  forallb (fun i => member_checks run_votes run_blocks (member i) (key i)) [1; 2; 3; 4] = true /\
  forallb (block_checks run_blocks) run_blocks = true /\
  last_checks run_votes run_blocks fifth = true /\
  committed_heights = [[1; 2]; [1]; [1]; [1]].
Proof.
  destruct (proj1 (andb_true_iff _ _) run_checked) as [Hl Hh].
  destruct (proj1 (andb_true_iff _ _) Hl) as [Hc Hlast].
  destruct (proj1 (andb_true_iff _ _) Hc) as [Hm Hb].
  exact (conj Hm (conj Hb (conj Hlast (proj1 (bool_decide_eq_true _) Hh)))).
Qed.

Lemma member_check i :
  i ∈ [1; 2; 3; 4] -> member_checks run_votes run_blocks (member i) (key i) = true.
Proof.
  intros Hi. destruct run_parts as (Hm & _ & _).
  exact (proj1 (forallb_forall _ _) Hm i (proj1 (list_elem_of_In _ _) Hi)).
Qed.

Lemma block_check b : b ∈ run_blocks -> block_checks run_blocks b = true.
Proof.
  intros Hi. destruct run_parts as (_ & Hb & _ & _).
  exact (proj1 (forallb_forall _ _) Hb b (proj1 (list_elem_of_In _ _) Hi)).
Qed.

Lemma block_checks_spec blocks b :
  block_checks blocks b = true ->
  ty_block b /\ Block.epoch b = 0 /\ Block.digest b <> Digest_default /\
  forall b', b' ∈ blocks -> Block.digest b = Block.digest b' ->
    Block.preimage b = Block.preimage b'.
Proof.
  unfold block_checks. rewrite !andb_true_iff, forallb_forall, Z.eqb_eq, bool_decide_eq_true.
  intros (((Ht & He) & Hz) & Hf). split; [done|]. split; [done|].
  split; [by apply negb_true_iff, bool_decide_eq_false in Hz|]. intros b' Hb' Hd.
  apply list_elem_of_In in Hb'. specialize (Hf b' Hb'). unfold same_fields in Hf.
  rewrite bool_decide_true in Hf by done. by apply bool_decide_eq_true in Hf.
Qed.

Lemma bytes_eqb_spec a b : bytes_eqb a b = true <-> a = b.
Proof. apply bool_decide_eq_true. Qed.

Lemma vote_okb_in votes v k bytes :
  vote_okb votes v = true -> (k, bytes) ∈ votes -> HVote.author v = k ->
  HVote.preimage v ∈ bytes.
Proof.
  unfold vote_okb. rewrite andb_true_iff, forallb_forall. intros [_ Hall] Hin <-.
  apply list_elem_of_In in Hin. specialize (Hall _ Hin). simpl in Hall.
  rewrite bool_decide_true in Hall by done. simpl in Hall.
  apply existsb_exists in Hall as (p & Hp & Heq). apply bytes_eqb_spec in Heq as ->.
  by apply list_elem_of_In.
Qed.

Lemma vote_okb_spec v : vote_okb run_votes v = true -> no_forgery chain_nodes (HVote.author v) v.
Proof.
  intros Hok s Hs. apply chain_lookup in Hs as (i & Hi & Hk & ->). split.
  { apply andb_true_iff in Hok as [Hwf _]. exact (ty_hvote_wf v (proj1 (bool_decide_eq_true _) Hwf)). }
  pose proof (vote_okb_in _ v _ _ Hok (run_votes_of i Hi) Hk) as Hin.
  destruct (member_checks_spec _ _ _ _ (member_check i Hi)) as [Hv _].
  exact (Hv _ _ (run_votes_of i Hi) eq_refl Hin).
Qed.

Lemma input_okb_cases votes blocks i :
  input_okb votes blocks i = true ->
  (exists b, i = OnCoreChannel (HsPropose b) /\ block_okb votes blocks b = true) \/
  (exists v, i = OnCoreChannel (HSVote v) /\ vote_okb votes v = true).
Proof. destruct i as [m|m|]; [destruct m|..]; try discriminate; eauto. Qed.

Lemma block_okb_inv votes blocks b :
  block_okb votes blocks b = true ->
  b ∈ blocks /\ forall x, x ∈ QC.votes (Block.qc b) -> vote_okb votes (qc_vote (Block.qc b) x) = true.
Proof.
  unfold block_okb. rewrite andb_true_iff, existsb_exists, forallb_forall.
  intros [(b' & Hb & He) Hv]. apply bool_decide_eq_true in He as ->.
  split; [by apply list_elem_of_In|]. intros x Hx. by apply Hv, list_elem_of_In.
Qed.

Lemma input_okb_spec i s :
  input_okb run_votes run_blocks i = true ->
  input_safe toy_committee (no_forgery chain_nodes) run_known i s.
Proof.
  intros Hok. apply input_okb_cases in Hok as [(b & -> & Hb)|(v & -> & Hv)].
  - apply block_okb_inv in Hb as [Hb Hv]. split; [exact Hb|]. intros _ x Hx.
    exact (vote_okb_spec (qc_vote (Block.qc b) x) (Hv x Hx)).
  - intros _. exact (vote_okb_spec v Hv).
Qed.

Notation reach := (hs_reach toy_committee (no_forgery chain_nodes) run_known).

Lemma receive_checked_reach core i s : reach core s -> reach core (receive_checked i s).
Proof.
  intros Hr. unfold receive_checked. destruct (input_okb _ _ i) eqn:Hok; [|done].
  unfold receive. destruct (may_take i s) eqn:Hb; [|done].
  destruct (may_take_spec i s Hb). pose proof (input_okb_spec i s Hok). by apply hs_event.
Qed.

Lemma member_reach i : i ∈ [1; 2; 3; 4] -> reach (toy_node i true false) (member i).
Proof.
  intros Hi.
  refine (seat_keeps receive_checked reach _ true false 6 checked_run i _ checked_run_eq Hi).
  - intros core j s. apply receive_checked_reach.
  - intros j. apply hs_start.
Qed.

Lemma toy_fresh i : fresh_node toy_committee (key i) (toy_node i true false).
Proof.
  exists Parameters_default, (toy_service i), tt, (mkStoreClient ∅ 0),
    (LeaderElector_new toy_committee 2), 0. split; [done|].
  intros k v Hk. simpl in Hk. by rewrite lookup_empty in Hk.
Qed.

Lemma member_node i : i ∈ [1; 2; 3; 4] ->
  honest_node toy_committee chain_nodes run_known (key i) (member i).
Proof.
  intros Hi. exists (toy_node i true false).
  split; [apply toy_fresh|]. split; [apply toy_node_typed | by apply member_reach].
Qed.

Lemma played_in_run b : played chain_nodes run_known b -> b ∈ run_blocks.
Proof.
  intros [Hb|(k & s & Hk & Hb)]; [done|]. apply chain_lookup in Hk as (i & Hi & _ & ->).
  destruct (member_checks_spec _ _ _ _ (member_check i Hi)) as [_ Hm]. exact (Hm b Hb).
Qed.

Lemma chain_members_weight : weight toy_committee (members toy_committee ∖ dom chain_nodes) <= 1.
Proof.
  assert (members toy_committee ⊆ dom chain_nodes) as Hsub.
  { unfold chain_nodes. rewrite dom_list_to_map_L. apply (bool_decide_unpack _). by vm_compute. }
  replace (members toy_committee ∖ dom chain_nodes) with (∅ : gset PublicKey) by set_solver.
  rewrite weight_empty. lia.
Qed.

Lemma chain_system : system toy_committee 1 chain_nodes run_known.
Proof.
  constructor.
  - split; [exact toy_committee_wf | by vm_compute].
  - exact chain_members_weight.
  - intros k s Hk. apply chain_lookup in Hk as (i & Hi & -> & ->). exact (member_node i Hi).
  - intros b Hb. exact (proj1 (block_checks_spec _ b (block_check b Hb))).
  - intros b b' Hb Hb'.
    destruct (block_checks_spec _ b (block_check b (played_in_run b Hb))) as (_ & _ & _ & Hf).
    exact (Hf b' (played_in_run b' Hb')).
Qed.

(** ** What the first two nodes commit *)

Definition committed (i : Z) (n : nat) : Block.t :=
  default Block.genesis (commit_channel (member i) !! n).

Lemma four_values (g : Z -> list Z) u v :
  g <$> [1; 2; 3; 4] = [u; v; v; v] ->
  forall i, i ∈ [1; 2; 3; 4] -> g i = if decide (i = 1) then u else v.
Proof.
  intros [= H1 H2 H3 H4] i Hi.
  repeat (apply elem_of_cons in Hi as [->|Hi]; [assumption|]). by apply elem_of_nil in Hi.
Qed.

Lemma member_heights i : i ∈ [1; 2; 3; 4] ->
  (Block.height <$> commit_channel (member i)) = if decide (i = 1) then [1; 2] else [1].
Proof.
  destruct run_parts as (_ & _ & _ & Hh). unfold committed_heights in Hh.
  exact (four_values (fun i => Block.height <$> commit_channel (member i)) _ _ Hh i).
Qed.

Definition commits_of (i : Z) : nat := if decide (i = 1) then 2%nat else 1%nat.

Lemma committed_in (i : Z) (n : nat) :
  i ∈ [1; 2; 3; 4] -> (n < commits_of i)%nat ->
  committed i n ∈ commit_channel (member i) /\
  Block.height (committed i n) = Z.of_nat n + 1.
Proof.
  intros Hi Hn. pose proof (member_heights i Hi) as Hh. unfold committed.
  assert ((Block.height <$> commit_channel (member i)) !! n = Some (Z.of_nat n + 1)) as Hl.
  { unfold commits_of in Hn. rewrite Hh. destruct (decide (i = 1)); destruct n as [|[|n]]; try lia; reflexivity. }
  apply list_lookup_fmap_Some in Hl as (b & Hb & Hl). rewrite Hl. simpl.
  split; [exact (list_elem_of_lookup_2 _ _ _ Hl) | exact (eq_sym Hb)].
Qed.

Lemma member_in i : i ∈ [1; 2; 3; 4] -> chain_nodes !! key i = Some (member i).
Proof.
  intros Hi. apply elem_of_list_to_map_1.
  - rewrite <- list_fmap_compose. apply (bool_decide_unpack _). vm_cast_no_check I.
  - apply list_elem_of_fmap. by exists i.
Qed.

Lemma played_epoch b : played chain_nodes run_known b -> Block.epoch b = 0.
Proof.
  intros Hb. exact (proj1 (proj2 (block_checks_spec _ b (block_check b (played_in_run b Hb))))).
Qed.

Lemma committed_epoch (i : Z) (n : nat) :
  i ∈ [1; 2; 3; 4] -> (n < commits_of i)%nat ->
  Block.epoch (committed i n) = 0.
Proof.
  intros Hi Hn. apply played_epoch. destruct (committed_in i n Hi Hn) as [Hb _].
  exact (proj1 (committed_certified _ _ _ _ chain_system _ _ _ (member_in i Hi) Hb)).
Qed.

Lemma first_two : 1 ∈ [1; 2; 3; 4] /\ 2 ∈ [1; 2; 3; 4].
Proof. split; [apply list_elem_of_here | apply list_elem_of_further, list_elem_of_here]. Qed.

Lemma committed_blocks_agree_witness :
  Block.digest (committed 1 0) = Block.digest (committed 2 0).
Proof.
  destruct first_two as [I1 I2].
  destruct (committed_in 1 0 I1 ltac:(cbv; lia)) as [Hb1 Hh1].
  destruct (committed_in 2 0 I2 ltac:(cbv; lia)) as [Hb2 Hh2].
  apply (committed_blocks_agree _ _ _ _ _ _ _ _ _ _ chain_system (member_in 1 I1) (member_in 2 I2)
    Hb1 Hb2).
  - rewrite (committed_epoch 1 0 I1), (committed_epoch 2 0 I2) by (cbv; lia). reflexivity.
  - rewrite Hh1, Hh2. reflexivity.
Defined.

Lemma committed_blocks_chain_witness :
  ancestor chain_nodes run_known 1 (Block.digest (committed 1 1)) (Block.digest (committed 2 0)).
Proof.
  destruct first_two as [I1 I2].
  destruct (committed_in 1 1 I1 ltac:(cbv; lia)) as [Hb1 Hh1].
  destruct (committed_in 2 0 I2 ltac:(cbv; lia)) as [Hb2 Hh2].
  assert (Block.height (committed 2 0) <= Block.height (committed 1 1)) as Hle.
  { rewrite Hh1, Hh2. discriminate. }
  pose proof (committed_blocks_chain _ _ 0 _ _ _ _ _ _ _ _ chain_system played_epoch
    (member_in 2 I2) (member_in 1 I1) Hb2 Hb1 Hle) as Hch.
  rewrite Hh1, Hh2 in Hch. exact Hch.
Defined.

Lemma node_stays_typed_witness :
  (Block.height <$> commit_channel (member 1)) = [1; 2] /\ ty_core (member 1).
Proof.
  destruct first_two as [I1 _]. split; [exact (member_heights 1 I1)|].
  refine (node_stays_typed (key 1) toy_committee Parameters_default (toy_service 1) tt
    (mkStoreClient ∅ 0) true false 0 (member 1) eq_refl _ _ _ _).
  - exact (tc_committee _ (toy_node_typed 1 true false)).
  - split; reflexivity || discriminate.
  - exact (tc_store _ (toy_node_typed 1 true false)).
  - exact (proper_run_typed _ _ (hs_reach_proper _ _ _ _ _ (member_reach 1 I1))).
Defined.

(** ** The last message of the first member *)

Lemma fold_last {A B} (g : B -> A -> B) (l : list A) x d :
  length l <> 0%nat -> fold_left g l x = g (fold_left g (removelast l) x) (List.last l d).
Proof.
  intros Hl. rewrite (app_removelast_last d (l := l)) at 1 by by intros ->.
  by rewrite fold_left_app.
Qed.

Lemma last_parts :
  length (last_inbox fifth) <> 0%nat /\
  inbox (pes_mail fifth) (smvba_address toy_committee (key 1)) = [] /\
  may_take (OnCoreChannel (last_message fifth)) (before fifth) = true /\
  input_okb run_votes run_blocks (OnCoreChannel (last_message fifth)) = true /\
  (fuel_for (before fifth) <= sim_fuel)%nat.
Proof.
  destruct run_parts as (_ & _ & Hl & _). unfold last_checks in Hl.
  destruct (proj1 (andb_true_iff _ _) Hl) as [Hl1 Hfuel].
  destruct (proj1 (andb_true_iff _ _) Hl1) as [Hl2 Hok].
  destruct (proj1 (andb_true_iff _ _) Hl2) as [Hl3 Htake].
  destruct (proj1 (andb_true_iff _ _) Hl3) as [Hne Hnil].
  split; [exact (proj1 (Nat.eqb_neq _ _) (proj1 (negb_true_iff _) Hne))|].
  split; [exact (nil_length_inv _ (proj1 (Nat.eqb_eq _ _) Hnil))|].
  exact (conj Htake (conj Hok (proj1 (Nat.leb_le _ _) Hfuel))).
Qed.

Lemma fifth_eq : fifth = simulate receive_checked 5 (cluster true false).
Proof. exact (proj2_sig fifth_sig). Qed.

Lemma fifth_reach i : i ∈ [1; 2; 3; 4] -> reach (toy_node i true false) (seat true false fifth i).
Proof.
  intros Hi.
  refine (seat_keeps receive_checked reach _ true false 5 fifth i _ fifth_eq Hi).
  - intros core j s. apply receive_checked_reach.
  - intros j. apply hs_start.
Qed.

Lemma before_reach : reach (toy_node 1 true false) (before fifth).
Proof.
  unfold before. assert (forall l s, reach (toy_node 1 true false) s ->
    reach (toy_node 1 true false) (fold_left deliver l s)) as Hfold.
  { induction l as [|m l IH]; intros s Hs; simpl; [done|]. by apply IH, receive_checked_reach. }
  exact (Hfold _ _ (fifth_reach 1 (proj1 first_two))).
Qed.

(** What a seat gets in a round without mail on the agreement's channel. *)
Lemma receive_opt_mail l s :
  name s = key 1 -> committee s = toy_committee ->
  inbox (pes_mail l) (smvba_address toy_committee (key 1)) = [] ->
  receive_mail receive_checked (opt_mail l) (pes_mail l) s = fold_left deliver (last_inbox l) s.
Proof. intros Hn Hc Hp. unfold receive_mail. rewrite Hn, Hc, Hp. reflexivity. Qed.

Lemma member_last :
  member 1 = deliver (before fifth) (last_message fifth).
Proof.
  destruct last_parts as (Hne & Hnil & _). destruct first_two as [I1 _].
  destruct (hs_reach_inv _ _ _ _ toy_committee_wf _ _ (toy_fresh 1) (fifth_reach 1 I1))
    as [Hn [Hc _] _ _ _ _ _ _ _ _].
  change (seat true false checked_run 1 = deliver (before fifth) (last_message fifth)).
  rewrite checked_run_eq, simulate_last, <- fifth_eq.
  rewrite seat_round by (rewrite fifth_eq, simulate_length; exact (Nat.lt_0_succ 3)).
  rewrite (receive_opt_mail fifth _ Hn Hc Hnil). exact (fold_last deliver _ _ _ Hne).
Qed.

Definition last_event : Event := Deliver (OnCoreChannel (last_message fifth)).

Lemma member_last_event : member 1 = (node_event sim_fuel last_event (before fifth)).2.
Proof.
  destruct last_parts as (_ & _ & Htake & Hok & _). rewrite member_last.
  unfold deliver, receive_checked, receive. rewrite Hok, Htake. reflexivity.
Qed.

Lemma optimistic_events_return_witness :
  (Block.height <$> commit_channel (member 1)) = [1; 2] /\
  (node_event sim_fuel last_event (before fifth)).1 <> Cut.
Proof.
  destruct first_two as [I1 _]. destruct last_parts as (_ & _ & _ & Hok & Hfuel).
  split; [exact (member_heights 1 I1)|].
  refine (optimistic_events_return toy_committee 1 chain_nodes run_known (key 1)
    (toy_node 1 true false) (before fifth) sim_fuel last_event chain_system _ (toy_fresh 1)
    before_reach _ _ _ Hfuel).
  - intros b Hb.
    exact (proj1 (proj2 (proj2 (block_checks_spec _ b (block_check b (played_in_run b Hb)))))).
  - exact (input_okb_spec _ _ Hok).
  - rewrite <- member_last_event. exact (member_in 1 I1).
  - vm_compute. reflexivity.
Defined.
